(** * HighPerformanceTimer

    A shallow embedding of the two timer classes of the repository,

    - [PerformanceTimer98] (PerformanceTimer98/PerformanceTimer98.hpp), in its
      Windows branch ([Win98]) and its Linux/POSIX branch ([Posix98]), and
    - [PerformanceTimer11] (PerformanceTimer11/PerformanceTimer11.hpp)
      ([Timer11]),

    together with the properties of their seven-method interface.

    Conventions of the embedding:
    - a C++ [double] is an IEEE 754 binary64 value, modelled by the Standard
      Library's executable specification [spec_float] at precision 53 and
      maximal exponent 1024 (round to nearest, ties to even); every
      arithmetic operator of the source is one correctly rounded operation
      (no excess precision, no contraction);
    - a 64-bit signed integer ([LONGLONG], [time_t], [suseconds_t], the
      representation of [Clock::duration]) is a [Z], subtraction wraps
      around modulo 2^64;
    - a clock read ([QueryPerformanceCounter], [gettimeofday],
      [Clock::now]) is an argument of the operation that performs it;
    - [assert] is active in a [Debug] build and compiled out in a
      [Release] build (NDEBUG); a failed assertion ends the program. *)

From Stdlib Require Import ZArith Bool List Lia.
From Stdlib Require Import SpecFloat.
Import ListNotations.
Local Open Scope Z_scope.

(** ** 64-bit signed integers *)

Module Int64.

Definition min_signed : Z := - 2 ^ 63.
Definition max_signed : Z := 2 ^ 63 - 1.

Definition in_range (z : Z) : Prop := min_signed <= z <= max_signed.

(** Two's complement wrap-around of a mathematical integer. *)
Definition wrap (z : Z) : Z := (z + 2 ^ 63) mod 2 ^ 64 - 2 ^ 63.

Definition sub (a b : Z) : Z := wrap (a - b).
Definition add (a b : Z) : Z := wrap (a + b).

End Int64.

(** ** IEEE 754 binary64 *)

Module Double.

Definition prec : Z := 53.
Definition emax : Z := 1024.

Definition double : Type := spec_float.

(** Conversion of an integer to [double] (round to nearest even). *)
Definition of_Z (z : Z) : double := binary_normalize prec emax z 0 false.

Definition add : double -> double -> double := SFadd prec emax.
Definition sub : double -> double -> double := SFsub prec emax.
Definition mul : double -> double -> double := SFmul prec emax.
Definition div : double -> double -> double := SFdiv prec emax.

(** The comparison operators of C++ on [double]: all of them are false
    as soon as one operand is a NaN. *)
Definition eqb (x y : double) : bool := SFeqb x y.
Definition ltb (x y : double) : bool := SFltb x y.
Definition leb (x y : double) : bool := SFleb x y.
Definition geb (x y : double) : bool := SFleb y x.

Definition valid (x : double) : bool := valid_binary prec emax x.

Definition is_nan (x : double) : bool :=
  match x with S754_nan => true | _ => false end.

Definition is_finite (x : double) : bool :=
  match x with S754_finite _ _ _ | S754_zero _ => true | _ => false end.

Definition zero : double := S754_zero false.

Definition abs : double -> double := SFabs.

(** [fabs(x - y) < eps], the usual test of equality within a
    tolerance. *)
Definition within (eps x y : double) : bool := ltb (abs (sub x y)) eps.

(** Sign classes.  [pos x] is [0 < x], [neg x] is [x < 0], [nonneg x]
    is [0 <= x] and [nonpos x] is [x <= 0]; all are false on a NaN. *)
Definition pos (x : double) : bool :=
  match x with
  | S754_finite false _ _ | S754_infinity false => true
  | _ => false
  end.

Definition neg (x : double) : bool :=
  match x with
  | S754_finite true _ _ | S754_infinity true => true
  | _ => false
  end.

Definition nonneg (x : double) : bool :=
  match x with
  | S754_zero _ | S754_finite false _ _ | S754_infinity false => true
  | _ => false
  end.

Definition nonpos (x : double) : bool :=
  match x with
  | S754_zero _ | S754_finite true _ _ | S754_infinity true => true
  | _ => false
  end.

(** The magnitude of [m * 2^e]: [2^(mag - 1) <= m * 2^e < 2^mag]. *)
Definition mag (m : positive) (e : Z) : Z := Zpos (digits2_pos m) + e.

(** The exact value of a [double] in units of [2^-1074], the least
    positive [double]; the infinities lie beyond every finite value
    (a finite [double] is below [2^1024], that is [2^2098] units).  On
    the numbers that are not NaN, [rank] is the order of the real
    line. *)
Definition rank (x : double) : Z :=
  match x with
  | S754_zero _ => 0
  | S754_finite s m e => cond_Zopp s (Zpos m * 2 ^ (e + 1074))
  | S754_infinity s => cond_Zopp s (2 ^ 2100)
  | S754_nan => 0
  end.

(** [x] is [y] up to a relative error of [2^-50], about four units in
    the last place: equality within floating-point tolerance. *)
Definition close (x y : double) : Prop :=
  is_nan x = false /\ is_nan y = false /\
  2 ^ 50 * Z.abs (rank x - rank y) <= Z.abs (rank y).

End Double.

Import Double.

(** ** Build modes and assertions *)

Inductive build : Type := Debug | Release.

Inductive outcome (A : Type) : Type :=
| Done (a : A)
| AssertionFailed.

Arguments Done {A} a.
Arguments AssertionFailed {A}.

Definition bind {A B : Type} (o : outcome A) (k : A -> outcome B) : outcome B :=
  match o with
  | Done a => k a
  | AssertionFailed => AssertionFailed
  end.

(** [assert(c)]: nothing in a release build, a check in a debug build. *)
Definition assert (b : build) (c : bool) : outcome unit :=
  match b with
  | Release => Done tt
  | Debug => if c then Done tt else AssertionFailed
  end.

(** ** The Windows branch of PerformanceTimer98 *)

Module Win98.

Record timer : Type := mkTimer {
  m_perSecond : Z;
  m_startTime : Z;
  m_stopTime : Z;
  m_perMillisecond : double;
  m_interval : double;
  m_valid : bool
}.

(** What [QueryPerformanceFrequency(&m_perSecond)] leaves behind: its
    return value and the content of [m_perSecond] after the call. *)
Record frequency_query : Type := mkQuery {
  qpf_ok : bool;
  qpf_value : Z
}.

Definition PerformanceTimer98 (q : frequency_query) : timer :=
  {| m_perSecond := qpf_value q;
     m_startTime := 0;
     m_stopTime := 0;
     m_perMillisecond := div (of_Z (qpf_value q)) (of_Z 1000);
     m_interval := div (of_Z (qpf_value q)) (of_Z 60);
     m_valid := qpf_ok q |}.

(** A successful [QueryPerformanceFrequency]: it returns nonzero and
    writes a positive frequency. *)
Definition query_succeeded (q : frequency_query) : Prop :=
  qpf_ok q = true /\ 0 < qpf_value q <= Int64.max_signed.

(** The calibration data of a timer constructed on a supported
    platform; no method changes them. *)
Definition calibrated (t : timer) : Prop :=
  m_valid t = true /\
  0 < m_perSecond t <= Int64.max_signed /\
  m_perMillisecond t = div (of_Z (m_perSecond t)) (of_Z 1000).

Definition IsSupportedPlatform (t : timer) : bool := m_valid t.

Definition GetInterval (t : timer) : double :=
  div (m_interval t) (of_Z (m_perSecond t)).

Definition set_interval (t : timer) (i : double) : timer :=
  {| m_perSecond := m_perSecond t;
     m_startTime := m_startTime t;
     m_stopTime := m_stopTime t;
     m_perMillisecond := m_perMillisecond t;
     m_interval := i;
     m_valid := m_valid t |}.

Definition set_start (t : timer) (now : Z) : timer :=
  {| m_perSecond := m_perSecond t;
     m_startTime := now;
     m_stopTime := m_stopTime t;
     m_perMillisecond := m_perMillisecond t;
     m_interval := m_interval t;
     m_valid := m_valid t |}.

Definition set_stop (t : timer) (now : Z) : timer :=
  {| m_perSecond := m_perSecond t;
     m_startTime := m_startTime t;
     m_stopTime := now;
     m_perMillisecond := m_perMillisecond t;
     m_interval := m_interval t;
     m_valid := m_valid t |}.

Definition SetInterval (b : build) (ticksPerSecond : double) (t : timer)
  : outcome timer :=
  if eqb ticksPerSecond (of_Z 0) then
    bind (assert b false) (fun _ => Done t)
  else
    Done (set_interval t (div (of_Z (m_perSecond t)) ticksPerSecond)).

(** [now] is the value written by [QueryPerformanceCounter]. *)
Definition Start (b : build) (now : Z) (t : timer) : outcome timer :=
  bind (assert b (IsSupportedPlatform t)) (fun _ =>
    let t1 := set_start t now in
    Done (set_stop t1 (m_startTime t1))).

Definition Stop (b : build) (now : Z) (t : timer) : outcome timer :=
  let t1 := set_stop t now in
  bind (assert b (IsSupportedPlatform t1)) (fun _ => Done t1).

Definition GetElapsed (t : timer) : double :=
  div (of_Z (Int64.sub (m_stopTime t) (m_startTime t))) (m_perMillisecond t).

Definition GetRemaining (t : timer) : double :=
  div (sub (add (m_interval t) (of_Z (m_startTime t))) (of_Z (m_stopTime t)))
      (m_perMillisecond t).

Definition IntervalHasElapsed (t : timer) : bool :=
  geb (of_Z (Int64.sub (m_stopTime t) (m_startTime t))) (m_interval t).

End Win98.

(** ** The Linux/POSIX branch of PerformanceTimer98 *)

Module Posix98.

Record timeval : Type := mkTimeval {
  tv_sec : Z;
  tv_usec : Z
}.

(** The [timersub] macro of <sys/time.h>: the difference of two
    [timeval]s, with a borrow from the seconds when the microseconds
    go negative. *)
Definition timersub (a b : timeval) : timeval :=
  let sec := Int64.sub (tv_sec a) (tv_sec b) in
  let usec := Int64.sub (tv_usec a) (tv_usec b) in
  if usec <? 0 then
    {| tv_sec := Int64.sub sec 1; tv_usec := Int64.add usec 1000000 |}
  else
    {| tv_sec := sec; tv_usec := usec |}.

(** What [gettimeofday] writes: seconds since the epoch and
    microseconds below one second. *)
Definition well_formed (tv : timeval) : Prop :=
  0 <= tv_sec tv <= Int64.max_signed /\ 0 <= tv_usec tv < 1000000.

(** The order of two instants. *)
Definition tv_le (a b : timeval) : Prop :=
  tv_sec a < tv_sec b \/ (tv_sec a = tv_sec b /\ tv_usec a <= tv_usec b).

Record timer : Type := mkTimer {
  m_startTime : timeval;
  m_stopTime : timeval;
  m_interval : double
}.

Definition PerformanceTimer98 : timer :=
  {| m_startTime := {| tv_sec := 0; tv_usec := 0 |};
     m_stopTime := {| tv_sec := 0; tv_usec := 0 |};
     m_interval := div (of_Z 1) (of_Z 60) |}.

Definition IsSupportedPlatform (t : timer) : bool := true.

Definition GetInterval (t : timer) : double := m_interval t.

Definition SetInterval (b : build) (ticksPerSecond : double) (t : timer)
  : outcome timer :=
  if eqb ticksPerSecond (of_Z 0) then
    bind (assert b false) (fun _ => Done t)
  else
    Done {| m_startTime := m_startTime t;
            m_stopTime := m_stopTime t;
            m_interval := div (of_Z 1) ticksPerSecond |}.

(** [now] is the value written by [gettimeofday]. *)
Definition Start (now : timeval) (t : timer) : timer :=
  let t1 := {| m_startTime := now;
               m_stopTime := m_stopTime t;
               m_interval := m_interval t |} in
  {| m_startTime := m_startTime t1;
     m_stopTime := m_startTime t1;
     m_interval := m_interval t1 |}.

Definition Stop (now : timeval) (t : timer) : timer :=
  {| m_startTime := m_startTime t;
     m_stopTime := now;
     m_interval := m_interval t |}.

Definition GetElapsed (t : timer) : double :=
  let diff := timersub (m_stopTime t) (m_startTime t) in
  add (mul (of_Z (tv_sec diff)) (of_Z 1000))
      (div (of_Z (tv_usec diff)) (of_Z 1000)).

Definition GetRemaining (t : timer) : double :=
  sub (mul (m_interval t) (of_Z 1000)) (GetElapsed t).

Definition IntervalHasElapsed (t : timer) : bool :=
  let diff := timersub (m_stopTime t) (m_startTime t) in
  geb (add (of_Z (tv_sec diff)) (div (of_Z (tv_usec diff)) (of_Z 1000000)))
      (m_interval t).

End Posix98.

(** ** The part of <chrono> used by PerformanceTimer11

    A [duration<double, Period>] is its [count()], a [double]; the period
    is a compile-time [ratio] and appears only in the conversions.  The
    conversion between periods is [duration_cast] as the C++ standard
    specifies it ([time.duration.cast]), with the conversion factor
    [CF = ratio_divide<FromPeriod, ToPeriod>] and [double] as the
    intermediate type. *)

Module Chrono.

Record ratio : Type := mkRatio { num : Z; den : Z }.

Definition reduce (n d : Z) : ratio :=
  let g := Z.gcd n d in
  {| num := Z.sgn d * (n / g); den := Z.abs d / g |}.

Definition ratio_divide (r1 r2 : ratio) : ratio :=
  reduce (num r1 * den r2) (den r1 * num r2).

(** The period of [common_type<duration<_, r1>, duration<_, r2>>]. *)
Definition common_period (r1 r2 : ratio) : ratio :=
  {| num := Z.gcd (num r1) (num r2); den := Z.lcm (den r1) (den r2) |}.

Definition unit_ratio : ratio := {| num := 1; den := 1 |}.
Definition milli : ratio := {| num := 1; den := 1000 |}.
Definition nano : ratio := {| num := 1; den := 1000000000 |}.

Definition cast (cf : ratio) (count : double) : double :=
  if (num cf =? 1) && (den cf =? 1) then count
  else if den cf =? 1 then mul count (of_Z (num cf))
  else if num cf =? 1 then div count (of_Z (den cf))
  else div (mul count (of_Z (num cf))) (of_Z (den cf)).

Definition duration_cast (from to : ratio) (count : double) : double :=
  cast (ratio_divide from to) count.

End Chrono.

(** ** PerformanceTimer11 *)

Module Timer11.

(** [Clock] is [high_resolution_clock] or [steady_clock]; in the common
    implementations of the standard library both tick in nanoseconds
    held in a 64-bit signed integer. *)
Definition Clock_period : Chrono.ratio := Chrono.nano.
Definition Seconds_period : Chrono.ratio := Chrono.unit_ratio.
Definition Milliseconds_period : Chrono.ratio := Chrono.milli.

(** A [Clock::time_point] is the tick count of its [time_since_epoch()];
    [m_interval] is the [count()] of a [Seconds]. *)
Record timer : Type := mkTimer {
  m_startTime : Z;
  m_stopTime : Z;
  m_interval : double
}.

Definition PerformanceTimer11 : timer :=
  {| m_startTime := 0;
     m_stopTime := 0;
     m_interval := div (of_Z 1) (of_Z 60) |}.

Definition IsSupportedPlatform (t : timer) : bool := true.

Definition GetInterval (t : timer) : double := m_interval t.

Definition SetInterval (b : build) (ticksPerSecond : double) (t : timer)
  : outcome timer :=
  if eqb ticksPerSecond (of_Z 0) then
    bind (assert b false) (fun _ => Done t)
  else
    Done {| m_startTime := m_startTime t;
            m_stopTime := m_stopTime t;
            m_interval := div (of_Z 1) ticksPerSecond |}.

(** [now] is the value of [Clock::now()]. *)
Definition Start (now : Z) (t : timer) : timer :=
  let t1 := {| m_startTime := now;
               m_stopTime := m_stopTime t;
               m_interval := m_interval t |} in
  {| m_startTime := m_startTime t1;
     m_stopTime := m_startTime t1;
     m_interval := m_interval t1 |}.

Definition Stop (now : Z) (t : timer) : timer :=
  {| m_startTime := m_startTime t;
     m_stopTime := now;
     m_interval := m_interval t |}.

(** [Milliseconds(m_stopTime - m_startTime)] *)
Definition elapsed_Milliseconds (t : timer) : double :=
  Chrono.duration_cast Clock_period Milliseconds_period
    (of_Z (Int64.sub (m_stopTime t) (m_startTime t))).

Definition GetElapsed (t : timer) : double := elapsed_Milliseconds t.

(** [operator-] converts both operands to the common type of [Seconds]
    and [Milliseconds] and subtracts the counts. *)
Definition GetRemaining (t : timer) : double :=
  let cp := Chrono.common_period Seconds_period Milliseconds_period in
  sub (Chrono.duration_cast Seconds_period cp (m_interval t))
      (Chrono.duration_cast Milliseconds_period cp (elapsed_Milliseconds t)).

(** [operator>=] on durations is [!(lhs < rhs)], and [operator<]
    compares the counts in the common type of [Clock::duration] and
    [Seconds]. *)
Definition IntervalHasElapsed (t : timer) : bool :=
  let cp := Chrono.common_period Clock_period Seconds_period in
  negb (ltb (Chrono.duration_cast Clock_period cp
               (of_Z (Int64.sub (m_stopTime t) (m_startTime t))))
            (Chrono.duration_cast Seconds_period cp (m_interval t))).

End Timer11.

(** ** Sequences of calls

    The three queries and [IsSupportedPlatform] are [const]; a state is
    reached by the constructor followed by calls of [SetInterval], [Start]
    and [Stop], each clock read returning the instant carried by the
    call. *)

Inductive call (instant : Type) : Type :=
| CallSetInterval (ticksPerSecond : double)
| CallStart (now : instant)
| CallStop (now : instant).

Arguments CallSetInterval {instant} ticksPerSecond.
Arguments CallStart {instant} now.
Arguments CallStop {instant} now.

Section Run.

Context {instant timer : Type}.
Variable step : call instant -> timer -> outcome timer.

Fixpoint run (cs : list (call instant)) (t : timer) : outcome timer :=
  match cs with
  | [] => Done t
  | c :: cs' => bind (step c t) (run cs')
  end.

End Run.

Definition win98_step (b : build) (c : call Z) (t : Win98.timer)
  : outcome Win98.timer :=
  match c with
  | CallSetInterval r => Win98.SetInterval b r t
  | CallStart now => Win98.Start b now t
  | CallStop now => Win98.Stop b now t
  end.

Definition posix98_step (b : build) (c : call Posix98.timeval)
  (t : Posix98.timer) : outcome Posix98.timer :=
  match c with
  | CallSetInterval r => Posix98.SetInterval b r t
  | CallStart now => Done (Posix98.Start now t)
  | CallStop now => Done (Posix98.Stop now t)
  end.

Definition timer11_step (b : build) (c : call Z) (t : Timer11.timer)
  : outcome Timer11.timer :=
  match c with
  | CallSetInterval r => Timer11.SetInterval b r t
  | CallStart now => Done (Timer11.Start now t)
  | CallStop now => Done (Timer11.Stop now t)
  end.

(** ** The timer of the specification

    The data model and the operations as the specification words them: a
    start instant, a stop instant and an interval of [1 / ticksPerSecond]
    seconds, by default 1/60 s.  The instants are opaque: [A] is the type
    of the readings of whatever clock there is, and an instant that no
    call has set yet is [None].  The state keeps the rate rather than
    its inverse, since the Windows branch derives its interval in ticks
    from the rate. *)

Module IntervalTimer.

Section Spec.

Variable A : Type.

Record timer : Type := mkTimer {
  rate : double;
  startInstant : option A;
  stopInstant : option A
}.

Definition init : timer :=
  {| rate := of_Z 60; startInstant := None; stopInstant := None |}.

Definition interval (t : timer) : double := div (of_Z 1) (rate t).

Definition step (b : build) (c : call A) (t : timer) : outcome timer :=
  match c with
  | CallSetInterval r =>
      if eqb r (of_Z 0) then bind (assert b false) (fun _ => Done t)
      else Done {| rate := r;
                   startInstant := startInstant t;
                   stopInstant := stopInstant t |}
  | CallStart now =>
      Done {| rate := rate t;
              startInstant := Some now;
              stopInstant := Some now |}
  | CallStop now =>
      Done {| rate := rate t;
              startInstant := startInstant t;
              stopInstant := Some now |}
  end.

End Spec.

Arguments rate {A} t.
Arguments startInstant {A} t.
Arguments stopInstant {A} t.
Arguments init {A}.
Arguments interval {A} t.
Arguments step {A} b c t.

End IntervalTimer.

(** ** The three variants as representations of the specified timer

    A common abstraction of the clock reads: every variant reads its own
    clock at the abstract instant [a : A]. *)

Definition map_call {A I : Type} (read : A -> I) (c : call A) : call I :=
  match c with
  | CallSetInterval r => CallSetInterval r
  | CallStart a => CallStart (read a)
  | CallStop a => CallStop (read a)
  end.

Definition outcome_map {T U : Type} (f : T -> U) (o : outcome T) : outcome U :=
  match o with
  | Done t => Done (f t)
  | AssertionFailed => AssertionFailed
  end.

Definition instant_of {A I : Type} (epoch : I) (read : A -> I) (a : option A) : I :=
  match a with
  | Some x => read x
  | None => epoch
  end.

Definition repr_win98 {A : Type} (q : Win98.frequency_query) (read : A -> Z)
  (s : IntervalTimer.timer A) : Win98.timer :=
  {| Win98.m_perSecond := Win98.qpf_value q;
     Win98.m_startTime := instant_of 0 read (IntervalTimer.startInstant s);
     Win98.m_stopTime := instant_of 0 read (IntervalTimer.stopInstant s);
     Win98.m_perMillisecond := div (of_Z (Win98.qpf_value q)) (of_Z 1000);
     Win98.m_interval := div (of_Z (Win98.qpf_value q)) (IntervalTimer.rate s);
     Win98.m_valid := Win98.qpf_ok q |}.

Definition repr_posix98 {A : Type} (read : A -> Posix98.timeval)
  (s : IntervalTimer.timer A) : Posix98.timer :=
  {| Posix98.m_startTime :=
       instant_of (Posix98.mkTimeval 0 0) read (IntervalTimer.startInstant s);
     Posix98.m_stopTime :=
       instant_of (Posix98.mkTimeval 0 0) read (IntervalTimer.stopInstant s);
     Posix98.m_interval := IntervalTimer.interval s |}.

Definition repr_timer11 {A : Type} (read : A -> Z)
  (s : IntervalTimer.timer A) : Timer11.timer :=
  {| Timer11.m_startTime := instant_of 0 read (IntervalTimer.startInstant s);
     Timer11.m_stopTime := instant_of 0 read (IntervalTimer.stopInstant s);
     Timer11.m_interval := IntervalTimer.interval s |}.

(** Clocks that read a time given in microseconds: [gettimeofday], a
    nanosecond [Clock] and a performance counter of frequency [f]. *)
Definition posix98_clock (us : Z) : Posix98.timeval :=
  {| Posix98.tv_sec := us / 1000000; Posix98.tv_usec := us mod 1000000 |}.

Definition timer11_clock (us : Z) : Z := 1000 * us.

Definition win98_clock (f : Z) (us : Z) : Z := f * us / 1000000.

(** Two rates used in the examples: the [double]s nearest to 10^6/9
    and to 10^6/13, that is intervals of about 9 and 13 microseconds. *)
Definition rate_9us : double := S754_finite false 7635497415111111 (-36).
Definition rate_13us : double := S754_finite false 5286113595076923 (-36).

Definition win98_reachable (b : build) (q : Win98.frequency_query)
  (t : Win98.timer) : Prop :=
  exists cs, run (win98_step b) cs (Win98.PerformanceTimer98 q) = Done t.

Definition posix98_reachable (b : build) (t : Posix98.timer) : Prop :=
  exists cs, run (posix98_step b) cs Posix98.PerformanceTimer98 = Done t.

Definition timer11_reachable (b : build) (t : Timer11.timer) : Prop :=
  exists cs, run (timer11_step b) cs Timer11.PerformanceTimer11 = Done t.

(** ** Rounding to nearest, as a function of the exact value

    [position n d] locates the rational [n / d] between two integers:
    it is twice the integer part of [2n / d], plus one when [2n / d] is
    not an integer.  The two low bits of a position are the round bit
    and the sticky bit of the rounding functions of [SpecFloat];
    [code r] is the position that a shift record [r] stands for, and
    [nearest c] rounds a position to the nearest integer, ties to
    even. *)

Definition position (n d : Z) : Z :=
  2 * (2 * n / d) + (if (2 * n) mod d =? 0 then 0 else 1).

Definition halve (c : Z) : Z :=
  2 * (c / 4) + (if c mod 4 =? 0 then 0 else 1).

Definition nearest (c : Z) : Z :=
  if c mod 4 <? 2 then c / 4
  else if c mod 4 =? 2 then (if Z.even (c / 4) then c / 4 else c / 4 + 1)
  else c / 4 + 1.

Definition code (r : shr_record) : Z :=
  4 * shr_m r + (if shr_r r then 2 else 0) + (if shr_s r then 1 else 0).

(** [rounds_to x V]: the number [x], which is not negative, is worth [V]
    units of [2^-1074], or is the infinity that stands for a [V] beyond
    the largest finite number. *)
Definition rounds_to (x : double) (V : Z) : Prop :=
  match x with
  | S754_zero _ => V = 0
  | S754_finite false m e => Zpos m * 2 ^ (e + 1074) = V /\ V < 2 ^ 2098
  | S754_infinity false => 2 ^ 2098 <= V
  | _ => False
  end.

(** [rounded x P Q g]: [x] is the exact value [P / Q * 2^g] rounded to
    nearest, ties to even.  The mantissa is rounded at the exponent [E]
    of the format, where the exact value is [n / D] with
    [n = P * 2^s] and [D = Q * 2^k]. *)
Definition rounded (x : double) (P Q g : Z) : Prop :=
  exists s k E, 0 <= s /\ 0 <= k /\ -1074 <= E /\ s - k + E = g /\
    (P * 2 ^ s) / (Q * 2 ^ k) < 2 ^ 53 /\
    (-1074 < E -> 2 ^ 52 <= (P * 2 ^ s) / (Q * 2 ^ k)) /\
    rounds_to x (nearest (position (P * 2 ^ s) (Q * 2 ^ k)) * 2 ^ (E + 1074)).

(** [rounds x R]: [x] is the value of [R] units of [2^-1074] rounded to
    nearest. *)
Definition rounds (x : double) (R : Z) : Prop :=
  exists P g, 0 <= P /\ -1074 <= g /\ rounded x P 1 g /\ P * 2 ^ (g + 1074) = R.

(** [rounds_signed x R]: [x] is the value of [R] units of [2^-1074], of
    either sign, rounded to nearest. *)
Definition rounds_signed (x : double) (R : Z) : Prop :=
  if 0 <=? R then rounds x R else rounds (SFopp x) (- R).

(** [A] and [B], not negative, differ by a factor of at most [p / q]. *)
Definition near (p q A B : Z) : Prop := q * A <= p * B /\ q * B <= p * A.

(** [x] is the number [N / D] up to a relative error of [2^-50]. *)
Definition approximates (x : double) (N D : Z) : Prop :=
  is_finite x = true /\
  2 ^ 50 * Z.abs (D * rank x - N * 2 ^ 1074) <= N * 2 ^ 1074.

(** ** Calls that end a debug build

    [zero_rate c]: the call is [SetInterval(r)] with [r == 0];
    [reads_clock c]: the call is [Start()] or [Stop()]. *)

Definition zero_rate {I : Type} (c : call I) : bool :=
  match c with
  | CallSetInterval r => eqb r (of_Z 0)
  | CallStart _ | CallStop _ => false
  end.

Definition reads_clock {I : Type} (c : call I) : bool :=
  match c with
  | CallSetInterval _ => false
  | CallStart _ | CallStop _ => true
  end.

(** The instant of a [timeval] in microseconds. *)
Definition microseconds (tv : Posix98.timeval) : Z :=
  Posix98.tv_sec tv * 1000000 + Posix98.tv_usec tv.

(** ** The game loop of the README

    The three classes offer one interface; the loops of the README are
    written against it.  [Start] and [Stop] take the build and the
    reading of the clock. *)

Class Timer (T I : Type) : Type := {
  timer_Start : build -> I -> T -> outcome T;
  timer_Stop : build -> I -> T -> outcome T;
  timer_IntervalHasElapsed : T -> bool;
  timer_GetRemaining : T -> double
}.

#[export] Instance Win98_Timer : Timer Win98.timer Z := {|
  timer_Start := Win98.Start;
  timer_Stop := Win98.Stop;
  timer_IntervalHasElapsed := Win98.IntervalHasElapsed;
  timer_GetRemaining := Win98.GetRemaining
|}.

#[export] Instance Posix98_Timer : Timer Posix98.timer Posix98.timeval := {|
  timer_Start := fun _ now t => Done (Posix98.Start now t);
  timer_Stop := fun _ now t => Done (Posix98.Stop now t);
  timer_IntervalHasElapsed := Posix98.IntervalHasElapsed;
  timer_GetRemaining := Posix98.GetRemaining
|}.

#[export] Instance Timer11_Timer : Timer Timer11.timer Z := {|
  timer_Start := fun _ now t => Done (Timer11.Start now t);
  timer_Stop := fun _ now t => Done (Timer11.Stop now t);
  timer_IntervalHasElapsed := Timer11.IntervalHasElapsed;
  timer_GetRemaining := Timer11.GetRemaining
|}.

Section GameLoop.

Context {T I : Type} {TI : Timer T I}.
Variable b : build.

(** The wait of the game loop,
    [for (timer.Stop(); !timer.IntervalHasElapsed(); timer.Stop())
       if (timer.GetRemaining() > 1) std::this_thread::yield();]
    [clock] holds the readings of the clock to come, one for each
    [Stop()].  The result is the timer at the end of the loop with the
    readings left and the number of yields, or [None] when the loop is
    still running after the last reading. *)
Fixpoint wait (clock : list I) (yields : nat) (t : T)
  : outcome (option (T * list I * nat)) :=
  match clock with
  | [] => Done None
  | now :: clock' =>
      bind (timer_Stop b now t) (fun t1 =>
        if timer_IntervalHasElapsed t1 then Done (Some (t1, clock', yields))
        else wait clock'
               (if ltb (of_Z 1) (timer_GetRemaining t1) then S yields else yields)
               t1)
  end.

(** One turn of [while (true)]: the game update, which does not touch
    the timer, the wait and [timer.Start()]. *)
Definition frame (clock : list I) (t : T) : outcome (option (T * list I * nat)) :=
  bind (wait clock 0 t) (fun r =>
    match r with
    | Some (t1, now :: clock', yields) =>
        bind (timer_Start b now t1) (fun t2 => Done (Some (t2, clock', yields)))
    | _ => Done None
    end).

End GameLoop.

(** What the wait promises: it leaves at the first reading of the clock
    at which the interval has elapsed, with the timer stopped at that
    reading; [elapsed_at now] is [IntervalHasElapsed()] after a
    [Stop()] that reads [now]. *)
Definition leaves_at_first_elapsed {T I : Type}
  (elapsed_at : I -> bool) (stopped_at : I -> T) (clock : list I)
  (r : outcome (option (T * list I * nat))) : Prop :=
  match r with
  | AssertionFailed => False
  | Done None => Forall (fun now => elapsed_at now = false) clock
  | Done (Some (t1, rest, yields)) =>
      exists pre now,
        clock = pre ++ now :: rest /\
        Forall (fun r => elapsed_at r = false) pre /\
        elapsed_at now = true /\
        t1 = stopped_at now /\
        (yields <= length pre)%nat
  end.

(** Readings of a clock that does not run backwards, from [lo] on. *)
Fixpoint ascending {I : Type} (le : I -> I -> Prop) (lo : I) (l : list I) : Prop :=
  match l with
  | [] => True
  | x :: l' => le lo x /\ ascending le x l'
  end.

(** ** The same time on the three clocks

    [same_elapsed f w p c us]: the three timers have measured the same
    time, [us] microseconds, each on its own clock: the instants of [p]
    were written by [gettimeofday] and lie [us] microseconds apart,
    those of [c] lie [1000 * us] nanoseconds apart and those of [w] the
    corresponding number of ticks at the frequency [f]; no difference
    overflows. *)
Definition same_elapsed (f : Z) (w : Win98.timer) (p : Posix98.timer)
  (c : Timer11.timer) (us : Z) : Prop :=
  Posix98.well_formed (Posix98.m_startTime p) /\
  Posix98.well_formed (Posix98.m_stopTime p) /\
  Posix98.tv_le (Posix98.m_startTime p) (Posix98.m_stopTime p) /\
  microseconds (Posix98.m_stopTime p) - microseconds (Posix98.m_startTime p) = us /\
  Timer11.m_stopTime c - Timer11.m_startTime c = 1000 * us /\
  1000 * us <= Int64.max_signed /\
  (Win98.m_stopTime w - Win98.m_startTime w) * 1000000 = f * us /\
  Win98.m_stopTime w - Win98.m_startTime w <= Int64.max_signed.

(** [x] is the number [N / D] up to an absolute error of
    [2^-48 * B / D]. *)
Definition approximates_within (x : double) (N D B : Z) : Prop :=
  is_finite x = true /\
  2 ^ 48 * Z.abs (D * rank x - N * 2 ^ 1074) <= B * 2 ^ 1074.

(** * Facts about binary64 arithmetic

    The rounding function [binary_round_aux] shifts the mantissa right
    until it has at most 53 digits, rounds, and shifts once more if the
    rounding carried.  The lemmas below follow the sign, the magnitude
    and the exact value of a number through it. *)

(** ** Shifts and digits *)

Lemma iter_pos_iter {A} (f : A -> A) p : forall x, iter_pos f p x = Pos.iter f x p.
Proof.
  induction p as [p IH|p IH|]; intros x; simpl.
  - rewrite !IH. rewrite <- !Pos.iter_swap. reflexivity.
  - rewrite !IH. reflexivity.
  - reflexivity.
Qed.

Lemma shr_1_m r : 0 <= shr_m r -> shr_m (shr_1 r) = Z.div2 (shr_m r).
Proof.
  destruct r as [m rb sb]. simpl. intros H.
  destruct m as [|[p|p|]|p]; simpl; try reflexivity; lia.
Qed.

Lemma shr_iter_m p : forall r, 0 <= shr_m r ->
  shr_m (iter_pos shr_1 p r) = Z.shiftr (shr_m r) (Zpos p).
Proof.
  intros r Hr. rewrite iter_pos_iter.
  change (Z.shiftr (shr_m r) (Zpos p)) with (Pos.iter Z.div2 (shr_m r) p).
  revert r Hr. induction p using Pos.peano_ind; intros r Hr.
  - simpl. apply shr_1_m; assumption.
  - rewrite !Pos.iter_succ. rewrite shr_1_m.
    + f_equal. apply IHp; assumption.
    + rewrite IHp by assumption.
      change (Pos.iter Z.div2 (shr_m r) p) with (Z.shiftr (shr_m r) (Zpos p)).
      apply Z.shiftr_nonneg. assumption.
Qed.

Lemma shr_record_of_loc_m m l : shr_m (shr_record_of_loc m l) = m.
Proof. destruct l as [|[]]; reflexivity. Qed.

Lemma shr_spec r e n : 0 <= shr_m r ->
  shr_m (fst (shr r e n)) = Z.shiftr (shr_m r) (Z.max n 0) /\
  snd (shr r e n) = e + Z.max n 0.
Proof.
  intros Hr. destruct n as [|p|p]; simpl.
  - split; [reflexivity | lia].
  - split; [apply shr_iter_m; assumption | lia].
  - split; [reflexivity | lia].
Qed.

Lemma digits2_pos_size p : digits2_pos p = Pos.size p.
Proof. induction p; simpl; congruence. Qed.

Lemma Zdigits2_log2 m : 0 < m -> Zdigits2 m = Z.log2 m + 1.
Proof.
  destruct m as [|p|p]; try lia. intros _. simpl.
  rewrite digits2_pos_size. destruct p; simpl; lia.
Qed.

Lemma fexp_eq e : fexp prec emax e = Z.max (e - 53) (-1074).
Proof. reflexivity. Qed.

Lemma shr_fexp_spec m e l : 0 <= m ->
  let k := Z.max (fexp prec emax (Zdigits2 m + e) - e) 0 in
  shr_m (fst (shr_fexp prec emax m e l)) = Z.shiftr m k /\
  snd (shr_fexp prec emax m e l) = e + k.
Proof.
  intros Hm k. unfold shr_fexp.
  pose proof (shr_spec (shr_record_of_loc m l) e
                (fexp prec emax (Zdigits2 m + e) - e)) as H.
  rewrite shr_record_of_loc_m in H. apply H. assumption.
Qed.

Lemma round_nearest_even_cases m l :
  round_nearest_even m l = m \/ round_nearest_even m l = m + 1.
Proof.
  destruct l as [|[]]; simpl; auto. destruct (Z.even m); auto.
Qed.

Lemma shiftr_pos_digits m k : 0 < m -> 0 <= k -> k <= Z.log2 m ->
  0 < Z.shiftr m k /\ Zdigits2 (Z.shiftr m k) = Zdigits2 m - k.
Proof.
  intros Hm Hk Hlog.
  assert (Hnz : Z.shiftr m k <> 0).
  { intros H0. apply Z.shiftr_eq_0_iff in H0; lia. }
  assert (Hnn : 0 <= Z.shiftr m k) by (apply Z.shiftr_nonneg; lia).
  split; [lia|].
  rewrite !Zdigits2_log2 by lia.
  rewrite Z.log2_shiftr by lia. lia.
Qed.

Lemma Zdigits2_succ m : 0 < m ->
  Zdigits2 m <= Zdigits2 (m + 1) <= Zdigits2 m + 1.
Proof.
  intros Hm. rewrite !Zdigits2_log2 by lia.
  pose proof (Z.log2_succ_le m). pose proof (Z.log2_le_mono m (m + 1)).
  unfold Z.succ in *. lia.
Qed.

(** ** The sign and the magnitude of a rounded number *)

Lemma binary_round_aux_pos s m e l :
  0 < m -> -1074 < Zdigits2 m + e ->
  (binary_round_aux prec emax s m e l = S754_infinity s /\
   972 <= Zdigits2 m + e) \/
  exists m2 e2,
    binary_round_aux prec emax s m e l = S754_finite s m2 e2 /\
    Zpos (digits2_pos m2) <= 53 /\ -1074 <= e2 <= 971 /\
    Zdigits2 m + e <= Zpos (digits2_pos m2) + e2 <= Zdigits2 m + e + 1.
Proof.
  intros Hm Hmag. unfold binary_round_aux.
  pose proof (shr_fexp_spec m e l ltac:(lia)) as [Hm1 He1].
  destruct (shr_fexp prec emax m e l) as [r1 e1]. simpl in Hm1, He1.
  rewrite fexp_eq in Hm1, He1.
  pose proof (Zdigits2_log2 m Hm) as Hd.
  pose proof (Z.log2_nonneg m) as Hl0.
  remember (Z.max (Z.max (Zdigits2 m + e - 53) (-1074) - e) 0) as k1 eqn:Hk1.
  destruct (shiftr_pos_digits m k1 Hm ltac:(lia) ltac:(lia)) as [Hpos1 Hdig1].
  rewrite <- Hm1 in Hpos1, Hdig1.
  set (m1 := round_nearest_even (shr_m r1) (loc_of_shr_record r1)).
  assert (Hm1' : 0 < m1 /\ Zdigits2 (shr_m r1) <= Zdigits2 m1 <= Zdigits2 (shr_m r1) + 1).
  { destruct (round_nearest_even_cases (shr_m r1) (loc_of_shr_record r1)) as [H|H];
      fold m1 in H; rewrite H.
    - lia.
    - pose proof (Zdigits2_succ (shr_m r1) Hpos1). lia. }
  destruct Hm1' as [Hpos1' Hdig1'].
  pose proof (shr_fexp_spec m1 e1 loc_Exact ltac:(lia)) as [Hm2 He2].
  destruct (shr_fexp prec emax m1 e1 loc_Exact) as [r2 e2]. simpl in Hm2, He2.
  rewrite fexp_eq in Hm2, He2.
  pose proof (Zdigits2_log2 m1 Hpos1') as Hd1.
  pose proof (Z.log2_nonneg m1) as Hl1.
  remember (Z.max (Z.max (Zdigits2 m1 + e1 - 53) (-1074) - e1) 0) as k2 eqn:Hk2.
  destruct (shiftr_pos_digits m1 k2 Hpos1' ltac:(lia) ltac:(lia)) as [Hpos2 Hdig2].
  rewrite <- Hm2 in Hpos2, Hdig2.
  destruct (shr_m r2) as [|p|p] eqn:Er2; try lia.
  change (emax - prec) with 971.
  destruct (Z.leb_spec e2 971) as [Hle|Hgt].
  - right. exists p, e2. split; [reflexivity|].
    simpl in Hdig2. lia.
  - left. split; [reflexivity|]. simpl in Hdig2. lia.
Qed.

Lemma binary_round_aux_sign s m e l : 0 <= m ->
  match binary_round_aux prec emax s m e l with
  | S754_zero s' | S754_infinity s' | S754_finite s' _ _ => s' = s
  | S754_nan => False
  end.
Proof.
  intros Hm. unfold binary_round_aux.
  pose proof (shr_fexp_spec m e l Hm) as [Hm1 _].
  destruct (shr_fexp prec emax m e l) as [r1 e1]. simpl in Hm1.
  assert (H1 : 0 <= shr_m r1) by (rewrite Hm1; apply Z.shiftr_nonneg; lia).
  set (m1 := round_nearest_even (shr_m r1) (loc_of_shr_record r1)).
  assert (Hm1' : 0 <= m1).
  { destruct (round_nearest_even_cases (shr_m r1) (loc_of_shr_record r1)) as [H|H];
      fold m1 in H; lia. }
  pose proof (shr_fexp_spec m1 e1 loc_Exact Hm1') as [Hm2 _].
  destruct (shr_fexp prec emax m1 e1 loc_Exact) as [r2 e2]. simpl in Hm2.
  assert (H2 : 0 <= shr_m r2) by (rewrite Hm2; apply Z.shiftr_nonneg; lia).
  destruct (shr_m r2) as [|p|p]; try lia; try reflexivity.
  destruct (e2 <=? emax - prec); reflexivity.
Qed.

Lemma digits2_pos_iter_xO d : forall m,
  Zpos (digits2_pos (Pos.iter xO m d)) = Zpos (digits2_pos m) + Zpos d.
Proof.
  induction d using Pos.peano_ind; intros m.
  - simpl. lia.
  - rewrite Pos.iter_succ. simpl. rewrite Pos2Z.inj_succ, IHd. lia.
Qed.

Lemma shl_align_mag mx ex ex' :
  mag (fst (shl_align mx ex ex')) (snd (shl_align mx ex ex')) = mag mx ex.
Proof.
  unfold shl_align, mag. destruct (ex' - ex) as [|d|d] eqn:E; cbn [fst snd]; try reflexivity.
  rewrite digits2_pos_iter_xO. lia.
Qed.

Lemma binary_round_pos s m e :
  -1074 < mag m e ->
  (binary_round prec emax s m e = S754_infinity s /\ 972 <= mag m e) \/
  exists m2 e2,
    binary_round prec emax s m e = S754_finite s m2 e2 /\
    Zpos (digits2_pos m2) <= 53 /\ -1074 <= e2 <= 971 /\
    mag m e <= mag m2 e2 <= mag m e + 1.
Proof.
  intros Hmag. unfold binary_round.
  pose proof (shl_align_mag m e (fexp prec emax (Zpos (digits2_pos m) + e))) as Hal.
  destruct (shl_align m e (fexp prec emax (Zpos (digits2_pos m) + e))) as [mz ez].
  simpl in Hal. rewrite <- Hal in *.
  apply binary_round_aux_pos; [reflexivity | exact Hmag].
Qed.

Lemma of_Z_pos z : 0 < z < 2 ^ 900 ->
  exists m e, of_Z z = S754_finite false m e /\
    Zpos (digits2_pos m) <= 53 /\ -1074 <= e <= 971 /\
    Zdigits2 z <= mag m e <= Zdigits2 z + 1.
Proof.
  intros [Hz Hlt]. destruct z as [|p|p]; try lia.
  unfold of_Z, binary_normalize.
  assert (Hd : Zdigits2 (Zpos p) <= 900).
  { rewrite Zdigits2_log2 by lia.
    assert (Z.log2 (Zpos p) < 900) by (apply Z.log2_lt_pow2; lia). lia. }
  unfold Zdigits2 in Hd.
  destruct (binary_round_pos false p 0) as [[_ H]|(m & e & H1 & H2 & H3 & H4)].
  - unfold mag. lia.
  - unfold mag in H. lia.
  - exists m, e. unfold mag, Zdigits2 in *. repeat split; try assumption; lia.
Qed.

Lemma of_Z_neg z : - 2 ^ 900 < z < 0 ->
  exists m e, of_Z z = S754_finite true m e /\
    Zpos (digits2_pos m) <= 53 /\ -1074 <= e <= 971 /\
    Zdigits2 z <= mag m e <= Zdigits2 z + 1.
Proof.
  intros [Hlt Hz]. destruct z as [|p|p]; try lia.
  unfold of_Z, binary_normalize.
  assert (Hd : Zdigits2 (Zpos p) <= 900).
  { rewrite Zdigits2_log2 by lia.
    assert (Z.log2 (Zpos p) < 900) by (apply Z.log2_lt_pow2; lia). lia. }
  unfold Zdigits2 in Hd.
  destruct (binary_round_pos true p 0) as [[_ H]|(m & e & H1 & H2 & H3 & H4)].
  - unfold mag. lia.
  - unfold mag in H. lia.
  - exists m, e. unfold mag, Zdigits2 in *. repeat split; try assumption; lia.
Qed.

Lemma binary_normalize_nonneg z e : 0 <= z ->
  nonneg (binary_normalize prec emax z e false) = true.
Proof.
  intros Hz. destruct z as [|p|p]; try lia; simpl; [reflexivity|].
  unfold binary_round.
  destruct (shl_align p e (fexp prec emax (Zpos (digits2_pos p) + e))) as [mz ez].
  pose proof (binary_round_aux_sign false (Zpos mz) ez loc_Exact ltac:(lia)) as H.
  destruct (binary_round_aux prec emax false (Zpos mz) ez loc_Exact) as [s|s| |s m2 e2];
    try contradiction; subst; reflexivity.
Qed.

Lemma of_Z_nonneg z : 0 <= z -> nonneg (of_Z z) = true.
Proof. apply binary_normalize_nonneg. Qed.

Lemma valid_finite_bounds s m e : valid (S754_finite s m e) = true ->
  Zpos (digits2_pos m) <= 53 /\ -1074 <= e <= 971.
Proof.
  unfold valid, valid_binary, bounded, canonical_mantissa.
  rewrite fexp_eq. change (emax - prec) with 971.
  intros H. apply andb_true_iff in H as [H1 H2].
  apply Z.eqb_eq in H1. apply Z.leb_le in H2. lia.
Qed.

Lemma digits2_pos_bounds p :
  2 ^ (Zpos (digits2_pos p) - 1) <= Zpos p < 2 ^ Zpos (digits2_pos p).
Proof.
  pose proof (Zdigits2_log2 (Zpos p) eq_refl) as H. unfold Zdigits2 in H.
  pose proof (Z.log2_spec (Zpos p) eq_refl) as L.
  rewrite H. replace (Z.log2 (Z.pos p) + 1 - 1) with (Z.log2 (Z.pos p)) by lia.
  unfold Z.succ in L. exact L.
Qed.

Lemma Zdigits2_pow2_le z a : 0 <= a -> 2 ^ a <= z -> a + 1 <= Zdigits2 z.
Proof.
  intros Ha Hz. assert (0 < z) by (pose proof (Z.pow_pos_nonneg 2 a); lia).
  rewrite Zdigits2_log2 by assumption.
  apply Z.log2_le_pow2 in Hz; lia.
Qed.

Lemma Zdigits2_lt_pow2 z a : 0 < z -> z < 2 ^ a -> Zdigits2 z <= a.
Proof.
  intros Hz Hlt. rewrite Zdigits2_log2 by assumption.
  apply Z.log2_lt_pow2 in Hlt; lia.
Qed.

Lemma SFdiv_core_binary_spec m1 e1 m2 e2 :
  0 < m1 -> 0 < m2 ->
  let e' := Z.min (fexp prec emax (Zdigits2 m1 + e1 - (Zdigits2 m2 + e2))) (e1 - e2) in
  exists l, SFdiv_core_binary prec emax m1 e1 m2 e2 =
            ((m1 * 2 ^ (e1 - e2 - e')) / m2, e', l).
Proof.
  intros H1 H2 e'. unfold SFdiv_core_binary. fold e'.
  assert (Hs : 0 <= e1 - e2 - e') by (unfold e'; lia).
  assert (Hm : match e1 - e2 - e' with
               | Z.pos _ => Z.shiftl m1 (e1 - e2 - e')
               | 0 => m1
               | Z.neg _ => 0
               end = m1 * 2 ^ (e1 - e2 - e')).
  { destruct (e1 - e2 - e') as [|p|p] eqn:E.
    - rewrite Z.pow_0_r. lia.
    - rewrite Z.shiftl_mul_pow2 by lia. reflexivity.
    - lia. }
  rewrite Hm. unfold Z.div.
  destruct (Z.div_eucl (m1 * 2 ^ (e1 - e2 - e')) m2) as [q r].
  eexists. reflexivity.
Qed.

Lemma SFdiv_finite_pos sx mx ex sy my ey :
  let D := mag mx ex - mag my ey in
  -1073 <= D ->
  (div (S754_finite sx mx ex) (S754_finite sy my ey) = S754_infinity (xorb sx sy) /\
   971 <= D) \/
  exists m e,
    div (S754_finite sx mx ex) (S754_finite sy my ey) = S754_finite (xorb sx sy) m e /\
    Zpos (digits2_pos m) <= 53 /\ -1074 <= e <= 971 /\
    D <= mag m e <= D + 2.
Proof.
  intros D HD. unfold div, SFdiv.
  destruct (SFdiv_core_binary_spec (Zpos mx) ex (Zpos my) ey eq_refl eq_refl) as [l Hc].
  rewrite Hc. clear Hc. rewrite fexp_eq.
  subst D. unfold mag in *. unfold Zdigits2.
  pose proof (digits2_pos_bounds mx) as [Bx1 Bx2].
  pose proof (digits2_pos_bounds my) as [By1 By2].
  remember (Zpos (digits2_pos mx)) as d1 eqn:Hd1.
  remember (Zpos (digits2_pos my)) as d2 eqn:Hd2.
  assert (0 < d1) by lia. assert (0 < d2) by lia.
  remember (Z.min (Z.max (d1 + ex - (d2 + ey) - 53) (-1074)) (ex - ey)) as e' eqn:He'.
  remember (ex - ey - e') as s eqn:Hs.
  assert (Hs0 : 0 <= s) by lia.
  assert (Ha : d2 <= d1 - 1 + s) by lia.
  remember (Z.pos mx * 2 ^ s / Z.pos my) as q eqn:Eq.
  assert (Hlow : 2 ^ (d1 - 1 + s - d2) <= q).
  { rewrite Eq. apply Z.div_le_lower_bound; [lia|].
    transitivity (2 ^ d2 * 2 ^ (d1 - 1 + s - d2)).
    - apply Z.mul_le_mono_nonneg_r; [apply Z.pow_nonneg; lia | lia].
    - rewrite <- Z.pow_add_r by lia.
      replace (d2 + (d1 - 1 + s - d2)) with (d1 - 1 + s) by lia.
      rewrite Z.pow_add_r by lia.
      apply Z.mul_le_mono_nonneg_r; [apply Z.pow_nonneg; lia | lia]. }
  assert (Hup : q < 2 ^ (d1 + s - d2 + 1)).
  { rewrite Eq. apply Z.div_lt_upper_bound; [lia|].
    apply Z.lt_le_trans with (2 ^ d1 * 2 ^ s).
    - apply Z.mul_lt_mono_pos_r; [apply Z.pow_pos_nonneg; lia | lia].
    - assert (E : 2 ^ d1 * 2 ^ s = 2 ^ (d2 - 1) * 2 ^ (d1 + s - d2 + 1)).
      { rewrite <- !Z.pow_add_r by lia. f_equal. lia. }
      rewrite E.
      apply Z.mul_le_mono_nonneg_r; [apply Z.pow_nonneg; lia | lia]. }
  assert (Hq : 0 < q) by (pose proof (Z.pow_pos_nonneg 2 (d1 - 1 + s - d2)); lia).
  pose proof (Zdigits2_pow2_le q (d1 - 1 + s - d2) ltac:(lia) Hlow) as Hdq1.
  pose proof (Zdigits2_lt_pow2 q _ Hq Hup) as Hdq2.
  destruct (binary_round_aux_pos (xorb sx sy) q e' l Hq ltac:(lia))
    as [[Hinf Hb]|(m & e & Hr & B1 & B2 & B3)].
  - left. split; [exact Hinf | lia].
  - right. exists m, e. repeat split; try assumption; lia.
Qed.

Lemma SFmul_finite_pos sx mx ex sy my ey :
  let M := mag mx ex + mag my ey in
  -1073 < M ->
  (mul (S754_finite sx mx ex) (S754_finite sy my ey) = S754_infinity (xorb sx sy) /\
   972 <= M) \/
  exists m e,
    mul (S754_finite sx mx ex) (S754_finite sy my ey) = S754_finite (xorb sx sy) m e /\
    Zpos (digits2_pos m) <= 53 /\ -1074 <= e <= 971 /\
    M - 1 <= mag m e <= M + 1.
Proof.
  intros M HM. unfold mul, SFmul. subst M. unfold mag in *.
  assert (Hd : Zpos (digits2_pos mx) + Zpos (digits2_pos my) - 1
               <= Zdigits2 (Zpos (mx * my))
               <= Zpos (digits2_pos mx) + Zpos (digits2_pos my)).
  { pose proof (Zdigits2_log2 (Zpos mx) eq_refl) as H1.
    pose proof (Zdigits2_log2 (Zpos my) eq_refl) as H2.
    unfold Zdigits2 in H1, H2. rewrite H1, H2.
    rewrite Zdigits2_log2 by reflexivity.
    rewrite Pos2Z.inj_mul.
    pose proof (Z.log2_mul_below (Zpos mx) (Zpos my) eq_refl eq_refl).
    pose proof (Z.log2_mul_above (Zpos mx) (Zpos my) ltac:(lia) ltac:(lia)).
    lia. }
  destruct (binary_round_aux_pos (xorb sx sy) (Zpos (mx * my)) (ex + ey) loc_Exact
              eq_refl ltac:(lia))
    as [[Hinf Hb]|(m & e & Hr & B1 & B2 & B3)].
  - left. split; [exact Hinf | lia].
  - right. exists m, e. repeat split; try assumption; lia.
Qed.

(** ** Sign classes *)

Lemma ltb_zero_pos x : ltb zero x = pos x.
Proof. destruct x as [[]|[]| |[] m e]; reflexivity. Qed.

Lemma ltb_neg_zero x : ltb x zero = neg x.
Proof. destruct x as [[]|[]| |[] m e]; reflexivity. Qed.

Lemma pos_nonneg x : pos x = true -> nonneg x = true.
Proof. destruct x as [[]|[]| |[] m e]; simpl; congruence. Qed.

Lemma neg_nonpos x : neg x = true -> nonpos x = true.
Proof. destruct x as [[]|[]| |[] m e]; simpl; congruence. Qed.

Lemma geb_nonneg_nonpos x y :
  nonneg x = true -> nonpos y = true -> geb x y = true.
Proof.
  destruct x as [[]|[]| |[] mx ex]; destruct y as [[]|[]| |[] my ey];
    simpl; intros; try discriminate; reflexivity.
Qed.

Lemma ltb_nonneg_nonpos x y :
  nonneg x = true -> nonpos y = true -> ltb x y = false.
Proof.
  destruct x as [[]|[]| |[] mx ex]; destruct y as [[]|[]| |[] my ey];
    simpl; intros; try discriminate; reflexivity.
Qed.

Lemma geb_zero_pos s y : pos y = true -> geb (S754_zero s) y = false.
Proof. destruct y as [[]|[]| |[] my ey]; simpl; intros; try discriminate; reflexivity. Qed.

Lemma ltb_zero_pos_true s y : pos y = true -> ltb (S754_zero s) y = true.
Proof. destruct y as [[]|[]| |[] my ey]; simpl; intros; try discriminate; reflexivity. Qed.

Lemma div_finite_sign sx mx ex sy my ey :
  match div (S754_finite sx mx ex) (S754_finite sy my ey) with
  | S754_zero s' | S754_infinity s' | S754_finite s' _ _ => s' = xorb sx sy
  | S754_nan => False
  end.
Proof.
  unfold div, SFdiv.
  destruct (SFdiv_core_binary_spec (Zpos mx) ex (Zpos my) ey eq_refl eq_refl) as [l Hc].
  rewrite Hc. apply binary_round_aux_sign.
  apply Z.div_pos; [|lia]. apply Z.mul_nonneg_nonneg; [lia|].
  apply Z.pow_nonneg. lia.
Qed.

Lemma mul_finite_sign sx mx ex sy my ey :
  match mul (S754_finite sx mx ex) (S754_finite sy my ey) with
  | S754_zero s' | S754_infinity s' | S754_finite s' _ _ => s' = xorb sx sy
  | S754_nan => False
  end.
Proof. unfold mul, SFmul. apply binary_round_aux_sign. lia. Qed.

(** A positive finite number divided by a negative one is not positive. *)
Lemma div_pos_neg_nonpos mx ex y :
  neg y = true -> nonpos (div (S754_finite false mx ex) y) = true.
Proof.
  intros H. destruct y as [[]|[]| |[] my ey]; simpl in H; try discriminate; try reflexivity.
  pose proof (div_finite_sign false mx ex true my ey) as S.
  destruct (div (S754_finite false mx ex) (S754_finite true my ey)) as [s|s| |s m e];
    try contradiction; subst; reflexivity.
Qed.

(** A number that is not positive stays so when multiplied by a positive
    finite one. *)
Lemma mul_nonpos_pos x my ey :
  nonpos x = true -> nonpos (mul x (S754_finite false my ey)) = true.
Proof.
  intros H. destruct x as [[]|[]| |[] mx ex]; simpl in H; try discriminate; try reflexivity.
  pose proof (mul_finite_sign true mx ex false my ey) as S.
  destruct (mul (S754_finite true mx ex) (S754_finite false my ey)) as [s|s| |s m e];
    try contradiction; subst; reflexivity.
Qed.

Lemma div_nonneg_pos_finite x my ey :
  nonneg x = true -> nonneg (div x (S754_finite false my ey)) = true.
Proof.
  intros H. destruct x as [[]|[]| |[] mx ex]; simpl in H; try discriminate; try reflexivity.
  pose proof (div_finite_sign false mx ex false my ey) as S.
  destruct (div (S754_finite false mx ex) (S754_finite false my ey)) as [s|s| |s m e];
    try contradiction; subst; reflexivity.
Qed.

Lemma add_nonneg x y :
  nonneg x = true -> nonneg y = true -> nonneg (add x y) = true.
Proof.
  intros Hx Hy.
  destruct x as [[]|[]| |[] mx ex]; destruct y as [[]|[]| |[] my ey];
    simpl in Hx, Hy; try discriminate; try reflexivity.
  unfold add, SFadd. apply binary_normalize_nonneg. unfold cond_Zopp. lia.
Qed.

(** ** Valid numbers *)

Lemma Zdigits2_nonneg z : 0 <= Zdigits2 z.
Proof. destruct z; simpl; lia. Qed.

Lemma shiftr_digits m k : 0 <= m -> 0 <= k -> 0 < Z.shiftr m k ->
  0 < m /\ Zdigits2 (Z.shiftr m k) = Zdigits2 m - k.
Proof.
  intros Hm Hk Hs.
  assert (Hnz : Z.shiftr m k <> 0) by lia.
  rewrite (Z.shiftr_eq_0_iff m k) in Hnz.
  assert (Hm' : 0 < m) by lia.
  split; [assumption|].
  apply shiftr_pos_digits; lia.
Qed.

(** The result of rounding is a valid binary64 number as soon as the
    exponent of the input is not above the one of its format. *)
Lemma binary_round_aux_valid s m e l :
  0 <= m -> e <= fexp prec emax (Zdigits2 m + e) ->
  valid (binary_round_aux prec emax s m e l) = true.
Proof.
  intros Hm He. unfold binary_round_aux.
  pose proof (shr_fexp_spec m e l Hm) as [Hm1 He1].
  destruct (shr_fexp prec emax m e l) as [r1 e1]. simpl in Hm1, He1.
  rewrite fexp_eq in Hm1, He1, He.
  remember (Z.max (Z.max (Zdigits2 m + e - 53) (-1074) - e) 0) as k1 eqn:Hk1.
  assert (H1 : 0 <= shr_m r1) by (rewrite Hm1; apply Z.shiftr_nonneg; lia).
  set (m1 := round_nearest_even (shr_m r1) (loc_of_shr_record r1)).
  assert (Hm1' : m1 = shr_m r1 \/ m1 = shr_m r1 + 1)
    by apply round_nearest_even_cases.
  pose proof (shr_fexp_spec m1 e1 loc_Exact ltac:(lia)) as [Hm2 He2].
  destruct (shr_fexp prec emax m1 e1 loc_Exact) as [r2 e2]. simpl in Hm2, He2.
  rewrite fexp_eq in Hm2, He2.
  remember (Z.max (Z.max (Zdigits2 m1 + e1 - 53) (-1074) - e1) 0) as k2 eqn:Hk2.
  destruct (shr_m r2) as [|p|p] eqn:Er2; try reflexivity.
  destruct (e2 <=? emax - prec) eqn:Ele; [|reflexivity].
  unfold valid, valid_binary, bounded, canonical_mantissa.
  rewrite Ele, andb_true_r. apply Z.eqb_eq. rewrite fexp_eq.
  assert (Hs2 : 0 < Z.shiftr m1 k2) by (rewrite <- Hm2; lia).
  destruct (shiftr_digits m1 k2 ltac:(lia) ltac:(lia) Hs2) as [Hp1 Hd2].
  rewrite <- Hm2 in Hd2. unfold Zdigits2 in Hd2 at 1.
  assert (Hge : e1 <= Z.max (Zdigits2 m1 + e1 - 53) (-1074)).
  { destruct (Z.eq_dec (shr_m r1) 0) as [Hz|Hnz].
    - (* everything was shifted out: the result is the least subnormal *)
      assert (Em1 : m1 = 1) by lia. rewrite Em1. simpl.
      rewrite Hm1 in Hz. apply Z.shiftr_eq_0_iff in Hz.
      pose proof (Zdigits2_nonneg m).
      destruct Hz as [Hz|[Hz1 Hz2]].
      + subst m. simpl in *. lia.
      + rewrite (Zdigits2_log2 m Hz1) in *. lia.
    - assert (Hs1 : 0 < Z.shiftr m k1) by (rewrite <- Hm1; lia).
      destruct (shiftr_digits m k1 Hm ltac:(lia) Hs1) as [Hp0 Hd1].
      rewrite <- Hm1 in Hd1.
      assert (Zdigits2 (shr_m r1) <= Zdigits2 m1).
      { destruct Hm1' as [E|E]; rewrite E; [lia|].
        apply (Zdigits2_succ (shr_m r1)). lia. }
      lia. }
  lia.
Qed.

Lemma binary_round_valid s m e : valid (binary_round prec emax s m e) = true.
Proof.
  unfold binary_round.
  pose proof (shl_align_mag m e (fexp prec emax (Zpos (digits2_pos m) + e))) as Hal.
  unfold shl_align in *.
  destruct (fexp prec emax (Z.pos (digits2_pos m) + e) - e) as [|d|d] eqn:E;
    cbn [fst snd] in Hal; apply binary_round_aux_valid; try lia;
    unfold mag in Hal; unfold Zdigits2; rewrite ?Hal; lia.
Qed.

Lemma of_Z_valid z : valid (of_Z z) = true.
Proof.
  unfold of_Z, binary_normalize.
  destruct z; [reflexivity | apply binary_round_valid ..].
Qed.

(** Every quotient is a valid binary64 number. *)
Lemma div_valid x y : valid (div x y) = true.
Proof.
  destruct x as [sx|sx| |sx mx ex]; destruct y as [sy|sy| |sy my ey];
    try reflexivity.
  unfold div, SFdiv.
  destruct (SFdiv_core_binary_spec (Zpos mx) ex (Zpos my) ey eq_refl eq_refl) as [l Hc].
  rewrite Hc. clear Hc. rewrite fexp_eq.
  change (Zdigits2 (Z.pos mx)) with (Zpos (digits2_pos mx)).
  change (Zdigits2 (Z.pos my)) with (Zpos (digits2_pos my)).
  pose proof (digits2_pos_bounds mx) as [Bx1 Bx2].
  pose proof (digits2_pos_bounds my) as [By1 By2].
  remember (Zpos (digits2_pos mx)) as d1 eqn:Hd1.
  remember (Zpos (digits2_pos my)) as d2 eqn:Hd2.
  assert (0 < d1) by lia. assert (0 < d2) by lia.
  remember (Z.min (Z.max (d1 + ex - (d2 + ey) - 53) (-1074)) (ex - ey)) as e' eqn:He'.
  remember (ex - ey - e') as s eqn:Hs.
  assert (Hs0 : 0 <= s) by lia.
  remember (Z.pos mx * 2 ^ s / Z.pos my) as q eqn:Eq.
  assert (Hq0 : 0 <= q).
  { rewrite Eq. apply Z.div_pos; [|lia].
    apply Z.mul_nonneg_nonneg; [lia | apply Z.pow_nonneg; lia]. }
  apply binary_round_aux_valid; [assumption|].
  rewrite fexp_eq.
  destruct (Z_le_gt_dec e' (-1074)) as [Hle|Hgt]; [lia|].
  assert (Ha : d2 <= d1 - 1 + s) by lia.
  assert (Hlow : 2 ^ (d1 - 1 + s - d2) <= q).
  { rewrite Eq. apply Z.div_le_lower_bound; [lia|].
    transitivity (2 ^ d2 * 2 ^ (d1 - 1 + s - d2)).
    - apply Z.mul_le_mono_nonneg_r; [apply Z.pow_nonneg; lia | lia].
    - rewrite <- Z.pow_add_r by lia.
      replace (d2 + (d1 - 1 + s - d2)) with (d1 - 1 + s) by lia.
      rewrite Z.pow_add_r by lia.
      apply Z.mul_le_mono_nonneg_r; [apply Z.pow_nonneg; lia | lia]. }
  pose proof (Zdigits2_pow2_le q (d1 - 1 + s - d2) ltac:(lia) Hlow) as Hdq1.
  lia.
Qed.

(** ** Quotients and products of positive numbers *)

Lemma Zdigits2_range z : 0 < z < 2 ^ 64 -> 1 <= Zdigits2 z <= 64.
Proof.
  intros [H0 H1]. split.
  - rewrite Zdigits2_log2 by assumption. pose proof (Z.log2_nonneg z). lia.
  - apply Zdigits2_lt_pow2; assumption.
Qed.

(** The quotient of two positive 64-bit integers, taken in [double], is
    positive and finite. *)
Lemma div_of_Z_pos_finite a c :
  0 < a < 2 ^ 64 -> 0 < c < 2 ^ 64 ->
  exists m e, div (of_Z a) (of_Z c) = S754_finite false m e /\
              -65 <= mag m e <= 67.
Proof.
  intros Ha Hc.
  destruct (of_Z_pos a) as (ma & ea & Ea & _ & _ & Ba); [lia|].
  destruct (of_Z_pos c) as (mc & ec & Ec & _ & _ & Bc); [lia|].
  pose proof (Zdigits2_range a Ha). pose proof (Zdigits2_range c Hc).
  rewrite Ea, Ec.
  destruct (SFdiv_finite_pos false ma ea false mc ec)
    as [[_ Hb]|(m & e & E & _ & _ & B)].
  - lia.
  - lia.
  - exists m, e. split; [exact E | lia].
Qed.

Lemma pos_div_pos_finite x m e :
  pos (div x (S754_finite false m e)) = true -> pos x = true.
Proof.
  intros H. destruct x as [[]|[]| |[] mx ex]; try reflexivity; try discriminate H.
  pose proof (div_finite_sign true mx ex false m e) as S.
  destruct (div (S754_finite true mx ex) (S754_finite false m e)) as [s|s| |s m' e'];
    try contradiction; subst; discriminate H.
Qed.

(** A positive interval in seconds is a positive interval in
    nanoseconds. *)
Lemma mul_pos_of_Z x c :
  valid x = true -> pos x = true -> 0 < c < 2 ^ 64 ->
  pos (mul x (of_Z c)) = true.
Proof.
  intros Hv Hp Hc.
  destruct (of_Z_pos c) as (mc & ec & Ec & _ & _ & Bc); [lia|].
  pose proof (Zdigits2_range c Hc). rewrite Ec.
  destruct x as [[]|[]| |[] mx ex]; try discriminate Hp; try reflexivity.
  apply valid_finite_bounds in Hv.
  destruct (SFmul_finite_pos false mx ex false mc ec) as [[E _]|(m & e & E & _)].
  - unfold mag in *. lia.
  - rewrite E. reflexivity.
  - rewrite E. reflexivity.
Qed.

(** ** Adding and subtracting zero *)

Lemma add_zero_r_finite s m e :
  add (S754_finite s m e) (S754_zero false) = S754_finite s m e.
Proof. reflexivity. Qed.

Lemma sub_zero_r_finite s m e :
  sub (S754_finite s m e) (S754_zero false) = S754_finite s m e.
Proof. reflexivity. Qed.

(** ** Negative numbers *)

Lemma neg_not_zero r : neg r = true -> eqb r (of_Z 0) = false.
Proof. destruct r as [[]|[]| |[] m e]; simpl; intros; try discriminate; reflexivity. Qed.

Lemma leb_zero_nonpos x : leb x zero = nonpos x.
Proof. destruct x as [[]|[]| |[] m e]; reflexivity. Qed.

Lemma div_nonpos_pos_finite x m e :
  nonpos x = true -> nonpos (div x (S754_finite false m e)) = true.
Proof.
  intros H. destruct x as [[]|[]| |[] mx ex]; simpl in H; try discriminate;
    try reflexivity.
  pose proof (div_finite_sign true mx ex false m e) as S.
  destruct (div (S754_finite true mx ex) (S754_finite false m e)) as [s|s| |s m' e'];
    try contradiction; subst; reflexivity.
Qed.

(** The inverse of a negative finite [double] is strictly negative. *)
Lemma div_one_neg r :
  neg r = true -> is_finite r = true -> valid r = true ->
  neg (div (of_Z 1) r) = true.
Proof.
  intros Hn Hf Hv. destruct r as [[]|[]| |[] m e]; try discriminate.
  apply valid_finite_bounds in Hv.
  change (of_Z 1) with (S754_finite false 4503599627370496 (-52)).
  destruct (SFdiv_finite_pos false 4503599627370496 (-52) true m e)
    as [[E _]|(m' & e' & E & _)].
  - unfold mag. change (Z.pos (digits2_pos 4503599627370496)) with 53. lia.
  - rewrite E. reflexivity.
  - rewrite E. reflexivity.
Qed.

Lemma of_Z_1000000 :
  of_Z 1000000 = S754_finite false 8589934592000000 (-33).
Proof. reflexivity. Qed.

Lemma of_Z_1000000000 :
  of_Z 1000000000 = S754_finite false 8388608000000000 (-23).
Proof. reflexivity. Qed.

(** ** Exact comparison *)

Lemma valid_finite_canonical s m e :
  valid (S754_finite s m e) = true ->
  e = Z.max (Zpos (digits2_pos m) + e - 53) (-1074) /\ e <= 971.
Proof.
  unfold valid, valid_binary, bounded, canonical_mantissa.
  rewrite fexp_eq. change (emax - prec) with 971.
  intros H. apply andb_true_iff in H as [H1 H2].
  apply Z.eqb_eq in H1. apply Z.leb_le in H2. lia.
Qed.

Lemma pow2_le a b : 0 <= a <= b -> 2 ^ a <= 2 ^ b.
Proof. intros H. apply Z.pow_le_mono_r; lia. Qed.

Lemma finite_units_pos m e : 0 <= e + 1074 -> 0 < Zpos m * 2 ^ (e + 1074).
Proof. intros H. apply Z.mul_pos_pos; [lia | apply Z.pow_pos_nonneg; lia]. Qed.

Lemma finite_units_bound s m e :
  valid (S754_finite s m e) = true ->
  0 < Zpos m * 2 ^ (e + 1074) < 2 ^ 2100.
Proof.
  intros Hv. apply valid_finite_canonical in Hv as [Hc He].
  pose proof (digits2_pos_bounds m) as [_ Bm].
  split; [apply finite_units_pos; lia|].
  apply Z.lt_le_trans with (2 ^ Zpos (digits2_pos m) * 2 ^ (e + 1074)).
  - apply Z.mul_lt_mono_pos_r; [apply Z.pow_pos_nonneg; lia | lia].
  - rewrite <- Z.pow_add_r by lia. apply pow2_le. lia.
Qed.

(** Of two valid positive numbers the one with the smaller exponent is
    the smaller one. *)
Lemma finite_units_lt m1 e1 m2 e2 :
  valid (S754_finite false m1 e1) = true ->
  valid (S754_finite false m2 e2) = true ->
  e1 < e2 ->
  Zpos m1 * 2 ^ (e1 + 1074) < Zpos m2 * 2 ^ (e2 + 1074).
Proof.
  intros H1 H2 Hlt.
  apply valid_finite_canonical in H1 as [C1 _].
  apply valid_finite_canonical in H2 as [C2 _].
  pose proof (digits2_pos_bounds m1) as [_ B1].
  pose proof (digits2_pos_bounds m2) as [B2 _].
  assert (D2 : Zpos (digits2_pos m2) = 53) by lia.
  rewrite D2 in B2. change (53 - 1) with 52 in B2.
  apply Z.lt_le_trans with (2 ^ 53 * 2 ^ (e1 + 1074)).
  - apply Z.mul_lt_mono_pos_r; [apply Z.pow_pos_nonneg; lia|].
    apply Z.lt_le_trans with (2 ^ Zpos (digits2_pos m1)); [assumption|].
    apply pow2_le. lia.
  - apply Z.le_trans with (2 ^ 52 * 2 ^ (e2 + 1074)).
    + rewrite <- !Z.pow_add_r by lia. apply pow2_le. lia.
    + apply Z.mul_le_mono_nonneg_r; [apply Z.pow_nonneg; lia | assumption].
Qed.

Lemma compare_finite_pos m1 e1 m2 e2 :
  valid (S754_finite false m1 e1) = true ->
  valid (S754_finite false m2 e2) = true ->
  match e1 ?= e2 with
  | Lt => Lt
  | Gt => Gt
  | Eq => Pos.compare_cont Eq m1 m2
  end = (Zpos m1 * 2 ^ (e1 + 1074) ?= Zpos m2 * 2 ^ (e2 + 1074)).
Proof.
  intros H1 H2. destruct (Z.compare_spec e1 e2) as [E|L|G].
  - subst e2. symmetry.
    apply valid_finite_canonical in H1 as [C1 _].
    rewrite <- Zmult_compare_compat_r
      by (apply Z.lt_gt, Z.pow_pos_nonneg; lia).
    reflexivity.
  - symmetry. apply Z.compare_lt_iff. apply finite_units_lt; assumption.
  - symmetry. apply Z.compare_gt_iff. apply finite_units_lt; assumption.
Qed.

Lemma SFcompare_rank x y :
  valid x = true -> valid y = true -> is_nan x = false -> is_nan y = false ->
  SFcompare x y = Some (rank x ?= rank y).
Proof.
  intros Vx Vy Nx Ny.
  destruct x as [sx|sx| |sx mx ex]; try discriminate Nx;
    destruct y as [sy|sy| |sy my ey]; try discriminate Ny; clear Nx Ny.
  - reflexivity.
  - destruct sy; reflexivity.
  - pose proof (finite_units_bound sy my ey Vy) as [B _].
    destruct sy; cbn [SFcompare rank cond_Zopp]; f_equal; symmetry;
      [apply Z.compare_gt_iff | apply Z.compare_lt_iff]; lia.
  - destruct sx; reflexivity.
  - destruct sx, sy; reflexivity.
  - pose proof (finite_units_bound sy my ey Vy) as [B1 B2].
    destruct sx, sy; cbn [SFcompare rank cond_Zopp]; f_equal; symmetry;
      try (apply Z.compare_gt_iff; lia); apply Z.compare_lt_iff; lia.
  - pose proof (finite_units_bound sx mx ex Vx) as [B _].
    destruct sx; cbn [SFcompare rank cond_Zopp]; f_equal; symmetry;
      [apply Z.compare_lt_iff | apply Z.compare_gt_iff]; lia.
  - pose proof (finite_units_bound sx mx ex Vx) as [B1 B2].
    destruct sx, sy; cbn [SFcompare rank cond_Zopp]; f_equal; symmetry;
      try (apply Z.compare_gt_iff; lia); apply Z.compare_lt_iff; lia.
  - pose proof (finite_units_bound sx mx ex Vx) as [Bx _].
    pose proof (finite_units_bound sy my ey Vy) as [By _].
    destruct sx, sy; cbn [SFcompare rank cond_Zopp]; f_equal.
    + rewrite Z.compare_opp. destruct (Z.compare_spec ex ey) as [E|L|G].
      * subst ey. rewrite <- Zmult_compare_compat_r
          by (apply Z.lt_gt, Z.pow_pos_nonneg;
              apply valid_finite_canonical in Vx; lia).
        change (Pos.compare_cont Eq mx my) with (Pos.compare mx my).
        rewrite <- Pos.compare_antisym. reflexivity.
      * symmetry. apply Z.compare_gt_iff. apply finite_units_lt; assumption.
      * symmetry. apply Z.compare_lt_iff. apply finite_units_lt; assumption.
    + symmetry. apply Z.compare_lt_iff. lia.
    + symmetry. apply Z.compare_gt_iff. lia.
    + apply compare_finite_pos; assumption.
Qed.

(** [x >= y] in C++ is the order of the exact values. *)
Lemma geb_rank x y :
  valid x = true -> valid y = true -> is_nan x = false -> is_nan y = false ->
  geb x y = true <-> rank y <= rank x.
Proof.
  intros Vx Vy Nx Ny. unfold geb, SFleb.
  rewrite (SFcompare_rank y x Vy Vx Ny Nx).
  destruct (Z.compare_spec (rank y) (rank x)); split; intros; try lia;
    try reflexivity; discriminate.
Qed.

Lemma ltb_rank x y :
  valid x = true -> valid y = true -> is_nan x = false -> is_nan y = false ->
  ltb x y = true <-> rank x < rank y.
Proof.
  intros Vx Vy Nx Ny. unfold ltb, SFltb.
  rewrite (SFcompare_rank x y Vx Vy Nx Ny).
  destruct (Z.compare_spec (rank x) (rank y)); split; intros; try lia;
    try reflexivity; discriminate.
Qed.

(** ** Exact conversion of the integers below 2^53 *)

Lemma iter_xO_value d : forall m,
  Zpos (Pos.iter xO m d) = Zpos m * 2 ^ Zpos d.
Proof.
  induction d using Pos.peano_ind; intros m.
  - simpl. lia.
  - rewrite Pos.iter_succ, Pos2Z.inj_succ, Z.pow_succ_r by lia.
    rewrite Pos2Z.inj_xO, IHd. lia.
Qed.

Lemma shl_align_value m e e' :
  snd (shl_align m e e') <= e /\
  Zpos (fst (shl_align m e e')) = Zpos m * 2 ^ (e - snd (shl_align m e e')) /\
  (e' <= e -> snd (shl_align m e e') = e').
Proof.
  unfold shl_align. destruct (e' - e) as [|d|d] eqn:E; cbn [fst snd].
  - rewrite Z.sub_diag. simpl. lia.
  - rewrite Z.sub_diag. simpl. lia.
  - rewrite iter_xO_value. replace (e - e') with (Zpos d) by lia. lia.
Qed.

Lemma binary_round_aux_exact s m e :
  fexp prec emax (Zpos (digits2_pos m) + e) <= e -> e <= 971 ->
  binary_round_aux prec emax s (Zpos m) e loc_Exact = S754_finite s m e.
Proof.
  intros Hf He. unfold binary_round_aux, shr_fexp. cbn [Zdigits2].
  destruct (fexp prec emax (Zpos (digits2_pos m) + e) - e) as [|p|p] eqn:E;
    try lia; cbn [shr shr_record_of_loc shr_m loc_of_shr_record
                  round_nearest_even Zdigits2]; rewrite E; cbn [shr shr_m];
    change (emax - prec) with 971;
    destruct (Z.leb_spec e 971); try lia; reflexivity.
Qed.

Lemma of_Z_exact_pos p :
  Zpos p < 2 ^ 53 ->
  exists m e, of_Z (Zpos p) = S754_finite false m e /\
              Zpos m * 2 ^ (e + 1074) = Zpos p * 2 ^ 1074.
Proof.
  intros Hp. unfold of_Z, binary_normalize, binary_round.
  pose proof (shl_align_mag p 0 (fexp prec emax (Zpos (digits2_pos p) + 0))) as Hm.
  pose proof (shl_align_value p 0 (fexp prec emax (Zpos (digits2_pos p) + 0)))
    as (H1 & H2 & H3).
  destruct (shl_align p 0 (fexp prec emax (Zpos (digits2_pos p) + 0))) as [mz ez].
  cbn [fst snd] in *. unfold mag in Hm. rewrite fexp_eq in *.
  assert (Hd : Zpos (digits2_pos p) <= 53).
  { pose proof (Zdigits2_lt_pow2 (Zpos p) 53 eq_refl Hp) as H. exact H. }
  specialize (H3 ltac:(lia)).
  exists mz, ez. split.
  - apply binary_round_aux_exact; [rewrite fexp_eq|]; lia.
  - rewrite H2. rewrite <- Z.mul_assoc, <- Z.pow_add_r by lia.
    f_equal. f_equal. lia.
Qed.

(** An integer below [2^53] in absolute value is converted without
    rounding. *)
Lemma rank_of_Z z :
  - 2 ^ 53 < z < 2 ^ 53 -> rank (of_Z z) = z * 2 ^ 1074.
Proof.
  intros Hz. destruct z as [|p|p].
  - reflexivity.
  - destruct (of_Z_exact_pos p) as (m & e & E & V); [lia|].
    rewrite E. exact V.
  - destruct (of_Z_exact_pos p) as (m & e & E & V); [lia|].
    unfold of_Z, binary_normalize in *.
    unfold binary_round in *.
    destruct (shl_align p 0 (fexp prec emax (Z.pos (digits2_pos p) + 0))) as [mz ez].
    assert (E' : binary_round_aux prec emax true (Z.pos mz) ez loc_Exact
                 = S754_finite true m e).
    { revert E. unfold binary_round_aux.
      destruct (shr_fexp prec emax (Z.pos mz) ez loc_Exact) as [r1 e1].
      destruct (shr_fexp prec emax _ e1 loc_Exact) as [r2 e2].
      destruct (shr_m r2); try discriminate.
      destruct (e2 <=? emax - prec); try discriminate.
      intros H. injection H as -> ->. reflexivity. }
    rewrite E'. cbn [rank cond_Zopp]. rewrite V. lia.
Qed.

Lemma binary_normalize_not_nan z e s :
  is_nan (binary_normalize prec emax z e s) = false.
Proof.
  destruct z as [|p|p]; simpl; [reflexivity | |]; unfold binary_round;
    destruct (shl_align p e (fexp prec emax (Zpos (digits2_pos p) + e))) as [mz ez].
  - pose proof (binary_round_aux_sign false (Zpos mz) ez loc_Exact ltac:(lia)) as H.
    destruct (binary_round_aux prec emax false (Zpos mz) ez loc_Exact);
      try contradiction; reflexivity.
  - pose proof (binary_round_aux_sign true (Zpos mz) ez loc_Exact ltac:(lia)) as H.
    destruct (binary_round_aux prec emax true (Zpos mz) ez loc_Exact);
      try contradiction; reflexivity.
Qed.

Lemma binary_normalize_valid z e s :
  valid (binary_normalize prec emax z e s) = true.
Proof. destruct z; [reflexivity | apply binary_round_valid ..]. Qed.

Lemma of_Z_not_nan z : is_nan (of_Z z) = false.
Proof. apply binary_normalize_not_nan. Qed.

Lemma of_Z_finite z : - 2 ^ 900 < z < 2 ^ 900 -> is_finite (of_Z z) = true.
Proof.
  intros Hz. destruct (Z.lt_trichotomy z 0) as [H|[H|H]].
  - destruct (of_Z_neg z) as (m & e & E & _); [lia|]. rewrite E. reflexivity.
  - subst z. reflexivity.
  - destruct (of_Z_pos z) as (m & e & E & _); [lia|]. rewrite E. reflexivity.
Qed.

(** ** Validity of products and sums *)

Lemma mul_valid x y :
  valid x = true -> valid y = true -> valid (mul x y) = true.
Proof.
  intros Vx Vy.
  destruct x as [sx|sx| |sx mx ex]; destruct y as [sy|sy| |sy my ey];
    try reflexivity.
  unfold mul, SFmul. apply binary_round_aux_valid; [lia|].
  rewrite fexp_eq.
  apply valid_finite_canonical in Vx as [Cx _].
  apply valid_finite_canonical in Vy as [Cy _].
  assert (Hd : Zpos (digits2_pos mx) + Zpos (digits2_pos my) - 1
               <= Zdigits2 (Zpos (mx * my))).
  { pose proof (Zdigits2_log2 (Zpos mx) eq_refl) as H1.
    pose proof (Zdigits2_log2 (Zpos my) eq_refl) as H2.
    unfold Zdigits2 in H1, H2. rewrite H1, H2.
    rewrite Zdigits2_log2 by reflexivity.
    rewrite Pos2Z.inj_mul.
    pose proof (Z.log2_mul_below (Zpos mx) (Zpos my) eq_refl eq_refl). lia. }
  assert (0 < Zpos (digits2_pos mx)) by lia.
  assert (0 < Zpos (digits2_pos my)) by lia.
  lia.
Qed.

Lemma mul_not_nan x sy my ey :
  is_nan x = false -> is_nan (mul x (S754_finite sy my ey)) = false.
Proof.
  intros Nx. destruct x as [sx|sx| |sx mx ex]; try discriminate; try reflexivity.
  pose proof (mul_finite_sign sx mx ex sy my ey) as S.
  destruct (mul (S754_finite sx mx ex) (S754_finite sy my ey));
    try contradiction; reflexivity.
Qed.

Lemma add_valid x y :
  valid x = true -> valid y = true -> valid (add x y) = true.
Proof.
  intros Vx Vy.
  destruct x as [sx|sx| |sx mx ex]; destruct y as [sy|sy| |sy my ey];
    try reflexivity; try assumption.
  - destruct sx, sy; reflexivity.
  - destruct sx, sy; reflexivity.
  - unfold add, SFadd. apply binary_normalize_valid.
Qed.

Lemma add_not_nan x y :
  is_finite x = true -> is_nan y = false -> is_nan (add x y) = false.
Proof.
  intros Fx Ny.
  destruct x as [sx|sx| |sx mx ex]; try discriminate;
    destruct y as [sy|sy| |sy my ey]; try discriminate; try reflexivity.
  - destruct sx, sy; reflexivity.
  - unfold add, SFadd. apply binary_normalize_not_nan.
Qed.

Lemma div_not_nan x sy my ey :
  is_nan x = false -> is_nan (div x (S754_finite sy my ey)) = false.
Proof.
  intros Nx. destruct x as [sx|sx| |sx mx ex]; try discriminate; try reflexivity.
  pose proof (div_finite_sign sx mx ex sy my ey) as S.
  destruct (div (S754_finite sx mx ex) (S754_finite sy my ey));
    try contradiction; reflexivity.
Qed.

(** ** The error of a rounding is below one unit in the last place *)

Lemma shiftr_bounds a k : 0 <= a -> 0 <= k ->
  Z.shiftr a k * 2 ^ k <= a < (Z.shiftr a k + 1) * 2 ^ k.
Proof.
  intros Ha Hk. rewrite Z.shiftr_div_pow2 by assumption.
  assert (Hp : 0 < 2 ^ k) by (apply Z.pow_pos_nonneg; lia).
  pose proof (Z.div_mod a (2 ^ k) ltac:(lia)) as Hdm.
  pose proof (Z.mod_pos_bound a (2 ^ k) Hp) as Hmod.
  nia.
Qed.

Lemma binary_round_aux_bounds s q e l m2 e2 :
  0 <= q ->
  binary_round_aux prec emax s q e l = S754_finite s m2 e2 ->
  e <= e2 /\
  (Zpos m2 - 1) * 2 ^ (e2 - e) <= q /\
  q + 1 <= (Zpos m2 + 1) * 2 ^ (e2 - e).
Proof.
  intros Hq. unfold binary_round_aux.
  pose proof (shr_fexp_spec q e l Hq) as [Hm1 He1].
  destruct (shr_fexp prec emax q e l) as [r1 e1]. simpl in Hm1, He1.
  remember (Z.max (fexp prec emax (Zdigits2 q + e) - e) 0) as k1 eqn:Hk1.
  pose proof (shiftr_bounds q k1 Hq ltac:(lia)) as [B1 B1'].
  rewrite <- Hm1 in B1, B1'.
  assert (H1 : 0 <= shr_m r1) by (rewrite Hm1; apply Z.shiftr_nonneg; lia).
  set (m1 := round_nearest_even (shr_m r1) (loc_of_shr_record r1)).
  assert (Hr : m1 = shr_m r1 \/ m1 = shr_m r1 + 1)
    by apply round_nearest_even_cases.
  pose proof (shr_fexp_spec m1 e1 loc_Exact ltac:(lia)) as [Hm2 He2].
  destruct (shr_fexp prec emax m1 e1 loc_Exact) as [r2 e2']. simpl in Hm2, He2.
  remember (Z.max (fexp prec emax (Zdigits2 m1 + e1) - e1) 0) as k2 eqn:Hk2.
  pose proof (shiftr_bounds m1 k2 ltac:(lia) ltac:(lia)) as [B2 B2'].
  rewrite <- Hm2 in B2, B2'.
  destruct (shr_m r2) as [|p|p] eqn:Er2; try discriminate.
  destruct (e2' <=? emax - prec); try discriminate.
  intros H. injection H as -> ->.
  assert (Hp1 : 0 < 2 ^ k1) by (apply Z.pow_pos_nonneg; lia).
  assert (Hp2 : 0 < 2 ^ k2) by (apply Z.pow_pos_nonneg; lia).
  replace (e2 - e) with (k2 + k1) by lia.
  rewrite Z.pow_add_r by lia.
  split; [lia|]. remember (2 ^ k1) as P1. remember (2 ^ k2) as P2.
  remember (shr_m r1) as m'. clear - B1 B1' B2 B2' Hr Hp1 Hp2 H1.
  split.
  - apply Z.le_trans with (m' * P1); [|assumption].
    rewrite Z.mul_assoc. apply Z.mul_le_mono_nonneg_r; [lia|]. nia.
  - apply Z.le_trans with ((m' + 1) * P1); [lia|].
    rewrite Z.mul_assoc. apply Z.mul_le_mono_nonneg_r; [lia|]. nia.
Qed.

(** The quotient of two finite numbers, when finite, is within one unit
    in the last place of the exact quotient.  In units of [2^-1074]:
    with [R] the quotient, [u] its unit in the last place, [X] the
    dividend and [Y] the divisor, [(R - u) * Y <= X * 2^1074 <
    (R + u) * Y]. *)
Lemma div_finite_bounds sx mx ex sy my ey s m e :
  valid (S754_finite sx mx ex) = true ->
  valid (S754_finite sy my ey) = true ->
  div (S754_finite sx mx ex) (S754_finite sy my ey) = S754_finite s m e ->
  -1074 <= e ->
  (Zpos m * 2 ^ (e + 1074) - 2 ^ (e + 1074)) * (Zpos my * 2 ^ (ey + 1074))
  <= Zpos mx * 2 ^ (ex + 1074) * 2 ^ 1074 /\
  Zpos mx * 2 ^ (ex + 1074) * 2 ^ 1074
  < (Zpos m * 2 ^ (e + 1074) + 2 ^ (e + 1074)) * (Zpos my * 2 ^ (ey + 1074)).
Proof.
  intros Vx Vy E He.
  apply valid_finite_canonical in Vx as [Cx Bx].
  apply valid_finite_canonical in Vy as [Cy By].
  unfold div, SFdiv in E.
  destruct (SFdiv_core_binary_spec (Zpos mx) ex (Zpos my) ey eq_refl eq_refl) as [l Hc].
  rewrite Hc in E. clear Hc. rewrite fexp_eq in E.
  remember (Z.min (Z.max (Zdigits2 (Z.pos mx) + ex - (Zdigits2 (Z.pos my) + ey) - 53)
                         (-1074)) (ex - ey)) as e' eqn:He'.
  remember (ex - ey - e') as s' eqn:Hs'.
  assert (Hs0 : 0 <= s') by lia.
  remember (Z.pos mx * 2 ^ s' / Z.pos my) as q eqn:Eq.
  assert (Hp : 0 < 2 ^ s') by (apply Z.pow_pos_nonneg; lia).
  assert (Hq0 : 0 <= q).
  { rewrite Eq. apply Z.div_pos; [|lia]. apply Z.mul_nonneg_nonneg; lia. }
  assert (Hs : s = xorb sx sy).
  { pose proof (binary_round_aux_sign (xorb sx sy) q e' l Hq0) as S.
    rewrite E in S. exact S. }
  subst s.
  destruct (binary_round_aux_bounds _ q e' l m e Hq0 E) as (Hee & L & U).
  pose proof (Z.div_mod (Z.pos mx * 2 ^ s') (Z.pos my) ltac:(lia)) as Hdm.
  pose proof (Z.mod_pos_bound (Z.pos mx * 2 ^ s') (Z.pos my) eq_refl) as Hmod.
  rewrite <- Eq in Hdm.
  (* in terms of [q]: q * my <= mx * 2^s' < (q + 1) * my *)
  assert (Q1 : q * Z.pos my <= Z.pos mx * 2 ^ s') by lia.
  assert (Q2 : Z.pos mx * 2 ^ s' < (q + 1) * Z.pos my) by lia.
  assert (Hk : 0 <= e' + ey + 2148) by lia.
  assert (Hpk : 0 < 2 ^ (e' + ey + 2148)) by (apply Z.pow_pos_nonneg; lia).
  assert (EX : Z.pos mx * 2 ^ (ex + 1074) * 2 ^ 1074
               = Z.pos mx * 2 ^ s' * 2 ^ (e' + ey + 2148)).
  { rewrite <- !Z.mul_assoc, <- !Z.pow_add_r by lia. do 2 f_equal. lia. }
  assert (EU : 2 ^ (e + 1074) * (Z.pos my * 2 ^ (ey + 1074))
               = 2 ^ (e - e') * Z.pos my * 2 ^ (e' + ey + 2148)).
  { rewrite (Z.mul_comm (Z.pos my)), Z.mul_assoc, <- Z.pow_add_r by lia.
    rewrite <- (Z.mul_assoc _ (Z.pos my)), (Z.mul_comm (Z.pos my)), Z.mul_assoc.
    rewrite <- Z.pow_add_r by lia. do 2 f_equal. lia. }
  rewrite EX.
  replace ((Z.pos m * 2 ^ (e + 1074) - 2 ^ (e + 1074)) * (Z.pos my * 2 ^ (ey + 1074)))
    with ((Z.pos m - 1) * (2 ^ (e + 1074) * (Z.pos my * 2 ^ (ey + 1074)))) by ring.
  replace ((Z.pos m * 2 ^ (e + 1074) + 2 ^ (e + 1074)) * (Z.pos my * 2 ^ (ey + 1074)))
    with ((Z.pos m + 1) * (2 ^ (e + 1074) * (Z.pos my * 2 ^ (ey + 1074)))) by ring.
  rewrite EU. rewrite !Z.mul_assoc.
  split.
  - apply Z.mul_le_mono_nonneg_r; [lia|].
    apply Z.le_trans with (q * Z.pos my); [|assumption].
    apply Z.mul_le_mono_nonneg_r; [lia | assumption].
  - apply Z.mul_lt_mono_pos_r; [assumption|].
    apply Z.lt_le_trans with ((q + 1) * Z.pos my); [assumption|].
    apply Z.mul_le_mono_nonneg_r; [lia | assumption].
Qed.

(** ** Chains of quotients *)

(** With [T = 2^52]: a normal number is at least [T] units in the last
    place, so that [R - u >= R * (T - 1) / T] and
    [R + u <= R * (T + 1) / T]. *)
Lemma normal_lower T R u : 0 < T -> T * u <= R -> (T - 1) * R <= T * (R - u).
Proof. intros. nia. Qed.

Lemma normal_upper T R u : 0 < T -> T * u <= R -> T * (R + u) <= (T + 1) * R.
Proof. intros. nia. Qed.

(** [a = x / c] and [b = a / x], each within one unit in the last place:
    [b] is [U / c] up to the factor [(1 +- 1/T)^2]. *)
Lemma quotient_chain T U c Ra ua Rb ub Rx :
  0 < T -> 0 < c -> 0 < Ra -> 0 < Rb -> 0 < Rx -> 0 < U ->
  T * ua <= Ra -> T * ub <= Rb ->
  (Ra - ua) * c <= Rx -> Rx < (Ra + ua) * c ->
  (Rb - ub) * Rx <= Ra * U -> Ra * U < (Rb + ub) * Rx ->
  T * T * U < (T + 1) * (T + 1) * c * Rb /\
  (T - 1) * (T - 1) * c * Rb <= T * T * U.
Proof.
  intros HT Hc HRa HRb HRx HU Na Nb A1 A2 B1 B2.
  pose proof (normal_lower T Ra ua HT Na) as La.
  pose proof (normal_upper T Ra ua HT Na) as Ua.
  pose proof (normal_lower T Rb ub HT Nb) as Lb.
  pose proof (normal_upper T Rb ub HT Nb) as Ub.
  (* T * Rx < (T + 1) * Ra * c   and   (T - 1) * Ra * c <= T * Rx *)
  assert (X1 : T * Rx < (T + 1) * Ra * c) by nia.
  assert (X2 : (T - 1) * Ra * c <= T * Rx) by nia.
  (* T * Ra * U < (T + 1) * Rb * Rx   and   (T - 1) * Rb * Rx <= T * Ra * U *)
  assert (Y1 : T * (Ra * U) < (T + 1) * Rb * Rx) by nia.
  assert (Y2 : (T - 1) * Rb * Rx <= T * (Ra * U)) by nia.
  split.
  - (* multiply Y1 by T and X1 by (T + 1) * Rb *)
    assert (Z1 : T * (T * (Ra * U)) < (T + 1) * Rb * (T * Rx)) by nia.
    assert (Z2 : (T + 1) * Rb * (T * Rx) < (T + 1) * Rb * ((T + 1) * Ra * c)).
    { apply Z.mul_lt_mono_pos_l; [nia | exact X1]. }
    assert (Z3 : Ra * (T * T * U) < Ra * ((T + 1) * (T + 1) * c * Rb)) by nia.
    apply Z.mul_lt_mono_pos_l in Z3; assumption.
  - assert (Z1 : (T - 1) * Rb * ((T - 1) * Ra * c) <= (T - 1) * Rb * (T * Rx)).
    { apply Z.mul_le_mono_nonneg_l; [nia | exact X2]. }
    assert (Z2 : (T - 1) * Rb * (T * Rx) <= T * (T * (Ra * U))) by nia.
    assert (Z3 : Ra * ((T - 1) * (T - 1) * c * Rb) <= Ra * (T * T * U)) by nia.
    apply Z.mul_le_mono_pos_l in Z3; assumption.
Qed.

(** A quotient in the normal range: it is finite, has a full mantissa
    and is within one unit in the last place of the exact quotient. *)
Lemma div_normal sx mx ex sy my ey :
  valid (S754_finite sx mx ex) = true ->
  valid (S754_finite sy my ey) = true ->
  -1020 <= mag mx ex - mag my ey <= 969 ->
  exists m e,
    div (S754_finite sx mx ex) (S754_finite sy my ey)
    = S754_finite (xorb sx sy) m e /\
    -1074 < e /\
    mag mx ex - mag my ey <= mag m e <= mag mx ex - mag my ey + 2 /\
    2 ^ 52 * 2 ^ (e + 1074) <= Zpos m * 2 ^ (e + 1074) /\
    (Zpos m * 2 ^ (e + 1074) - 2 ^ (e + 1074)) * (Zpos my * 2 ^ (ey + 1074))
    <= Zpos mx * 2 ^ (ex + 1074) * 2 ^ 1074 /\
    Zpos mx * 2 ^ (ex + 1074) * 2 ^ 1074
    < (Zpos m * 2 ^ (e + 1074) + 2 ^ (e + 1074)) * (Zpos my * 2 ^ (ey + 1074)).
Proof.
  intros Vx Vy HD.
  destruct (SFdiv_finite_pos sx mx ex sy my ey) as [[_ Hb]|(m & e & E & Hd & He & Hm)];
    [lia | lia |].
  exists m, e.
  assert (He' : -1074 < e) by (unfold mag in *; lia).
  assert (Vr : valid (S754_finite (xorb sx sy) m e) = true)
    by (rewrite <- E; apply div_valid).
  split; [exact E|]. split; [exact He'|]. split; [exact Hm|]. split.
  - apply Z.mul_le_mono_nonneg_r; [apply Z.pow_nonneg; lia|].
    apply valid_finite_canonical in Vr as [C _].
    pose proof (digits2_pos_bounds m) as [B _].
    replace (Zpos (digits2_pos m) - 1) with 52 in B by lia. exact B.
  - apply (div_finite_bounds sx mx ex sy my ey (xorb sx sy) m e Vx Vy E). lia.
Qed.

Lemma mul_cancel_le_r a b c : 0 < c -> a * c <= b * c -> a <= b.
Proof. intros Hc H. nia. Qed.

Lemma mul_cancel_lt_r a b c : 0 < c -> a * c < b * c -> a < b.
Proof. intros Hc H. nia. Qed.

Lemma leb_rank x y :
  valid x = true -> valid y = true -> is_nan x = false -> is_nan y = false ->
  leb x y = true <-> rank x <= rank y.
Proof. intros. apply (geb_rank y x); assumption. Qed.

(** [a = x / c1], [p = x / c2] and [g = a / p]: [g] is [c2 / c1] up to
    three roundings. *)
Lemma ratio_chain T U c1 c2 Ra ua Rp up Rg ug Rx :
  1 < T -> 0 < c1 -> 0 < c2 -> 0 < Ra -> 0 < Rp -> 0 < Rg -> 0 < Rx -> 0 < U ->
  T * ua <= Ra -> T * up <= Rp -> T * ug <= Rg ->
  (Ra - ua) * c1 <= Rx -> Rx < (Ra + ua) * c1 ->
  (Rp - up) * c2 <= Rx -> Rx < (Rp + up) * c2 ->
  (Rg - ug) * Rp <= Ra * U -> Ra * U < (Rg + ug) * Rp ->
  T * (T - 1) * c2 * U < (T + 1) * (T + 1) * c1 * Rg /\
  (T - 1) * (T - 1) * c1 * Rg <= T * (T + 1) * c2 * U.
Proof.
  intros HT Hc1 Hc2 HRa HRp HRg HRx HU Na Np Ng A1 A2 P1 P2 G1 G2.
  assert (HT0 : 0 < T) by lia.
  pose proof (normal_lower T Ra ua HT0 Na) as La.
  pose proof (normal_upper T Ra ua HT0 Na) as Ua.
  pose proof (normal_lower T Rp up HT0 Np) as Lp.
  pose proof (normal_upper T Rp up HT0 Np) as Up.
  pose proof (normal_lower T Rg ug HT0 Ng) as Lg.
  pose proof (normal_upper T Rg ug HT0 Ng) as Ug.
  assert (X1 : T * Rx < (T + 1) * Ra * c1) by nia.
  assert (X2 : (T - 1) * Ra * c1 <= T * Rx) by nia.
  assert (W1 : T * Rx < (T + 1) * Rp * c2) by nia.
  assert (W2 : (T - 1) * Rp * c2 <= T * Rx) by nia.
  assert (Y1 : T * (Ra * U) < (T + 1) * Rg * Rp) by nia.
  assert (Y2 : (T - 1) * Rg * Rp <= T * (Ra * U)) by nia.
  split.
  - (* Rp * c2 * (T - 1) <= T * Rx < (T + 1) * Ra * c1 *)
    assert (Z1 : (T - 1) * Rp * c2 < (T + 1) * Ra * c1) by lia.
    assert (Z2 : T * (Ra * U) * ((T - 1) * c2)
                 < (T + 1) * Rg * Rp * ((T - 1) * c2)).
    { apply Z.mul_lt_mono_pos_r; [nia | exact Y1]. }
    assert (Z3 : (T + 1) * Rg * ((T - 1) * Rp * c2)
                 < (T + 1) * Rg * ((T + 1) * Ra * c1)).
    { apply Z.mul_lt_mono_pos_l; [nia | exact Z1]. }
    assert (Z4 : Ra * (T * (T - 1) * c2 * U) < Ra * ((T + 1) * (T + 1) * c1 * Rg))
      by nia.
    apply Z.mul_lt_mono_pos_l in Z4; assumption.
  - assert (Z1 : (T - 1) * Ra * c1 < (T + 1) * Rp * c2) by lia.
    assert (Z2 : (T - 1) * Rg * Rp * ((T + 1) * c2)
                 <= T * (Ra * U) * ((T + 1) * c2)).
    { apply Z.mul_le_mono_nonneg_r; [nia | exact Y2]. }
    assert (Z3 : (T - 1) * Rg * ((T - 1) * Ra * c1)
                 <= (T - 1) * Rg * ((T + 1) * Rp * c2)).
    { apply Z.mul_le_mono_nonneg_l; [nia | lia]. }
    assert (Z4 : Ra * ((T - 1) * (T - 1) * c1 * Rg) <= Ra * (T * (T + 1) * c2 * U))
      by nia.
    apply Z.mul_le_mono_pos_l in Z4; assumption.
Qed.

(** [b = x / r], [g = b / x] and [i = one / r] with [one] worth [U]
    units: [g] is [i] up to three roundings. *)
Lemma inverse_chain T U Rb ub Rg ug Ri ui Rx Rr :
  1 < T -> 0 < Rb -> 0 < Rg -> 0 < Ri -> 0 < Rx -> 0 < Rr -> 0 < U ->
  T * ub <= Rb -> T * ug <= Rg -> T * ui <= Ri ->
  (Rb - ub) * Rr <= Rx * U -> Rx * U < (Rb + ub) * Rr ->
  (Rg - ug) * Rx <= Rb * U -> Rb * U < (Rg + ug) * Rx ->
  (Ri - ui) * Rr <= U * U -> U * U < (Ri + ui) * Rr ->
  T * (T - 1) * Ri < (T + 1) * (T + 1) * Rg /\
  (T - 1) * (T - 1) * Rg < T * (T + 1) * Ri.
Proof.
  intros HT HRb HRg HRi HRx HRr HU Nb Ng Ni B1 B2 G1 G2 I1 I2.
  assert (HT0 : 0 < T) by lia.
  pose proof (normal_lower T Rb ub HT0 Nb) as Lb.
  pose proof (normal_upper T Rb ub HT0 Nb) as Ub.
  pose proof (normal_lower T Rg ug HT0 Ng) as Lg.
  pose proof (normal_upper T Rg ug HT0 Ng) as Ug.
  pose proof (normal_lower T Ri ui HT0 Ni) as Li.
  pose proof (normal_upper T Ri ui HT0 Ni) as Ui.
  assert (X1 : T * (Rx * U) < (T + 1) * Rb * Rr) by nia.
  assert (X2 : (T - 1) * Rb * Rr <= T * (Rx * U)) by nia.
  assert (Y1 : T * (Rb * U) < (T + 1) * Rg * Rx) by nia.
  assert (Y2 : (T - 1) * Rg * Rx <= T * (Rb * U)) by nia.
  assert (W1 : T * (U * U) < (T + 1) * Ri * Rr) by nia.
  assert (W2 : (T - 1) * Ri * Rr <= T * (U * U)) by nia.
  split.
  - (* (T-1) Ri Rr <= T U U ;  T Rx U < (T+1) Rb Rr ; T Rb U < (T+1) Rg Rx *)
    assert (Z1 : T * (Rx * U) * (T * (Rb * U))
                 < (T + 1) * Rb * Rr * ((T + 1) * Rg * Rx)).
    { apply Z.le_lt_trans with ((T + 1) * Rb * Rr * (T * (Rb * U))).
      - apply Z.mul_le_mono_nonneg_r; [nia | lia].
      - apply Z.mul_lt_mono_pos_l; [nia | exact Y1]. }
    assert (Z2 : (Rx * Rb) * (T * (T * (U * U)))
                 < (Rx * Rb) * ((T + 1) * (T + 1) * Rg * Rr)) by nia.
    apply Z.mul_lt_mono_pos_l in Z2; [|nia].
    assert (Z3 : Rr * (T * (T - 1) * Ri) < Rr * ((T + 1) * (T + 1) * Rg)) by nia.
    apply Z.mul_lt_mono_pos_l in Z3; assumption.
  - assert (Z1 : (T - 1) * Rb * Rr * ((T - 1) * Rg * Rx)
                 <= T * (Rx * U) * (T * (Rb * U))).
    { apply Z.le_trans with (T * (Rx * U) * ((T - 1) * Rg * Rx)).
      - apply Z.mul_le_mono_nonneg_r; [nia | exact X2].
      - apply Z.mul_le_mono_nonneg_l; [nia | exact Y2]. }
    assert (Z2 : (Rx * Rb) * ((T - 1) * (T - 1) * Rg * Rr)
                 <= (Rx * Rb) * (T * (T * (U * U)))) by nia.
    apply Z.mul_le_mono_pos_l in Z2; [|nia].
    assert (Z3 : Rr * ((T - 1) * (T - 1) * Rg) < Rr * (T * (T + 1) * Ri)) by nia.
    apply Z.mul_lt_mono_pos_l in Z3; assumption.
Qed.

Lemma of_Z_60_units : Z.pos 8444249301319680 * 2 ^ (-47 + 1074) = 60 * 2 ^ 1074.
Proof.
  change (-47 + 1074) with 1027. change 1074 with (47 + 1027).
  rewrite Z.pow_add_r by lia. change (2 ^ 47) with 140737488355328. lia.
Qed.

Lemma of_Z_1000_units : Z.pos 8796093022208000 * 2 ^ (-43 + 1074) = 1000 * 2 ^ 1074.
Proof.
  change (-43 + 1074) with 1031. change 1074 with (43 + 1031).
  rewrite Z.pow_add_r by lia. change (2 ^ 43) with 8796093022208. lia.
Qed.

Lemma of_Z_1_units : Z.pos 4503599627370496 * 2 ^ (-52 + 1074) = 2 ^ 1074.
Proof.
  change (-52 + 1074) with 1022. change (2 ^ 1074) with (2 ^ (52 + 1022)).
  rewrite Z.pow_add_r by lia. change (2 ^ 52) with 4503599627370496. lia.
Qed.

Lemma close_refl x : is_nan x = false -> close x x.
Proof.
  intros H. repeat split; try assumption.
  rewrite Z.sub_diag. simpl. apply Z.abs_nonneg.
Qed.

Lemma close_of_chain s mg eg mi ei :
  2 ^ 52 * (2 ^ 52 - 1) * (Zpos mi * 2 ^ (ei + 1074))
  < (2 ^ 52 + 1) * (2 ^ 52 + 1) * (Zpos mg * 2 ^ (eg + 1074)) ->
  (2 ^ 52 - 1) * (2 ^ 52 - 1) * (Zpos mg * 2 ^ (eg + 1074))
  < 2 ^ 52 * (2 ^ 52 + 1) * (Zpos mi * 2 ^ (ei + 1074)) ->
  close (S754_finite s mg eg) (S754_finite s mi ei).
Proof.
  intros L U. split; [reflexivity|]. split; [reflexivity|].
  cbn [rank]. remember (Zpos mg * 2 ^ (eg + 1074)) as Rg.
  remember (Zpos mi * 2 ^ (ei + 1074)) as Ri.
  change (2 ^ 52) with 4503599627370496 in *.
  change (2 ^ 50) with 1125899906842624.
  destruct s; cbn [cond_Zopp]; lia.
Qed.

(** * Facts about the timers *)

(** ** Unfolding the <chrono> conversions of PerformanceTimer11 *)

Lemma Timer11_GetElapsed_eq t :
  Timer11.GetElapsed t =
  div (of_Z (Int64.sub (Timer11.m_stopTime t) (Timer11.m_startTime t)))
      (of_Z 1000000).
Proof. reflexivity. Qed.

Lemma Timer11_GetRemaining_eq t :
  Timer11.GetRemaining t =
  sub (mul (Timer11.m_interval t) (of_Z 1000))
      (div (of_Z (Int64.sub (Timer11.m_stopTime t) (Timer11.m_startTime t)))
           (of_Z 1000000)).
Proof. reflexivity. Qed.

Lemma Timer11_IntervalHasElapsed_eq t :
  Timer11.IntervalHasElapsed t =
  negb (ltb (of_Z (Int64.sub (Timer11.m_stopTime t) (Timer11.m_startTime t)))
            (mul (Timer11.m_interval t) (of_Z 1000000000))).
Proof. reflexivity. Qed.

(** ** 64-bit integers and instants *)

Lemma Int64_wrap_small z : Int64.in_range z -> Int64.wrap z = z.
Proof.
  unfold Int64.in_range, Int64.min_signed, Int64.max_signed, Int64.wrap.
  intros H. rewrite Z.mod_small by lia. lia.
Qed.

Lemma Int64_sub_diag a : Int64.sub a a = 0.
Proof. unfold Int64.sub. rewrite Z.sub_diag. reflexivity. Qed.

Lemma timersub_diag a : Posix98.timersub a a = Posix98.mkTimeval 0 0.
Proof. unfold Posix98.timersub. rewrite !Int64_sub_diag. reflexivity. Qed.

(** ** Signs of the quantities stored on Windows *)

Lemma Win98_perMillisecond_pos t :
  Win98.calibrated t ->
  exists m e, Win98.m_perMillisecond t = S754_finite false m e.
Proof.
  intros (_ & HP & E). rewrite E.
  unfold Int64.max_signed in HP.
  destruct (div_of_Z_pos_finite (Win98.m_perSecond t) 1000) as (m & e & Em & _);
    [lia..|].
  exists m, e. exact Em.
Qed.

Lemma Win98_perSecond_pos t :
  Win98.calibrated t ->
  exists m e, of_Z (Win98.m_perSecond t) = S754_finite false m e.
Proof.
  intros (_ & HP & _). unfold Int64.max_signed in HP.
  destruct (of_Z_pos (Win98.m_perSecond t)) as (m & e & E & _); [lia|].
  exists m, e. exact E.
Qed.

(** On a supported platform a positive interval in seconds is a positive
    interval in ticks. *)
Lemma Win98_interval_pos t :
  Win98.calibrated t ->
  ltb zero (Win98.GetInterval t) = true ->
  pos (Win98.m_interval t) = true.
Proof.
  intros Hc H. rewrite ltb_zero_pos in H. unfold Win98.GetInterval in H.
  destruct (Win98_perSecond_pos t Hc) as (m & e & E). rewrite E in H.
  eapply pos_div_pos_finite; eassumption.
Qed.

(** ** Runs of calls *)

Lemma run_app {I T} (step : call I -> T -> outcome T) cs1 cs2 t :
  run step (cs1 ++ cs2) t = bind (run step cs1 t) (run step cs2).
Proof.
  revert t. induction cs1 as [|c cs1 IH]; intros t; simpl; [reflexivity|].
  destruct (step c t) as [t1|]; simpl; [apply IH | reflexivity].
Qed.

Lemma Posix98_stops nows : forall b t,
  exists t', run (posix98_step b) (map CallStop nows) t = Done t' /\
             Posix98.m_startTime t' = Posix98.m_startTime t /\
             Posix98.m_interval t' = Posix98.m_interval t.
Proof.
  induction nows as [|n nows IH]; intros b t; simpl.
  - exists t. auto.
  - destruct (IH b (Posix98.Stop n t)) as (t' & E & H1 & H2).
    exists t'. auto.
Qed.

Lemma Timer11_stops nows : forall b t,
  exists t', run (timer11_step b) (map CallStop nows) t = Done t' /\
             Timer11.m_startTime t' = Timer11.m_startTime t /\
             Timer11.m_interval t' = Timer11.m_interval t.
Proof.
  induction nows as [|n nows IH]; intros b t; simpl.
  - exists t. auto.
  - destruct (IH b (Timer11.Stop n t)) as (t' & E & H1 & H2).
    exists t'. auto.
Qed.

Lemma Win98_Stop_done b now t :
  assert b (Win98.IsSupportedPlatform t) = Done tt ->
  Win98.Stop b now t = Done (Win98.set_stop t now).
Proof.
  intros H. unfold Win98.Stop.
  change (Win98.IsSupportedPlatform (Win98.set_stop t now))
    with (Win98.IsSupportedPlatform t).
  rewrite H. reflexivity.
Qed.

Lemma Win98_stops b nows : forall t,
  assert b (Win98.IsSupportedPlatform t) = Done tt ->
  exists t', run (win98_step b) (map CallStop nows) t = Done t' /\
             Win98.m_startTime t' = Win98.m_startTime t /\
             Win98.m_interval t' = Win98.m_interval t /\
             Win98.m_perSecond t' = Win98.m_perSecond t /\
             Win98.m_perMillisecond t' = Win98.m_perMillisecond t /\
             Win98.m_valid t' = Win98.m_valid t.
Proof.
  induction nows as [|n nows IH]; intros t H; simpl.
  - exists t. repeat split.
  - rewrite Win98_Stop_done by assumption. simpl.
    destruct (IH (Win98.set_stop t n) H) as (t' & E & H1).
    exists t'. split; [exact E | exact H1].
Qed.

(** ** Invariants of the reachable states *)

Lemma Done_inj {A} (a b : A) : Done a = Done b -> a = b.
Proof. intros H. injection H as H. exact H. Qed.

Lemma run_invariant {I T} (step : call I -> T -> outcome T) (Inv : T -> Prop) :
  (forall c t t', Inv t -> step c t = Done t' -> Inv t') ->
  forall cs t t', Inv t -> run step cs t = Done t' -> Inv t'.
Proof.
  intros Hstep cs. induction cs as [|c cs IH]; intros t t' Ht E; simpl in E.
  - injection E as <-. exact Ht.
  - destruct (step c t) as [t1|] eqn:E1; simpl in E; [|discriminate].
    eapply IH; [|exact E]. eapply Hstep; eassumption.
Qed.

Lemma timer11_reachable_valid b t :
  timer11_reachable b t -> valid (Timer11.m_interval t) = true.
Proof.
  intros [cs E]. revert E.
  apply (run_invariant (timer11_step b)
           (fun t => valid (Timer11.m_interval t) = true)); [|reflexivity].
  intros [r|now|now] t0 t1 H0 E; cbn [timer11_step] in E.
  - unfold Timer11.SetInterval in E.
    destruct (eqb r (of_Z 0)); [destruct b; cbn [assert bind] in E|];
      try discriminate; apply Done_inj in E; subst t1;
      [assumption|apply div_valid].
  - apply Done_inj in E; subst t1. exact H0.
  - apply Done_inj in E; subst t1. exact H0.
Qed.

Lemma posix98_reachable_valid b t :
  posix98_reachable b t -> valid (Posix98.m_interval t) = true.
Proof.
  intros [cs E]. revert E.
  apply (run_invariant (posix98_step b)
           (fun t => valid (Posix98.m_interval t) = true)); [|reflexivity].
  intros [r|now|now] t0 t1 H0 E; cbn [posix98_step] in E.
  - unfold Posix98.SetInterval in E.
    destruct (eqb r (of_Z 0)); [destruct b; cbn [assert bind] in E|];
      try discriminate; apply Done_inj in E; subst t1;
      [assumption|apply div_valid].
  - apply Done_inj in E; subst t1. exact H0.
  - apply Done_inj in E; subst t1. exact H0.
Qed.

Lemma win98_reachable_calibrated b q t :
  Win98.query_succeeded q -> win98_reachable b q t ->
  Win98.calibrated t /\ valid (Win98.m_interval t) = true.
Proof.
  intros [Hok HP] [cs E]. revert E.
  apply (run_invariant (win98_step b)
           (fun t => Win98.calibrated t /\ valid (Win98.m_interval t) = true)).
  - intros [r|now|now] t0 t1 [(Hv & [Hp1 Hp2] & Hm) Hi] E; cbn [win98_step] in E.
    + unfold Win98.SetInterval in E.
      destruct (eqb r (of_Z 0)); [destruct b; cbn [assert bind] in E|];
        try discriminate; apply Done_inj in E; subst t1.
      * repeat split; assumption.
      * repeat split; try assumption. apply div_valid.
    + unfold Win98.Start, Win98.IsSupportedPlatform in E. rewrite Hv in E.
      destruct b; cbn [assert bind] in E; apply Done_inj in E; subst t1;
        repeat split; assumption.
    + unfold Win98.Stop, Win98.IsSupportedPlatform in E.
      cbn [Win98.set_stop Win98.m_valid] in E. rewrite Hv in E.
      destruct b; cbn [assert bind] in E; apply Done_inj in E; subst t1;
        repeat split; assumption.
  - split; [|apply div_valid]. repeat split; try assumption; apply HP.
Qed.

(** ** The timer with equal instants *)

Lemma Win98_Start_done b now t :
  Win98.calibrated t ->
  Win98.Start b now t = Done (Win98.set_stop (Win98.set_start t now) now).
Proof.
  intros (Hv & _). unfold Win98.Start, Win98.IsSupportedPlatform.
  rewrite Hv. destruct b; reflexivity.
Qed.

Lemma Win98_elapsed_zero t :
  Win98.calibrated t -> Win98.m_stopTime t = Win98.m_startTime t ->
  Win98.GetElapsed t = zero.
Proof.
  intros Hc E. unfold Win98.GetElapsed. rewrite E, Int64_sub_diag.
  destruct (Win98_perMillisecond_pos t Hc) as (m & e & Em). rewrite Em.
  reflexivity.
Qed.

Lemma Win98_not_elapsed t :
  Win98.calibrated t -> Win98.m_stopTime t = Win98.m_startTime t ->
  ltb zero (Win98.GetInterval t) = true ->
  Win98.IntervalHasElapsed t = false.
Proof.
  intros Hc E Hp. unfold Win98.IntervalHasElapsed. rewrite E, Int64_sub_diag.
  apply geb_zero_pos. apply Win98_interval_pos; assumption.
Qed.

Lemma Posix98_elapsed_zero t :
  Posix98.m_stopTime t = Posix98.m_startTime t -> Posix98.GetElapsed t = zero.
Proof.
  intros E. unfold Posix98.GetElapsed. rewrite E, timersub_diag. reflexivity.
Qed.

Lemma Posix98_not_elapsed t :
  Posix98.m_stopTime t = Posix98.m_startTime t ->
  ltb zero (Posix98.GetInterval t) = true ->
  Posix98.IntervalHasElapsed t = false.
Proof.
  intros E Hp. unfold Posix98.IntervalHasElapsed. rewrite E, timersub_diag.
  rewrite ltb_zero_pos in Hp.
  change (add (of_Z (Posix98.tv_sec (Posix98.mkTimeval 0 0)))
              (div (of_Z (Posix98.tv_usec (Posix98.mkTimeval 0 0)))
                   (of_Z 1000000)))
    with (S754_zero false).
  apply geb_zero_pos. exact Hp.
Qed.

Lemma Timer11_elapsed_zero t :
  Timer11.m_stopTime t = Timer11.m_startTime t -> Timer11.GetElapsed t = zero.
Proof.
  intros E. rewrite Timer11_GetElapsed_eq, E, Int64_sub_diag. reflexivity.
Qed.

Lemma Timer11_not_elapsed t :
  valid (Timer11.m_interval t) = true ->
  Timer11.m_stopTime t = Timer11.m_startTime t ->
  ltb zero (Timer11.GetInterval t) = true ->
  Timer11.IntervalHasElapsed t = false.
Proof.
  intros Hv E Hp. rewrite Timer11_IntervalHasElapsed_eq, E, Int64_sub_diag.
  rewrite ltb_zero_pos in Hp.
  change (of_Z 0) with (S754_zero false).
  rewrite ltb_zero_pos_true; [reflexivity|].
  apply mul_pos_of_Z; [assumption | assumption | lia].
Qed.

(** ** The fresh timer *)

Lemma win98_reachable_init b q :
  win98_reachable b q (Win98.PerformanceTimer98 q).
Proof. exists []. reflexivity. Qed.

Lemma timer11_reachable_init b :
  timer11_reachable b Timer11.PerformanceTimer11.
Proof. exists []. reflexivity. Qed.

Lemma posix98_reachable_init b :
  posix98_reachable b Posix98.PerformanceTimer98.
Proof. exists []. reflexivity. Qed.

Lemma query_succeeded_10MHz :
  Win98.query_succeeded (Win98.mkQuery true 10000000).
Proof. split; [reflexivity|]. unfold Int64.max_signed. simpl. lia. Qed.

Lemma Int64_sub_small a b :
  0 <= a - b <= Int64.max_signed -> Int64.sub a b = a - b.
Proof.
  intros H. unfold Int64.sub. apply Int64_wrap_small.
  unfold Int64.in_range, Int64.min_signed, Int64.max_signed in *. lia.
Qed.

Lemma timersub_nonneg a b :
  Posix98.well_formed a -> Posix98.well_formed b -> Posix98.tv_le a b ->
  0 <= Posix98.tv_sec (Posix98.timersub b a) /\
  0 <= Posix98.tv_usec (Posix98.timersub b a) < 1000000.
Proof.
  unfold Posix98.well_formed, Posix98.tv_le, Posix98.timersub.
  intros [Ha1 Ha2] [Hb1 Hb2] Hle.
  unfold Int64.max_signed in *.
  assert (Es : Int64.sub (Posix98.tv_sec b) (Posix98.tv_sec a)
               = Posix98.tv_sec b - Posix98.tv_sec a).
  { apply Int64_sub_small. unfold Int64.max_signed. lia. }
  assert (Eu : Int64.sub (Posix98.tv_usec b) (Posix98.tv_usec a)
               = Posix98.tv_usec b - Posix98.tv_usec a).
  { unfold Int64.sub. apply Int64_wrap_small.
    unfold Int64.in_range, Int64.min_signed, Int64.max_signed. lia. }
  rewrite Es, Eu.
  destruct (Z.ltb_spec (Posix98.tv_usec b - Posix98.tv_usec a) 0) as [Hlt|Hge];
    cbn [Posix98.tv_sec Posix98.tv_usec].
  - rewrite Int64_sub_small by (unfold Int64.max_signed; lia).
    unfold Int64.add. rewrite Int64_wrap_small
      by (unfold Int64.in_range, Int64.min_signed, Int64.max_signed; lia).
    lia.
  - lia.
Qed.

Lemma calibrated_10MHz :
  Win98.calibrated (Win98.PerformanceTimer98 (Win98.mkQuery true 10000000)).
Proof.
  exact (proj1 (win98_reachable_calibrated Release _ _ query_succeeded_10MHz
                  (win98_reachable_init Release _))).
Qed.

Lemma Int64_wrap_range z : Int64.in_range (Int64.wrap z).
Proof.
  unfold Int64.in_range, Int64.wrap, Int64.min_signed, Int64.max_signed.
  pose proof (Z.mod_pos_bound (z + 2 ^ 63) (2 ^ 64) eq_refl). lia.
Qed.

Lemma of_Z_int64_finite z : Int64.in_range z -> is_finite (of_Z z) = true.
Proof.
  unfold Int64.in_range, Int64.min_signed, Int64.max_signed. intros H.
  apply of_Z_finite.
  assert (2 ^ 63 < 2 ^ 900) by (apply Z.pow_lt_mono_r; lia). lia.
Qed.

Lemma timersub_range a b :
  Int64.in_range (Posix98.tv_sec (Posix98.timersub a b)) /\
  Int64.in_range (Posix98.tv_usec (Posix98.timersub a b)).
Proof.
  unfold Posix98.timersub.
  destruct (Int64.sub (Posix98.tv_usec a) (Posix98.tv_usec b) <? 0);
    cbn [Posix98.tv_sec Posix98.tv_usec]; split; apply Int64_wrap_range.
Qed.

(** ** The elapsed seconds of the POSIX branch *)

(** The elapsed time in seconds that the POSIX branch compares with the
    interval is a number. *)
Lemma Posix98_elapsed_seconds_ok d :
  Int64.in_range (Posix98.tv_sec d) -> Int64.in_range (Posix98.tv_usec d) ->
  valid (add (of_Z (Posix98.tv_sec d))
             (div (of_Z (Posix98.tv_usec d)) (of_Z 1000000))) = true /\
  is_nan (add (of_Z (Posix98.tv_sec d))
              (div (of_Z (Posix98.tv_usec d)) (of_Z 1000000))) = false.
Proof.
  intros Hs Hu. split.
  - apply add_valid; [apply of_Z_valid | apply div_valid].
  - apply add_not_nan; [apply of_Z_int64_finite; assumption|].
    rewrite of_Z_1000000. apply div_not_nan. apply of_Z_not_nan.
Qed.

(** ** The example rates *)

Example rate_9us_eq : rate_9us = div (of_Z 1000000) (of_Z 9).
Proof. vm_compute. reflexivity. Qed.

Example rate_13us_eq : rate_13us = div (of_Z 1000000) (of_Z 13).
Proof. vm_compute. reflexivity. Qed.

(** The round trip of the specification: a rate of 30 gives 1/30 s, on
    Windows at 10 MHz too. *)
Example round_trip_30 :
  (exists t, Posix98.SetInterval Release (of_Z 30) Posix98.PerformanceTimer98 = Done t /\
             Posix98.GetInterval t = S754_finite false 4803839602528529 (-57)) /\
  (exists t, Timer11.SetInterval Release (of_Z 30) Timer11.PerformanceTimer11 = Done t /\
             Timer11.GetInterval t = S754_finite false 4803839602528529 (-57)) /\
  (exists t, Win98.SetInterval Release (of_Z 30)
               (Win98.PerformanceTimer98 (Win98.mkQuery true 10000000)) = Done t /\
             Win98.GetInterval t = S754_finite false 4803839602528529 (-57)).
Proof.
  repeat split; eexists; (split; [reflexivity | vm_compute; reflexivity]).
Qed.

(** ** The variants represent the timer of the specification *)

Lemma run_outcome_map {A T U} (f : T -> U)
  (stepT : call A -> T -> outcome T) (stepU : call A -> U -> outcome U) :
  (forall c t, stepU c (f t) = outcome_map f (stepT c t)) ->
  forall cs t, run stepU cs (f t) = outcome_map f (run stepT cs t).
Proof.
  intros Hstep cs. induction cs as [|c cs IH]; intros t; simpl; [reflexivity|].
  rewrite Hstep. destruct (stepT c t) as [t1|]; simpl; [apply IH | reflexivity].
Qed.

Lemma run_map_call {A I T} (read : A -> I) (step : call I -> T -> outcome T) cs :
  forall t, run step (map (map_call read) cs) t
            = run (fun c => step (map_call read c)) cs t.
Proof.
  induction cs as [|c cs IH]; intros t; simpl; [reflexivity|].
  destruct (step (map_call read c) t); simpl; [apply IH | reflexivity].
Qed.

Lemma posix98_step_repr {A} (read : A -> Posix98.timeval) b c s :
  posix98_step b (map_call read c) (repr_posix98 read s)
  = outcome_map (repr_posix98 read) (IntervalTimer.step b c s).
Proof.
  destruct c as [r|now|now]; cbn [map_call posix98_step IntervalTimer.step].
  - unfold Posix98.SetInterval. destruct (eqb r (of_Z 0)); [|reflexivity].
    destruct b; reflexivity.
  - reflexivity.
  - reflexivity.
Qed.

Lemma timer11_step_repr {A} (read : A -> Z) b c s :
  timer11_step b (map_call read c) (repr_timer11 read s)
  = outcome_map (repr_timer11 read) (IntervalTimer.step b c s).
Proof.
  destruct c as [r|now|now]; cbn [map_call timer11_step IntervalTimer.step].
  - unfold Timer11.SetInterval. destruct (eqb r (of_Z 0)); [|reflexivity].
    destruct b; reflexivity.
  - reflexivity.
  - reflexivity.
Qed.

Lemma win98_step_repr {A} q (read : A -> Z) b c s :
  Win98.qpf_ok q = true ->
  win98_step b (map_call read c) (repr_win98 q read s)
  = outcome_map (repr_win98 q read) (IntervalTimer.step b c s).
Proof.
  intros Hq.
  destruct c as [r|now|now]; cbn [map_call win98_step IntervalTimer.step].
  - unfold Win98.SetInterval. destruct (eqb r (of_Z 0)); [|reflexivity].
    destruct b; reflexivity.
  - unfold Win98.Start, Win98.IsSupportedPlatform.
    cbn [repr_win98 Win98.m_valid]. rewrite Hq. destruct b; reflexivity.
  - unfold Win98.Stop, Win98.IsSupportedPlatform.
    cbn [repr_win98 Win98.set_stop Win98.m_valid]. rewrite Hq.
    destruct b; reflexivity.
Qed.

Lemma of_Z_int64_pos z :
  0 < z <= Int64.max_signed ->
  exists m e, of_Z z = S754_finite false m e /\
              valid (S754_finite false m e) = true /\ 1 <= mag m e <= 65.
Proof.
  unfold Int64.max_signed. intros Hz.
  destruct (of_Z_pos z) as (m & e & E & _ & _ & B); [lia|].
  pose proof (Zdigits2_range z ltac:(lia)).
  exists m, e. split; [exact E|]. split; [rewrite <- E; apply of_Z_valid | lia].
Qed.

(** ** The Windows interval up to rounding *)

(** On Windows the interval of a fresh timer, [(f / 60.0) / f], is 1/60
    up to two roundings, whatever the frequency [f]. *)
Lemma Win98_default_interval_bounds q :
  Win98.query_succeeded q ->
  exists m e,
    Win98.GetInterval (Win98.PerformanceTimer98 q) = S754_finite false m e /\
    2 ^ 52 * 2 ^ 52 * 2 ^ 1074
    < (2 ^ 52 + 1) * (2 ^ 52 + 1) * 60 * (Zpos m * 2 ^ (e + 1074)) /\
    (2 ^ 52 - 1) * (2 ^ 52 - 1) * 60 * (Zpos m * 2 ^ (e + 1074))
    <= 2 ^ 52 * 2 ^ 52 * 2 ^ 1074.
Proof.
  intros [_ HP]. unfold Win98.GetInterval.
  cbn [Win98.PerformanceTimer98 Win98.m_interval Win98.m_perSecond].
  destruct (of_Z_int64_pos _ HP) as (mx & ex & Ex & Vx & Mx). rewrite Ex.
  change (of_Z 60) with (S754_finite false 8444249301319680 (-47)).
  destruct (div_normal false mx ex false 8444249301319680 (-47) Vx eq_refl)
    as (ma & ea & Ea & Hea & Ma & Na & A1 & A2).
  { change (mag 8444249301319680 (-47)) with 6. lia. }
  change (mag 8444249301319680 (-47)) with 6 in Ma.
  cbn [xorb] in Ea. rewrite Ea.
  assert (Va : valid (S754_finite false ma ea) = true)
    by (rewrite <- Ea; apply div_valid).
  destruct (div_normal false ma ea false mx ex Va Vx)
    as (mb & eb & Eb & Heb & Mb & Nb & B1 & B2); [lia|].
  cbn [xorb] in Eb. rewrite Eb. exists mb, eb. split; [reflexivity|].
  assert (HU : 0 < 2 ^ 1074) by (apply Z.pow_pos_nonneg; lia).
  assert (Hc : Z.pos 8444249301319680 * 2 ^ (-47 + 1074) = 60 * 2 ^ 1074).
  { change (-47 + 1074) with 1027. change 1074 with (47 + 1027).
    rewrite Z.pow_add_r by lia. change (2 ^ 47) with 140737488355328. lia. }
  rewrite Hc in A1, A2.
  assert (A1' : (Z.pos ma * 2 ^ (ea + 1074) - 2 ^ (ea + 1074)) * 60
                <= Z.pos mx * 2 ^ (ex + 1074)).
  { apply (mul_cancel_le_r _ _ (2 ^ 1074) HU). lia. }
  assert (A2' : Z.pos mx * 2 ^ (ex + 1074)
                < (Z.pos ma * 2 ^ (ea + 1074) + 2 ^ (ea + 1074)) * 60).
  { apply (mul_cancel_lt_r _ _ (2 ^ 1074) HU). lia. }
  apply (quotient_chain (2 ^ 52) (2 ^ 1074) 60
           (Z.pos ma * 2 ^ (ea + 1074)) (2 ^ (ea + 1074))
           (Z.pos mb * 2 ^ (eb + 1074)) (2 ^ (eb + 1074))
           (Z.pos mx * 2 ^ (ex + 1074)));
    try assumption; try lia;
    try (apply finite_units_pos; apply valid_finite_canonical in Va;
         apply valid_finite_canonical in Vx; lia).
Qed.

(** On Windows, whatever the frequency, the interval of a fresh timer
    lies between 0.0166666666666666 and 0.0166666666666667. *)
Lemma Win98_default_interval_close q :
  Win98.query_succeeded q ->
  leb (div (of_Z 166666666666666) (of_Z 10000000000000000))
      (Win98.GetInterval (Win98.PerformanceTimer98 q)) = true /\
  leb (Win98.GetInterval (Win98.PerformanceTimer98 q))
      (div (of_Z 166666666666667) (of_Z 10000000000000000)) = true.
Proof.
  intros Hq.
  destruct (Win98_default_interval_bounds q Hq) as (m & e & E & L & U).
  assert (V : valid (S754_finite false m e) = true)
    by (rewrite <- E; apply div_valid).
  rewrite E.
  set (lo := div (of_Z 166666666666666) (of_Z 10000000000000000)).
  set (hi := div (of_Z 166666666666667) (of_Z 10000000000000000)).
  assert (Hlo : rank lo * ((2 ^ 52 + 1) * (2 ^ 52 + 1) * 60)
                <= 2 ^ 52 * 2 ^ 52 * 2 ^ 1074)
    by (vm_compute; discriminate).
  assert (Hhi : 2 ^ 52 * 2 ^ 52 * 2 ^ 1074
                <= rank hi * ((2 ^ 52 - 1) * (2 ^ 52 - 1) * 60))
    by (vm_compute; discriminate).
  split.
  - apply leb_rank; try reflexivity; try assumption.
    cbn [rank cond_Zopp].
    apply Z.lt_le_incl.
    apply (mul_cancel_lt_r _ _ ((2 ^ 52 + 1) * (2 ^ 52 + 1) * 60)); [reflexivity|].
    lia.
  - apply leb_rank; try reflexivity; try assumption.
    cbn [rank cond_Zopp].
    apply (mul_cancel_le_r _ _ ((2 ^ 52 - 1) * (2 ^ 52 - 1) * 60)); [reflexivity|].
    lia.
Qed.

(** On Windows, for a rate [r] between [2^-900] and [2^900] in absolute
    value, [SetInterval(r)] then [GetInterval()] returns [(f / r) / f],
    which is [1/r] up to three roundings. *)
Lemma Win98_set_get_close t s m e :
  Win98.calibrated t ->
  valid (S754_finite s m e) = true ->
  -900 <= mag m e <= 900 ->
  close (div (div (of_Z (Win98.m_perSecond t)) (S754_finite s m e))
             (of_Z (Win98.m_perSecond t)))
        (div (of_Z 1) (S754_finite s m e)).
Proof.
  intros (_ & HP & _) Vr Mr.
  destruct (of_Z_int64_pos _ HP) as (mx & ex & Ex & Vx & Mx). rewrite Ex.
  change (of_Z 1) with (S754_finite false 4503599627370496 (-52)).
  destruct (div_normal false mx ex s m e Vx Vr)
    as (mb & eb & Eb & Heb & Mb & Nb & B1 & B2); [lia|].
  rewrite Eb.
  assert (Vb : valid (S754_finite (xorb false s) mb eb) = true)
    by (rewrite <- Eb; apply div_valid).
  destruct (div_normal (xorb false s) mb eb false mx ex Vb Vx)
    as (mg & eg & Eg & Heg & Mg & Ng & G1 & G2); [lia|].
  rewrite Eg.
  destruct (div_normal false 4503599627370496 (-52) s m e eq_refl Vr)
    as (mi & ei & Ei & Hei & Mi & Ni & I1 & I2).
  { change (mag 4503599627370496 (-52)) with 1. lia. }
  rewrite Ei. rewrite of_Z_1_units in I1, I2.
  assert (Vg : valid (S754_finite (xorb (xorb false s) false) mg eg) = true)
    by (rewrite <- Eg; apply div_valid).
  assert (Vi : valid (S754_finite (xorb false s) mi ei) = true)
    by (rewrite <- Ei; apply div_valid).
  assert (Hpos : forall s' m' e', valid (S754_finite s' m' e') = true ->
                                  0 < Z.pos m' * 2 ^ (e' + 1074)).
  { intros s' m' e' V. apply finite_units_pos.
    apply valid_finite_canonical in V. lia. }
  assert (HU : 0 < 2 ^ 1074) by (apply Z.pow_pos_nonneg; lia).
  destruct (inverse_chain (2 ^ 52) (2 ^ 1074)
              (Z.pos mb * 2 ^ (eb + 1074)) (2 ^ (eb + 1074))
              (Z.pos mg * 2 ^ (eg + 1074)) (2 ^ (eg + 1074))
              (Z.pos mi * 2 ^ (ei + 1074)) (2 ^ (ei + 1074))
              (Z.pos mx * 2 ^ (ex + 1074)) (Z.pos m * 2 ^ (e + 1074)))
    as [L U]; try assumption; try (eapply Hpos; eassumption); try reflexivity.
  replace (xorb (xorb false s) false) with (xorb false s) by (destruct s; reflexivity).
  apply close_of_chain; lia.
Qed.

(** On Windows the remaining time of a fresh timer is the interval in
    ticks over the ticks per millisecond: the two instants are zero and
    drop out of the sum. *)
Lemma Win98_fresh_remaining q :
  Win98.query_succeeded q ->
  Win98.GetRemaining (Win98.PerformanceTimer98 q)
  = div (Win98.m_interval (Win98.PerformanceTimer98 q))
        (Win98.m_perMillisecond (Win98.PerformanceTimer98 q)).
Proof.
  intros [_ HP]. unfold Int64.max_signed in HP.
  destruct (div_of_Z_pos_finite (Win98.qpf_value q) 60) as (mi & ei & Ei & _);
    [lia..|].
  unfold Win98.GetRemaining.
  cbn [Win98.PerformanceTimer98 Win98.m_interval Win98.m_startTime
       Win98.m_stopTime Win98.m_perMillisecond].
  rewrite Ei. change (of_Z 0) with (S754_zero false).
  rewrite add_zero_r_finite, sub_zero_r_finite. reflexivity.
Qed.

(** On Windows, whatever the frequency, the remaining time of a fresh
    timer, [(f / 60.0) / (f / 1000.0)], is 1000/60 ms up to three
    roundings. *)
Lemma Win98_default_remaining_close q :
  Win98.query_succeeded q ->
  leb (div (of_Z 166666666666666) (of_Z 10000000000000))
      (Win98.GetRemaining (Win98.PerformanceTimer98 q)) = true /\
  leb (Win98.GetRemaining (Win98.PerformanceTimer98 q))
      (div (of_Z 166666666666667) (of_Z 10000000000000)) = true.
Proof.
  intros Hq. rewrite (Win98_fresh_remaining q Hq). destruct Hq as [_ HP].
  cbn [Win98.PerformanceTimer98 Win98.m_interval Win98.m_perMillisecond].
  destruct (of_Z_int64_pos _ HP) as (mx & ex & Ex & Vx & Mx). rewrite Ex.
  change (of_Z 60) with (S754_finite false 8444249301319680 (-47)).
  change (of_Z 1000) with (S754_finite false 8796093022208000 (-43)).
  destruct (div_normal false mx ex false 8444249301319680 (-47) Vx eq_refl)
    as (ma & ea & Ea & Hea & Ma & Na & A1 & A2).
  { change (mag 8444249301319680 (-47)) with 6. lia. }
  destruct (div_normal false mx ex false 8796093022208000 (-43) Vx eq_refl)
    as (mp & ep & Ep & Hep & Mp & Np & P1 & P2).
  { change (mag 8796093022208000 (-43)) with 10. lia. }
  change (mag 8444249301319680 (-47)) with 6 in Ma.
  change (mag 8796093022208000 (-43)) with 10 in Mp.
  cbn [xorb] in Ea, Ep. rewrite Ea, Ep.
  assert (Va : valid (S754_finite false ma ea) = true)
    by (rewrite <- Ea; apply div_valid).
  assert (Vp : valid (S754_finite false mp ep) = true)
    by (rewrite <- Ep; apply div_valid).
  destruct (div_normal false ma ea false mp ep Va Vp)
    as (mg & eg & Eg & Heg & Mg & Ng & G1 & G2); [lia|].
  cbn [xorb] in Eg. rewrite Eg.
  assert (Vg : valid (S754_finite false mg eg) = true)
    by (rewrite <- Eg; apply div_valid).
  assert (HU : 0 < 2 ^ 1074) by (apply Z.pow_pos_nonneg; lia).
  rewrite of_Z_60_units in A1, A2. rewrite of_Z_1000_units in P1, P2.
  assert (A1' : (Z.pos ma * 2 ^ (ea + 1074) - 2 ^ (ea + 1074)) * 60
                <= Z.pos mx * 2 ^ (ex + 1074))
    by (apply (mul_cancel_le_r _ _ (2 ^ 1074) HU); lia).
  assert (A2' : Z.pos mx * 2 ^ (ex + 1074)
                < (Z.pos ma * 2 ^ (ea + 1074) + 2 ^ (ea + 1074)) * 60)
    by (apply (mul_cancel_lt_r _ _ (2 ^ 1074) HU); lia).
  assert (P1' : (Z.pos mp * 2 ^ (ep + 1074) - 2 ^ (ep + 1074)) * 1000
                <= Z.pos mx * 2 ^ (ex + 1074))
    by (apply (mul_cancel_le_r _ _ (2 ^ 1074) HU); lia).
  assert (P2' : Z.pos mx * 2 ^ (ex + 1074)
                < (Z.pos mp * 2 ^ (ep + 1074) + 2 ^ (ep + 1074)) * 1000)
    by (apply (mul_cancel_lt_r _ _ (2 ^ 1074) HU); lia).
  assert (Hpos : forall m e, valid (S754_finite false m e) = true ->
                             0 < Z.pos m * 2 ^ (e + 1074)).
  { intros m e V. apply finite_units_pos.
    apply valid_finite_canonical in V. lia. }
  destruct (ratio_chain (2 ^ 52) (2 ^ 1074) 60 1000
              (Z.pos ma * 2 ^ (ea + 1074)) (2 ^ (ea + 1074))
              (Z.pos mp * 2 ^ (ep + 1074)) (2 ^ (ep + 1074))
              (Z.pos mg * 2 ^ (eg + 1074)) (2 ^ (eg + 1074))
              (Z.pos mx * 2 ^ (ex + 1074))) as [L U];
    try assumption; try (apply Hpos; assumption); try reflexivity.
  set (lo := div (of_Z 166666666666666) (of_Z 10000000000000)).
  set (hi := div (of_Z 166666666666667) (of_Z 10000000000000)).
  assert (Hlo : rank lo * ((2 ^ 52 + 1) * (2 ^ 52 + 1) * 60)
                <= 2 ^ 52 * (2 ^ 52 - 1) * 1000 * 2 ^ 1074)
    by (vm_compute; discriminate).
  assert (Hhi : 2 ^ 52 * (2 ^ 52 + 1) * 1000 * 2 ^ 1074
                <= rank hi * ((2 ^ 52 - 1) * (2 ^ 52 - 1) * 60))
    by (vm_compute; discriminate).
  split.
  - apply leb_rank; try reflexivity; try assumption.
    cbn [rank cond_Zopp]. apply Z.lt_le_incl.
    apply (mul_cancel_lt_r _ _ ((2 ^ 52 + 1) * (2 ^ 52 + 1) * 60)); [reflexivity|].
    lia.
  - apply leb_rank; try reflexivity; try assumption.
    cbn [rank cond_Zopp].
    apply (mul_cancel_le_r _ _ ((2 ^ 52 - 1) * (2 ^ 52 - 1) * 60)); [reflexivity|].
    lia.
Qed.

(** On Windows the interval of a fresh timer is 1/60 s up to three
    roundings, whatever the frequency. *)
Lemma Win98_default_interval_close_to_sixtieth q :
  Win98.query_succeeded q ->
  close (Win98.GetInterval (Win98.PerformanceTimer98 q)) (div (of_Z 1) (of_Z 60)).
Proof.
  intros Hq.
  pose proof (win98_reachable_calibrated Release q _ Hq
                (win98_reachable_init Release q)) as [Hcal _].
  exact (Win98_set_get_close (Win98.PerformanceTimer98 q)
           false 8444249301319680 (-47) Hcal eq_refl
           ltac:(change (mag 8444249301319680 (-47)) with 6; lia)).
Qed.

(** * The claims *)

(** ** C1: the remaining time against the interval and the elapsed time *)

(** C1, counterexample.  On Windows, at the counter frequency of 10 MHz,
    the freshly constructed timer (a reachable state) has
    [GetRemaining()] one unit in the last place below
    [GetInterval()*1000 - GetElapsed()]: the former divides the interval
    in ticks by the ticks per millisecond, the latter goes through the
    interval in seconds. *)
Lemma C1_counterexample_windows :
  let q := Win98.mkQuery true 10000000 in
  let t := Win98.PerformanceTimer98 q in
  win98_reachable Release q t /\
  Win98.GetRemaining t = S754_finite false 4691249611844266 (-48) /\
  sub (mul (Win98.GetInterval t) (of_Z 1000)) (Win98.GetElapsed t)
  = S754_finite false 4691249611844267 (-48) /\
  Win98.GetRemaining t
  <> sub (mul (Win98.GetInterval t) (of_Z 1000)) (Win98.GetElapsed t).
Proof.
  cbv zeta. split; [exists []; reflexivity|].
  split; [vm_compute; reflexivity|].
  split; [vm_compute; reflexivity|].
  vm_compute. discriminate.
Qed.

(** C1, amended.  In the POSIX branch of PerformanceTimer98 and in
    PerformanceTimer11, in every state of the timer (hence in every state
    that a sequence of calls reaches), [GetRemaining()] is exactly
    [GetInterval()*1000 - GetElapsed()]. *)
Theorem C1_remaining_is_interval_minus_elapsed :
  (forall t : Posix98.timer,
      Posix98.GetRemaining t
      = sub (mul (Posix98.GetInterval t) (of_Z 1000)) (Posix98.GetElapsed t)) /\
  (forall t : Timer11.timer,
      Timer11.GetRemaining t
      = sub (mul (Timer11.GetInterval t) (of_Z 1000)) (Timer11.GetElapsed t)).
Proof.
  split; intros t.
  - reflexivity.
  - rewrite Timer11_GetRemaining_eq, Timer11_GetElapsed_eq. reflexivity.
Qed.

(** ** C3: SetInterval followed by GetInterval *)

(** C3, counterexample.  On Windows at 10 MHz, with the rate
    [r = 2^-1020] (a valid, nonzero and finite [double]), the interval
    in ticks [10^7 / r] overflows: [GetInterval()] returns +infinity
    although [1/r = 2^1020] is finite.  The two are not equal up to a
    relative error of 2^-50, nor up to any absolute error. *)
Lemma C3_counterexample_windows_overflow :
  let t := Win98.PerformanceTimer98 (Win98.mkQuery true 10000000) in
  let r := S754_finite false 4503599627370496 (-1072) in
  Win98.calibrated t /\ valid r = true /\ eqb r (of_Z 0) = false /\
  exists t',
    Win98.SetInterval Release r t = Done t' /\
    Win98.GetInterval t' = S754_infinity false /\
    div (of_Z 1) r = S754_finite false 4503599627370496 968 /\
    ~ close (Win98.GetInterval t') (div (of_Z 1) r) /\
    ~ (exists eps, within eps (Win98.GetInterval t') (div (of_Z 1) r) = true).
Proof.
  cbv zeta. split; [exact calibrated_10MHz|].
  split; [reflexivity|]. split; [reflexivity|].
  eexists. split; [reflexivity|].
  assert (G : Win98.GetInterval
                (Win98.set_interval
                   (Win98.PerformanceTimer98 (Win98.mkQuery true 10000000))
                   (div (of_Z (Win98.m_perSecond
                                 (Win98.PerformanceTimer98
                                    (Win98.mkQuery true 10000000))))
                        (S754_finite false 4503599627370496 (-1072))))
              = S754_infinity false) by (vm_compute; reflexivity).
  assert (I : div (of_Z 1) (S754_finite false 4503599627370496 (-1072))
              = S754_finite false 4503599627370496 968)
    by (vm_compute; reflexivity).
  split; [exact G|]. split; [exact I|]. rewrite G, I. split.
  - intros (_ & _ & H). revert H. vm_compute. intros H. apply H. reflexivity.
  - intros [eps H]. unfold within in H.
    change (abs (sub (S754_infinity false)
                     (S754_finite false 4503599627370496 968)))
      with (S754_infinity false) in H.
    destruct eps as [[]|[]| |[] m e]; discriminate H.
Qed.

(** C3, amended.  For every rate [r] with [r != 0], whatever the
    interval and the instants of the timer were, [SetInterval(r)]
    succeeds and leaves the instants alone.  Afterwards [GetInterval()]
    returns exactly the [double] [1/r] in the POSIX branch and in
    PerformanceTimer11.  On Windows it returns [(f/r)/f], [f] being the
    counter frequency; on a supported platform and for a finite rate
    between [2^-900] and [2^900] in absolute value this is [1/r] up to a
    relative error of 2^-50. *)
Theorem C3_set_interval_then_get_interval
  (r : double) (Hr : eqb r (of_Z 0) = false) :
  (forall b (t : Posix98.timer), exists t',
      Posix98.SetInterval b r t = Done t' /\
      Posix98.GetInterval t' = div (of_Z 1) r /\
      Posix98.m_startTime t' = Posix98.m_startTime t /\
      Posix98.m_stopTime t' = Posix98.m_stopTime t) /\
  (forall b (t : Timer11.timer), exists t',
      Timer11.SetInterval b r t = Done t' /\
      Timer11.GetInterval t' = div (of_Z 1) r /\
      Timer11.m_startTime t' = Timer11.m_startTime t /\
      Timer11.m_stopTime t' = Timer11.m_stopTime t) /\
  (forall b (t : Win98.timer), exists t',
      Win98.SetInterval b r t = Done t' /\
      Win98.GetInterval t'
      = div (div (of_Z (Win98.m_perSecond t)) r) (of_Z (Win98.m_perSecond t)) /\
      Win98.m_startTime t' = Win98.m_startTime t /\
      Win98.m_stopTime t' = Win98.m_stopTime t /\
      (forall s m e,
          r = S754_finite s m e -> valid r = true -> -900 <= mag m e <= 900 ->
          Win98.calibrated t ->
          close (Win98.GetInterval t') (div (of_Z 1) r))).
Proof.
  split; [|split]; intros b t.
  - unfold Posix98.SetInterval. rewrite Hr. eexists. repeat split.
  - unfold Timer11.SetInterval. rewrite Hr. eexists. repeat split.
  - unfold Win98.SetInterval. rewrite Hr. eexists.
    split; [reflexivity|]. split; [reflexivity|].
    split; [reflexivity|]. split; [reflexivity|].
    intros s m e -> Vr Mr Hc. unfold Win98.GetInterval.
    cbn [Win98.set_interval Win98.m_interval Win98.m_perSecond].
    apply Win98_set_get_close; assumption.
Qed.

Lemma C3_set_interval_then_get_interval_witness :
  let r := of_Z (-30) in
  let t := Win98.PerformanceTimer98 (Win98.mkQuery true 10000000) in
  eqb r (of_Z 0) = false /\
  exists t',
    Win98.SetInterval Debug r t = Done t' /\
    close (Win98.GetInterval t') (div (of_Z 1) r).
Proof.
  cbv zeta. split; [reflexivity|].
  destruct (proj2 (proj2 (C3_set_interval_then_get_interval (of_Z (-30)) eq_refl))
              Debug (Win98.PerformanceTimer98 (Win98.mkQuery true 10000000)))
    as (t' & E & _ & _ & _ & C).
  exists t'. split; [exact E|].
  apply (C true 8444249301319680%positive (-48)).
  - reflexivity.
  - reflexivity.
  - change (mag 8444249301319680 (-48)) with 5. lia.
  - exact calibrated_10MHz.
Defined.

(** ** C4: a zero rate is rejected *)

(** C4.  [SetInterval(r)] with [r == 0] (a positive or a negative zero)
    fails its assertion in a debug build; in a release build it returns
    with the timer unchanged, so that the interval and both instants are
    what they were.  This holds in the three variants. *)
Theorem C4_zero_rate_rejected (r : double) (Hr : eqb r (of_Z 0) = true) :
  (forall t, Win98.SetInterval Debug r t = AssertionFailed /\
             Win98.SetInterval Release r t = Done t) /\
  (forall t, Posix98.SetInterval Debug r t = AssertionFailed /\
             Posix98.SetInterval Release r t = Done t) /\
  (forall t, Timer11.SetInterval Debug r t = AssertionFailed /\
             Timer11.SetInterval Release r t = Done t).
Proof.
  unfold Win98.SetInterval, Posix98.SetInterval, Timer11.SetInterval.
  rewrite Hr. repeat split.
Qed.

Lemma C4_zero_rate_rejected_witness :
  let r := S754_zero true in
  eqb r (of_Z 0) = true /\
  forall t, Timer11.SetInterval Debug r t = AssertionFailed /\
            Timer11.SetInterval Release r t = Done t.
Proof.
  cbv zeta. split; [reflexivity|].
  exact (proj2 (proj2 (C4_zero_rate_rejected (S754_zero true) eq_refl))).
Defined.

(** ** C5: the timer right after Start *)

(** C5.  In a state that calls have reached (on Windows: from a
    successful frequency query), [Start()] succeeds and leaves both
    instants equal to the clock reading; [GetElapsed()] then returns
    +0.0, and [IntervalHasElapsed()] returns false as soon as the
    interval is positive. *)
Theorem C5_start_resets_elapsed
  (b : build)
  (q : Win98.frequency_query) (Hq : Win98.query_succeeded q)
  (w : Win98.timer) (Hw : win98_reachable b q w)
  (c : Timer11.timer) (Hc : timer11_reachable b c) :
  (forall now, exists w',
      Win98.Start b now w = Done w' /\
      Win98.m_startTime w' = now /\ Win98.m_stopTime w' = now /\
      Win98.GetElapsed w' = zero /\
      (ltb zero (Win98.GetInterval w') = true ->
       Win98.IntervalHasElapsed w' = false)) /\
  (forall now (p : Posix98.timer),
      Posix98.m_startTime (Posix98.Start now p) = now /\
      Posix98.m_stopTime (Posix98.Start now p) = now /\
      Posix98.GetElapsed (Posix98.Start now p) = zero /\
      (ltb zero (Posix98.GetInterval (Posix98.Start now p)) = true ->
       Posix98.IntervalHasElapsed (Posix98.Start now p) = false)) /\
  (forall now,
      Timer11.m_startTime (Timer11.Start now c) = now /\
      Timer11.m_stopTime (Timer11.Start now c) = now /\
      Timer11.GetElapsed (Timer11.Start now c) = zero /\
      (ltb zero (Timer11.GetInterval (Timer11.Start now c)) = true ->
       Timer11.IntervalHasElapsed (Timer11.Start now c) = false)).
Proof.
  destruct (win98_reachable_calibrated b q w Hq Hw) as [Hcal _].
  pose proof (timer11_reachable_valid b c Hc) as Hval.
  split; [|split].
  - intros now. exists (Win98.set_stop (Win98.set_start w now) now).
    assert (Hcal' : Win98.calibrated (Win98.set_stop (Win98.set_start w now) now))
      by exact Hcal.
    split; [apply Win98_Start_done; assumption|].
    split; [reflexivity|]. split; [reflexivity|].
    split; [apply Win98_elapsed_zero; [assumption|reflexivity]|].
    apply Win98_not_elapsed; [assumption|reflexivity].
  - intros now p. split; [reflexivity|]. split; [reflexivity|].
    split; [apply Posix98_elapsed_zero; reflexivity|].
    apply Posix98_not_elapsed. reflexivity.
  - intros now. split; [reflexivity|]. split; [reflexivity|].
    split; [apply Timer11_elapsed_zero; reflexivity|].
    apply Timer11_not_elapsed; [exact Hval | reflexivity].
Qed.

Lemma C5_start_resets_elapsed_witness :
  let q := Win98.mkQuery true 10000000 in
  let c := Timer11.PerformanceTimer11 in
  Win98.query_succeeded q /\
  win98_reachable Debug q (Win98.PerformanceTimer98 q) /\
  timer11_reachable Debug c /\
  Timer11.GetElapsed (Timer11.Start 42 c) = zero /\
  ltb zero (Timer11.GetInterval (Timer11.Start 42 c)) = true /\
  Timer11.IntervalHasElapsed (Timer11.Start 42 c) = false.
Proof.
  cbv zeta.
  split; [exact query_succeeded_10MHz|].
  split; [apply win98_reachable_init|].
  split; [apply timer11_reachable_init|].
  pose proof (C5_start_resets_elapsed Debug (Win98.mkQuery true 10000000)
                query_succeeded_10MHz
                (Win98.PerformanceTimer98 (Win98.mkQuery true 10000000))
                (win98_reachable_init _ _)
                Timer11.PerformanceTimer11 (timer11_reachable_init _)) as H.
  destruct H as (_ & _ & H). destruct (H 42) as (_ & _ & He & Hi).
  split; [exact He|]. split; [reflexivity|]. apply Hi. reflexivity.
Defined.

(** ** C6: negative rates *)

(** C6.  A negative rate [r] passes [SetInterval] in a debug and in a
    release build.  The interval stored is [1/r] (frequency/[r] ticks on
    Windows); it is not above zero, and it is strictly negative when [r]
    is finite.  With such an interval [IntervalHasElapsed()] returns
    true whenever the stop instant is not before the start instant. *)
Theorem C6_negative_rate
  (r : double) (Hr : ltb r zero = true)
  (w : Win98.timer) (Hw : Win98.calibrated w) :
  (forall b (t : Timer11.timer), exists t',
      Timer11.SetInterval b r t = Done t' /\
      Timer11.GetInterval t' = div (of_Z 1) r /\
      leb (Timer11.GetInterval t') zero = true /\
      (is_finite r = true -> valid r = true ->
       ltb (Timer11.GetInterval t') zero = true) /\
      forall start stop,
        Int64.in_range start -> Int64.in_range stop ->
        0 <= stop - start <= Int64.max_signed ->
        Timer11.IntervalHasElapsed (Timer11.Stop stop (Timer11.Start start t'))
        = true) /\
  (forall b (t : Posix98.timer), exists t',
      Posix98.SetInterval b r t = Done t' /\
      Posix98.GetInterval t' = div (of_Z 1) r /\
      leb (Posix98.GetInterval t') zero = true /\
      (is_finite r = true -> valid r = true ->
       ltb (Posix98.GetInterval t') zero = true) /\
      forall start stop,
        Posix98.well_formed start -> Posix98.well_formed stop ->
        Posix98.tv_le start stop ->
        Posix98.IntervalHasElapsed (Posix98.Stop stop (Posix98.Start start t'))
        = true) /\
  (forall b, exists w',
      Win98.SetInterval b r w = Done w' /\
      Win98.m_interval w' = div (of_Z (Win98.m_perSecond w)) r /\
      leb (Win98.GetInterval w') zero = true /\
      forall start stop,
        Int64.in_range start -> Int64.in_range stop ->
        0 <= stop - start <= Int64.max_signed ->
        Win98.IntervalHasElapsed
          (Win98.set_stop (Win98.set_start w' start) stop) = true).
Proof.
  rewrite ltb_neg_zero in Hr. pose proof (neg_not_zero r Hr) as Hz.
  pose proof (div_pos_neg_nonpos 4503599627370496 (-52) r Hr) as Hnp.
  change (S754_finite false 4503599627370496 (-52)) with (of_Z 1) in Hnp.
  split; [|split].
  - intros b t. unfold Timer11.SetInterval. rewrite Hz.
    eexists. split; [reflexivity|]. cbn [Timer11.GetInterval Timer11.m_interval].
    split; [reflexivity|]. split; [rewrite leb_zero_nonpos; exact Hnp|].
    split; [intros Hf Hv; rewrite ltb_neg_zero; apply div_one_neg; assumption|].
    intros start stop Hs He Hd.
    rewrite Timer11_IntervalHasElapsed_eq.
    cbn [Timer11.Stop Timer11.Start Timer11.m_startTime Timer11.m_stopTime
         Timer11.m_interval].
    rewrite Int64_sub_small by assumption.
    rewrite ltb_nonneg_nonpos; [reflexivity | apply of_Z_nonneg; lia |].
    rewrite of_Z_1000000000. apply mul_nonpos_pos. exact Hnp.
  - intros b t. unfold Posix98.SetInterval. rewrite Hz.
    eexists. split; [reflexivity|]. cbn [Posix98.GetInterval Posix98.m_interval].
    split; [reflexivity|]. split; [rewrite leb_zero_nonpos; exact Hnp|].
    split; [intros Hf Hv; rewrite ltb_neg_zero; apply div_one_neg; assumption|].
    intros start stop Hs He Hle.
    unfold Posix98.IntervalHasElapsed.
    cbn [Posix98.Stop Posix98.Start Posix98.m_startTime Posix98.m_stopTime
         Posix98.m_interval].
    destruct (timersub_nonneg start stop Hs He Hle) as [H1 H2].
    apply geb_nonneg_nonpos; [|exact Hnp].
    apply add_nonneg; [apply of_Z_nonneg; assumption|].
    rewrite of_Z_1000000. apply div_nonneg_pos_finite.
    apply of_Z_nonneg. lia.
  - intros b. unfold Win98.SetInterval. rewrite Hz.
    eexists. split; [reflexivity|].
    destruct (Win98_perSecond_pos w Hw) as (mp & ep & Ep).
    assert (Hnpw : nonpos (div (of_Z (Win98.m_perSecond w)) r) = true)
      by (rewrite Ep; apply div_pos_neg_nonpos; exact Hr).
    split; [reflexivity|]. split.
    + rewrite leb_zero_nonpos. unfold Win98.GetInterval.
      cbn [Win98.set_interval Win98.m_interval Win98.m_perSecond].
      rewrite Ep at 2. apply div_nonpos_pos_finite. exact Hnpw.
    + intros start stop Hs He Hd. unfold Win98.IntervalHasElapsed.
      cbn [Win98.set_stop Win98.set_start Win98.set_interval
           Win98.m_startTime Win98.m_stopTime Win98.m_interval].
      rewrite Int64_sub_small by assumption.
      apply geb_nonneg_nonpos; [apply of_Z_nonneg; lia | exact Hnpw].
Qed.

Lemma C6_negative_rate_witness :
  let r := of_Z (-30) in
  let t := Timer11.PerformanceTimer11 in
  ltb r zero = true /\
  Win98.calibrated (Win98.PerformanceTimer98 (Win98.mkQuery true 10000000)) /\
  exists t', Timer11.SetInterval Debug r t = Done t' /\
             ltb (Timer11.GetInterval t') zero = true /\
             Timer11.IntervalHasElapsed (Timer11.Stop 5 (Timer11.Start 5 t')) = true.
Proof.
  cbv zeta. split; [reflexivity|]. split; [exact calibrated_10MHz|].
  destruct (proj1 (C6_negative_rate (of_Z (-30)) eq_refl _ calibrated_10MHz)
              Debug Timer11.PerformanceTimer11)
    as (t' & E & _ & _ & Hneg & Hel).
  exists t'. split; [exact E|]. split.
  - apply Hneg; reflexivity.
  - apply Hel; unfold Int64.in_range, Int64.min_signed, Int64.max_signed; simpl; lia.
Defined.

(** ** C8: Stop writes the stop instant only *)

(** C8.  [Stop()] stores the clock reading in the stop instant and
    leaves the start instant and the interval alone.  After any number
    of calls of [Stop()] with no [Start()] in between, the timer is the
    one before the calls with the last reading as its stop instant: the
    elapsed time is measured from the original start.  (On Windows the
    assertion of [Stop()] has to hold: the platform is supported or the
    build is a release build.) *)
Theorem C8_stop_writes_stop_instant_only
  (b : build) (w : Win98.timer)
  (Hw : assert b (Win98.IsSupportedPlatform w) = Done tt) :
  (forall nows now,
      run (win98_step b) (map CallStop (nows ++ [now])) w
      = Done (Win98.set_stop w now) /\
      Win98.m_startTime (Win98.set_stop w now) = Win98.m_startTime w /\
      Win98.m_interval (Win98.set_stop w now) = Win98.m_interval w /\
      Win98.m_stopTime (Win98.set_stop w now) = now) /\
  (forall b' nows now (t : Posix98.timer),
      run (posix98_step b') (map CallStop (nows ++ [now])) t
      = Done (Posix98.Stop now t) /\
      Posix98.m_startTime (Posix98.Stop now t) = Posix98.m_startTime t /\
      Posix98.m_interval (Posix98.Stop now t) = Posix98.m_interval t /\
      Posix98.m_stopTime (Posix98.Stop now t) = now) /\
  (forall b' nows now (t : Timer11.timer),
      run (timer11_step b') (map CallStop (nows ++ [now])) t
      = Done (Timer11.Stop now t) /\
      Timer11.m_startTime (Timer11.Stop now t) = Timer11.m_startTime t /\
      Timer11.m_interval (Timer11.Stop now t) = Timer11.m_interval t /\
      Timer11.m_stopTime (Timer11.Stop now t) = now).
Proof.
  split; [|split].
  - intros nows now. split; [|repeat split].
    rewrite map_app, run_app.
    destruct (Win98_stops b nows w Hw) as (t' & E & H1 & H2 & H3 & H4 & H5).
    rewrite E. simpl.
    rewrite Win98_Stop_done
      by (unfold Win98.IsSupportedPlatform in *; rewrite H5; exact Hw).
    simpl. destruct t', w; simpl in *; subst; reflexivity.
  - intros b' nows now t. split; [|repeat split].
    rewrite map_app, run_app.
    destruct (Posix98_stops nows b' t) as (t' & E & H1 & H2).
    rewrite E. simpl. destruct t', t; simpl in *; subst; reflexivity.
  - intros b' nows now t. split; [|repeat split].
    rewrite map_app, run_app.
    destruct (Timer11_stops nows b' t) as (t' & E & H1 & H2).
    rewrite E. simpl. destruct t', t; simpl in *; subst; reflexivity.
Qed.

Lemma C8_stop_writes_stop_instant_only_witness :
  let w := Win98.PerformanceTimer98 (Win98.mkQuery true 10000000) in
  assert Debug (Win98.IsSupportedPlatform w) = Done tt /\
  run (win98_step Debug) (map CallStop ([5; 7] ++ [9])) w
  = Done (Win98.set_stop w 9).
Proof.
  cbv zeta. split; [reflexivity|].
  exact (proj1 (proj1 (C8_stop_writes_stop_instant_only Debug
           (Win98.PerformanceTimer98 (Win98.mkQuery true 10000000)) eq_refl)
           [5; 7] 9)).
Defined.

(** ** C9: the default interval *)

(** C9.  The interval of a freshly constructed timer is 1/60 s.  In the
    POSIX branch and in PerformanceTimer11 [GetInterval()] returns the
    [double] nearest to 1/60, which is 4803839602528529 * 2^-58 and lies
    between 0.016665 and 0.016675.  The Windows branch stores
    frequency/60 ticks and divides by the frequency again: after a
    successful frequency query the result is that [double] up to a
    relative error of 2^-50, between 0.0166666666666666 and
    0.0166666666666667, and it is the very same [double] at the counter
    frequency of 10 MHz. *)
Theorem C9_default_interval
  (q : Win98.frequency_query) (Hq : Win98.query_succeeded q) :
  Posix98.GetInterval Posix98.PerformanceTimer98 = div (of_Z 1) (of_Z 60) /\
  Timer11.GetInterval Timer11.PerformanceTimer11 = div (of_Z 1) (of_Z 60) /\
  div (of_Z 1) (of_Z 60) = S754_finite false 4803839602528529 (-58) /\
  leb (div (of_Z 16665) (of_Z 1000000)) (div (of_Z 1) (of_Z 60)) = true /\
  leb (div (of_Z 1) (of_Z 60)) (div (of_Z 16675) (of_Z 1000000)) = true /\
  close (Win98.GetInterval (Win98.PerformanceTimer98 q)) (div (of_Z 1) (of_Z 60)) /\
  leb (div (of_Z 166666666666666) (of_Z 10000000000000000))
      (Win98.GetInterval (Win98.PerformanceTimer98 q)) = true /\
  leb (Win98.GetInterval (Win98.PerformanceTimer98 q))
      (div (of_Z 166666666666667) (of_Z 10000000000000000)) = true /\
  Win98.GetInterval (Win98.PerformanceTimer98 (Win98.mkQuery true 10000000))
  = div (of_Z 1) (of_Z 60).
Proof.
  split; [reflexivity|]. split; [reflexivity|].
  split; [vm_compute; reflexivity|].
  split; [vm_compute; reflexivity|]. split; [vm_compute; reflexivity|].
  split; [apply Win98_default_interval_close_to_sixtieth; exact Hq|].
  split; [apply Win98_default_interval_close; exact Hq|].
  split; [apply Win98_default_interval_close; exact Hq|].
  vm_compute. reflexivity.
Qed.

Lemma C9_default_interval_witness :
  let q := Win98.mkQuery true 3579545 in
  Win98.query_succeeded q /\
  close (Win98.GetInterval (Win98.PerformanceTimer98 q)) (div (of_Z 1) (of_Z 60)).
Proof.
  cbv zeta.
  assert (Hq : Win98.query_succeeded (Win98.mkQuery true 3579545))
    by (split; [reflexivity | unfold Int64.max_signed; simpl; lia]).
  split; [exact Hq|].
  exact (proj1 (proj2 (proj2 (proj2 (proj2 (proj2
           (C9_default_interval (Win98.mkQuery true 3579545) Hq))))))).
Defined.

(** ** C10: queries before the first Start *)

(** C10.  A freshly constructed timer (on Windows: after a successful
    frequency query) has both instants at zero.  [GetElapsed()] returns
    +0.0, [IntervalHasElapsed()] returns false, and [GetRemaining()]
    returns the whole interval in milliseconds: [GetInterval()*1000],
    which is 16.666666666666668, in the POSIX branch and in
    PerformanceTimer11; the interval in ticks over the ticks per
    millisecond, between 16.6666666666666 and 16.6666666666667, on
    Windows. *)
Theorem C10_queries_before_first_start
  (q : Win98.frequency_query) (Hq : Win98.query_succeeded q) :
  (Win98.m_startTime (Win98.PerformanceTimer98 q) = 0 /\
   Win98.m_stopTime (Win98.PerformanceTimer98 q) = 0 /\
   Win98.GetElapsed (Win98.PerformanceTimer98 q) = zero /\
   Win98.GetRemaining (Win98.PerformanceTimer98 q)
   = div (Win98.m_interval (Win98.PerformanceTimer98 q))
         (Win98.m_perMillisecond (Win98.PerformanceTimer98 q)) /\
   leb (div (of_Z 166666666666666) (of_Z 10000000000000))
       (Win98.GetRemaining (Win98.PerformanceTimer98 q)) = true /\
   leb (Win98.GetRemaining (Win98.PerformanceTimer98 q))
       (div (of_Z 166666666666667) (of_Z 10000000000000)) = true /\
   Win98.IntervalHasElapsed (Win98.PerformanceTimer98 q) = false) /\
  (Posix98.m_startTime Posix98.PerformanceTimer98
   = Posix98.m_stopTime Posix98.PerformanceTimer98 /\
   Posix98.GetElapsed Posix98.PerformanceTimer98 = zero /\
   Posix98.GetRemaining Posix98.PerformanceTimer98
   = mul (Posix98.GetInterval Posix98.PerformanceTimer98) (of_Z 1000) /\
   Posix98.GetRemaining Posix98.PerformanceTimer98
   = S754_finite false 4691249611844267 (-48) /\
   Posix98.IntervalHasElapsed Posix98.PerformanceTimer98 = false) /\
  (Timer11.m_startTime Timer11.PerformanceTimer11
   = Timer11.m_stopTime Timer11.PerformanceTimer11 /\
   Timer11.GetElapsed Timer11.PerformanceTimer11 = zero /\
   Timer11.GetRemaining Timer11.PerformanceTimer11
   = mul (Timer11.GetInterval Timer11.PerformanceTimer11) (of_Z 1000) /\
   Timer11.GetRemaining Timer11.PerformanceTimer11
   = S754_finite false 4691249611844267 (-48) /\
   Timer11.IntervalHasElapsed Timer11.PerformanceTimer11 = false).
Proof.
  split; [|split; repeat split; vm_compute; reflexivity].
  pose proof (win98_reachable_calibrated Release q _ Hq
                (win98_reachable_init Release q)) as [Hcal _].
  destruct (Win98_default_remaining_close q Hq) as [Hlo Hhi].
  split; [reflexivity|]. split; [reflexivity|].
  split; [apply Win98_elapsed_zero; [assumption|reflexivity]|].
  split; [apply Win98_fresh_remaining; exact Hq|].
  split; [exact Hlo|]. split; [exact Hhi|].
  destruct Hq as [_ HP]. unfold Int64.max_signed in HP.
  destruct (div_of_Z_pos_finite (Win98.qpf_value q) 60) as (mi & ei & Ei & _);
    [lia..|].
  unfold Win98.IntervalHasElapsed.
  cbn [Win98.PerformanceTimer98 Win98.m_interval Win98.m_startTime
       Win98.m_stopTime].
  rewrite Ei. reflexivity.
Qed.

Lemma C10_queries_before_first_start_witness :
  let q := Win98.mkQuery true 10000000 in
  Win98.query_succeeded q /\
  Win98.GetElapsed (Win98.PerformanceTimer98 q) = zero /\
  Win98.IntervalHasElapsed (Win98.PerformanceTimer98 q) = false.
Proof.
  cbv zeta. split; [exact query_succeeded_10MHz|].
  pose proof (C10_queries_before_first_start (Win98.mkQuery true 10000000)
                query_succeeded_10MHz) as H.
  destruct H as ((_ & _ & He & _ & _ & _ & Hi) & _). split; assumption.
Defined.

(** * Rounding to nearest

    The operations of [SpecFloat] round the exact result to the nearest
    number of the format.  The lemmas of this part say so in terms of
    [position] and [nearest], and draw the two consequences used for the
    timers: the operations are monotone, and a rounding in the normal
    range has a relative error of at most [2^-53]. *)

(** ** Positions *)

Lemma position_split n d : 0 <= n -> 0 < d ->
  exists b s, n = d * b + s /\ 0 <= s < d /\ 0 <= b /\
    n / d = b /\
    position n d = 4 * b + (if s =? 0 then 0
                            else if 2 * s <? d then 1
                            else if 2 * s =? d then 2 else 3).
Proof.
  intros Hn Hd.
  pose proof (Z.div_mod n d ltac:(lia)) as Hdm.
  pose proof (Z.mod_pos_bound n d Hd) as Hmod.
  pose proof (Z.div_pos n d Hn Hd) as Hb.
  exists (n / d), (n mod d).
  remember (n / d) as b eqn:Eb. remember (n mod d) as s eqn:Es.
  split; [exact Hdm|]. split; [exact Hmod|]. split; [exact Hb|].
  split; [reflexivity|]. unfold position.
  destruct (Z.ltb_spec (2 * s) d) as [Hlt|Hge].
  - assert (Q : 2 * n / d = 2 * b)
      by (symmetry; apply (Z.div_unique _ _ _ (2 * s)); lia).
    assert (R : (2 * n) mod d = 2 * s)
      by (symmetry; apply (Z.mod_unique _ _ (2 * b)); lia).
    rewrite Q, R.
    destruct (Z.eqb_spec s 0); destruct (Z.eqb_spec (2 * s) 0); lia.
  - assert (Q : 2 * n / d = 2 * b + 1)
      by (symmetry; apply (Z.div_unique _ _ _ (2 * s - d)); lia).
    assert (R : (2 * n) mod d = 2 * s - d)
      by (symmetry; apply (Z.mod_unique _ _ (2 * b + 1)); lia).
    rewrite Q, R.
    destruct (Z.eqb_spec s 0); destruct (Z.eqb_spec (2 * s - d) 0);
      destruct (Z.eqb_spec (2 * s) d); lia.
Qed.

Lemma position_div4 n d : 0 <= n -> 0 < d -> position n d / 4 = n / d.
Proof.
  intros Hn Hd.
  destruct (position_split n d Hn Hd) as (b & s & _ & _ & _ & -> & ->).
  destruct (s =? 0); [|destruct (2 * s <? d); [|destruct (2 * s =? d)]];
    Z.div_mod_to_equations; lia.
Qed.

Lemma position_nonneg n d : 0 <= n -> 0 < d -> 0 <= position n d.
Proof.
  intros Hn Hd.
  destruct (position_split n d Hn Hd) as (b & s & _ & _ & Hb & _ & ->).
  destruct (s =? 0); [|destruct (2 * s <? d); [|destruct (2 * s =? d)]]; lia.
Qed.

Lemma halve_position n d : 0 <= n -> 0 < d ->
  halve (position n d) = position n (2 * d).
Proof.
  intros Hn Hd.
  destruct (position_split n d Hn Hd) as (b & s & En & Hs & Hb & _ & ->).
  unfold halve, position.
  assert (Q : 2 * n / (2 * d) = b).
  { rewrite Z.div_mul_cancel_l by lia.
    symmetry. apply (Z.div_unique _ _ _ s); lia. }
  assert (R : (2 * n) mod (2 * d) = 2 * s).
  { rewrite Z.mul_mod_distr_l by lia. f_equal.
    symmetry. apply (Z.mod_unique _ _ b); lia. }
  rewrite Q, R.
  destruct (Z.eqb_spec s 0) as [Z0|NZ].
  - subst s. replace ((4 * b + 0) / 4) with b by (Z.div_mod_to_equations; lia).
    replace ((4 * b + 0) mod 4) with 0 by (Z.div_mod_to_equations; lia).
    reflexivity.
  - destruct (Z.eqb_spec (2 * s) 0); [lia|].
    destruct (2 * s <? d); [|destruct (2 * s =? d)].
    + replace ((4 * b + 1) / 4) with b by (Z.div_mod_to_equations; lia).
      replace ((4 * b + 1) mod 4) with 1 by (Z.div_mod_to_equations; lia).
      reflexivity.
    + replace ((4 * b + 2) / 4) with b by (Z.div_mod_to_equations; lia).
      replace ((4 * b + 2) mod 4) with 2 by (Z.div_mod_to_equations; lia).
      reflexivity.
    + replace ((4 * b + 3) / 4) with b by (Z.div_mod_to_equations; lia).
      replace ((4 * b + 3) mod 4) with 3 by (Z.div_mod_to_equations; lia).
      reflexivity.
Qed.

Lemma iter_halve_position p : forall n d, 0 <= n -> 0 < d ->
  Pos.iter halve (position n d) p = position n (d * 2 ^ Zpos p).
Proof.
  induction p using Pos.peano_ind; intros n d Hn Hd.
  - simpl. rewrite halve_position by assumption. f_equal. lia.
  - rewrite Pos.iter_succ, IHp by assumption.
    rewrite halve_position;
      [|assumption | apply Z.mul_pos_pos; [assumption|]; apply Z.pow_pos_nonneg; lia].
    f_equal. rewrite Pos2Z.inj_succ, Z.pow_succ_r by lia. lia.
Qed.

Lemma position_scale n d c : 0 < d -> 0 < c ->
  position (n * c) (d * c) = position n d.
Proof.
  intros Hd Hc. unfold position.
  replace (2 * (n * c)) with (2 * n * c) by lia.
  rewrite Z.div_mul_cancel_r, Z.mul_mod_distr_r by lia.
  destruct (Z.eqb_spec ((2 * n) mod d) 0) as [E|E].
  - rewrite E. reflexivity.
  - destruct (Z.eqb_spec ((2 * n) mod d * c) 0) as [E'|E']; [|reflexivity].
    apply Z.mul_eq_0 in E'. lia.
Qed.

Lemma position_mono_same n1 n2 d : 0 <= n1 <= n2 -> 0 < d ->
  position n1 d <= position n2 d.
Proof.
  intros Hn Hd. unfold position.
  pose proof (Z.div_le_mono (2 * n1) (2 * n2) d Hd ltac:(lia)) as Hq.
  pose proof (Z.div_mod (2 * n1) d ltac:(lia)) as D1.
  pose proof (Z.div_mod (2 * n2) d ltac:(lia)) as D2.
  pose proof (Z.mod_pos_bound (2 * n1) d Hd) as M1.
  pose proof (Z.mod_pos_bound (2 * n2) d Hd) as M2.
  destruct (Z.eq_dec (2 * n1 / d) (2 * n2 / d)) as [E|NE].
  - rewrite E in *.
    destruct (Z.eqb_spec ((2 * n1) mod d) 0);
      destruct (Z.eqb_spec ((2 * n2) mod d) 0); lia.
  - destruct ((2 * n1) mod d =? 0); destruct ((2 * n2) mod d =? 0); lia.
Qed.

(** The position is monotone in the rational. *)
Lemma position_mono n1 d1 n2 d2 :
  0 <= n1 -> 0 < d1 -> 0 < d2 -> n1 * d2 <= n2 * d1 ->
  position n1 d1 <= position n2 d2.
Proof.
  intros Hn Hd1 Hd2 H.
  rewrite <- (position_scale n1 d1 d2), <- (position_scale n2 d2 d1) by assumption.
  rewrite (Z.mul_comm d2 d1).
  apply position_mono_same; [|apply Z.mul_pos_pos; assumption].
  split; [apply Z.mul_nonneg_nonneg; lia | assumption].
Qed.

Lemma position_exact n : position n 1 = 4 * n.
Proof.
  unfold position. rewrite Z.div_1_r, Z.mod_1_r, Z.eqb_refl. lia.
Qed.

(** ** Rounding a position *)

Lemma nearest_bounds c : c / 4 <= nearest c <= c / 4 + 1.
Proof.
  unfold nearest.
  destruct (c mod 4 <? 2); [lia|].
  destruct (c mod 4 =? 2); [destruct (Z.even (c / 4))|]; lia.
Qed.

Lemma nearest_mono c1 c2 : c1 <= c2 -> nearest c1 <= nearest c2.
Proof.
  intros H.
  pose proof (Z.div_le_mono c1 c2 4 ltac:(lia) H) as Hq.
  destruct (Z.eq_dec (c1 / 4) (c2 / 4)) as [E|NE].
  - assert (Hm : c1 mod 4 <= c2 mod 4) by (Z.div_mod_to_equations; lia).
    unfold nearest. rewrite E.
    destruct (Z.ltb_spec (c1 mod 4) 2); destruct (Z.ltb_spec (c2 mod 4) 2);
      destruct (Z.eqb_spec (c1 mod 4) 2); destruct (Z.eqb_spec (c2 mod 4) 2);
      destruct (Z.even (c2 / 4)); lia.
  - pose proof (nearest_bounds c1). pose proof (nearest_bounds c2). lia.
Qed.

Lemma nearest_exact n : nearest (4 * n) = n.
Proof.
  unfold nearest.
  replace ((4 * n) mod 4) with 0 by (Z.div_mod_to_equations; lia).
  replace (4 * n / 4) with n by (Z.div_mod_to_equations; lia).
  reflexivity.
Qed.

(** ** Shift records *)

Lemma div_mod_4 m b : 0 <= b < 4 ->
  (4 * m + b) / 4 = m /\ (4 * m + b) mod 4 = b.
Proof. intros H. Z.div_mod_to_equations. lia. Qed.

Lemma code_div4 r : code r / 4 = shr_m r.
Proof.
  unfold code. destruct (shr_r r), (shr_s r); Z.div_mod_to_equations; lia.
Qed.

Lemma code_shr_1 r : 0 <= shr_m r -> code (shr_1 r) = halve (code r).
Proof.
  intros Hm. pose proof (shr_1_m r Hm) as M.
  destruct r as [m rb sb]. cbn [shr_m] in *.
  assert (R : shr_r (shr_1 (Build_shr_record m rb sb)) = Z.odd m)
    by (destruct m as [|[p|p|]|[p|p|]]; reflexivity).
  assert (S : shr_s (shr_1 (Build_shr_record m rb sb)) = orb rb sb)
    by (destruct m as [|[p|p|]|[p|p|]]; reflexivity).
  unfold halve. rewrite code_div4. unfold code. rewrite R, S, M.
  cbn [shr_m shr_r shr_s].
  pose proof (Z.div2_odd m) as Hodd.
  remember (Z.div2 m) as h eqn:Eh. clear Eh M R S.
  destruct (Z.odd m), rb, sb; cbn [orb Z.b2z] in *.
  - replace (4 * m + 2 + 1) with (4 * m + 3) by lia.
    destruct (div_mod_4 m 3 ltac:(lia)) as [_ ->]. change (3 =? 0) with false. cbv iota. lia.
  - replace (4 * m + 2 + 0) with (4 * m + 2) by lia.
    destruct (div_mod_4 m 2 ltac:(lia)) as [_ ->]. change (2 =? 0) with false. cbv iota. lia.
  - replace (4 * m + 0 + 1) with (4 * m + 1) by lia.
    destruct (div_mod_4 m 1 ltac:(lia)) as [_ ->]. change (1 =? 0) with false. cbv iota. lia.
  - replace (4 * m + 0 + 0) with (4 * m + 0) by lia.
    destruct (div_mod_4 m 0 ltac:(lia)) as [_ ->]. change (0 =? 0) with true. cbv iota. lia.
  - replace (4 * m + 2 + 1) with (4 * m + 3) by lia.
    destruct (div_mod_4 m 3 ltac:(lia)) as [_ ->]. change (3 =? 0) with false. cbv iota. lia.
  - replace (4 * m + 2 + 0) with (4 * m + 2) by lia.
    destruct (div_mod_4 m 2 ltac:(lia)) as [_ ->]. change (2 =? 0) with false. cbv iota. lia.
  - replace (4 * m + 0 + 1) with (4 * m + 1) by lia.
    destruct (div_mod_4 m 1 ltac:(lia)) as [_ ->]. change (1 =? 0) with false. cbv iota. lia.
  - replace (4 * m + 0 + 0) with (4 * m + 0) by lia.
    destruct (div_mod_4 m 0 ltac:(lia)) as [_ ->]. change (0 =? 0) with true. cbv iota. lia.
Qed.

Lemma shr_1_nonneg r : 0 <= shr_m r -> 0 <= shr_m (shr_1 r).
Proof.
  intros H. rewrite shr_1_m by assumption. rewrite Z.div2_div.
  apply Z.div_pos; lia.
Qed.

Lemma code_iter_shr_1 p : forall r, 0 <= shr_m r ->
  0 <= shr_m (Pos.iter shr_1 r p) /\
  code (Pos.iter shr_1 r p) = Pos.iter halve (code r) p.
Proof.
  induction p using Pos.peano_ind; intros r Hr.
  - simpl. split; [apply shr_1_nonneg; assumption | apply code_shr_1; assumption].
  - rewrite !Pos.iter_succ. destruct (IHp r Hr) as [H1 H2].
    split; [apply shr_1_nonneg; assumption|].
    rewrite code_shr_1 by assumption. rewrite H2. reflexivity.
Qed.

Lemma round_nearest_even_code r :
  round_nearest_even (shr_m r) (loc_of_shr_record r) = nearest (code r).
Proof.
  destruct r as [m rb sb]. unfold nearest, code.
  cbn [shr_m shr_r shr_s loc_of_shr_record].
  destruct rb, sb; cbn [round_nearest_even].
  - replace (4 * m + 2 + 1) with (4 * m + 3) by lia.
    destruct (div_mod_4 m 3 ltac:(lia)) as [-> ->]. reflexivity.
  - replace (4 * m + 2 + 0) with (4 * m + 2) by lia.
    destruct (div_mod_4 m 2 ltac:(lia)) as [-> ->]. reflexivity.
  - replace (4 * m + 0 + 1) with (4 * m + 1) by lia.
    destruct (div_mod_4 m 1 ltac:(lia)) as [-> ->]. reflexivity.
  - replace (4 * m + 0 + 0) with (4 * m + 0) by lia.
    destruct (div_mod_4 m 0 ltac:(lia)) as [-> ->]. reflexivity.
Qed.

Lemma code_exact m : code (shr_record_of_loc m loc_Exact) = position m 1.
Proof. rewrite position_exact. unfold code. simpl. lia. Qed.

Lemma new_location_cases d r : 0 < d -> 0 <= r < d ->
  new_location d r =
  if r =? 0 then loc_Exact else loc_Inexact (2 * r ?= d).
Proof.
  intros Hd Hr. unfold new_location, new_location_even, new_location_odd.
  destruct (Z.even d) eqn:Ev; [reflexivity|].
  destruct (r =? 0); [reflexivity|]. f_equal.
  assert (Ho : Z.odd d = true) by (rewrite <- Z.negb_even, Ev; reflexivity).
  apply Z.odd_spec in Ho. destruct Ho as [h Eh].
  destruct (Z.compare_spec (2 * r + 1) d); destruct (Z.compare_spec (2 * r) d);
    try reflexivity; lia.
Qed.

(** The location computed by a division is the position of the exact
    quotient. *)
Lemma code_new_location n d : 0 <= n -> 0 < d ->
  code (shr_record_of_loc (n / d) (new_location d (n mod d))) = position n d.
Proof.
  intros Hn Hd.
  pose proof (Z.mod_pos_bound n d Hd) as Hmod.
  rewrite new_location_cases by assumption.
  destruct (position_split n d Hn Hd) as (b & s & En & Hs & Hb & Eb & ->).
  assert (Es : n mod d = s) by (symmetry; apply (Z.mod_unique _ _ b); lia).
  rewrite Eb, Es.
  destruct (Z.eqb_spec s 0); [unfold code; simpl; lia|].
  destruct (Z.compare_spec (2 * s) d); destruct (Z.ltb_spec (2 * s) d);
    destruct (Z.eqb_spec (2 * s) d); try lia; unfold code; simpl; lia.
Qed.

(** Shifting a record by [k] digits divides the rational it stands for
    by [2^k]. *)
Lemma shr_code r e k n d :
  0 <= shr_m r -> 0 <= n -> 0 < d -> code r = position n d ->
  code (fst (shr r e k)) = position n (d * 2 ^ Z.max k 0).
Proof.
  intros Hr Hn Hd Hc. destruct k as [|p|p]; cbn [shr fst].
  - simpl. rewrite Z.mul_1_r. exact Hc.
  - rewrite iter_pos_iter.
    destruct (code_iter_shr_1 p r Hr) as [_ ->].
    rewrite Hc. rewrite iter_halve_position by assumption.
    rewrite Z.max_l by lia. reflexivity.
  - simpl. rewrite Z.mul_1_r. exact Hc.
Qed.

(** ** The rounding function rounds to nearest *)

Lemma Zdigits2_le_lt m a : 0 <= a -> 0 <= m -> Zdigits2 m <= a -> m < 2 ^ a.
Proof.
  intros Ha Hm Hd. destruct (Z.eq_dec m 0) as [->|Hnz].
  - apply Z.pow_pos_nonneg; lia.
  - rewrite Zdigits2_log2 in Hd by lia. apply Z.log2_lt_pow2; lia.
Qed.

Lemma Zdigits2_ge m a : 0 < m -> 1 <= a <= Zdigits2 m -> 2 ^ (a - 1) <= m.
Proof.
  intros Hm Hd. rewrite Zdigits2_log2 in Hd by lia.
  apply Z.le_trans with (2 ^ Z.log2 m).
  - apply Z.pow_le_mono_r; lia.
  - apply Z.log2_spec. assumption.
Qed.

(** [binary_round_aux] on a quotient [q = n / d] whose location is the
    position of [n / d]: the result is the multiple of [2^E] nearest to
    the exact value [n / d * 2^e], [E] being the exponent of the format
    at the magnitude of the value.  The exact value over [2^E] is
    [n / D]; the result is worth [V] units of [2^-1074], and it is an
    infinity when [V] is beyond the largest finite number. *)
Lemma binary_round_aux_nearest s q e l n d :
  0 <= n -> 0 < d -> q = n / d ->
  code (shr_record_of_loc q l) = position n d ->
  e <= fexp prec emax (Zdigits2 q + e) ->
  let E := fexp prec emax (Zdigits2 q + e) in
  let D := d * 2 ^ (E - e) in
  let V := nearest (position n D) * 2 ^ (E + 1074) in
  n / D < 2 ^ 53 /\ (-1074 < E -> 2 ^ 52 <= n / D) /\ -1074 <= E /\
  match binary_round_aux prec emax s q e l with
  | S754_zero s' => s' = s /\ V = 0
  | S754_finite s' m2 e2 =>
      s' = s /\ Zpos m2 * 2 ^ (e2 + 1074) = V /\ V < 2 ^ 2098
  | S754_infinity s' => s' = s /\ 2 ^ 2098 <= V
  | S754_nan => False
  end.
Proof.
  intros Hn Hd Eq Hc Hal E D V.
  assert (Hq : 0 <= q) by (subst q; apply Z.div_pos; lia).
  assert (HE : E = Z.max (Zdigits2 q + e - 53) (-1074)) by reflexivity.
  fold E in Hal.
  assert (Hk : 0 <= E - e) by lia.
  assert (HD : 0 < D).
  { apply Z.mul_pos_pos; [assumption | apply Z.pow_pos_nonneg; lia]. }
  unfold binary_round_aux.
  pose proof (shr_fexp_spec q e l Hq) as [Hm1 He1].
  assert (Hc1 : code (fst (shr_fexp prec emax q e l)) = position n D).
  { unfold shr_fexp. fold E.
    rewrite (shr_code _ e (E - e) n d); try assumption.
    - rewrite Z.max_l by lia. reflexivity.
    - rewrite shr_record_of_loc_m. assumption. }
  fold E in Hm1, He1. rewrite Z.max_l in Hm1, He1 by lia.
  destruct (shr_fexp prec emax q e l) as [r1 e1]. cbn [fst snd] in Hm1, He1, Hc1.
  assert (He1' : e1 = E) by lia. clear He1. subst e1.
  rewrite round_nearest_even_code, Hc1.
  assert (Em : n / D = shr_m r1).
  { rewrite <- code_div4, Hc1. symmetry. apply position_div4; assumption. }
  remember (shr_m r1) as m' eqn:Em'.
  assert (Hm'0 : 0 <= m') by (rewrite Hm1; apply Z.shiftr_nonneg; assumption).
  (* the shifted mantissa has at most 53 digits *)
  assert (B53 : m' < 2 ^ 53).
  { destruct (Z.eq_dec m' 0) as [->|Hnz]; [reflexivity|].
    assert (Hpos : 0 < Z.shiftr q (E - e)) by lia.
    destruct (shiftr_digits q (E - e) Hq Hk Hpos) as [_ Hdig].
    rewrite <- Hm1 in Hdig.
    apply Zdigits2_le_lt; lia. }
  assert (B52 : -1074 < E -> 2 ^ 52 <= m').
  { intros HEn.
    assert (Hq0 : 0 < q).
    { destruct (Z.eq_dec q 0) as [Hz|Hnz]; [|lia].
      rewrite Hz in HE. simpl in HE. lia. }
    pose proof (Zdigits2_log2 q Hq0) as Hl.
    pose proof (Z.log2_nonneg q) as Hl0.
    destruct (shiftr_pos_digits q (E - e) Hq0 Hk ltac:(lia)) as [Hpos Hdig].
    rewrite <- Hm1 in Hpos, Hdig.
    apply (Zdigits2_ge m' 53); lia. }
  rewrite Em.
  split; [exact B53|]. split; [exact B52|]. split; [lia|].
  (* the rounded mantissa *)
  pose proof (nearest_bounds (position n D)) as HM.
  rewrite <- Hc1, code_div4, <- Em' in HM. rewrite Hc1 in HM.
  subst V. remember (nearest (position n D)) as M eqn:EM.
  assert (HM0 : 0 <= M) by lia.
  pose proof (shr_fexp_spec M E loc_Exact HM0) as [Hm2 He2].
  destruct (shr_fexp prec emax M E loc_Exact) as [r2 e2]. cbn [fst snd] in Hm2, He2.
  rewrite fexp_eq in Hm2, He2.
  assert (Hp : 0 < 2 ^ (E + 1074)) by (apply Z.pow_pos_nonneg; lia).
  destruct (Z_lt_le_dec M (2 ^ 53)) as [Hlt|Hge].
  - (* no carry *)
    assert (HdM : Zdigits2 M <= 53).
    { destruct (Z.eq_dec M 0) as [->|Hnz]; [simpl; lia|].
      apply Zdigits2_lt_pow2; lia. }
    rewrite Z.max_r in Hm2, He2 by lia.
    rewrite Z.shiftr_0_r in Hm2. rewrite Z.add_0_r in He2. subst e2.
    rewrite Hm2. destruct M as [|p|p]; try lia.
    + split; [reflexivity | lia].
    + change (emax - prec) with 971.
      destruct (Z.leb_spec E 971) as [Hle|Hgt].
      * split; [reflexivity|]. split; [reflexivity|].
        apply Z.lt_le_trans with (2 ^ 53 * 2 ^ (E + 1074)).
        -- apply Z.mul_lt_mono_pos_r; assumption.
        -- rewrite <- Z.pow_add_r by lia. apply Z.pow_le_mono_r; lia.
      * split; [reflexivity|].
        apply Z.le_trans with (2 ^ 52 * 2 ^ (E + 1074)).
        -- rewrite <- Z.pow_add_r by lia. apply Z.pow_le_mono_r; lia.
        -- apply Z.mul_le_mono_nonneg_r; [lia|].
           specialize (B52 ltac:(lia)). lia.
  - (* the rounding carried to 2^53 *)
    assert (EM53 : M = 2 ^ 53) by lia.
    rewrite EM53 in Hm2, He2 |- *.
    change (Zdigits2 (2 ^ 53)) with 54 in Hm2, He2.
    replace (Z.max (Z.max (54 + E - 53) (-1074) - E) 0) with 1 in Hm2, He2 by lia.
    change (Z.shiftr (2 ^ 53) 1) with (2 ^ 52) in Hm2.
    rewrite Hm2. change (2 ^ 52) with (Zpos 4503599627370496).
    cbv iota. change (emax - prec) with 971. subst e2.
    assert (EV : Z.pos 4503599627370496 * 2 ^ (E + 1 + 1074)
                 = 2 ^ 53 * 2 ^ (E + 1074)).
    { replace (E + 1 + 1074) with (1 + (E + 1074)) by lia.
      rewrite Z.pow_add_r by lia. change (2 ^ 1) with 2.
      change (2 ^ 53) with (2 * 4503599627370496). lia. }
    destruct (Z.leb_spec (E + 1) 971) as [Hle|Hgt].
    + split; [reflexivity|]. split; [exact EV|].
      rewrite <- Z.pow_add_r by lia. apply Z.pow_lt_mono_r; lia.
    + split; [reflexivity|].
      rewrite <- Z.pow_add_r by lia. apply Z.pow_le_mono_r; lia.
Qed.

(** ** Rounding is monotone *)

Lemma pow_scale X Y a1 a2 b1 b2 :
  0 <= a1 -> 0 <= a2 -> 0 <= b1 -> 0 <= b2 -> a1 - a2 = b1 - b2 ->
  X * 2 ^ a1 <= Y * 2 ^ a2 -> X * 2 ^ b1 <= Y * 2 ^ b2.
Proof.
  intros Ha1 Ha2 Hb1 Hb2 Hd H.
  assert (P : 0 < 2 ^ a2) by (apply Z.pow_pos_nonneg; lia).
  apply (mul_cancel_le_r _ _ (2 ^ a2) P).
  rewrite <- !Z.mul_assoc, <- !Z.pow_add_r by lia.
  replace (b1 + a2) with (a1 + b2) by lia.
  replace (b2 + a2) with (a2 + b2) by lia.
  rewrite !Z.pow_add_r, !Z.mul_assoc by lia.
  apply Z.mul_le_mono_nonneg_r; [apply Z.pow_nonneg; lia | exact H].
Qed.

Lemma nearest_position_bounds n D : 0 <= n -> 0 < D ->
  n / D <= nearest (position n D) <= n / D + 1.
Proof.
  intros Hn HD. pose proof (nearest_bounds (position n D)) as H.
  rewrite position_div4 in H by assumption. exact H.
Qed.

Lemma nearest_scaled_mono n1 D1 E1 n2 D2 E2 :
  0 <= n1 -> 0 <= n2 -> 0 < D1 -> 0 < D2 -> -1074 <= E1 -> -1074 <= E2 ->
  n1 / D1 < 2 ^ 53 -> n2 / D2 < 2 ^ 53 ->
  (-1074 < E1 -> 2 ^ 52 <= n1 / D1) -> (-1074 < E2 -> 2 ^ 52 <= n2 / D2) ->
  (E1 <= E2 -> n1 * D2 <= n2 * D1 * 2 ^ (E2 - E1)) ->
  (E2 <= E1 -> n1 * D2 * 2 ^ (E1 - E2) <= n2 * D1) ->
  nearest (position n1 D1) * 2 ^ (E1 + 1074)
  <= nearest (position n2 D2) * 2 ^ (E2 + 1074).
Proof.
  intros Hn1 Hn2 HD1 HD2 HE1 HE2 U1 U2 L1 L2 O1 O2.
  pose proof (nearest_position_bounds n1 D1 Hn1 HD1) as B1.
  pose proof (nearest_position_bounds n2 D2 Hn2 HD2) as B2.
  destruct (Z.lt_trichotomy E1 E2) as [Hlt|[Heq|Hgt]].
  - specialize (L2 ltac:(lia)).
    apply Z.le_trans with (2 ^ 53 * 2 ^ (E1 + 1074)).
    + apply Z.mul_le_mono_nonneg_r; [apply Z.pow_nonneg; lia | lia].
    + apply Z.le_trans with (2 ^ 52 * 2 ^ (E2 + 1074)).
      * rewrite <- !Z.pow_add_r by lia. apply Z.pow_le_mono_r; lia.
      * apply Z.mul_le_mono_nonneg_r; [apply Z.pow_nonneg; lia | lia].
  - subst E2. specialize (O1 ltac:(lia)). rewrite Z.sub_diag in O1.
    change (2 ^ 0) with 1 in O1. rewrite Z.mul_1_r in O1.
    apply Z.mul_le_mono_nonneg_r; [apply Z.pow_nonneg; lia|].
    apply nearest_mono. apply position_mono; assumption.
  - exfalso. specialize (L1 ltac:(lia)). specialize (O2 ltac:(lia)).
    assert (P : 2 <= 2 ^ (E1 - E2)).
    { change 2 with (2 ^ 1) at 1. apply Z.pow_le_mono_r; lia. }
    assert (N1 : 2 ^ 52 * D1 <= n1).
    { pose proof (Z.mul_div_le n1 D1 HD1).
      apply Z.le_trans with (D1 * (n1 / D1)); [|assumption].
      rewrite (Z.mul_comm D1). apply Z.mul_le_mono_nonneg_r; lia. }
    assert (N2 : 2 ^ 53 * D2 <= n2).
    { apply (mul_cancel_le_r _ _ D1 HD1).
      apply Z.le_trans with (n1 * D2 * 2 ^ (E1 - E2)); [|assumption].
      change (2 ^ 53) with (2 ^ 52 * 2).
      transitivity (2 ^ 52 * D1 * D2 * 2); [lia|].
      transitivity (n1 * D2 * 2).
      - apply Z.mul_le_mono_nonneg_r; [lia|].
        apply Z.mul_le_mono_nonneg_r; lia.
      - apply Z.mul_le_mono_nonneg_l; [|assumption].
        apply Z.mul_nonneg_nonneg; lia. }
    assert (2 ^ 53 <= n2 / D2).
    { apply Z.div_le_lower_bound; [assumption|]. lia. }
    lia.
Qed.

Lemma rounds_to_mono x1 V1 x2 V2 :
  rounds_to x1 V1 -> rounds_to x2 V2 -> V1 <= V2 -> rank x1 <= rank x2.
Proof.
  assert (P : 2 ^ 2098 < 2 ^ 2100) by (apply Z.pow_lt_mono_r; lia).
  destruct x1 as [s1|[]| |[] m1 e1]; destruct x2 as [s2|[]| |[] m2 e2];
    cbn [rounds_to rank cond_Zopp]; intros H1 H2 H; try contradiction; lia.
Qed.

(** Of two roundings the one of the smaller exact value is the smaller
    one.  The exact values [P1 / Q1 * 2^g1] and [P2 / Q2 * 2^g2] are
    compared after scaling by powers of two. *)
Lemma rounded_mono x1 P1 Q1 g1 x2 P2 Q2 g2 a1 a2 :
  0 <= P1 -> 0 <= P2 -> 0 < Q1 -> 0 < Q2 ->
  rounded x1 P1 Q1 g1 -> rounded x2 P2 Q2 g2 ->
  0 <= a1 -> 0 <= a2 -> a1 - a2 = g1 - g2 ->
  P1 * Q2 * 2 ^ a1 <= P2 * Q1 * 2 ^ a2 ->
  rank x1 <= rank x2.
Proof.
  intros HP1 HP2 HQ1 HQ2 (s1 & k1 & E1 & Hs1 & Hk1 & HE1 & G1 & U1 & L1 & R1)
         (s2 & k2 & E2 & Hs2 & Hk2 & HE2 & G2 & U2 & L2 & R2) Ha1 Ha2 Hd H.
  apply (rounds_to_mono _ _ _ _ R1 R2).
  assert (Ps1 : 0 < 2 ^ s1) by (apply Z.pow_pos_nonneg; lia).
  assert (Ps2 : 0 < 2 ^ s2) by (apply Z.pow_pos_nonneg; lia).
  assert (Pk1 : 0 < 2 ^ k1) by (apply Z.pow_pos_nonneg; lia).
  assert (Pk2 : 0 < 2 ^ k2) by (apply Z.pow_pos_nonneg; lia).
  apply nearest_scaled_mono; try assumption; try lia.
  - intros HE.
    replace (P1 * 2 ^ s1 * (Q2 * 2 ^ k2)) with (P1 * Q2 * (2 ^ s1 * 2 ^ k2)) by ring.
    replace (P2 * 2 ^ s2 * (Q1 * 2 ^ k1) * 2 ^ (E2 - E1))
      with (P2 * Q1 * (2 ^ s2 * 2 ^ k1 * 2 ^ (E2 - E1))) by ring.
    rewrite <- !Z.pow_add_r by lia.
    apply (pow_scale _ _ a1 a2); first [lia | exact H].
  - intros HE.
    replace (P1 * 2 ^ s1 * (Q2 * 2 ^ k2) * 2 ^ (E1 - E2))
      with (P1 * Q2 * (2 ^ s1 * 2 ^ k2 * 2 ^ (E1 - E2))) by ring.
    replace (P2 * 2 ^ s2 * (Q1 * 2 ^ k1)) with (P2 * Q1 * (2 ^ s2 * 2 ^ k1)) by ring.
    rewrite <- !Z.pow_add_r by lia.
    apply (pow_scale _ _ a1 a2); first [lia | exact H].
Qed.

(** Zero is the rounding of zero. *)
Lemma rounded_zero s Q g : 0 < Q -> rounded (S754_zero s) 0 Q g.
Proof.
  intros HQ.
  assert (Hz : forall s k, 0 <= k -> 0 * 2 ^ s / (Q * 2 ^ k) = 0).
  { intros s0 k0 Hk. rewrite Z.mul_0_l. apply Zdiv_0_l. }
  assert (Hp : forall s k, 0 <= k -> position (0 * 2 ^ s) (Q * 2 ^ k) = 0).
  { intros s0 k0 Hk. unfold position. rewrite Z.mul_0_l.
    change (2 * 0) with 0. rewrite Zdiv_0_l, Zmod_0_l. reflexivity. }
  destruct (Z_le_gt_dec 0 (g + 1074)) as [Hge|Hlt].
  - exists (g + 1074), 0, (-1074). rewrite Hz, Hp by lia.
    repeat split; lia.
  - exists 0, (- (g + 1074)), (-1074). rewrite Hz, Hp by lia.
    repeat split; lia.
Qed.

(** ** The operations round to nearest *)

Lemma shl_align_aligned p e :
  snd (shl_align p e (fexp prec emax (Zpos (digits2_pos p) + e)))
  <= fexp prec emax
       (Zdigits2 (Zpos (fst (shl_align p e (fexp prec emax (Zpos (digits2_pos p) + e)))))
        + snd (shl_align p e (fexp prec emax (Zpos (digits2_pos p) + e)))).
Proof.
  pose proof (shl_align_mag p e (fexp prec emax (Zpos (digits2_pos p) + e))) as Hm.
  unfold mag in Hm. cbn [Zdigits2]. rewrite Hm.
  unfold shl_align.
  destruct (fexp prec emax (Z.pos (digits2_pos p) + e) - e) as [|d|d] eqn:Ed;
    cbn [fst snd]; lia.
Qed.

Lemma binary_round_rounded p e :
  rounded (binary_round prec emax false p e) (Zpos p) 1 e.
Proof.
  unfold binary_round.
  pose proof (shl_align_aligned p e) as Hal.
  pose proof (shl_align_value p e (fexp prec emax (Zpos (digits2_pos p) + e)))
    as (Hle & Hv & _).
  destruct (shl_align p e (fexp prec emax (Zpos (digits2_pos p) + e))) as [mz ez].
  cbn [fst snd] in *.
  pose proof (binary_round_aux_nearest false (Zpos mz) ez loc_Exact (Zpos mz) 1
                ltac:(lia) ltac:(lia) ltac:(rewrite Z.div_1_r; reflexivity)
                (code_exact (Zpos mz)) Hal) as H.
  cbv zeta in H. destruct H as (U & L & HE & R).
  remember (fexp prec emax (Zdigits2 (Z.pos mz) + ez)) as E eqn:EE.
  exists (e - ez), (E - ez), E.
  rewrite <- Hv.
  split; [lia|]. split; [lia|]. split; [lia|]. split; [lia|].
  split; [exact U|]. split; [exact L|].
  destruct (binary_round_aux prec emax false (Z.pos mz) ez loc_Exact)
    as [s'|s'| |s' m2 e2]; cbn [rounds_to].
  - apply R.
  - destruct R as [-> R]. exact R.
  - exact R.
  - destruct R as [-> R]. exact R.
Qed.

Lemma of_Z_rounded z : 0 <= z -> rounded (of_Z z) z 1 0.
Proof.
  intros Hz. destruct z as [|p|p]; try lia.
  - apply rounded_zero. lia.
  - apply binary_round_rounded.
Qed.

Lemma SFdiv_core_binary_eq mx ex my ey :
  let e' := Z.min (fexp prec emax (Zpos (digits2_pos mx) + ex
                                   - (Zpos (digits2_pos my) + ey))) (ex - ey) in
  let n := Zpos mx * 2 ^ (ex - ey - e') in
  SFdiv_core_binary prec emax (Zpos mx) ex (Zpos my) ey
  = (n / Zpos my, e', new_location (Zpos my) (n mod Zpos my)).
Proof.
  intros e' n. unfold SFdiv_core_binary. cbn [Zdigits2]. fold e'.
  assert (Hs : 0 <= ex - ey - e') by (unfold e'; lia).
  assert (Hm : match ex - ey - e' with
               | Z.pos _ => Z.shiftl (Zpos mx) (ex - ey - e')
               | 0 => Zpos mx
               | Z.neg _ => 0
               end = n).
  { unfold n. destruct (ex - ey - e') as [|p|p] eqn:E.
    - rewrite Z.pow_0_r. lia.
    - rewrite Z.shiftl_mul_pow2 by lia. reflexivity.
    - lia. }
  rewrite Hm. unfold Z.div, Z.modulo.
  destruct (Z.div_eucl n (Z.pos my)) as [q r]. reflexivity.
Qed.

Lemma div_aligned mx ex my ey :
  let e' := Z.min (fexp prec emax (Zpos (digits2_pos mx) + ex
                                   - (Zpos (digits2_pos my) + ey))) (ex - ey) in
  let n := Zpos mx * 2 ^ (ex - ey - e') in
  e' <= fexp prec emax (Zdigits2 (n / Zpos my) + e').
Proof.
  intros e' n. rewrite fexp_eq. unfold n, e'. rewrite fexp_eq.
  pose proof (digits2_pos_bounds mx) as [Bx1 Bx2].
  pose proof (digits2_pos_bounds my) as [By1 By2].
  remember (Zpos (digits2_pos mx)) as d1 eqn:Hd1.
  remember (Zpos (digits2_pos my)) as d2 eqn:Hd2.
  assert (0 < d1) by lia. assert (0 < d2) by lia.
  remember (Z.min (Z.max (d1 + ex - (d2 + ey) - 53) (-1074)) (ex - ey)) as e1 eqn:He1.
  remember (ex - ey - e1) as s eqn:Hs.
  assert (Hs0 : 0 <= s) by lia.
  remember (Z.pos mx * 2 ^ s / Z.pos my) as q eqn:Eq.
  destruct (Z_le_gt_dec e1 (-1074)) as [Hle|Hgt]; [lia|].
  assert (Ha : d2 <= d1 - 1 + s) by lia.
  assert (Hlow : 2 ^ (d1 - 1 + s - d2) <= q).
  { rewrite Eq. apply Z.div_le_lower_bound; [lia|].
    transitivity (2 ^ d2 * 2 ^ (d1 - 1 + s - d2)).
    - apply Z.mul_le_mono_nonneg_r; [apply Z.pow_nonneg; lia | lia].
    - rewrite <- Z.pow_add_r by lia.
      replace (d2 + (d1 - 1 + s - d2)) with (d1 - 1 + s) by lia.
      rewrite Z.pow_add_r by lia.
      apply Z.mul_le_mono_nonneg_r; [apply Z.pow_nonneg; lia | lia]. }
  pose proof (Zdigits2_pow2_le q (d1 - 1 + s - d2) ltac:(lia) Hlow) as Hdq1.
  lia.
Qed.

(** The quotient of two positive numbers is the exact quotient rounded
    to nearest. *)
Lemma div_rounded mx ex my ey :
  rounded (div (S754_finite false mx ex) (S754_finite false my ey))
          (Zpos mx) (Zpos my) (ex - ey).
Proof.
  unfold div, SFdiv. rewrite SFdiv_core_binary_eq. cbv zeta.
  pose proof (div_aligned mx ex my ey) as Hal. cbv zeta in Hal.
  remember (Z.min (fexp prec emax (Zpos (digits2_pos mx) + ex
                                   - (Zpos (digits2_pos my) + ey))) (ex - ey))
    as e' eqn:He'.
  assert (Hs : 0 <= ex - ey - e') by (rewrite He'; lia).
  remember (Zpos mx * 2 ^ (ex - ey - e')) as n eqn:En.
  assert (Hn : 0 <= n).
  { rewrite En. apply Z.mul_nonneg_nonneg; [lia | apply Z.pow_nonneg; lia]. }
  pose proof (binary_round_aux_nearest false (n / Zpos my) e'
                (new_location (Zpos my) (n mod Zpos my)) n (Zpos my)
                Hn eq_refl eq_refl (code_new_location n (Zpos my) Hn eq_refl) Hal)
    as H.
  cbv zeta in H. destruct H as (U & L & HE & R).
  remember (fexp prec emax (Zdigits2 (n / Z.pos my) + e')) as E eqn:EE.
  exists (ex - ey - e'), (E - e'), E. rewrite <- En.
  split; [lia|]. split; [lia|]. split; [lia|]. split; [lia|].
  split; [exact U|]. split; [exact L|].
  cbn [xorb].
  destruct (binary_round_aux prec emax false (n / Z.pos my) e'
              (new_location (Z.pos my) (n mod Z.pos my)))
    as [s'|s'| |s' m2 e2]; cbn [rounds_to].
  - apply R.
  - destruct R as [-> R]. exact R.
  - exact R.
  - destruct R as [-> R]. exact R.
Qed.

(** The product of two valid positive numbers is the exact product
    rounded to nearest. *)
Lemma mul_rounded mx ex my ey :
  valid (S754_finite false mx ex) = true ->
  valid (S754_finite false my ey) = true ->
  rounded (mul (S754_finite false mx ex) (S754_finite false my ey))
          (Zpos mx * Zpos my) 1 (ex + ey).
Proof.
  intros Vx Vy. unfold mul, SFmul. cbn [xorb].
  assert (Hal : ex + ey <= fexp prec emax (Zdigits2 (Zpos (mx * my)) + (ex + ey))).
  { rewrite fexp_eq.
    apply valid_finite_canonical in Vx as [Cx _].
    apply valid_finite_canonical in Vy as [Cy _].
    assert (Hd : Zpos (digits2_pos mx) + Zpos (digits2_pos my) - 1
                 <= Zdigits2 (Zpos (mx * my))).
    { pose proof (Zdigits2_log2 (Zpos mx) eq_refl) as H1.
      pose proof (Zdigits2_log2 (Zpos my) eq_refl) as H2.
      unfold Zdigits2 in H1, H2. rewrite H1, H2.
      rewrite Zdigits2_log2 by reflexivity.
      rewrite Pos2Z.inj_mul.
      pose proof (Z.log2_mul_below (Zpos mx) (Zpos my) eq_refl eq_refl). lia. }
    assert (0 < Zpos (digits2_pos mx)) by lia.
    assert (0 < Zpos (digits2_pos my)) by lia.
    lia. }
  pose proof (binary_round_aux_nearest false (Zpos (mx * my)) (ex + ey) loc_Exact
                (Zpos (mx * my)) 1
                ltac:(lia) ltac:(lia) ltac:(rewrite Z.div_1_r; reflexivity)
                (code_exact (Zpos (mx * my))) Hal) as H.
  cbv zeta in H. destruct H as (U & L & HE & R).
  remember (fexp prec emax (Zdigits2 (Z.pos (mx * my)) + (ex + ey))) as E eqn:EE.
  exists 0, (E - (ex + ey)), E.
  rewrite Z.pow_0_r, Z.mul_1_r, <- Pos2Z.inj_mul.
  split; [lia|]. split; [lia|]. split; [lia|]. split; [lia|].
  split; [exact U|]. split; [exact L|].
  destruct (binary_round_aux prec emax false (Z.pos (mx * my)) (ex + ey) loc_Exact)
    as [s'|s'| |s' m2 e2]; cbn [rounds_to].
  - apply R.
  - destruct R as [-> R]. exact R.
  - exact R.
  - destruct R as [-> R]. exact R.
Qed.

(** A valid positive number is its own rounding. *)
Lemma finite_rounded m e :
  valid (S754_finite false m e) = true ->
  rounded (S754_finite false m e) (Zpos m) 1 e.
Proof.
  intros Hv.
  pose proof (finite_units_bound false m e Hv) as [_ Hb].
  apply valid_finite_canonical in Hv as [C He].
  pose proof (digits2_pos_bounds m) as [B1 B2].
  exists 0, 0, e. rewrite Z.pow_0_r, !Z.mul_1_r, Z.div_1_r.
  rewrite position_exact, nearest_exact. cbn [rounds_to].
  split; [lia|]. split; [lia|]. split; [lia|]. split; [lia|].
  assert (B53 : Zpos m < 2 ^ 53).
  { apply Z.lt_le_trans with (2 ^ Zpos (digits2_pos m)); [assumption|].
    apply Z.pow_le_mono_r; lia. }
  split; [exact B53|]. split; [|split; [reflexivity|]].
  - intros Hn. replace (Zpos (digits2_pos m) - 1) with 52 in B1 by lia. exact B1.
  - apply Z.lt_le_trans with (2 ^ 53 * 2 ^ (e + 1074)).
    + apply Z.mul_lt_mono_pos_r; [apply Z.pow_pos_nonneg; lia | exact B53].
    + rewrite <- Z.pow_add_r by lia. apply Z.pow_le_mono_r; lia.
Qed.

(** ** Roundings of integer values *)

Lemma rounds_mono x1 R1 x2 R2 :
  rounds x1 R1 -> rounds x2 R2 -> R1 <= R2 -> rank x1 <= rank x2.
Proof.
  intros (P1 & g1 & HP1 & Hg1 & H1 & E1) (P2 & g2 & HP2 & Hg2 & H2 & E2) H.
  apply (rounded_mono x1 P1 1 g1 x2 P2 1 g2 (g1 + 1074) (g2 + 1074));
    try assumption; lia.
Qed.

Lemma zero_rounds s : rounds (S754_zero s) 0.
Proof.
  exists 0, (-1074). split; [lia|]. split; [lia|].
  split; [apply rounded_zero; lia | reflexivity].
Qed.

Lemma finite_rounds m e :
  valid (S754_finite false m e) = true ->
  rounds (S754_finite false m e) (Zpos m * 2 ^ (e + 1074)).
Proof.
  intros Hv. exists (Zpos m), e.
  pose proof (valid_finite_bounds false m e Hv).
  split; [lia|]. split; [lia|]. split; [apply finite_rounded; assumption|].
  reflexivity.
Qed.

(** A valid finite number that is not negative is its own rounding. *)
Lemma nonneg_finite_rounds x :
  valid x = true -> is_finite x = true -> nonneg x = true -> rounds x (rank x).
Proof.
  intros Hv Hf Hn. destruct x as [s|s| |[] m e]; try discriminate.
  - apply zero_rounds.
  - apply finite_rounds. assumption.
Qed.

Lemma of_Z_rounds z : 0 <= z -> rounds (of_Z z) (z * 2 ^ 1074).
Proof.
  intros Hz. exists z, 0. split; [assumption|]. split; [lia|].
  split; [apply of_Z_rounded; assumption | reflexivity].
Qed.

Lemma rank_nonneg x : nonneg x = true -> 0 <= rank x.
Proof.
  destruct x as [s|[]| |[] m e]; cbn [nonneg rank cond_Zopp]; intros H;
    try discriminate; lia.
Qed.

(** The sum of two valid finite numbers that are not negative is the
    exact sum rounded to nearest. *)
Lemma add_rounds x y :
  valid x = true -> valid y = true ->
  is_finite x = true -> is_finite y = true ->
  nonneg x = true -> nonneg y = true ->
  rounds (add x y) (rank x + rank y).
Proof.
  intros Vx Vy Fx Fy Nx Ny.
  destruct x as [sx|sx| |[] mx ex]; try discriminate;
    destruct y as [sy|sy| |[] my ey]; try discriminate.
  - replace (rank (S754_zero sx) + rank (S754_zero sy)) with 0 by reflexivity.
    destruct sx, sy; apply zero_rounds.
  - cbn [rank cond_Zopp]. rewrite Z.add_0_l.
    change (add (S754_zero sx) (S754_finite false my ey))
      with (S754_finite false my ey).
    apply finite_rounds. assumption.
  - cbn [rank cond_Zopp]. rewrite Z.add_0_r.
    change (add (S754_finite false mx ex) (S754_zero sy))
      with (S754_finite false mx ex).
    apply finite_rounds. assumption.
  - unfold add, SFadd. cbn [cond_Zopp rank].
    pose proof (valid_finite_bounds false mx ex Vx) as [_ Bx].
    pose proof (valid_finite_bounds false my ey Vy) as [_ By].
    pose proof (shl_align_value mx ex (Z.min ex ey)) as (_ & Hvx & Hex).
    pose proof (shl_align_value my ey (Z.min ex ey)) as (_ & Hvy & Hey).
    specialize (Hex ltac:(lia)). specialize (Hey ltac:(lia)).
    rewrite Hex in Hvx. rewrite Hey in Hvy.
    remember (Z.min ex ey) as ez eqn:Ez.
    remember (fst (shl_align mx ex ez)) as mx' eqn:Emx.
    remember (fst (shl_align my ey ez)) as my' eqn:Emy.
    change (Z.pos mx' + Z.pos my') with (Z.pos (mx' + my')).
    cbn [binary_normalize].
    exists (Zpos (mx' + my')), ez.
    split; [lia|]. split; [lia|]. split; [apply binary_round_rounded|].
    rewrite Pos2Z.inj_add, Hvx, Hvy.
    rewrite Z.mul_add_distr_r, <- !Z.mul_assoc, <- !Z.pow_add_r by lia.
    f_equal; f_equal; f_equal; lia.
Qed.

(** ** Monotone operations *)

Lemma of_Z_mono z1 z2 : 0 <= z1 <= z2 -> rank (of_Z z1) <= rank (of_Z z2).
Proof.
  intros H. apply (rounds_mono _ (z1 * 2 ^ 1074) _ (z2 * 2 ^ 1074)).
  - apply of_Z_rounds. lia.
  - apply of_Z_rounds. lia.
  - apply Z.mul_le_mono_nonneg_r; [apply Z.pow_nonneg; lia | lia].
Qed.

Lemma add_mono x1 y1 x2 y2 :
  valid x1 = true -> valid y1 = true -> valid x2 = true -> valid y2 = true ->
  is_finite x1 = true -> is_finite y1 = true ->
  is_finite x2 = true -> is_finite y2 = true ->
  nonneg x1 = true -> nonneg y1 = true -> nonneg x2 = true -> nonneg y2 = true ->
  rank x1 + rank y1 <= rank x2 + rank y2 ->
  rank (add x1 y1) <= rank (add x2 y2).
Proof.
  intros. eapply rounds_mono; [apply add_rounds | apply add_rounds |]; eassumption.
Qed.

(** A rounding whose exact value is a [double] is that [double]. *)
Lemma rounds_exact x y :
  rounds x (rank y) ->
  valid y = true -> is_finite y = true -> nonneg y = true ->
  rank x = rank y.
Proof.
  intros Hx Vy Fy Ny.
  pose proof (nonneg_finite_rounds y Vy Fy Ny) as Hy.
  pose proof (rounds_mono _ _ _ _ Hx Hy ltac:(lia)).
  pose proof (rounds_mono _ _ _ _ Hy Hx ltac:(lia)).
  lia.
Qed.

(** Dividing by a positive finite number is monotone. *)
Lemma div_mono_l x1 x2 my ey :
  valid x1 = true -> valid x2 = true ->
  is_finite x1 = true -> is_finite x2 = true ->
  nonneg x1 = true -> nonneg x2 = true ->
  rank x1 <= rank x2 ->
  rank (div x1 (S754_finite false my ey)) <= rank (div x2 (S754_finite false my ey)).
Proof.
  intros V1 V2 F1 F2 N1 N2 H.
  destruct x1 as [s1|s1| |[] m1 e1]; try discriminate.
  - change (div (S754_zero s1) (S754_finite false my ey))
      with (S754_zero (xorb s1 false)).
    cbn [rank]. apply rank_nonneg. apply div_nonneg_pos_finite. assumption.
  - pose proof (finite_units_bound false m1 e1 V1) as [P1 _].
    destruct x2 as [s2|s2| |[] m2 e2]; try discriminate.
    + cbn [rank cond_Zopp] in H. lia.
    + cbn [rank cond_Zopp] in H.
      pose proof (valid_finite_bounds false m1 e1 V1) as [_ B1].
      pose proof (valid_finite_bounds false m2 e2 V2) as [_ B2].
      apply (rounded_mono _ (Zpos m1) (Zpos my) (e1 - ey)
                          _ (Zpos m2) (Zpos my) (e2 - ey)
                          (e1 + 1074) (e2 + 1074));
        try apply div_rounded; try lia.
      replace (Z.pos m1 * Z.pos my * 2 ^ (e1 + 1074))
        with (Z.pos m1 * 2 ^ (e1 + 1074) * Z.pos my) by ring.
      replace (Z.pos m2 * Z.pos my * 2 ^ (e2 + 1074))
        with (Z.pos m2 * 2 ^ (e2 + 1074) * Z.pos my) by ring.
      apply Z.mul_le_mono_nonneg_r; lia.
Qed.

(** ** Rounding numbers of either sign *)

Lemma rank_opp x : rank (SFopp x) = - rank x.
Proof.
  destruct x as [s|s| |s m e]; cbn [SFopp rank]; try reflexivity;
    destruct s; cbn [negb cond_Zopp]; lia.
Qed.

Lemma opp_involutive x : SFopp (SFopp x) = x.
Proof. destruct x as [s|s| |s m e]; cbn [SFopp]; rewrite ?negb_involutive; reflexivity. Qed.

Lemma valid_opp x : valid (SFopp x) = valid x.
Proof. destruct x as [s|s| |s m e]; reflexivity. Qed.

Lemma binary_round_aux_opp s m e l :
  binary_round_aux prec emax (negb s) m e l
  = SFopp (binary_round_aux prec emax s m e l).
Proof.
  unfold binary_round_aux.
  destruct (shr_fexp prec emax m e l) as [r1 e1].
  destruct (shr_fexp prec emax _ e1 loc_Exact) as [r2 e2].
  destruct (shr_m r2); try reflexivity.
  destruct (e2 <=? emax - prec); reflexivity.
Qed.

Lemma binary_round_opp p e :
  binary_round prec emax true p e = SFopp (binary_round prec emax false p e).
Proof.
  unfold binary_round.
  destruct (shl_align p e _) as [mz ez].
  apply (binary_round_aux_opp false).
Qed.

Lemma rounds_rank_nonneg x R : rounds x R -> 0 <= rank x /\ 0 <= R.
Proof.
  intros (P & g & HP & Hg & (s & k & E & _ & _ & HE & _ & _ & _ & Hr) & ER).
  assert (0 <= 2 ^ (g + 1074)) by (apply Z.pow_nonneg; lia).
  split; [|subst R; apply Z.mul_nonneg_nonneg; lia].
  destruct x as [sx|[]| |[] m e]; cbn [rounds_to] in Hr; try contradiction;
    cbn [rank cond_Zopp];
    first [lia | apply Z.pow_nonneg; lia
          | apply Z.mul_nonneg_nonneg; [lia | apply Z.pow_nonneg; lia]].
Qed.

Lemma rounds_signed_mono x1 R1 x2 R2 :
  rounds_signed x1 R1 -> rounds_signed x2 R2 -> R1 <= R2 -> rank x1 <= rank x2.
Proof.
  unfold rounds_signed. intros H1 H2 H.
  destruct (Z.leb_spec 0 R1) as [P1|N1]; destruct (Z.leb_spec 0 R2) as [P2|N2].
  - apply (rounds_mono _ _ _ _ H1 H2 H).
  - lia.
  - pose proof (rounds_rank_nonneg _ _ H1) as [A _].
    pose proof (rounds_rank_nonneg _ _ H2) as [B _].
    rewrite rank_opp in A. lia.
  - pose proof (rounds_mono _ _ _ _ H2 H1 ltac:(lia)) as M.
    rewrite !rank_opp in M. lia.
Qed.

Lemma finite_rounds_signed x :
  valid x = true -> is_finite x = true -> rounds_signed x (rank x).
Proof.
  intros V F. unfold rounds_signed.
  destruct x as [s|s| |s m e]; try discriminate.
  - cbn [rank]. change (0 <=? 0) with true. cbv iota. apply zero_rounds.
  - pose proof (finite_units_bound s m e V) as [Hp _].
    destruct s; cbn [rank cond_Zopp SFopp negb].
    + destruct (Z.leb_spec 0 (- (Zpos m * 2 ^ (e + 1074)))) as [A|A]; [lia|].
      rewrite Z.opp_involutive. apply finite_rounds. exact V.
    + destruct (Z.leb_spec 0 (Zpos m * 2 ^ (e + 1074))) as [A|A]; [|lia].
      apply finite_rounds. exact V.
Qed.

Lemma binary_normalize_rounds_signed z e :
  -1074 <= e ->
  rounds_signed (binary_normalize prec emax z e false) (z * 2 ^ (e + 1074)).
Proof.
  intros He. unfold rounds_signed.
  assert (Pp : 0 < 2 ^ (e + 1074)) by (apply Z.pow_pos_nonneg; lia).
  destruct z as [|p|p]; cbn [binary_normalize].
  - rewrite Z.mul_0_l. change (0 <=? 0) with true. cbv iota. apply zero_rounds.
  - destruct (Z.leb_spec 0 (Zpos p * 2 ^ (e + 1074))) as [A|A]; [|lia].
    exists (Zpos p), e. split; [lia|]. split; [lia|].
    split; [apply binary_round_rounded | reflexivity].
  - destruct (Z.leb_spec 0 (Zneg p * 2 ^ (e + 1074))) as [A|A]; [lia|].
    rewrite binary_round_opp, opp_involutive.
    exists (Zpos p), e. split; [lia|]. split; [lia|].
    split; [apply binary_round_rounded | lia].
Qed.

Lemma sub_rounds_signed x y :
  valid x = true -> valid y = true ->
  is_finite x = true -> is_finite y = true ->
  rounds_signed (sub x y) (rank x - rank y).
Proof.
  intros Vx Vy Fx Fy.
  destruct x as [sx|sx| |sx mx ex]; try discriminate;
    destruct y as [sy|sy| |sy my ey]; try discriminate.
  - replace (rank (S754_zero sx) - rank (S754_zero sy)) with 0 by reflexivity.
    unfold rounds_signed. change (0 <=? 0) with true. cbv iota.
    destruct sx, sy; apply zero_rounds.
  - change (sub (S754_zero sx) (S754_finite sy my ey))
      with (SFopp (S754_finite sy my ey)).
    replace (rank (S754_zero sx) - rank (S754_finite sy my ey))
      with (rank (SFopp (S754_finite sy my ey)))
      by (rewrite rank_opp; cbn [rank]; lia).
    apply finite_rounds_signed; [rewrite valid_opp; exact Vy | reflexivity].
  - change (sub (S754_finite sx mx ex) (S754_zero sy))
      with (S754_finite sx mx ex).
    replace (rank (S754_finite sx mx ex) - rank (S754_zero sy))
      with (rank (S754_finite sx mx ex)) by (cbn [rank]; lia).
    apply finite_rounds_signed; [exact Vx | reflexivity].
  - unfold sub, SFsub.
    pose proof (valid_finite_bounds sx mx ex Vx) as [_ Bx].
    pose proof (valid_finite_bounds sy my ey Vy) as [_ By].
    pose proof (shl_align_value mx ex (Z.min ex ey)) as (_ & Hvx & Hex).
    pose proof (shl_align_value my ey (Z.min ex ey)) as (_ & Hvy & Hey).
    specialize (Hex ltac:(lia)). specialize (Hey ltac:(lia)).
    rewrite Hex in Hvx. rewrite Hey in Hvy.
    remember (Z.min ex ey) as ez eqn:Ez.
    remember (fst (shl_align mx ex ez)) as mx' eqn:Emx.
    remember (fst (shl_align my ey ez)) as my' eqn:Emy.
    replace (rank (S754_finite sx mx ex) - rank (S754_finite sy my ey))
      with ((cond_Zopp sx (Zpos mx') - cond_Zopp sy (Zpos my')) * 2 ^ (ez + 1074)).
    + apply binary_normalize_rounds_signed. lia.
    + cbn [rank]. rewrite Z.mul_sub_distr_r.
      assert (Ax : Zpos mx' * 2 ^ (ez + 1074) = Zpos mx * 2 ^ (ex + 1074)).
      { rewrite Hvx, <- Z.mul_assoc, <- Z.pow_add_r by lia.
        f_equal; f_equal; lia. }
      assert (Ay : Zpos my' * 2 ^ (ez + 1074) = Zpos my * 2 ^ (ey + 1074)).
      { rewrite Hvy, <- Z.mul_assoc, <- Z.pow_add_r by lia.
        f_equal; f_equal; lia. }
      destruct sx, sy; cbn [cond_Zopp]; rewrite ?Z.mul_opp_l, Ax, Ay; reflexivity.
Qed.

(** * Further properties of the timers *)

(** ** The calibration data of the Windows branch *)

(** X1.  On Windows no call changes what the constructor obtained from
    [QueryPerformanceFrequency]: after any sequence of calls that
    returns, [IsSupportedPlatform()], the frequency and the ticks per
    millisecond are those of the timer the sequence started from. *)
Theorem Win98_calibration_is_latched b cs t t'
  (Hrun : run (win98_step b) cs t = Done t') :
  Win98.IsSupportedPlatform t' = Win98.IsSupportedPlatform t /\
  Win98.m_perSecond t' = Win98.m_perSecond t /\
  Win98.m_perMillisecond t' = Win98.m_perMillisecond t.
Proof.
  revert Hrun.
  apply (run_invariant (win98_step b)
           (fun u => Win98.IsSupportedPlatform u = Win98.IsSupportedPlatform t /\
                     Win98.m_perSecond u = Win98.m_perSecond t /\
                     Win98.m_perMillisecond u = Win98.m_perMillisecond t));
    [|repeat split].
  intros [r|now|now] t0 t1 (H1 & H2 & H3) E; cbn [win98_step] in E.
  - unfold Win98.SetInterval in E.
    destruct (eqb r (of_Z 0)); [destruct b; cbn [assert bind] in E|];
      try discriminate; apply Done_inj in E; subst t1; repeat split; assumption.
  - unfold Win98.Start in E.
    destruct (assert b (Win98.IsSupportedPlatform t0)); cbn [bind] in E;
      [|discriminate].
    apply Done_inj in E; subst t1; repeat split; assumption.
  - unfold Win98.Stop in E.
    destruct (assert b (Win98.IsSupportedPlatform (Win98.set_stop t0 now)));
      cbn [bind] in E; [|discriminate].
    apply Done_inj in E; subst t1; repeat split; assumption.
Qed.

Lemma Win98_calibration_is_latched_witness :
  let t := Win98.PerformanceTimer98 (Win98.mkQuery true 10000000) in
  let t' := Win98.set_stop
              (Win98.set_stop
                 (Win98.set_start
                    (Win98.set_interval t (div (of_Z 10000000) (of_Z 30))) 5) 5) 9 in
  run (win98_step Debug) [CallSetInterval (of_Z 30); CallStart 5; CallStop 9] t
  = Done t' /\
  Win98.IsSupportedPlatform t' = Win98.IsSupportedPlatform t /\
  Win98.m_perSecond t' = Win98.m_perSecond t /\
  Win98.m_perMillisecond t' = Win98.m_perMillisecond t.
Proof.
  cbv zeta. split; [reflexivity|].
  apply (Win98_calibration_is_latched Debug
           [CallSetInterval (of_Z 30); CallStart 5; CallStop 9]).
  reflexivity.
Defined.

(** ** The calls that abort *)

Lemma Posix98_SetInterval_cases b r t :
  (eqb r (of_Z 0) = true /\ Posix98.SetInterval b r t = bind (assert b false) (fun _ => Done t)) \/
  (eqb r (of_Z 0) = false /\ exists t', Posix98.SetInterval b r t = Done t').
Proof.
  unfold Posix98.SetInterval. destruct (eqb r (of_Z 0)); [left | right]; split;
    try reflexivity. eexists. reflexivity.
Qed.

Lemma Timer11_SetInterval_cases b r t :
  (eqb r (of_Z 0) = true /\ Timer11.SetInterval b r t = bind (assert b false) (fun _ => Done t)) \/
  (eqb r (of_Z 0) = false /\ exists t', Timer11.SetInterval b r t = Done t').
Proof.
  unfold Timer11.SetInterval. destruct (eqb r (of_Z 0)); [left | right]; split;
    try reflexivity. eexists. reflexivity.
Qed.

Lemma Win98_SetInterval_cases b r t :
  (eqb r (of_Z 0) = true /\ Win98.SetInterval b r t = bind (assert b false) (fun _ => Done t)) \/
  (eqb r (of_Z 0) = false /\
   exists t', Win98.SetInterval b r t = Done t' /\ Win98.m_valid t' = Win98.m_valid t).
Proof.
  unfold Win98.SetInterval. destruct (eqb r (of_Z 0)); [left | right]; split;
    try reflexivity. eexists. split; reflexivity.
Qed.

Lemma posix98_release_returns cs : forall t,
  exists t', run (posix98_step Release) cs t = Done t'.
Proof.
  induction cs as [|c cs IH]; intros t; simpl; [eexists; reflexivity|].
  destruct c as [r|now|now]; cbn [posix98_step bind]; try apply IH.
  destruct (Posix98_SetInterval_cases Release r t) as [[_ E]|[_ [t' E]]];
    rewrite E; cbn [assert bind]; apply IH.
Qed.

Lemma timer11_release_returns cs : forall t,
  exists t', run (timer11_step Release) cs t = Done t'.
Proof.
  induction cs as [|c cs IH]; intros t; simpl; [eexists; reflexivity|].
  destruct c as [r|now|now]; cbn [timer11_step bind]; try apply IH.
  destruct (Timer11_SetInterval_cases Release r t) as [[_ E]|[_ [t' E]]];
    rewrite E; cbn [assert bind]; apply IH.
Qed.

Lemma win98_release_returns cs : forall t,
  exists t', run (win98_step Release) cs t = Done t'.
Proof.
  induction cs as [|c cs IH]; intros t; simpl; [eexists; reflexivity|].
  destruct c as [r|now|now]; cbn [win98_step]; try apply IH.
  destruct (Win98_SetInterval_cases Release r t) as [[_ E]|[_ (t' & E & _)]];
    rewrite E; cbn [assert bind]; apply IH.
Qed.

Lemma posix98_debug_aborts cs : forall t,
  run (posix98_step Debug) cs t = AssertionFailed <-> existsb zero_rate cs = true.
Proof.
  induction cs as [|c cs IH]; intros t; simpl.
  - split; discriminate.
  - destruct c as [r|now|now]; cbn [posix98_step bind zero_rate orb]; try apply IH.
    destruct (Posix98_SetInterval_cases Debug r t) as [[Z E]|[Z [t' E]]];
      rewrite E, Z; cbn [assert bind orb]; [tauto | apply IH].
Qed.

Lemma timer11_debug_aborts cs : forall t,
  run (timer11_step Debug) cs t = AssertionFailed <-> existsb zero_rate cs = true.
Proof.
  induction cs as [|c cs IH]; intros t; simpl.
  - split; discriminate.
  - destruct c as [r|now|now]; cbn [timer11_step bind zero_rate orb]; try apply IH.
    destruct (Timer11_SetInterval_cases Debug r t) as [[Z E]|[Z [t' E]]];
      rewrite E, Z; cbn [assert bind orb]; [tauto | apply IH].
Qed.

Lemma win98_debug_aborts cs : forall t,
  run (win98_step Debug) cs t = AssertionFailed <->
  existsb (fun c => zero_rate c || negb (Win98.IsSupportedPlatform t) && reads_clock c)
          cs = true.
Proof.
  induction cs as [|c cs IH]; intros t; simpl.
  - split; discriminate.
  - destruct c as [r|now|now]; cbn [win98_step zero_rate reads_clock].
    + destruct (Win98_SetInterval_cases Debug r t) as [[Z E]|[Z (t' & E & V)]];
        rewrite E, Z; cbn [assert bind orb]; [tauto|].
      rewrite andb_false_r. cbn [orb]. rewrite IH.
      unfold Win98.IsSupportedPlatform. rewrite V. reflexivity.
    + unfold Win98.Start, Win98.IsSupportedPlatform.
      destruct (Win98.m_valid t) eqn:V; cbn [assert bind negb andb orb]; [|tauto].
      rewrite IH. unfold Win98.IsSupportedPlatform.
      cbn [Win98.set_stop Win98.set_start Win98.m_valid]. rewrite V. reflexivity.
    + unfold Win98.Stop, Win98.IsSupportedPlatform.
      cbn [Win98.set_stop Win98.m_valid].
      destruct (Win98.m_valid t) eqn:V; cbn [assert bind negb andb orb]; [|tauto].
      rewrite IH. unfold Win98.IsSupportedPlatform.
      cbn [Win98.set_stop Win98.m_valid]. rewrite V. reflexivity.
Qed.

(** X2.  The sequences of calls that abort.  In a release build no
    sequence of calls aborts.  In a debug build a sequence aborts
    exactly if it holds a [SetInterval(r)] with [r == 0] or, on Windows
    when the platform is not supported, a [Start()] or a [Stop()]. *)
Theorem calls_that_abort :
  (forall cs t, exists t', run (win98_step Release) cs t = Done t') /\
  (forall cs t, exists t', run (posix98_step Release) cs t = Done t') /\
  (forall cs t, exists t', run (timer11_step Release) cs t = Done t') /\
  (forall cs t,
      run (win98_step Debug) cs t = AssertionFailed <->
      existsb (fun c => zero_rate c
                        || negb (Win98.IsSupportedPlatform t) && reads_clock c)
              cs = true) /\
  (forall cs t,
      run (posix98_step Debug) cs t = AssertionFailed <->
      existsb zero_rate cs = true) /\
  (forall cs t,
      run (timer11_step Debug) cs t = AssertionFailed <->
      existsb zero_rate cs = true).
Proof.
  split; [exact win98_release_returns|].
  split; [exact posix98_release_returns|].
  split; [exact timer11_release_returns|].
  split; [exact win98_debug_aborts|].
  split; [exact posix98_debug_aborts | exact timer11_debug_aborts].
Qed.

(** ** A counter frequency of zero *)

Lemma div_by_zero_not_finite x : is_finite (div x (S754_zero false)) = false.
Proof. destruct x as [[]|[]| |[] m e]; reflexivity. Qed.

Lemma zero_div_zero_or_nan r :
  match div (S754_zero false) r with
  | S754_zero _ | S754_nan => True
  | _ => False
  end.
Proof. destruct r as [[]|[]| |[] m e]; exact I. Qed.

(** X3.  When [QueryPerformanceFrequency] leaves a frequency of zero
    (the platform has no performance counter), every state that calls
    reach has a NaN for [GetInterval()], whatever rate was set, and
    neither [GetElapsed()] nor [GetRemaining()] is a finite number. *)
Theorem Win98_zero_frequency
  (q : Win98.frequency_query) (Hq : Win98.qpf_value q = 0)
  b cs t (Hrun : run (win98_step b) cs (Win98.PerformanceTimer98 q) = Done t) :
  is_nan (Win98.GetInterval t) = true /\
  is_finite (Win98.GetElapsed t) = false /\
  is_finite (Win98.GetRemaining t) = false.
Proof.
  assert (Inv : Win98.m_perSecond t = 0 /\
                Win98.m_perMillisecond t = S754_zero false /\
                match Win98.m_interval t with
                | S754_zero _ | S754_nan => True
                | _ => False
                end).
  { revert Hrun.
    apply (run_invariant (win98_step b)
             (fun u => Win98.m_perSecond u = 0 /\
                       Win98.m_perMillisecond u = S754_zero false /\
                       match Win98.m_interval u with
                       | S754_zero _ | S754_nan => True
                       | _ => False
                       end)).
    - intros [r|now|now] t0 t1 (H1 & H2 & H3) E; cbn [win98_step] in E.
      + unfold Win98.SetInterval in E.
        destruct (eqb r (of_Z 0)); [destruct b; cbn [assert bind] in E|];
          try discriminate; apply Done_inj in E; subst t1.
        * repeat split; assumption.
        * cbn [Win98.set_interval Win98.m_perSecond Win98.m_perMillisecond
               Win98.m_interval].
          split; [assumption|]. split; [assumption|].
          rewrite H1. apply zero_div_zero_or_nan.
      + unfold Win98.Start in E.
        destruct (assert b (Win98.IsSupportedPlatform t0)); cbn [bind] in E;
          [|discriminate].
        apply Done_inj in E; subst t1; repeat split; assumption.
      + unfold Win98.Stop in E.
        destruct (assert b (Win98.IsSupportedPlatform (Win98.set_stop t0 now)));
          cbn [bind] in E; [|discriminate].
        apply Done_inj in E; subst t1; repeat split; assumption.
    - cbn [Win98.PerformanceTimer98 Win98.m_perSecond Win98.m_perMillisecond
           Win98.m_interval].
      rewrite Hq. repeat split. }
  destruct Inv as (H1 & H2 & H3).
  unfold Win98.GetInterval, Win98.GetElapsed, Win98.GetRemaining.
  rewrite H1, H2. split; [|split; apply div_by_zero_not_finite].
  destruct (Win98.m_interval t) as [[]|[]| |[] m e]; try contradiction; reflexivity.
Qed.

Lemma Win98_zero_frequency_witness :
  let q := Win98.mkQuery false 0 in
  let cs := [CallSetInterval (of_Z 30); CallStart 5; CallStop 9] in
  let t := Win98.set_stop
             (Win98.set_stop
                (Win98.set_start
                   (Win98.set_interval (Win98.PerformanceTimer98 q)
                      (div (of_Z 0) (of_Z 30))) 5) 5) 9 in
  Win98.qpf_value q = 0 /\
  run (win98_step Release) cs (Win98.PerformanceTimer98 q) = Done t /\
  is_nan (Win98.GetInterval t) = true /\
  is_finite (Win98.GetElapsed t) = false /\
  is_finite (Win98.GetRemaining t) = false.
Proof.
  cbv zeta. split; [reflexivity|]. split; [reflexivity|].
  apply (Win98_zero_frequency (Win98.mkQuery false 0) eq_refl Release
           [CallSetInterval (of_Z 30); CallStart 5; CallStop 9]).
  reflexivity.
Defined.

(** ** A rate that is not a number *)

Lemma geb_nan_r x : geb x S754_nan = false.
Proof. destruct x as [[]|[]| |[] m e]; reflexivity. Qed.

Lemma ltb_nan_r x : ltb x S754_nan = false.
Proof. destruct x as [[]|[]| |[] m e]; reflexivity. Qed.

(** X4.  [SetInterval] accepts a NaN, in a debug build too, since
    [NaN == 0] is false.  The interval is then a NaN, and whatever the
    instants of later calls of [Start()] and [Stop()] are,
    [IntervalHasElapsed()] is false in both branches of
    PerformanceTimer98, whose test is [elapsed >= interval], and true
    in PerformanceTimer11, whose [operator>=] on durations is
    [!(elapsed < interval)]. *)
Theorem NaN_rate :
  (forall b t, exists t',
      Win98.SetInterval b S754_nan t = Done t' /\
      is_nan (Win98.GetInterval t') = true /\
      forall start stop,
        Win98.IntervalHasElapsed (Win98.set_stop (Win98.set_start t' start) stop)
        = false) /\
  (forall b t, exists t',
      Posix98.SetInterval b S754_nan t = Done t' /\
      is_nan (Posix98.GetInterval t') = true /\
      forall start stop,
        Posix98.IntervalHasElapsed (Posix98.Stop stop (Posix98.Start start t'))
        = false) /\
  (forall b t, exists t',
      Timer11.SetInterval b S754_nan t = Done t' /\
      is_nan (Timer11.GetInterval t') = true /\
      forall start stop,
        Timer11.IntervalHasElapsed (Timer11.Stop stop (Timer11.Start start t'))
        = true).
Proof.
  split; [|split]; intros b t; eexists; (split; [reflexivity|]).
  - split.
    + unfold Win98.GetInterval.
      cbn [Win98.set_interval Win98.m_interval Win98.m_perSecond].
      destruct (of_Z (Win98.m_perSecond t)) as [[]|[]| |[] m e]; reflexivity.
    + intros start stop. unfold Win98.IntervalHasElapsed.
      cbn [Win98.set_stop Win98.set_start Win98.set_interval Win98.m_interval].
      replace (div (of_Z (Win98.m_perSecond t)) S754_nan) with S754_nan
        by (destruct (of_Z (Win98.m_perSecond t)) as [[]|[]| |[] m e]; reflexivity).
      apply geb_nan_r.
  - split; [reflexivity|]. intros start stop. apply geb_nan_r.
  - split; [reflexivity|]. intros start stop.
    rewrite Timer11_IntervalHasElapsed_eq.
    cbn [Timer11.Stop Timer11.Start Timer11.m_interval].
    change (div (of_Z 1) S754_nan) with S754_nan.
    change (mul S754_nan (of_Z 1000000000)) with S754_nan.
    rewrite ltb_nan_r. reflexivity.
Qed.

(** ** The difference of two instants in the POSIX branch *)

Lemma timersub_spec a b :
  Posix98.well_formed a -> Posix98.well_formed b ->
  Posix98.tv_sec (Posix98.timersub a b) = (microseconds a - microseconds b) / 1000000 /\
  Posix98.tv_usec (Posix98.timersub a b) = (microseconds a - microseconds b) mod 1000000.
Proof.
  unfold Posix98.well_formed, Posix98.timersub, microseconds.
  intros [Ha1 Ha2] [Hb1 Hb2]. unfold Int64.max_signed in *.
  assert (Es : Int64.sub (Posix98.tv_sec a) (Posix98.tv_sec b)
               = Posix98.tv_sec a - Posix98.tv_sec b).
  { unfold Int64.sub. apply Int64_wrap_small.
    unfold Int64.in_range, Int64.min_signed, Int64.max_signed. lia. }
  assert (Eu : Int64.sub (Posix98.tv_usec a) (Posix98.tv_usec b)
               = Posix98.tv_usec a - Posix98.tv_usec b).
  { unfold Int64.sub. apply Int64_wrap_small.
    unfold Int64.in_range, Int64.min_signed, Int64.max_signed. lia. }
  rewrite Es, Eu.
  destruct (Z.ltb_spec (Posix98.tv_usec a - Posix98.tv_usec b) 0) as [Hlt|Hge];
    cbn [Posix98.tv_sec Posix98.tv_usec].
  - unfold Int64.sub, Int64.add.
    rewrite !Int64_wrap_small
      by (unfold Int64.in_range, Int64.min_signed, Int64.max_signed; lia).
    split.
    + apply (Z.div_unique _ _ _
                         (Posix98.tv_usec a - Posix98.tv_usec b + 1000000)); lia.
    + apply (Z.mod_unique _ _
                         (Posix98.tv_sec a - Posix98.tv_sec b - 1)); lia.
  - split.
    + apply (Z.div_unique _ _ _
                         (Posix98.tv_usec a - Posix98.tv_usec b)); lia.
    + apply (Z.mod_unique _ _
                         (Posix98.tv_sec a - Posix98.tv_sec b)); lia.
Qed.

(** X5.  In the POSIX branch the difference of two instants written by
    [gettimeofday] is exact and normalised: its microseconds lie between
    0 and 999999, also when the stop lies before the start, and seconds
    and microseconds together are the difference of the two instants in
    microseconds.  [GetElapsed()] and [IntervalHasElapsed()] therefore
    depend on the two instants through that difference only. *)
Theorem Posix98_difference_of_instants
  (start stop : Posix98.timeval)
  (Hstart : Posix98.well_formed start) (Hstop : Posix98.well_formed stop) :
  let d := Posix98.timersub stop start in
  0 <= Posix98.tv_usec d < 1000000 /\
  microseconds d = microseconds stop - microseconds start /\
  forall start' stop' i,
    Posix98.well_formed start' -> Posix98.well_formed stop' ->
    microseconds stop' - microseconds start' = microseconds stop - microseconds start ->
    Posix98.GetElapsed (Posix98.mkTimer start' stop' i)
    = Posix98.GetElapsed (Posix98.mkTimer start stop i) /\
    Posix98.IntervalHasElapsed (Posix98.mkTimer start' stop' i)
    = Posix98.IntervalHasElapsed (Posix98.mkTimer start stop i).
Proof.
  cbv zeta. destruct (timersub_spec stop start Hstop Hstart) as [Es Eu].
  split; [rewrite Eu; apply Z.mod_pos_bound; lia|].
  split.
  - unfold microseconds at 1. rewrite Es, Eu.
    pose proof (Z.div_mod (microseconds stop - microseconds start) 1000000
                  ltac:(lia)). lia.
  - intros start' stop' i Hs' He' Hd.
    destruct (timersub_spec stop' start' He' Hs') as [Es' Eu'].
    assert (E : Posix98.timersub stop' start' = Posix98.timersub stop start).
    { destruct (Posix98.timersub stop' start') as [s' u'].
      destruct (Posix98.timersub stop start) as [s u].
      cbn [Posix98.tv_sec Posix98.tv_usec] in *. subst. rewrite Hd. reflexivity. }
    unfold Posix98.GetElapsed, Posix98.IntervalHasElapsed.
    cbn [Posix98.m_startTime Posix98.m_stopTime Posix98.m_interval].
    rewrite E. split; reflexivity.
Qed.

Lemma Posix98_difference_of_instants_witness :
  let start := Posix98.mkTimeval 10 999999 in
  let stop := Posix98.mkTimeval 12 5 in
  Posix98.well_formed start /\ Posix98.well_formed stop /\
  Posix98.timersub stop start = Posix98.mkTimeval 1 6 /\
  microseconds (Posix98.timersub stop start)
  = microseconds stop - microseconds start.
Proof.
  cbv zeta.
  assert (H1 : Posix98.well_formed (Posix98.mkTimeval 10 999999))
    by (unfold Posix98.well_formed, Int64.max_signed; simpl; lia).
  assert (H2 : Posix98.well_formed (Posix98.mkTimeval 12 5))
    by (unfold Posix98.well_formed, Int64.max_signed; simpl; lia).
  split; [exact H1|]. split; [exact H2|]. split; [reflexivity|].
  exact (proj1 (proj2 (Posix98_difference_of_instants _ _ H1 H2))).
Defined.

(** ** Comparisons through the exact values *)

Lemma leb_of_rank x y :
  valid x = true -> valid y = true -> is_nan x = false -> is_nan y = false ->
  rank x <= rank y -> leb x y = true.
Proof. intros Vx Vy Nx Ny H. apply leb_rank; assumption. Qed.

Lemma nonneg_not_nan x : nonneg x = true -> is_nan x = false.
Proof. destruct x as [s|s| |s m e]; simpl; congruence. Qed.

Lemma nonneg_rank_finite x :
  nonneg x = true -> rank x < 2 ^ 2100 -> is_finite x = true.
Proof.
  destruct x as [s|[]| |[] m e]; cbn [nonneg rank cond_Zopp is_finite];
    intros H1 H2; try discriminate; try reflexivity; lia.
Qed.

Lemma of_Z_nonneg_finite z :
  0 <= z <= Int64.max_signed ->
  valid (of_Z z) = true /\ is_finite (of_Z z) = true /\ nonneg (of_Z z) = true.
Proof.
  intros Hz. split; [apply of_Z_valid|]. split; [|apply of_Z_nonneg; lia].
  apply of_Z_int64_finite.
  unfold Int64.in_range, Int64.min_signed, Int64.max_signed in *. lia.
Qed.

(** The product of two integers, taken in [double], is exact when it is
    below [2^53]. *)
Lemma mul_of_Z_exact a b :
  0 <= a -> 0 <= b -> a * b < 2 ^ 53 ->
  rank (mul (of_Z a) (of_Z b)) = a * b * 2 ^ 1074.
Proof.
  intros Ha Hb Hab.
  destruct (Z.eq_dec a 0) as [->|Ha0].
  { change (of_Z 0) with (S754_zero false).
    assert (Nb : nonneg (of_Z b) = true) by (apply of_Z_nonneg; assumption).
    destruct (of_Z b) as [s|[]| |[] m e]; try discriminate; reflexivity. }
  destruct (Z.eq_dec b 0) as [->|Hb0].
  { change (of_Z 0) with (S754_zero false).
    assert (Na : nonneg (of_Z a) = true) by (apply of_Z_nonneg; assumption).
    rewrite Z.mul_0_r.
    destruct (of_Z a) as [s|[]| |[] m e]; try discriminate; reflexivity. }
  assert (Ha53 : a < 2 ^ 53) by nia.
  assert (Hb53 : b < 2 ^ 53) by nia.
  pose proof (of_Z_valid a) as Va. pose proof (of_Z_valid b) as Vb.
  destruct a as [|pa|pa]; try lia. destruct b as [|pb|pb]; try lia.
  destruct (of_Z_exact_pos pa Ha53) as (ma & ea & Ea & Xa).
  destruct (of_Z_exact_pos pb Hb53) as (mb & eb & Eb & Xb).
  rewrite Ea in Va |- *. rewrite Eb in Vb |- *.
  pose proof (valid_finite_bounds _ _ _ Va) as [_ Ba].
  pose proof (valid_finite_bounds _ _ _ Vb) as [_ Bb].
  pose proof (mul_rounded ma ea mb eb Va Vb) as Hm.
  pose proof (of_Z_rounded (Zpos pa * Zpos pb) ltac:(lia)) as Hz.
  assert (Ev : Z.pos ma * Z.pos mb * 1 * 2 ^ (ea + eb + 2148)
               = Z.pos pa * Z.pos pb * 1 * 2 ^ 2148).
  { replace (ea + eb + 2148) with ((ea + 1074) + (eb + 1074)) by lia.
    replace 2148 with (1074 + 1074) by reflexivity. rewrite !Z.pow_add_r by lia.
    transitivity ((Z.pos ma * 2 ^ (ea + 1074)) * (Z.pos mb * 2 ^ (eb + 1074)));
      [ring|]. rewrite Xa, Xb.
    rewrite (Z.pow_add_r 2 1074 1074) by lia. remember (2 ^ 1074) as T. ring. }
  assert (H1 : rank (mul (S754_finite false ma ea) (S754_finite false mb eb))
               <= rank (of_Z (Z.pos pa * Z.pos pb))).
  { apply (rounded_mono _ (Zpos ma * Zpos mb) 1 (ea + eb)
                        _ (Zpos pa * Zpos pb) 1 0 (ea + eb + 2148) 2148);
      try assumption; try lia. }
  assert (H2 : rank (of_Z (Z.pos pa * Z.pos pb))
               <= rank (mul (S754_finite false ma ea) (S754_finite false mb eb))).
  { apply (rounded_mono _ (Zpos pa * Zpos pb) 1 0
                        _ (Zpos ma * Zpos mb) 1 (ea + eb) 2148 (ea + eb + 2148));
      try assumption; try lia. }
  rewrite rank_of_Z in H1, H2 by lia. lia.
Qed.

Lemma pow2_1074_lt : 2 ^ 53 * 2 ^ 1074 < 2 ^ 2100.
Proof. rewrite <- Z.pow_add_r by lia. apply Z.pow_lt_mono_r; lia. Qed.

(** ** The elapsed time of the POSIX branch *)

(** The milliseconds of [GetElapsed()] and the seconds of
    [IntervalHasElapsed()], for a difference of [sec] seconds and [usec]
    microseconds scaled by [c]: [sec * 1000 + usec / 1000.0] and
    [sec * 1 + usec / 1000000.0]. *)
Lemma Posix98_sum_mono c k sec1 usec1 sec2 usec2 :
  0 < c -> c * k = 1000000 -> 0 < k ->
  0 <= sec1 -> 0 <= sec2 -> sec2 * k < 2 ^ 53 ->
  0 <= usec1 < 1000000 -> 0 <= usec2 < 1000000 ->
  sec1 * 1000000 + usec1 <= sec2 * 1000000 + usec2 ->
  forall A1 A2,
    valid A1 = true -> valid A2 = true -> nonneg A1 = true -> nonneg A2 = true ->
    rank A1 = sec1 * k * 2 ^ 1074 -> rank A2 = sec2 * k * 2 ^ 1074 ->
    ltb (div (of_Z 999999) (of_Z c)) (of_Z k) = true ->
    rank (add A1 (div (of_Z usec1) (of_Z c)))
    <= rank (add A2 (div (of_Z usec2) (of_Z c))).
Proof.
  intros Hc Hck Hk Hs1 Hs2 Hs43 Hu1 Hu2 Hle A1 A2 VA1 VA2 NA1 NA2 RA1 RA2 Hmax.
  assert (Hk6 : k <= 1000000) by nia.
  assert (Hc6 : c <= 1000000) by nia.
  destruct (of_Z_pos c) as (mc & ec & Ec & _);
    [split; [lia|]; apply Z.lt_le_trans with (2 ^ 20); [lia|];
     apply Z.pow_le_mono_r; lia|].
  assert (I64 : forall u, 0 <= u < 1000000 -> 0 <= u <= Int64.max_signed)
    by (intros u Hu; unfold Int64.max_signed; lia).
  assert (HB : forall u, 0 <= u < 1000000 ->
             valid (div (of_Z u) (of_Z c)) = true /\
             nonneg (div (of_Z u) (of_Z c)) = true /\
             0 <= rank (div (of_Z u) (of_Z c)) < k * 2 ^ 1074).
  { intros u Hu.
    destruct (of_Z_nonneg_finite u (I64 u Hu)) as (Vu & Fu & Nu).
    destruct (of_Z_nonneg_finite 999999 (I64 999999 ltac:(lia))) as (V9 & F9 & N9).
    assert (Nd : nonneg (div (of_Z u) (of_Z c)) = true)
      by (rewrite Ec; apply div_nonneg_pos_finite; assumption).
    split; [apply div_valid|]. split; [exact Nd|].
    split; [apply rank_nonneg; exact Nd|].
    apply Z.le_lt_trans with (rank (div (of_Z 999999) (of_Z c))).
    - rewrite Ec. apply div_mono_l; try assumption.
      apply of_Z_mono. lia.
    - rewrite <- (rank_of_Z k) by (split; [lia|];
        apply Z.le_lt_trans with 1000000; [lia | reflexivity]).
      apply ltb_rank; try apply div_valid; try apply of_Z_valid;
        try apply of_Z_not_nan; try assumption.
      rewrite Ec. apply div_not_nan. apply of_Z_not_nan. }
  destruct (HB usec1 Hu1) as (VB1 & NB1 & RB1).
  destruct (HB usec2 Hu2) as (VB2 & NB2 & RB2).
  assert (P : 0 < 2 ^ 1074) by (apply Z.pow_pos_nonneg; lia).
  assert (Hs1' : sec1 <= sec2) by lia.
  assert (Hk53 : forall s, 0 <= s <= sec2 -> s * k * 2 ^ 1074 < 2 ^ 53 * 2 ^ 1074).
  { intros s Hs. apply Z.mul_lt_mono_pos_r; [assumption|].
    apply Z.le_lt_trans with (sec2 * k); [|assumption].
    apply Z.mul_le_mono_nonneg_r; lia. }
  pose proof pow2_1074_lt as Hbig.
  assert (F : forall A s, nonneg A = true -> rank A = s * k * 2 ^ 1074 ->
            0 <= s <= sec2 -> is_finite A = true).
  { intros A s NA RA Hs. apply nonneg_rank_finite; [assumption|].
    rewrite RA. specialize (Hk53 s Hs). lia. }
  assert (FB : forall u, 0 <= u < 1000000 ->
             is_finite (div (of_Z u) (of_Z c)) = true).
  { intros u Hu. destruct (HB u Hu) as (_ & Nd & Rd).
    apply nonneg_rank_finite; [assumption|].
    apply Z.lt_trans with (k * 2 ^ 1074); [lia|].
    apply Z.lt_trans with (2 ^ 53 * 2 ^ 1074); [|assumption].
    apply Z.mul_lt_mono_pos_r; [assumption|].
    apply Z.le_lt_trans with 1000000; [lia | reflexivity]. }
  apply add_mono; try assumption; try (apply FB; assumption).
  - apply (F A1 sec1); [assumption | assumption | lia].
  - apply (F A2 sec2); [assumption | assumption | lia].
  - rewrite RA1, RA2.
    destruct (Z.eq_dec sec1 sec2) as [E|NE].
    + subst sec2.
      assert (rank (div (of_Z usec1) (of_Z c)) <= rank (div (of_Z usec2) (of_Z c))).
      { destruct (of_Z_nonneg_finite usec1 (I64 usec1 Hu1)) as (V1 & F1 & N1).
        destruct (of_Z_nonneg_finite usec2 (I64 usec2 Hu2)) as (V2 & F2 & N2).
        rewrite Ec. apply div_mono_l; try assumption. apply of_Z_mono. lia. }
      lia.
    + assert (sec1 + 1 <= sec2) by lia.
      assert ((sec1 + 1) * k * 2 ^ 1074 <= sec2 * k * 2 ^ 1074).
      { apply Z.mul_le_mono_nonneg_r; [lia|].
        apply Z.mul_le_mono_nonneg_r; lia. }
      nia.
Qed.

Lemma Posix98_elapsed_terms sec :
  0 <= sec < 2 ^ 43 ->
  valid (mul (of_Z sec) (of_Z 1000)) = true /\
  nonneg (mul (of_Z sec) (of_Z 1000)) = true /\
  rank (mul (of_Z sec) (of_Z 1000)) = sec * 1000 * 2 ^ 1074.
Proof.
  intros Hs.
  assert (H53 : sec * 1000 < 2 ^ 53).
  { change (2 ^ 53) with (2 ^ 43 * 1024). lia. }
  split; [apply mul_valid; apply of_Z_valid|].
  pose proof (mul_of_Z_exact sec 1000 ltac:(lia) ltac:(lia) H53) as R.
  split; [|exact R].
  assert (N : nonneg (of_Z sec) = true) by (apply of_Z_nonneg; lia).
  change (of_Z 1000) with (S754_finite false 8796093022208000 (-43)).
  destruct (of_Z sec) as [s|[]| |[] m e]; try discriminate; try reflexivity.
  pose proof (mul_finite_sign false m e false 8796093022208000 (-43)) as S.
  destruct (mul (S754_finite false m e) (S754_finite false 8796093022208000 (-43)))
    as [s'|s'| |s' m' e']; try contradiction; subst; reflexivity.
Qed.

Lemma Posix98_seconds_terms sec :
  0 <= sec < 2 ^ 43 ->
  valid (of_Z sec) = true /\ nonneg (of_Z sec) = true /\
  rank (of_Z sec) = sec * 1 * 2 ^ 1074.
Proof.
  intros Hs. split; [apply of_Z_valid|]. split; [apply of_Z_nonneg; lia|].
  rewrite Z.mul_1_r. apply rank_of_Z.
  assert (2 ^ 43 < 2 ^ 53) by (apply Z.pow_lt_mono_r; lia). lia.
Qed.

(** The difference of two ordered instants. *)
Lemma timersub_ordered a b :
  Posix98.well_formed a -> Posix98.well_formed b -> Posix98.tv_le a b ->
  0 <= Posix98.tv_sec (Posix98.timersub b a) /\
  0 <= Posix98.tv_usec (Posix98.timersub b a) < 1000000 /\
  microseconds (Posix98.timersub b a) = microseconds b - microseconds a.
Proof.
  intros Ha Hb Hle.
  destruct (timersub_nonneg a b Ha Hb Hle) as [H1 H2].
  destruct (timersub_spec b a Hb Ha) as [Es Eu].
  split; [exact H1|]. split; [exact H2|].
  unfold microseconds at 1. rewrite Es, Eu.
  pose proof (Z.div_mod (microseconds b - microseconds a) 1000000 ltac:(lia)). lia.
Qed.

Lemma tv_le_microseconds a b :
  Posix98.well_formed a -> Posix98.well_formed b ->
  Posix98.tv_le a b -> microseconds a <= microseconds b.
Proof.
  unfold Posix98.well_formed, Posix98.tv_le, microseconds.
  intros [_ Ha] [_ Hb] [H|[H1 H2]]; lia.
Qed.

Lemma Posix98_elapsed_mono start stop1 stop2 i :
  Posix98.well_formed start -> Posix98.well_formed stop1 ->
  Posix98.well_formed stop2 ->
  Posix98.tv_le start stop1 -> Posix98.tv_le stop1 stop2 ->
  Posix98.tv_sec stop2 - Posix98.tv_sec start < 2 ^ 43 ->
  rank (Posix98.GetElapsed (Posix98.mkTimer start stop1 i))
  <= rank (Posix98.GetElapsed (Posix98.mkTimer start stop2 i)) /\
  rank (add (of_Z (Posix98.tv_sec (Posix98.timersub stop1 start)))
            (div (of_Z (Posix98.tv_usec (Posix98.timersub stop1 start)))
                 (of_Z 1000000)))
  <= rank (add (of_Z (Posix98.tv_sec (Posix98.timersub stop2 start)))
               (div (of_Z (Posix98.tv_usec (Posix98.timersub stop2 start)))
                    (of_Z 1000000))).
Proof.
  intros Hs H1 H2 L1 L2 Hd.
  assert (L : Posix98.tv_le start stop2).
  { unfold Posix98.tv_le in *. lia. }
  destruct (timersub_ordered start stop1 Hs H1 L1) as (S1 & U1 & M1).
  destruct (timersub_ordered start stop2 Hs H2 L) as (S2 & U2 & M2).
  pose proof (tv_le_microseconds stop1 stop2 H1 H2 L2) as Hm.
  unfold Posix98.GetElapsed.
  cbn [Posix98.m_startTime Posix98.m_stopTime].
  remember (Posix98.timersub stop1 start) as d1 eqn:E1.
  remember (Posix98.timersub stop2 start) as d2 eqn:E2.
  unfold microseconds in M1, M2, Hm.
  assert (Hsec2 : Posix98.tv_sec d2 < 2 ^ 43).
  { destruct Hs as [_ Hsu]. destruct H2 as [_ H2u]. lia. }
  assert (Hsec1 : Posix98.tv_sec d1 <= Posix98.tv_sec d2) by lia.
  split.
  - destruct (Posix98_elapsed_terms (Posix98.tv_sec d1) ltac:(lia)) as (V1 & N1 & R1).
    destruct (Posix98_elapsed_terms (Posix98.tv_sec d2) ltac:(lia)) as (V2 & N2 & R2).
    apply (Posix98_sum_mono 1000 1000 (Posix98.tv_sec d1) (Posix98.tv_usec d1)
             (Posix98.tv_sec d2) (Posix98.tv_usec d2)); try assumption; try lia.
    vm_compute. reflexivity.
  - destruct (Posix98_seconds_terms (Posix98.tv_sec d1) ltac:(lia)) as (V1 & N1 & R1).
    destruct (Posix98_seconds_terms (Posix98.tv_sec d2) ltac:(lia)) as (V2 & N2 & R2).
    apply (Posix98_sum_mono 1000000 1 (Posix98.tv_sec d1) (Posix98.tv_usec d1)
             (Posix98.tv_sec d2) (Posix98.tv_usec d2)); try assumption; try lia.
    vm_compute. reflexivity.
Qed.

(** ** The elapsed time grows with the stop instant *)

Lemma Win98_elapsed_rank_mono t d1 d2 :
  Win98.calibrated t -> 0 <= d1 <= d2 -> d2 <= Int64.max_signed ->
  rank (div (of_Z d1) (Win98.m_perMillisecond t))
  <= rank (div (of_Z d2) (Win98.m_perMillisecond t)).
Proof.
  intros Hc Hd Hmax.
  destruct (Win98_perMillisecond_pos t Hc) as (mp & ep & Ep). rewrite Ep.
  destruct (of_Z_nonneg_finite d1 ltac:(lia)) as (V1 & F1 & N1).
  destruct (of_Z_nonneg_finite d2 ltac:(lia)) as (V2 & F2 & N2).
  apply div_mono_l; try assumption. apply of_Z_mono. lia.
Qed.

Lemma Timer11_elapsed_rank_mono d1 d2 :
  0 <= d1 <= d2 -> d2 <= Int64.max_signed ->
  rank (div (of_Z d1) (of_Z 1000000)) <= rank (div (of_Z d2) (of_Z 1000000)).
Proof.
  intros Hd Hmax. rewrite of_Z_1000000.
  destruct (of_Z_nonneg_finite d1 ltac:(lia)) as (V1 & F1 & N1).
  destruct (of_Z_nonneg_finite d2 ltac:(lia)) as (V2 & F2 & N2).
  apply div_mono_l; try assumption. apply of_Z_mono. lia.
Qed.

(** In the POSIX branch both terms of the elapsed time, and the elapsed
    time, are numbers that are not negative when the stop is not before
    the start. *)
Lemma Posix98_elapsed_nonneg start stop i :
  Posix98.well_formed start -> Posix98.well_formed stop ->
  Posix98.tv_le start stop ->
  nonneg (Posix98.GetElapsed (Posix98.mkTimer start stop i)) = true /\
  nonneg (add (of_Z (Posix98.tv_sec (Posix98.timersub stop start)))
              (div (of_Z (Posix98.tv_usec (Posix98.timersub stop start)))
                   (of_Z 1000000))) = true.
Proof.
  intros Hs He Hle.
  destruct (timersub_nonneg start stop Hs He Hle) as [H1 H2].
  unfold Posix98.GetElapsed. cbn [Posix98.m_startTime Posix98.m_stopTime].
  remember (Posix98.timersub stop start) as d eqn:Ed. cbv zeta.
  assert (Ns : nonneg (of_Z (Posix98.tv_sec d)) = true) by (apply of_Z_nonneg; lia).
  assert (Nu : nonneg (of_Z (Posix98.tv_usec d)) = true) by (apply of_Z_nonneg; lia).
  split.
  - apply add_nonneg.
    + change (of_Z 1000) with (S754_finite false 8796093022208000 (-43)).
      destruct (of_Z (Posix98.tv_sec d)) as [s|[]| |[] m e]; try discriminate;
        try reflexivity.
      pose proof (mul_finite_sign false m e false 8796093022208000 (-43)) as S.
      destruct (mul (S754_finite false m e)
                    (S754_finite false 8796093022208000 (-43)))
        as [s'|s'| |s' m' e']; try contradiction; subst; reflexivity.
    + change (of_Z 1000) with (S754_finite false 8796093022208000 (-43)).
      apply div_nonneg_pos_finite. assumption.
  - apply add_nonneg; [assumption|].
    rewrite of_Z_1000000. apply div_nonneg_pos_finite. assumption.
Qed.

(** X6.  [GetElapsed()] does not decrease when [Stop()] is called again
    with a later clock reading and no [Start()] in between: the elapsed
    time of the earlier stop is at most the one of the later stop.
    (Windows: on a supported platform; POSIX: for instants written by
    [gettimeofday], less than 2^43 seconds apart.) *)
Theorem GetElapsed_is_monotone :
  (forall t stop1 stop2,
      Win98.calibrated t ->
      0 <= stop1 - Win98.m_startTime t <= stop2 - Win98.m_startTime t ->
      stop2 - Win98.m_startTime t <= Int64.max_signed ->
      leb (Win98.GetElapsed (Win98.set_stop t stop1))
          (Win98.GetElapsed (Win98.set_stop t stop2)) = true) /\
  (forall t stop1 stop2,
      Posix98.well_formed (Posix98.m_startTime t) ->
      Posix98.well_formed stop1 -> Posix98.well_formed stop2 ->
      Posix98.tv_le (Posix98.m_startTime t) stop1 -> Posix98.tv_le stop1 stop2 ->
      Posix98.tv_sec stop2 - Posix98.tv_sec (Posix98.m_startTime t) < 2 ^ 43 ->
      leb (Posix98.GetElapsed (Posix98.Stop stop1 t))
          (Posix98.GetElapsed (Posix98.Stop stop2 t)) = true) /\
  (forall t stop1 stop2,
      0 <= stop1 - Timer11.m_startTime t <= stop2 - Timer11.m_startTime t ->
      stop2 - Timer11.m_startTime t <= Int64.max_signed ->
      leb (Timer11.GetElapsed (Timer11.Stop stop1 t))
          (Timer11.GetElapsed (Timer11.Stop stop2 t)) = true).
Proof.
  split; [|split].
  - intros t stop1 stop2 Hc Hd Hmax. unfold Win98.GetElapsed.
    cbn [Win98.set_stop Win98.m_stopTime Win98.m_startTime Win98.m_perMillisecond].
    rewrite !Int64_sub_small by lia.
    destruct (Win98_perMillisecond_pos t Hc) as (mp & ep & Ep).
    apply leb_of_rank; try apply div_valid;
      try (rewrite Ep; apply div_not_nan; apply of_Z_not_nan).
    apply Win98_elapsed_rank_mono; assumption.
  - intros t stop1 stop2 Hs H1 H2 L1 L2 Hd.
    assert (L : Posix98.tv_le (Posix98.m_startTime t) stop2)
      by (unfold Posix98.tv_le in *; lia).
    destruct (Posix98_elapsed_nonneg _ stop1 (Posix98.m_interval t) Hs H1 L1)
      as [N1 _].
    destruct (Posix98_elapsed_nonneg _ stop2 (Posix98.m_interval t) Hs H2 L)
      as [N2 _].
    destruct (Posix98_elapsed_mono _ stop1 stop2 (Posix98.m_interval t)
                Hs H1 H2 L1 L2 Hd) as [M _].
    apply leb_of_rank; try (apply nonneg_not_nan; assumption); try exact M;
      apply add_valid; try apply div_valid; apply mul_valid; apply of_Z_valid.
  - intros t stop1 stop2 Hd Hmax. rewrite !Timer11_GetElapsed_eq.
    cbn [Timer11.Stop Timer11.m_stopTime Timer11.m_startTime].
    rewrite !Int64_sub_small by lia.
    apply leb_of_rank; try apply div_valid;
      try (rewrite of_Z_1000000; apply div_not_nan; apply of_Z_not_nan).
    apply Timer11_elapsed_rank_mono; assumption.
Qed.

Lemma GetElapsed_is_monotone_witness :
  let w := Win98.set_start (Win98.PerformanceTimer98 (Win98.mkQuery true 10000000)) 7 in
  let p := Posix98.Start (Posix98.mkTimeval 10 999999) Posix98.PerformanceTimer98 in
  let c := Timer11.Start 7 Timer11.PerformanceTimer11 in
  leb (Win98.GetElapsed (Win98.set_stop w 1000))
      (Win98.GetElapsed (Win98.set_stop w 1001)) = true /\
  leb (Posix98.GetElapsed (Posix98.Stop (Posix98.mkTimeval 11 5) p))
      (Posix98.GetElapsed (Posix98.Stop (Posix98.mkTimeval 12 3) p)) = true /\
  leb (Timer11.GetElapsed (Timer11.Stop 1000 c))
      (Timer11.GetElapsed (Timer11.Stop 1001 c)) = true.
Proof.
  cbv zeta. destruct GetElapsed_is_monotone as (W & P & C).
  split; [|split].
  - apply W.
    + exact calibrated_10MHz.
    + simpl. lia.
    + unfold Int64.max_signed. simpl. lia.
  - apply P; unfold Posix98.well_formed, Posix98.tv_le, Int64.max_signed;
      simpl; lia.
  - apply C.
    + simpl. lia.
    + unfold Int64.max_signed. simpl. lia.
Defined.

(** ** Once elapsed, the interval stays elapsed *)

Lemma geb_mono_l x1 x2 y :
  valid x1 = true -> valid x2 = true -> valid y = true ->
  is_nan x1 = false -> is_nan x2 = false ->
  rank x1 <= rank x2 -> geb x1 y = true -> geb x2 y = true.
Proof.
  intros V1 V2 Vy N1 N2 H G.
  destruct (is_nan y) eqn:Ny.
  - destruct y; discriminate.
  - apply geb_rank; try assumption.
    apply (geb_rank x1 y) in G; try assumption. lia.
Qed.

Lemma ltb_mono_l x1 x2 y :
  valid x1 = true -> valid x2 = true -> valid y = true ->
  is_nan x1 = false -> is_nan x2 = false ->
  rank x1 <= rank x2 -> ltb x1 y = false -> ltb x2 y = false.
Proof.
  intros V1 V2 Vy N1 N2 H G.
  destruct (is_nan y) eqn:Ny.
  - destruct y; try discriminate. apply ltb_nan_r.
  - apply not_true_iff_false. intros L.
    apply (ltb_rank x2 y) in L; try assumption.
    apply not_true_iff_false in G. apply G.
    apply ltb_rank; try assumption. lia.
Qed.

Lemma Win98_elapsed_stays t stop1 stop2 :
  valid (Win98.m_interval t) = true ->
  0 <= stop1 - Win98.m_startTime t <= stop2 - Win98.m_startTime t ->
  stop2 - Win98.m_startTime t <= Int64.max_signed ->
  Win98.IntervalHasElapsed (Win98.set_stop t stop1) = true ->
  Win98.IntervalHasElapsed (Win98.set_stop t stop2) = true.
Proof.
  intros Hv Hd Hmax. unfold Win98.IntervalHasElapsed.
  cbn [Win98.set_stop Win98.m_stopTime Win98.m_startTime Win98.m_interval].
  rewrite !Int64_sub_small by lia.
  apply geb_mono_l; try apply of_Z_valid; try apply of_Z_not_nan;
    try assumption.
  apply of_Z_mono. lia.
Qed.

Lemma Posix98_elapsed_stays t stop1 stop2 :
  valid (Posix98.m_interval t) = true ->
  Posix98.well_formed (Posix98.m_startTime t) ->
  Posix98.well_formed stop1 -> Posix98.well_formed stop2 ->
  Posix98.tv_le (Posix98.m_startTime t) stop1 -> Posix98.tv_le stop1 stop2 ->
  Posix98.tv_sec stop2 - Posix98.tv_sec (Posix98.m_startTime t) < 2 ^ 43 ->
  Posix98.IntervalHasElapsed (Posix98.Stop stop1 t) = true ->
  Posix98.IntervalHasElapsed (Posix98.Stop stop2 t) = true.
Proof.
  intros Hv Hs H1 H2 L1 L2 Hd.
  assert (L : Posix98.tv_le (Posix98.m_startTime t) stop2)
    by (unfold Posix98.tv_le in *; lia).
  destruct (Posix98_elapsed_nonneg _ stop1 (Posix98.m_interval t) Hs H1 L1)
    as [_ N1].
  destruct (Posix98_elapsed_nonneg _ stop2 (Posix98.m_interval t) Hs H2 L)
    as [_ N2].
  destruct (Posix98_elapsed_mono _ stop1 stop2 (Posix98.m_interval t)
              Hs H1 H2 L1 L2 Hd) as [_ M].
  unfold Posix98.IntervalHasElapsed.
  cbn [Posix98.Stop Posix98.m_stopTime Posix98.m_startTime Posix98.m_interval].
  apply geb_mono_l; try (apply nonneg_not_nan; assumption); try assumption;
    apply add_valid; try apply div_valid; apply of_Z_valid.
Qed.

Lemma Timer11_elapsed_stays t stop1 stop2 :
  valid (Timer11.m_interval t) = true ->
  0 <= stop1 - Timer11.m_startTime t <= stop2 - Timer11.m_startTime t ->
  stop2 - Timer11.m_startTime t <= Int64.max_signed ->
  Timer11.IntervalHasElapsed (Timer11.Stop stop1 t) = true ->
  Timer11.IntervalHasElapsed (Timer11.Stop stop2 t) = true.
Proof.
  intros Hv Hd Hmax. rewrite !Timer11_IntervalHasElapsed_eq.
  cbn [Timer11.Stop Timer11.m_stopTime Timer11.m_startTime Timer11.m_interval].
  rewrite !Int64_sub_small by lia.
  rewrite !negb_true_iff.
  apply ltb_mono_l; try apply of_Z_valid; try apply of_Z_not_nan.
  - apply mul_valid; [assumption | apply of_Z_valid].
  - apply of_Z_mono. lia.
Qed.

(** X7.  [IntervalHasElapsed()] is monotone in the stop instant: when it
    is true after a [Stop()], it is true after every later [Stop()] with
    no [Start()] in between, the clock readings not decreasing.  (The
    interval is one that [SetInterval] or the constructor stored;
    POSIX: the instants come from [gettimeofday] and are less than 2^43
    seconds apart.) *)
Theorem IntervalHasElapsed_is_monotone :
  (forall t stop1 stop2,
      valid (Win98.m_interval t) = true ->
      0 <= stop1 - Win98.m_startTime t <= stop2 - Win98.m_startTime t ->
      stop2 - Win98.m_startTime t <= Int64.max_signed ->
      Win98.IntervalHasElapsed (Win98.set_stop t stop1) = true ->
      Win98.IntervalHasElapsed (Win98.set_stop t stop2) = true) /\
  (forall t stop1 stop2,
      valid (Posix98.m_interval t) = true ->
      Posix98.well_formed (Posix98.m_startTime t) ->
      Posix98.well_formed stop1 -> Posix98.well_formed stop2 ->
      Posix98.tv_le (Posix98.m_startTime t) stop1 -> Posix98.tv_le stop1 stop2 ->
      Posix98.tv_sec stop2 - Posix98.tv_sec (Posix98.m_startTime t) < 2 ^ 43 ->
      Posix98.IntervalHasElapsed (Posix98.Stop stop1 t) = true ->
      Posix98.IntervalHasElapsed (Posix98.Stop stop2 t) = true) /\
  (forall t stop1 stop2,
      valid (Timer11.m_interval t) = true ->
      0 <= stop1 - Timer11.m_startTime t <= stop2 - Timer11.m_startTime t ->
      stop2 - Timer11.m_startTime t <= Int64.max_signed ->
      Timer11.IntervalHasElapsed (Timer11.Stop stop1 t) = true ->
      Timer11.IntervalHasElapsed (Timer11.Stop stop2 t) = true).
Proof.
  split; [exact Win98_elapsed_stays|].
  split; [exact Posix98_elapsed_stays | exact Timer11_elapsed_stays].
Qed.

Lemma IntervalHasElapsed_is_monotone_witness :
  let w := Win98.set_start (Win98.PerformanceTimer98 (Win98.mkQuery true 10000000)) 7 in
  let p := Posix98.Start (Posix98.mkTimeval 10 999999) Posix98.PerformanceTimer98 in
  let c := Timer11.Start 7 Timer11.PerformanceTimer11 in
  (Win98.IntervalHasElapsed (Win98.set_stop w 166674) = true /\
   Win98.IntervalHasElapsed (Win98.set_stop w 200000) = true) /\
  (Posix98.IntervalHasElapsed (Posix98.Stop (Posix98.mkTimeval 11 16666) p) = true /\
   Posix98.IntervalHasElapsed (Posix98.Stop (Posix98.mkTimeval 12 3) p) = true) /\
  (Timer11.IntervalHasElapsed (Timer11.Stop 16666674 c) = true /\
   Timer11.IntervalHasElapsed (Timer11.Stop 20000000 c) = true).
Proof.
  cbv zeta. destruct IntervalHasElapsed_is_monotone as (W & P & C).
  split; [|split].
  - assert (H : Win98.IntervalHasElapsed
                  (Win98.set_stop
                     (Win98.set_start
                        (Win98.PerformanceTimer98 (Win98.mkQuery true 10000000)) 7)
                     166674) = true) by (vm_compute; reflexivity).
    split; [exact H|]. revert H. apply W.
    + apply div_valid.
    + simpl. lia.
    + unfold Int64.max_signed. simpl. lia.
  - assert (H : Posix98.IntervalHasElapsed
                  (Posix98.Stop (Posix98.mkTimeval 11 16666)
                     (Posix98.Start (Posix98.mkTimeval 10 999999)
                        Posix98.PerformanceTimer98)) = true)
      by (vm_compute; reflexivity).
    split; [exact H|]. revert H.
    apply P; try apply div_valid;
      unfold Posix98.well_formed, Posix98.tv_le, Int64.max_signed; simpl; lia.
  - assert (H : Timer11.IntervalHasElapsed
                  (Timer11.Stop 16666674 (Timer11.Start 7 Timer11.PerformanceTimer11))
                = true) by (vm_compute; reflexivity).
    split; [exact H|]. revert H. apply C.
    + apply div_valid.
    + simpl. lia.
    + unfold Int64.max_signed. simpl. lia.
Defined.

(** ** A later stop gives a positive elapsed time *)

Lemma rank_pos_ltb x :
  valid x = true -> is_nan x = false -> 0 < rank x -> ltb zero x = true.
Proof.
  intros V N H. apply ltb_rank; try assumption; reflexivity.
Qed.

(** X8.  [GetElapsed()] is strictly positive as soon as the stop instant
    lies after the start instant, be it by one tick of the clock: the
    conversion to milliseconds does not truncate to zero. *)
Theorem GetElapsed_is_positive :
  (forall t start stop,
      Win98.calibrated t ->
      0 < stop - start <= Int64.max_signed ->
      ltb zero (Win98.GetElapsed (Win98.set_stop (Win98.set_start t start) stop))
      = true) /\
  (forall t start stop,
      Posix98.well_formed start -> Posix98.well_formed stop ->
      Posix98.tv_le start stop -> start <> stop ->
      Posix98.tv_sec stop - Posix98.tv_sec start < 2 ^ 43 ->
      ltb zero (Posix98.GetElapsed (Posix98.Stop stop (Posix98.Start start t)))
      = true) /\
  (forall t start stop,
      0 < stop - start <= Int64.max_signed ->
      ltb zero (Timer11.GetElapsed (Timer11.Stop stop (Timer11.Start start t)))
      = true).
Proof.
  split; [|split].
  - intros t start stop Hc Hd. unfold Win98.GetElapsed.
    cbn [Win98.set_stop Win98.set_start Win98.m_stopTime Win98.m_startTime
         Win98.m_perMillisecond].
    rewrite Int64_sub_small by lia.
    destruct Hc as (_ & HP & EP). rewrite EP. unfold Int64.max_signed in *.
    destruct (div_of_Z_pos_finite (Win98.m_perSecond t) 1000) as (mp & ep & Ep & Bp);
      [lia | lia |].
    rewrite Ep.
    destruct (of_Z_pos (stop - start)) as (md & ed & Ed & _ & _ & Bd); [lia|].
    pose proof (Zdigits2_range (stop - start) ltac:(lia)) as Rd.
    rewrite Ed. rewrite ltb_zero_pos.
    destruct (SFdiv_finite_pos false md ed false mp ep) as [[E _]|(m & e & E & _)];
      [lia | rewrite E; reflexivity | rewrite E; reflexivity].
  - intros t start stop Hs He Hle Hne Hd.
    destruct (Posix98_elapsed_nonneg start stop (Posix98.m_interval t) Hs He Hle)
      as [N _].
    change (Posix98.Stop stop (Posix98.Start start t))
      with (Posix98.mkTimer start stop (Posix98.m_interval t)).
    apply rank_pos_ltb.
    + apply add_valid; [apply mul_valid; apply of_Z_valid | apply div_valid].
    + apply nonneg_not_nan. assumption.
    + (* at least the elapsed time of one microsecond *)
      destruct (timersub_ordered start stop Hs He Hle) as (S1 & U1 & M1).
      assert (Hm : microseconds start < microseconds stop).
      { pose proof (tv_le_microseconds start stop Hs He Hle) as Hm.
        destruct (Z.eq_dec (microseconds start) (microseconds stop)) as [E|NE];
          [|lia].
        exfalso. apply Hne. unfold microseconds in E.
        destruct Hs as [_ Hsu]. destruct He as [_ Heu].
        destruct start as [s1 u1], stop as [s2 u2].
        cbn [Posix98.tv_sec Posix98.tv_usec] in *.
        assert (s1 = s2) by lia. assert (u1 = u2) by lia. subst. reflexivity. }
      unfold Posix98.GetElapsed.
      cbn [Posix98.m_startTime Posix98.m_stopTime].
      remember (Posix98.timersub stop start) as d eqn:Ed. cbv zeta.
      unfold microseconds in M1, Hm.
      assert (Hsec : Posix98.tv_sec d < 2 ^ 43).
      { destruct Hs as [_ Hsu]. destruct He as [_ Heu]. lia. }
      destruct (Posix98_elapsed_terms 0 ltac:(lia)) as (V0 & N0 & R0).
      destruct (Posix98_elapsed_terms (Posix98.tv_sec d) ltac:(lia)) as (V2 & N2 & R2).
      apply Z.lt_le_trans
        with (rank (add (mul (of_Z 0) (of_Z 1000)) (div (of_Z 1) (of_Z 1000)))).
      * vm_compute. reflexivity.
      * apply (Posix98_sum_mono 1000 1000 0 1 (Posix98.tv_sec d) (Posix98.tv_usec d));
          first [assumption | lia | vm_compute; reflexivity].
  - intros t start stop Hd. rewrite Timer11_GetElapsed_eq.
    cbn [Timer11.Stop Timer11.Start Timer11.m_stopTime Timer11.m_startTime].
    rewrite Int64_sub_small by lia. unfold Int64.max_signed in *.
    destruct (div_of_Z_pos_finite (stop - start) 1000000) as (m & e & E & _);
      [lia | lia |].
    rewrite E. reflexivity.
Qed.

Lemma GetElapsed_is_positive_witness :
  ltb zero (Win98.GetElapsed
              (Win98.set_stop
                 (Win98.set_start
                    (Win98.PerformanceTimer98 (Win98.mkQuery true 10000000)) 7) 8))
  = true /\
  ltb zero (Posix98.GetElapsed
              (Posix98.Stop (Posix98.mkTimeval 11 0)
                 (Posix98.Start (Posix98.mkTimeval 10 999999)
                    Posix98.PerformanceTimer98))) = true /\
  ltb zero (Timer11.GetElapsed
              (Timer11.Stop 8 (Timer11.Start 7 Timer11.PerformanceTimer11))) = true.
Proof.
  destruct GetElapsed_is_positive as (W & P & C).
  split; [|split].
  - apply W; [exact calibrated_10MHz|]. unfold Int64.max_signed. simpl. lia.
  - apply P; try discriminate;
      unfold Posix98.well_formed, Posix98.tv_le, Int64.max_signed; simpl; lia.
  - apply C. unfold Int64.max_signed. simpl. lia.
Defined.

(** ** Exact results *)

(** Two valid positive numbers of the same exact value are the same
    [double]. *)
Lemma rank_eq_pos x y :
  valid x = true -> valid y = true -> nonneg x = true -> nonneg y = true ->
  0 < rank x -> rank x = rank y -> rank y < 2 ^ 2100 -> x = y.
Proof.
  intros Vx Vy Nx Ny Hpos Heq Hfin.
  pose proof (SFcompare_rank x y Vx Vy (nonneg_not_nan x Nx) (nonneg_not_nan y Ny))
    as Hc.
  rewrite Heq, Z.compare_refl in Hc.
  destruct x as [sx|[]| |[] mx ex]; try discriminate; cbn [rank cond_Zopp] in *;
    try lia;
    destruct y as [sy|[]| |[] my ey]; try discriminate; cbn [rank cond_Zopp] in *;
    try lia.
  cbn [SFcompare] in Hc.
  destruct (Z.compare_spec ex ey) as [E|L|G]; try discriminate.
  subst ey. f_equal. apply Pos.compare_eq.
  injection Hc as Hc. exact Hc.
Qed.

Lemma of_Z_pos_rank z :
  0 < z < 2 ^ 53 ->
  valid (of_Z z) = true /\ nonneg (of_Z z) = true /\
  rank (of_Z z) = z * 2 ^ 1074 /\ 0 < rank (of_Z z) < 2 ^ 2100.
Proof.
  intros Hz. pose proof (rank_of_Z z ltac:(lia)) as R.
  assert (P : 0 < 2 ^ 1074) by (apply Z.pow_pos_nonneg; lia).
  pose proof pow2_1074_lt as Hbig.
  split; [apply of_Z_valid|]. split; [apply of_Z_nonneg; lia|].
  split; [exact R|]. rewrite R. split; [apply Z.mul_pos_pos; lia|].
  apply Z.lt_trans with (2 ^ 53 * 2 ^ 1074); [|assumption].
  apply Z.mul_lt_mono_pos_r; lia.
Qed.

(** An exact quotient of integers is computed exactly. *)
Lemma div_of_Z_exact c k :
  0 < c -> 0 < k -> c * k < 2 ^ 53 ->
  div (of_Z (c * k)) (of_Z c) = of_Z k.
Proof.
  intros Hc Hk Hck.
  assert (Hc53 : c < 2 ^ 53) by nia.
  assert (Hk53 : k < 2 ^ 53) by nia.
  assert (Hd0 : 0 < c * k) by nia.
  destruct (of_Z_pos_rank k ltac:(lia)) as (Vk & Nk & Rk & Bk).
  remember (c * k) as d eqn:Ed.
  destruct d as [|pd|pd]; try lia. destruct c as [|pc|pc]; try lia.
  destruct (of_Z_exact_pos pd Hck) as (md & ed & Eqd & Xd).
  destruct (of_Z_exact_pos pc Hc53) as (mc & ec & Eqc & Xc).
  pose proof (of_Z_valid (Zpos pd)) as Vd. rewrite Eqd in Vd.
  pose proof (of_Z_valid (Zpos pc)) as Vc. rewrite Eqc in Vc.
  pose proof (valid_finite_bounds _ _ _ Vd) as [_ Bd].
  pose proof (valid_finite_bounds _ _ _ Vc) as [_ Bc].
  rewrite Eqd, Eqc.
  pose proof (div_rounded md ed mc ec) as Hq.
  pose proof (of_Z_rounded k ltac:(lia)) as Hz.
  assert (Ev : Z.pos md * 1 * 2 ^ (ed + 1074) = k * Z.pos mc * 2 ^ (ec + 1074)).
  { rewrite Z.mul_1_r, Xd, <- Z.mul_assoc, Xc, Ed. ring. }
  assert (H1 : rank (div (S754_finite false md ed) (S754_finite false mc ec))
               <= rank (of_Z k)).
  { apply (rounded_mono _ (Zpos md) (Zpos mc) (ed - ec) _ k 1 0
                        (ed + 1074) (ec + 1074)); try assumption; lia. }
  assert (H2 : rank (of_Z k)
               <= rank (div (S754_finite false md ed) (S754_finite false mc ec))).
  { apply (rounded_mono _ k 1 0 _ (Zpos md) (Zpos mc) (ed - ec)
                        (ec + 1074) (ed + 1074)); try assumption; lia. }
  apply rank_eq_pos; try assumption; try lia.
  - apply div_valid.
  - apply div_nonneg_pos_finite. reflexivity.
Qed.

(** An exact product of integers is computed exactly. *)
Lemma mul_of_Z_exact_eq a b :
  0 <= a -> 0 < b < 2 ^ 53 -> a * b < 2 ^ 53 ->
  mul (of_Z a) (of_Z b) = of_Z (a * b).
Proof.
  intros Ha Hb Hab.
  assert (H900 : 2 ^ 53 < 2 ^ 900) by (apply Z.pow_lt_mono_r; lia).
  assert (H64 : 2 ^ 53 < 2 ^ 64) by (apply Z.pow_lt_mono_r; lia).
  destruct (of_Z_pos b ltac:(lia)) as (mb & eb & Eb & _).
  destruct (Z.eq_dec a 0) as [->|Hnz].
  - rewrite Eb. reflexivity.
  - assert (Ha53 : a < 2 ^ 53) by nia.
    destruct (of_Z_pos a ltac:(lia)) as (ma & ea & Ea & _).
    destruct (of_Z_pos_rank (a * b) ltac:(nia)) as (Vp & Np & Rp & Bp).
    pose proof (mul_of_Z_exact a b Ha ltac:(lia) Hab) as R.
    apply rank_eq_pos; try assumption; try lia.
    + apply mul_valid; apply of_Z_valid.
    + apply pos_nonneg. apply mul_pos_of_Z; [apply of_Z_valid | | lia].
      rewrite Ea. reflexivity.
Qed.

(** An exact sum of integers is computed exactly. *)
Lemma add_of_Z_exact a b :
  0 <= a -> 0 <= b -> a + b < 2 ^ 53 ->
  add (of_Z a) (of_Z b) = of_Z (a + b).
Proof.
  intros Ha Hb Hab.
  destruct (Z.eq_dec a 0) as [->|Ha0].
  { rewrite Z.add_0_l. change (of_Z 0) with (S754_zero false).
    pose proof (of_Z_nonneg b Hb) as N.
    assert (F : is_finite (of_Z b) = true).
    { apply of_Z_finite. assert (2 ^ 53 < 2 ^ 900) by (apply Z.pow_lt_mono_r; lia).
      lia. }
    destruct (of_Z b) as [[]|[]| |[] m e] eqn:E; try discriminate; try reflexivity.
    (* a negative zero does not come out of the conversion *)
    exfalso. destruct b as [|p|p]; try lia; try discriminate E.
    destruct (of_Z_pos (Zpos p)) as (m & e & E' & _).
    { split; [lia|]. assert (2 ^ 53 < 2 ^ 900) by (apply Z.pow_lt_mono_r; lia). lia. }
    rewrite E' in E. discriminate. }
  destruct (Z.eq_dec b 0) as [->|Hb0].
  { rewrite Z.add_0_r. change (of_Z 0) with (S754_zero false).
    destruct (of_Z_pos a) as (m & e & E & _).
    { split; [lia|]. assert (2 ^ 53 < 2 ^ 900) by (apply Z.pow_lt_mono_r; lia). lia. }
    rewrite E. reflexivity. }
  destruct (of_Z_pos_rank a ltac:(lia)) as (Va & Na & Ra & Ba).
  destruct (of_Z_pos_rank b ltac:(lia)) as (Vb & Nb & Rb & Bb).
  destruct (of_Z_pos_rank (a + b) ltac:(lia)) as (Vs & Ns & Rs & Bs).
  assert (Fa : is_finite (of_Z a) = true) by (apply nonneg_rank_finite; [assumption | lia]).
  assert (Fb : is_finite (of_Z b) = true) by (apply nonneg_rank_finite; [assumption | lia]).
  assert (Fs : is_finite (of_Z (a + b)) = true)
    by (apply nonneg_rank_finite; [assumption | lia]).
  pose proof (add_rounds (of_Z a) (of_Z b) Va Vb Fa Fb Na Nb) as Hr.
  assert (Er : rank (of_Z a) + rank (of_Z b) = rank (of_Z (a + b))).
  { rewrite Ra, Rb, Rs. ring. }
  rewrite Er in Hr.
  pose proof (rounds_exact _ _ Hr Vs Fs Ns) as R.
  apply rank_eq_pos; try assumption; try lia.
  - apply add_valid; assumption.
  - apply add_nonneg; assumption.
Qed.

Lemma div_of_Z_exact0 c k :
  0 < c -> 0 <= k -> c * k < 2 ^ 53 -> c < 2 ^ 53 ->
  div (of_Z (c * k)) (of_Z c) = of_Z k.
Proof.
  intros Hc Hk Hck Hc53.
  destruct (Z.eq_dec k 0) as [->|Hnz].
  - rewrite Z.mul_0_r.
    destruct (of_Z_pos c) as (m & e & E & _).
    { split; [lia|]. assert (2 ^ 53 < 2 ^ 900) by (apply Z.pow_lt_mono_r; lia). lia. }
    rewrite E. reflexivity.
  - apply div_of_Z_exact; lia.
Qed.

(** Beyond these bounds the difference of the instants is rounded when
    it is converted to [double], and the result can miss [k]: in
    PerformanceTimer11 after 1649267441666 ms, on Windows at 10 MHz
    after 492581209243650 ms. *)
Lemma whole_milliseconds_beyond_2_53 :
  (let k := 1649267441666 in
   2 ^ 53 <= 1000000 * k <= Int64.max_signed /\
   eqb (Timer11.GetElapsed
          (Timer11.Stop (1000000 * k) (Timer11.Start 0 Timer11.PerformanceTimer11)))
       (of_Z k) = false) /\
  (let k := 492581209243650 in
   let t := Win98.PerformanceTimer98 (Win98.mkQuery true 10000000) in
   2 ^ 53 <= 10000 * k <= Int64.max_signed /\
   eqb (Win98.GetElapsed (Win98.set_stop (Win98.set_start t 0) (10000 * k)))
       (of_Z k) = false).
Proof.
  cbv zeta. unfold Int64.max_signed.
  split; (split; [split; [vm_compute; discriminate | vm_compute; discriminate]
                 | vm_compute; reflexivity]).
Qed.

(** X9.  An elapsed time of a whole number [k] of milliseconds is
    reported exactly, [GetElapsed()] returns the [double] [k] with no
    rounding error, as long as the difference of the instants in the
    unit of the clock is below 2^53:
    - on Windows, when the counter frequency is [1000 * p] Hz, below
      2^53, and the difference of the counters, [p * k] ticks, is below
      2^53;
    - in the POSIX branch when [k] is below 2^53;
    - in PerformanceTimer11 when the difference of the instants,
      [1000000 * k] nanoseconds, is below 2^53. *)
Theorem whole_milliseconds_are_exact :
  (forall t p k start stop,
      Win98.calibrated t -> Win98.m_perSecond t = 1000 * p ->
      1000 * p < 2 ^ 53 -> 0 <= k -> p * k < 2 ^ 53 ->
      stop - start = p * k ->
      Win98.GetElapsed (Win98.set_stop (Win98.set_start t start) stop) = of_Z k) /\
  (forall t k start stop,
      Posix98.well_formed start -> Posix98.well_formed stop ->
      0 <= k < 2 ^ 53 ->
      microseconds stop - microseconds start = 1000 * k ->
      Posix98.GetElapsed (Posix98.Stop stop (Posix98.Start start t)) = of_Z k) /\
  (forall t k start stop,
      0 <= k -> 1000000 * k < 2 ^ 53 ->
      stop - start = 1000000 * k ->
      Timer11.GetElapsed (Timer11.Stop stop (Timer11.Start start t)) = of_Z k).
Proof.
  assert (H63 : 2 ^ 53 < 2 ^ 63) by (apply Z.pow_lt_mono_r; lia).
  split; [|split].
  - intros t p k start stop (_ & HP & EP) Ef Hp Hk Hpk Hd.
    unfold Win98.GetElapsed.
    cbn [Win98.set_stop Win98.set_start Win98.m_stopTime Win98.m_startTime
         Win98.m_perMillisecond].
    assert (Hp0 : 0 < p) by lia.
    rewrite Int64_sub_small by (unfold Int64.max_signed; nia).
    rewrite EP, Ef, Hd.
    rewrite (div_of_Z_exact 1000 p) by lia.
    apply div_of_Z_exact0; lia.
  - intros t k start stop Hs He Hk Hd.
    destruct (timersub_spec stop start He Hs) as [Es Eu].
    unfold Posix98.GetElapsed.
    cbn [Posix98.Stop Posix98.Start Posix98.m_stopTime Posix98.m_startTime].
    rewrite Es, Eu, Hd.
    pose proof (Z.div_mod k 1000 ltac:(lia)) as Hdm.
    pose proof (Z.mod_pos_bound k 1000 ltac:(lia)) as Hmod.
    pose proof (Z.div_pos k 1000 ltac:(lia) ltac:(lia)) as Hdiv.
    replace (1000 * k / 1000000) with (k / 1000)
      by (apply (Z.div_unique _ _ _ (1000 * (k mod 1000))); lia).
    replace ((1000 * k) mod 1000000) with (1000 * (k mod 1000))
      by (apply (Z.mod_unique _ _ (k / 1000)); lia).
    rewrite (mul_of_Z_exact_eq (k / 1000) 1000) by lia.
    rewrite (div_of_Z_exact0 1000 (k mod 1000)) by lia.
    rewrite add_of_Z_exact by lia.
    f_equal. lia.
  - intros t k start stop Hk Hk53 Hd. rewrite Timer11_GetElapsed_eq.
    cbn [Timer11.Stop Timer11.Start Timer11.m_stopTime Timer11.m_startTime].
    rewrite Int64_sub_small by (unfold Int64.max_signed; lia).
    rewrite Hd. apply div_of_Z_exact0; lia.
Qed.

Lemma whole_milliseconds_are_exact_witness :
  Win98.GetElapsed
    (Win98.set_stop
       (Win98.set_start (Win98.PerformanceTimer98 (Win98.mkQuery true 10000000)) 7)
       170007) = of_Z 17 /\
  Posix98.GetElapsed
    (Posix98.Stop (Posix98.mkTimeval 12 16999)
       (Posix98.Start (Posix98.mkTimeval 10 999999) Posix98.PerformanceTimer98))
  = of_Z 1017 /\
  Timer11.GetElapsed
    (Timer11.Stop 17000007 (Timer11.Start 7 Timer11.PerformanceTimer11)) = of_Z 17.
Proof.
  destruct whole_milliseconds_are_exact as (W & P & C).
  split; [|split].
  - apply (W _ 10000); try reflexivity; try exact calibrated_10MHz; simpl; lia.
  - apply P; try reflexivity;
      unfold Posix98.well_formed, Int64.max_signed; simpl; lia.
  - apply C; try reflexivity; simpl; lia.
Defined.

(** ** The error of one rounding, and of several *)

Lemma near_refl p q A : q <= p -> 0 <= A -> near p q A A.
Proof. intros H HA. split; apply Z.mul_le_mono_nonneg_r; assumption. Qed.

Lemma near_sym p q A B : near p q A B -> near p q B A.
Proof. intros [H1 H2]. split; assumption. Qed.

Lemma near_trans p1 q1 p2 q2 A B C :
  0 <= p1 -> 0 <= q1 -> 0 <= p2 -> 0 <= q2 ->
  near p1 q1 A B -> near p2 q2 B C -> near (p1 * p2) (q1 * q2) A C.
Proof.
  intros Hp1 Hq1 Hp2 Hq2 [H1 H2] [H3 H4]. split.
  - apply Z.le_trans with (q2 * (p1 * B)).
    + replace (q1 * q2 * A) with (q2 * (q1 * A)) by ring.
      apply Z.mul_le_mono_nonneg_l; assumption.
    + replace (q2 * (p1 * B)) with (p1 * (q2 * B)) by ring.
      replace (p1 * p2 * C) with (p1 * (p2 * C)) by ring.
      apply Z.mul_le_mono_nonneg_l; assumption.
  - apply Z.le_trans with (q1 * (p2 * B)).
    + replace (q1 * q2 * C) with (q1 * (q2 * C)) by ring.
      apply Z.mul_le_mono_nonneg_l; assumption.
    + replace (q1 * (p2 * B)) with (p2 * (q1 * B)) by ring.
      replace (p1 * p2 * A) with (p2 * (p1 * A)) by ring.
      apply Z.mul_le_mono_nonneg_l; assumption.
Qed.

Lemma near_scale p q A B c : 0 <= c -> near p q A B -> near p q (A * c) (B * c).
Proof.
  intros Hc [H1 H2]. split.
  - rewrite !Z.mul_assoc. apply Z.mul_le_mono_nonneg_r; assumption.
  - rewrite !Z.mul_assoc. apply Z.mul_le_mono_nonneg_r; assumption.
Qed.

Lemma near_cancel p q A B c : 0 < c -> near p q (A * c) (B * c) -> near p q A B.
Proof.
  intros Hc [H1 H2]. rewrite !Z.mul_assoc in H1, H2. split.
  - apply Z.mul_le_mono_pos_r in H1; assumption.
  - apply Z.mul_le_mono_pos_r in H2; assumption.
Qed.

Lemma near_add p q A B A' B' :
  near p q A B -> near p q A' B' -> near p q (A + A') (B + B').
Proof. intros [H1 H2] [H3 H4]. unfold near. lia. Qed.

(** A factor close to one is a small relative error. *)
Lemma near_close p q c A B :
  0 < q -> q <= p -> 0 <= c -> c * (p - q) <= q -> 0 <= B ->
  near p q A B -> c * Z.abs (A - B) <= B.
Proof.
  intros Hq Hp Hc Hpq HB [H1 H2].
  assert (HA : 0 <= A).
  { apply Z.mul_le_mono_pos_l with p; [lia|].
    apply Z.le_trans with (q * B); [|exact H2].
    rewrite Z.mul_0_r. apply Z.mul_nonneg_nonneg; lia. }
  assert (K : c * (p - q) * B <= q * B)
    by (apply Z.mul_le_mono_nonneg_r; assumption).
  apply Z.mul_le_mono_pos_l with q; [assumption|].
  destruct (Z_le_gt_dec B A) as [L|G].
  - rewrite Z.abs_eq by lia.
    apply Z.le_trans with (c * (p - q) * B); [|exact K].
    replace (q * (c * (A - B))) with (c * (q * A - q * B)) by ring.
    replace (c * (p - q) * B) with (c * (p * B - q * B)) by ring.
    apply Z.mul_le_mono_nonneg_l; lia.
  - rewrite Z.abs_neq by lia.
    apply Z.le_trans with (c * (p - q) * B); [|exact K].
    replace (q * (c * - (A - B))) with (c * (q * B - q * A)) by ring.
    replace (c * (p - q) * B) with (c * (p * B - q * B)) by ring.
    apply Z.mul_le_mono_nonneg_l; [assumption|].
    assert ((p - q) * A <= (p - q) * B) by (apply Z.mul_le_mono_nonneg_l; lia).
    lia.
Qed.

(** Rounding to nearest moves a quotient by at most one half. *)
Lemma nearest_error n D : 0 <= n -> 0 < D ->
  2 * (nearest (position n D) * D) - D <= 2 * n <= 2 * (nearest (position n D) * D) + D.
Proof.
  intros Hn HD.
  destruct (position_split n D Hn HD) as (b & s & En & Hs & Hb & _ & Ep).
  rewrite Ep. unfold nearest.
  destruct (Z.eqb_spec s 0) as [Z0|NZ].
  - destruct (div_mod_4 b 0 ltac:(lia)) as [Q R]. rewrite Q, R.
    change (0 <? 2) with true. cbv iota. nia.
  - destruct (Z.ltb_spec (2 * s) D) as [L|G].
    + destruct (div_mod_4 b 1 ltac:(lia)) as [Q R]. rewrite Q, R.
      change (1 <? 2) with true. cbv iota. nia.
    + destruct (Z.eqb_spec (2 * s) D) as [E|NE].
      * destruct (div_mod_4 b 2 ltac:(lia)) as [Q R]. rewrite Q, R.
        change (2 <? 2) with false. change (2 =? 2) with true. cbv iota.
        destruct (Z.even b); nia.
      * destruct (div_mod_4 b 3 ltac:(lia)) as [Q R]. rewrite Q, R.
        change (3 <? 2) with false. change (3 =? 2) with false. cbv iota. nia.
Qed.

(** A rounding in the normal range has a relative error of at most
    [2^-53]. *)
Lemma rounded_error x P Q g a b :
  0 <= P -> 0 < Q -> rounded x P Q g ->
  2 ^ 52 <= rank x < 2 ^ 2100 ->
  0 <= a -> 0 <= b -> a - b = g + 1074 ->
  near (2 ^ 53) (2 ^ 53 - 1) (rank x * Q * 2 ^ b) (P * 2 ^ a).
Proof.
  intros HP HQ (s & k & E & Hs & Hk & HE & G & U1 & L1 & R1) [Hr1 Hr2] Ha Hb Hab.
  assert (Ps : 0 < 2 ^ s) by (apply Z.pow_pos_nonneg; lia).
  assert (Pk : 0 < 2 ^ k) by (apply Z.pow_pos_nonneg; lia).
  assert (PE : 0 < 2 ^ (E + 1074)) by (apply Z.pow_pos_nonneg; lia).
  remember (P * 2 ^ s) as n eqn:En. remember (Q * 2 ^ k) as D eqn:ED.
  assert (Hn : 0 <= n) by (subst n; apply Z.mul_nonneg_nonneg; lia).
  assert (HD : 0 < D) by (subst D; apply Z.mul_pos_pos; lia).
  remember (nearest (position n D)) as M eqn:EM.
  assert (HR : rank x = M * 2 ^ (E + 1074)).
  { destruct x as [sx|[]| |[] m e]; cbn [rounds_to] in R1; try contradiction;
      cbn [rank cond_Zopp] in *; try lia. }
  assert (HM : 2 ^ 52 <= M).
  { destruct (Z.eq_dec E (-1074)) as [E0|E1].
    - subst E. change (2 ^ (-1074 + 1074)) with 1 in HR. lia.
    - pose proof (nearest_position_bounds n D Hn HD). lia. }
  pose proof (nearest_error n D Hn HD) as Herr. rewrite <- EM in Herr.
  assert (HX : 2 ^ 52 * D <= M * D) by (apply Z.mul_le_mono_nonneg_r; lia).
  remember (M * D) as X eqn:EX.
  assert (N1 : (2 ^ 53 - 1) * X <= 2 ^ 53 * n) by lia.
  assert (N2 : (2 ^ 53 - 1) * n <= 2 ^ 53 * X) by lia.
  apply (Z.mul_le_mono_nonneg_r _ _ (2 ^ (E + 1074))) in N1; [|lia].
  apply (Z.mul_le_mono_nonneg_r _ _ (2 ^ (E + 1074))) in N2; [|lia].
  assert (Epow : 2 ^ s * 2 ^ (E + 1074) = 2 ^ (s + E + 1074))
    by (rewrite <- Z.pow_add_r by lia; f_equal; lia).
  assert (EX' : X * 2 ^ (E + 1074) = rank x * Q * 2 ^ k)
    by (rewrite HR, EX, ED; ring).
  assert (En' : n * 2 ^ (E + 1074) = P * 2 ^ (s + E + 1074))
    by (rewrite En, <- Epow; ring).
  split.
  - replace ((2 ^ 53 - 1) * (rank x * Q * 2 ^ b))
      with ((2 ^ 53 - 1) * (rank x * Q) * 2 ^ b) by ring.
    replace (2 ^ 53 * (P * 2 ^ a)) with (2 ^ 53 * P * 2 ^ a) by ring.
    apply (pow_scale _ _ k (s + E + 1074)); lia.
  - replace ((2 ^ 53 - 1) * (P * 2 ^ a)) with ((2 ^ 53 - 1) * P * 2 ^ a) by ring.
    replace (2 ^ 53 * (rank x * Q * 2 ^ b))
      with (2 ^ 53 * (rank x * Q) * 2 ^ b) by ring.
    apply (pow_scale _ _ (s + E + 1074) k); lia.
Qed.

Lemma rank_finite_lt x :
  valid x = true -> is_finite x = true -> rank x < 2 ^ 2100.
Proof.
  intros V F. destruct x as [s|s| |s m e]; try discriminate.
  - cbn [rank]. apply Z.pow_pos_nonneg; lia.
  - pose proof (finite_units_bound s m e V). cbn [rank].
    destruct s; cbn [cond_Zopp]; lia.
Qed.

Lemma of_Z_near z :
  0 < z <= Int64.max_signed ->
  2 ^ 52 <= rank (of_Z z) /\
  near (2 ^ 53) (2 ^ 53 - 1) (rank (of_Z z)) (z * 2 ^ 1074).
Proof.
  intros Hz.
  destruct (of_Z_nonneg_finite z ltac:(lia)) as (V & F & N).
  pose proof (rank_finite_lt _ V F) as Hlt.
  pose proof (of_Z_mono 1 z ltac:(lia)) as Hge.
  rewrite (rank_of_Z 1) in Hge by lia. rewrite Z.mul_1_l in Hge.
  assert (H52 : 2 ^ 52 <= 2 ^ 1074) by (apply Z.pow_le_mono_r; lia).
  split; [lia|].
  pose proof (rounded_error (of_Z z) z 1 0 1074 0 ltac:(lia) ltac:(lia)
                (of_Z_rounded z ltac:(lia)) ltac:(lia) ltac:(lia) ltac:(lia)
                ltac:(lia)) as H.
  rewrite Z.pow_0_r, !Z.mul_1_r in H. exact H.
Qed.

Lemma div_near mx ex my ey :
  valid (S754_finite false mx ex) = true ->
  valid (S754_finite false my ey) = true ->
  -1020 <= mag mx ex - mag my ey <= 969 ->
  is_finite (div (S754_finite false mx ex) (S754_finite false my ey)) = true /\
  nonneg (div (S754_finite false mx ex) (S754_finite false my ey)) = true /\
  2 ^ 52 <= rank (div (S754_finite false mx ex) (S754_finite false my ey)) /\
  near (2 ^ 53) (2 ^ 53 - 1)
       (rank (div (S754_finite false mx ex) (S754_finite false my ey))
        * rank (S754_finite false my ey))
       (rank (S754_finite false mx ex) * 2 ^ 1074).
Proof.
  intros Vx Vy HD.
  pose proof (div_rounded mx ex my ey) as Hr.
  pose proof (div_valid (S754_finite false mx ex) (S754_finite false my ey)) as Vq.
  destruct (div_normal false mx ex false my ey Vx Vy HD)
    as (m & e & E & He & _ & Hn & _ & _).
  rewrite E in *. cbn [xorb] in *.
  pose proof (finite_units_bound false m e Vq) as [_ Hlt].
  assert (P1 : 1 <= 2 ^ (e + 1074)).
  { assert (0 < 2 ^ (e + 1074)) by (apply Z.pow_pos_nonneg; lia). lia. }
  assert (H52 : 2 ^ 52 <= Zpos m * 2 ^ (e + 1074)).
  { apply Z.le_trans with (2 ^ 52 * 2 ^ (e + 1074)); [|exact Hn].
    rewrite <- (Z.mul_1_r (2 ^ 52)) at 1.
    apply Z.mul_le_mono_nonneg_l; lia. }
  split; [reflexivity|]. split; [reflexivity|].
  cbn [rank cond_Zopp]. split; [exact H52|].
  pose proof (valid_finite_bounds false mx ex Vx) as [_ Bx].
  pose proof (valid_finite_bounds false my ey Vy) as [_ By].
  pose proof (rounded_error (S754_finite false m e) (Zpos mx) (Zpos my) (ex - ey)
                (ex + 1074 + 1074) (ey + 1074) ltac:(lia) ltac:(lia) Hr) as H.
  cbn [rank cond_Zopp] in H.
  specialize (H ltac:(lia) ltac:(lia) ltac:(lia) ltac:(lia)).
  rewrite (Z.pow_add_r 2 (ex + 1074) 1074) in H by lia.
  rewrite !Z.mul_assoc in *. exact H.
Qed.

Lemma add_near x y :
  valid x = true -> valid y = true ->
  is_finite x = true -> is_finite y = true ->
  nonneg x = true -> nonneg y = true ->
  2 ^ 52 <= rank (add x y) < 2 ^ 2100 ->
  near (2 ^ 53) (2 ^ 53 - 1) (rank (add x y)) (rank x + rank y).
Proof.
  intros Vx Vy Fx Fy Nx Ny Hr.
  destruct (add_rounds x y Vx Vy Fx Fy Nx Ny) as (P & g & HP & Hg & Hro & EP).
  pose proof (rounded_error (add x y) P 1 g (g + 1074) 0 HP ltac:(lia) Hro Hr
                ltac:(lia) ltac:(lia) ltac:(lia)) as H.
  rewrite Z.pow_0_r, !Z.mul_1_r, EP in H. exact H.
Qed.

(** ** The accuracy of the elapsed time *)

Lemma approximates_zero s D : approximates (S754_zero s) 0 D.
Proof.
  split; [reflexivity|]. cbn [rank].
  rewrite Z.mul_0_r, Z.mul_0_l. reflexivity.
Qed.

Lemma two_roundings_close : 2 ^ 50 * (2 ^ 53 * 2 ^ 53 - (2 ^ 53 - 1) * (2 ^ 53 - 1))
                            <= (2 ^ 53 - 1) * (2 ^ 53 - 1).
Proof. vm_compute. discriminate. Qed.

Lemma four_roundings_close :
  2 ^ 50 * (2 ^ 53 * (2 ^ 53 * (2 ^ 53 * 2 ^ 53))
            - (2 ^ 53 - 1) * ((2 ^ 53 - 1) * ((2 ^ 53 - 1) * (2 ^ 53 - 1))))
  <= (2 ^ 53 - 1) * ((2 ^ 53 - 1) * ((2 ^ 53 - 1) * (2 ^ 53 - 1))).
Proof. vm_compute. discriminate. Qed.

Lemma Timer11_elapsed_accurate d :
  0 <= d <= Int64.max_signed ->
  approximates (div (of_Z d) (of_Z 1000000)) d 1000000.
Proof.
  intros Hd. destruct (Z.eq_dec d 0) as [->|Hnz].
  - apply approximates_zero.
  - unfold Int64.max_signed in Hd.
    destruct (of_Z_near d ltac:(unfold Int64.max_signed; lia)) as [_ Nd].
    destruct (of_Z_pos d) as (md & ed & Ed & _ & _ & Bd); [lia|].
    pose proof (Zdigits2_range d ltac:(lia)) as Rd.
    pose proof (of_Z_valid d) as Vd.
    rewrite Ed in Vd, Nd. rewrite Ed, of_Z_1000000.
    destruct (div_near md ed 8589934592000000 (-33) Vd eq_refl) as (F & N & _ & Nq).
    { change (mag 8589934592000000 (-33)) with 20. lia. }
    split; [exact F|].
    remember (rank (div (S754_finite false md ed)
                        (S754_finite false 8589934592000000 (-33)))) as Rq eqn:ERq.
    change (rank (S754_finite false 8589934592000000 (-33)))
      with (1000000 * 2 ^ 1074) in Nq.
    remember (rank (S754_finite false md ed)) as Rd' eqn:ERd.
    assert (PU : 0 < 2 ^ 1074) by (apply Z.pow_pos_nonneg; lia).
    remember (2 ^ 1074) as U eqn:EU.
    apply (near_close ((2 ^ 53) * (2 ^ 53)) ((2 ^ 53 - 1) * (2 ^ 53 - 1)));
      [lia | lia | lia | exact two_roundings_close
      | apply Z.mul_nonneg_nonneg; lia |].
    apply (near_cancel _ _ _ _ U PU).
    apply (near_trans _ _ _ _ _ (Rd' * U)); try lia.
    + replace (1000000 * Rq * U) with (Rq * (1000000 * U)) by ring. exact Nq.
    + apply near_scale; [lia | exact Nd].
Qed.

Lemma Win98_elapsed_accurate t d :
  Win98.calibrated t -> 0 <= d <= Int64.max_signed ->
  approximates (div (of_Z d) (Win98.m_perMillisecond t))
               (1000 * d) (Win98.m_perSecond t).
Proof.
  intros (_ & Hf & Ep) Hd. rewrite Ep.
  remember (Win98.m_perSecond t) as f eqn:Ef.
  unfold Int64.max_signed in Hd, Hf.
  destruct (of_Z_near f ltac:(unfold Int64.max_signed; lia)) as [_ Nf].
  destruct (of_Z_pos f) as (mf & ef & Eof & _ & _ & Bf); [lia|].
  pose proof (Zdigits2_range f ltac:(lia)) as Rf.
  pose proof (of_Z_valid f) as Vf.
  rewrite Eof in Vf, Nf. rewrite Eof.
  change (of_Z 1000) with (S754_finite false 8796093022208000 (-43)).
  destruct (div_near mf ef 8796093022208000 (-43) Vf eq_refl) as (_ & _ & _ & Np).
  { change (mag 8796093022208000 (-43)) with 10. lia. }
  pose proof (div_valid (S754_finite false mf ef)
                (S754_finite false 8796093022208000 (-43))) as Vp.
  destruct (div_of_Z_pos_finite f 1000) as (mp & ep & Eop & Bp); [lia | lia |].
  rewrite Eof in Eop.
  change (of_Z 1000) with (S754_finite false 8796093022208000 (-43)) in Eop.
  rewrite Eop in Vp, Np. rewrite Eop.
  destruct (Z.eq_dec d 0) as [->|Hnz].
  - replace (1000 * 0) with 0 by reflexivity. apply approximates_zero.
  - destruct (of_Z_near d ltac:(unfold Int64.max_signed; lia)) as [_ Nd].
    destruct (of_Z_pos d) as (md & ed & Ed & _ & _ & Bd); [lia|].
    pose proof (Zdigits2_range d ltac:(lia)) as Rd.
    pose proof (of_Z_valid d) as Vd.
    rewrite Ed in Vd, Nd. rewrite Ed.
    destruct (div_near md ed mp ep Vd Vp) as (F & N & Hg & Ng); [lia|].
    split; [exact F|].
    remember (rank (div (S754_finite false md ed) (S754_finite false mp ep)))
      as Rg eqn:ERg.
    change (rank (S754_finite false 8796093022208000 (-43)))
      with (1000 * 2 ^ 1074) in Np.
    remember (rank (S754_finite false mp ep)) as Rp eqn:ERp.
    remember (rank (S754_finite false md ed)) as Rd' eqn:ERd.
    remember (rank (S754_finite false mf ef)) as Rf' eqn:ERf.
    assert (PU : 0 < 2 ^ 1074) by (apply Z.pow_pos_nonneg; lia).
    assert (H52 : 0 < 2 ^ 52) by reflexivity.
    remember (2 ^ 1074) as U eqn:EU.
    apply (near_close ((2 ^ 53) * ((2 ^ 53) * ((2 ^ 53) * (2 ^ 53))))
             ((2 ^ 53 - 1) * ((2 ^ 53 - 1) * ((2 ^ 53 - 1) * (2 ^ 53 - 1)))));
      [lia | lia | lia | exact four_roundings_close
      | apply Z.mul_nonneg_nonneg; lia |].
    apply (near_cancel _ _ _ _ U PU).
    (* f U Rg ~ Rf Rg ~ Rp 1000 Rg ~ Rd U 1000 ~ d U U 1000 *)
    apply (near_trans _ _ _ _ _ (Rf' * Rg)); try lia.
    { replace (f * Rg * U) with (f * U * Rg) by ring.
      apply near_scale; [lia|]. apply near_sym. exact Nf. }
    apply (near_trans _ _ _ _ _ (Rp * 1000 * Rg)); try lia.
    { apply near_scale; [lia|]. apply near_sym.
      apply (near_cancel _ _ _ _ U PU).
      replace (Rp * 1000 * U) with (Rp * (1000 * U)) by ring. exact Np. }
    apply (near_trans _ _ _ _ _ (Rd' * U * 1000)); try lia.
    { replace (Rp * 1000 * Rg) with (Rg * Rp * 1000) by ring.
      apply near_scale; [lia | exact Ng]. }
    replace (Rd' * U * 1000) with (Rd' * (U * 1000)) by ring.
    replace (1000 * d * U * U) with (d * U * (U * 1000)) by ring.
    apply near_scale; [lia | exact Nd].
Qed.

(** The milliseconds of the microsecond part, in the POSIX branch. *)
Lemma Posix98_usec_term usec :
  0 <= usec < 1000000 ->
  valid (div (of_Z usec) (of_Z 1000)) = true /\
  is_finite (div (of_Z usec) (of_Z 1000)) = true /\
  nonneg (div (of_Z usec) (of_Z 1000)) = true /\
  (0 < usec -> 2 ^ 52 <= rank (div (of_Z usec) (of_Z 1000))) /\
  near (2 ^ 53) (2 ^ 53 - 1)
       (rank (div (of_Z usec) (of_Z 1000)) * 1000) (usec * 2 ^ 1074).
Proof.
  intros Hu. split; [apply div_valid|].
  destruct (Z.eq_dec usec 0) as [->|Hnz].
  - change (div (of_Z 0) (of_Z 1000)) with (S754_zero false).
    split; [reflexivity|]. split; [reflexivity|]. split; [lia|].
    cbn [rank]. rewrite !Z.mul_0_l. split; reflexivity.
  - destruct (of_Z_pos usec) as (mu & eu & Eu & _ & _ & Bu); [lia|].
    pose proof (Zdigits2_range usec ltac:(lia)) as Ru.
    pose proof (of_Z_valid usec) as Vu.
    pose proof (rank_of_Z usec ltac:(lia)) as Rk.
    rewrite Eu in Vu, Rk. rewrite Eu.
    change (of_Z 1000) with (S754_finite false 8796093022208000 (-43)).
    destruct (div_near mu eu 8796093022208000 (-43) Vu eq_refl) as (F & N & H52 & Nb).
    { change (mag 8796093022208000 (-43)) with 10. lia. }
    split; [exact F|]. split; [exact N|]. split; [intros _; exact H52|].
    rewrite Rk in Nb.
    change (rank (S754_finite false 8796093022208000 (-43)))
      with (1000 * 2 ^ 1074) in Nb.
    assert (PU : 0 < 2 ^ 1074) by (apply Z.pow_pos_nonneg; lia).
    apply (near_cancel _ _ _ _ (2 ^ 1074) PU).
    rewrite <- Z.mul_assoc. exact Nb.
Qed.

Lemma Posix98_elapsed_accurate start stop i :
  Posix98.well_formed start -> Posix98.well_formed stop ->
  Posix98.tv_le start stop ->
  Posix98.tv_sec stop - Posix98.tv_sec start < 2 ^ 43 ->
  approximates (Posix98.GetElapsed (Posix98.mkTimer start stop i))
               (microseconds stop - microseconds start) 1000.
Proof.
  intros Hs He Hle Hd.
  destruct (Posix98_elapsed_nonneg start stop i Hs He Hle) as [NS _].
  destruct (timersub_ordered start stop Hs He Hle) as (S1 & U1 & M1).
  revert NS. unfold Posix98.GetElapsed.
  cbn [Posix98.m_startTime Posix98.m_stopTime].
  remember (Posix98.timersub stop start) as d eqn:Ed. cbv zeta. intros NS.
  rewrite <- M1. unfold microseconds in *.
  assert (Hsec : Posix98.tv_sec d < 2 ^ 43).
  { destruct Hs as [_ Hsu]. destruct He as [_ Heu]. lia. }
  remember (Posix98.tv_sec d) as sec eqn:Esec.
  remember (Posix98.tv_usec d) as usec eqn:Eusec.
  clear M1 Ed Esec Eusec Hs He Hle Hd d.
  destruct (Posix98_elapsed_terms sec ltac:(lia)) as (VA & NA & RA).
  destruct (Posix98_usec_term usec U1) as (VB & FB & NB & LB & NearB).
  assert (PU : 0 < 2 ^ 1074) by (apply Z.pow_pos_nonneg; lia).
  assert (H52 : 2 ^ 52 <= 2 ^ 1074) by (apply Z.pow_le_mono_r; lia).
  assert (HT : 2 ^ 53 * 2 ^ 1074 < 2 ^ 2100) by exact pow2_1074_lt.
  assert (HsU : 0 <= sec * 2 ^ 1074) by (apply Z.mul_nonneg_nonneg; lia).
  assert (HsU' : sec * 2 ^ 1074 <= (2 ^ 43 - 1) * 2 ^ 1074)
    by (apply Z.mul_le_mono_nonneg_r; lia).
  assert (HuU : 0 <= usec * 2 ^ 1074) by (apply Z.mul_nonneg_nonneg; lia).
  assert (HuU' : usec * 2 ^ 1074 <= 999999 * 2 ^ 1074)
    by (apply Z.mul_le_mono_nonneg_r; lia).
  assert (HuU1 : 0 < usec -> 2 ^ 1074 <= usec * 2 ^ 1074).
  { intros Hp. rewrite <- (Z.mul_1_l (2 ^ 1074)) at 1.
    apply Z.mul_le_mono_nonneg_r; lia. }
  assert (HsU1 : 0 < sec -> 2 ^ 1074 <= sec * 2 ^ 1074).
  { intros Hp. rewrite <- (Z.mul_1_l (2 ^ 1074)) at 1.
    apply Z.mul_le_mono_nonneg_r; lia. }
  assert (FA : is_finite (mul (of_Z sec) (of_Z 1000)) = true).
  { apply nonneg_rank_finite; [exact NA|]. rewrite RA.
    replace (sec * 1000 * 2 ^ 1074) with (1000 * (sec * 2 ^ 1074)) by ring. lia. }
  pose proof (add_rounds _ _ VA VB FA FB NA NB) as RS.
  pose proof (rank_nonneg _ NB) as PB.
  remember (mul (of_Z sec) (of_Z 1000)) as A eqn:EA.
  remember (div (of_Z usec) (of_Z 1000)) as B eqn:EB.
  replace (sec * 1000 * 2 ^ 1074) with (1000 * (sec * 2 ^ 1074)) in RA by ring.
  (* the sum is below 2^53 milliseconds *)
  assert (Hup : rank (add A B) <= (2 ^ 53 - 1) * 2 ^ 1074).
  { rewrite <- (rank_of_Z (2 ^ 53 - 1)) by lia.
    apply (rounds_mono _ _ _ _ RS (of_Z_rounds (2 ^ 53 - 1) ltac:(lia))).
    destruct NearB as [NB1 _]. lia. }
  destruct (Z.eq_dec (sec * 1000000 + usec) 0) as [Z0|NZ].
  - assert (sec = 0) by lia. assert (usec = 0) by lia. subst sec usec.
    rewrite Z0, EA, EB.
    change (add (mul (of_Z 0) (of_Z 1000)) (div (of_Z 0) (of_Z 1000)))
      with (S754_zero false).
    apply approximates_zero.
  - assert (Hlo : 2 ^ 52 <= rank (add A B)).
    { destruct (Z_lt_le_dec 0 usec) as [Hu|Hu].
      - apply Z.le_trans with (rank B); [apply LB; exact Hu|].
        apply (rounds_mono _ _ _ _ (nonneg_finite_rounds B VB FB NB) RS). lia.
      - apply Z.le_trans with (rank A); [lia|].
        apply (rounds_mono _ _ _ _ (nonneg_finite_rounds A VA FA NA) RS). lia. }
    split.
    + apply nonneg_rank_finite; [exact NS | lia].
    + pose proof (add_near A B VA VB FA FB NA NB ltac:(lia)) as NearS.
      remember (rank (add A B)) as Rs eqn:ERs.
      remember (rank B) as Rb eqn:ERb.
      remember (2 ^ 1074) as U eqn:EU.
      apply (near_close ((2 ^ 53) * (2 ^ 53)) ((2 ^ 53 - 1) * (2 ^ 53 - 1)));
        [lia | lia | lia | exact two_roundings_close | lia |].
      apply (near_trans _ _ _ _ _ ((rank A + Rb) * 1000)); try lia.
      * rewrite (Z.mul_comm 1000 Rs). apply near_scale; [lia | exact NearS].
      * rewrite RA.
        replace ((1000 * (sec * U) + Rb) * 1000)
          with (1000000 * (sec * U) + Rb * 1000) by ring.
        replace ((sec * 1000000 + usec) * U)
          with (1000000 * (sec * U) + usec * U) by ring.
        apply near_add; [|exact NearB].
        apply near_refl; lia.
Qed.



Lemma sub_valid x y :
  valid x = true -> valid y = true -> valid (sub x y) = true.
Proof.
  intros Vx Vy.
  destruct x as [sx|sx| |sx mx ex]; destruct y as [sy|sy| |sy my ey];
    try reflexivity; try assumption.
  - destruct sx, sy; reflexivity.
  - destruct sx, sy; reflexivity.
  - unfold sub, SFsub. apply binary_normalize_valid.
Qed.

Lemma sub_finite_not_nan x y :
  is_finite x = true -> is_finite y = true -> is_nan (sub x y) = false.
Proof.
  intros Fx Fy.
  destruct x as [sx|sx| |sx mx ex]; try discriminate;
    destruct y as [sy|sy| |sy my ey]; try discriminate; try reflexivity.
  - destruct sx, sy; reflexivity.
  - unfold sub, SFsub. apply binary_normalize_not_nan.
Qed.

Lemma ltb_false_of_rank x y :
  valid x = true -> valid y = true -> is_nan x = false -> is_nan y = false ->
  rank y <= rank x -> ltb x y = false.
Proof.
  intros Vx Vy Nx Ny H. apply not_true_iff_false. intros L.
  apply ltb_rank in L; try assumption. lia.
Qed.

(** [y] is not greater than [x], or both are NaN. *)
Lemma not_greater_spec x y :
  valid x = true -> valid y = true ->
  (is_nan x = true /\ is_nan y = true) \/
  (is_nan x = false /\ is_nan y = false /\ rank y <= rank x) ->
  ltb x y = false /\
  forall z, valid z = true -> ltb z x = false -> ltb z y = false.
Proof.
  intros Vx Vy [[Nx Ny]|(Nx & Ny & H)].
  - destruct x; try discriminate. destruct y; try discriminate.
    split; [reflexivity|]. intros z _ _. apply ltb_nan_r.
  - split; [apply ltb_false_of_rank; assumption|].
    intros z Vz L. destruct (is_nan z) eqn:Nz.
    + destruct z; try discriminate. reflexivity.
    + apply not_true_iff_false. intros L2.
      apply ltb_rank in L2; try assumption.
      apply not_true_iff_false in L. apply L.
      apply ltb_rank; try assumption. lia.
Qed.

(** Subtracting a larger number gives a result that is not larger. *)
Lemma sub_antitone c x1 x2 :
  valid c = true -> valid x1 = true -> valid x2 = true ->
  is_finite x1 = true -> is_finite x2 = true ->
  rank x1 <= rank x2 ->
  (is_nan (sub c x1) = true /\ is_nan (sub c x2) = true) \/
  (is_nan (sub c x1) = false /\ is_nan (sub c x2) = false /\
   rank (sub c x2) <= rank (sub c x1)).
Proof.
  intros Vc V1 V2 F1 F2 H.
  destruct c as [sc|sc| |sc mc ec].
  - right.
    split; [apply sub_finite_not_nan; [reflexivity | assumption]|].
    split; [apply sub_finite_not_nan; [reflexivity | assumption]|].
    apply (rounds_signed_mono _ (rank (S754_zero sc) - rank x2)
                              _ (rank (S754_zero sc) - rank x1));
      try (apply sub_rounds_signed; try assumption; reflexivity). lia.
  - right.
    destruct x1 as [s1|s1| |s1 m1 e1]; try discriminate;
      destruct x2 as [s2|s2| |s2 m2 e2]; try discriminate;
      cbn [sub SFsub is_nan]; repeat split; lia.
  - left.
    destruct x1 as [s1|s1| |s1 m1 e1]; try discriminate;
      destruct x2 as [s2|s2| |s2 m2 e2]; try discriminate;
      split; reflexivity.
  - right.
    split; [apply sub_finite_not_nan; [reflexivity | assumption]|].
    split; [apply sub_finite_not_nan; [reflexivity | assumption]|].
    apply (rounds_signed_mono _ (rank (S754_finite sc mc ec) - rank x2)
                              _ (rank (S754_finite sc mc ec) - rank x1));
      try (apply sub_rounds_signed; try assumption; reflexivity). lia.
Qed.

(** Division by a positive number, for numerators of either sign. *)
Lemma div_opp x mp ep :
  div (SFopp x) (S754_finite false mp ep) = SFopp (div x (S754_finite false mp ep)).
Proof.
  destruct x as [s|s| |s m e]; try reflexivity.
  - destruct s; reflexivity.
  - destruct s; reflexivity.
  - unfold div, SFdiv. cbn [SFopp].
    destruct (SFdiv_core_binary prec emax (Zpos m) e (Zpos mp) ep) as [[mz ez] lz].
    rewrite !xorb_false_r. apply binary_round_aux_opp.
Qed.

Lemma rank_le_top x : valid x = true -> - 2 ^ 2100 <= rank x <= 2 ^ 2100.
Proof.
  intros V. assert (0 < 2 ^ 2100) by (apply Z.pow_pos_nonneg; lia).
  destruct x as [s|s| |s m e]; cbn [rank]; try lia.
  - destruct s; cbn [cond_Zopp]; lia.
  - pose proof (finite_units_bound s m e V). destruct s; cbn [cond_Zopp]; lia.
Qed.

Lemma div_mono_nonneg x1 x2 mp ep :
  valid x1 = true -> valid x2 = true ->
  nonneg x1 = true -> nonneg x2 = true ->
  rank x1 <= rank x2 ->
  rank (div x1 (S754_finite false mp ep)) <= rank (div x2 (S754_finite false mp ep)).
Proof.
  intros V1 V2 N1 N2 H.
  destruct (is_finite x2) eqn:F2.
  - apply div_mono_l; try assumption.
    apply nonneg_rank_finite; [assumption|].
    pose proof (rank_finite_lt x2 V2 F2). lia.
  - destruct x2 as [s2|[]| |s2 m2 e2]; try discriminate.
    change (div (S754_infinity false) (S754_finite false mp ep))
      with (S754_infinity false).
    apply (rank_le_top (div x1 (S754_finite false mp ep))). apply div_valid.
Qed.

Lemma negative_opp_nonneg x :
  valid x = true -> is_nan x = false -> nonneg x = false ->
  nonneg (SFopp x) = true /\ rank x < 0.
Proof.
  intros V N H. destruct x as [s|[]| |[] m e]; try discriminate.
  - split; [reflexivity|]. cbn [rank cond_Zopp].
    assert (0 < 2 ^ 2100) by (apply Z.pow_pos_nonneg; lia). lia.
  - split; [reflexivity|]. cbn [rank cond_Zopp].
    pose proof (finite_units_bound true m e V). lia.
Qed.

Lemma div_mono_signed x1 x2 mp ep :
  valid x1 = true -> valid x2 = true ->
  is_nan x1 = false -> is_nan x2 = false ->
  rank x1 <= rank x2 ->
  rank (div x1 (S754_finite false mp ep)) <= rank (div x2 (S754_finite false mp ep)).
Proof.
  intros V1 V2 N1 N2 H.
  destruct (nonneg x2) eqn:P2; destruct (nonneg x1) eqn:P1.
  - apply div_mono_nonneg; assumption.
  - destruct (negative_opp_nonneg x1 V1 N1 P1) as [Q1 _].
    pose proof (rank_nonneg _ (div_nonneg_pos_finite _ mp ep P2)) as A.
    pose proof (rank_nonneg _ (div_nonneg_pos_finite _ mp ep Q1)) as B.
    rewrite div_opp, rank_opp in B. lia.
  - destruct (negative_opp_nonneg x2 V2 N2 P2) as [_ L2].
    pose proof (rank_nonneg _ P1). lia.
  - destruct (negative_opp_nonneg x1 V1 N1 P1) as [Q1 _].
    destruct (negative_opp_nonneg x2 V2 N2 P2) as [Q2 _].
    pose proof (div_mono_nonneg (SFopp x2) (SFopp x1) mp ep) as M.
    rewrite !valid_opp, !rank_opp, !div_opp, !rank_opp in M.
    specialize (M V2 V1 Q2 Q1 ltac:(lia)). lia.
Qed.

(** ** The remaining time shrinks as the stop instant grows *)

Lemma Win98_remaining_antitone t stop1 stop2 :
  Win98.calibrated t -> valid (Win98.m_interval t) = true ->
  0 <= stop1 <= stop2 -> stop2 <= Int64.max_signed ->
  ltb (Win98.GetRemaining (Win98.set_stop t stop1))
      (Win98.GetRemaining (Win98.set_stop t stop2)) = false /\
  forall y, valid y = true ->
    ltb y (Win98.GetRemaining (Win98.set_stop t stop1)) = false ->
    ltb y (Win98.GetRemaining (Win98.set_stop t stop2)) = false.
Proof.
  intros Hc Hv Hs Hmax. unfold Win98.GetRemaining.
  cbn [Win98.set_stop Win98.m_stopTime Win98.m_startTime Win98.m_interval
       Win98.m_perMillisecond].
  destruct (Win98_perMillisecond_pos t Hc) as (mp & ep & Ep). rewrite Ep.
  remember (add (Win98.m_interval t) (of_Z (Win98.m_startTime t))) as c eqn:Ec.
  assert (Vc : valid c = true)
    by (subst c; apply add_valid; [assumption | apply of_Z_valid]).
  destruct (of_Z_nonneg_finite stop1 ltac:(lia)) as (V1 & F1 & _).
  destruct (of_Z_nonneg_finite stop2 ltac:(lia)) as (V2 & F2 & _).
  pose proof (of_Z_mono stop1 stop2 ltac:(lia)) as M.
  apply not_greater_spec; try apply div_valid.
  destruct (sub_antitone c (of_Z stop1) (of_Z stop2) Vc V1 V2 F1 F2 M)
    as [[A B]|(A & B & C)].
  - left. destruct (sub c (of_Z stop1)); try discriminate.
    destruct (sub c (of_Z stop2)); try discriminate. split; reflexivity.
  - right. split; [apply div_not_nan; assumption|].
    split; [apply div_not_nan; assumption|].
    apply div_mono_signed; try assumption; apply sub_valid; assumption.
Qed.

Lemma Posix98_remaining_antitone t stop1 stop2 :
  valid (Posix98.m_interval t) = true ->
  Posix98.well_formed (Posix98.m_startTime t) ->
  Posix98.well_formed stop1 -> Posix98.well_formed stop2 ->
  Posix98.tv_le (Posix98.m_startTime t) stop1 -> Posix98.tv_le stop1 stop2 ->
  Posix98.tv_sec stop2 - Posix98.tv_sec (Posix98.m_startTime t) < 2 ^ 43 ->
  ltb (Posix98.GetRemaining (Posix98.Stop stop1 t))
      (Posix98.GetRemaining (Posix98.Stop stop2 t)) = false /\
  forall y, valid y = true ->
    ltb y (Posix98.GetRemaining (Posix98.Stop stop1 t)) = false ->
    ltb y (Posix98.GetRemaining (Posix98.Stop stop2 t)) = false.
Proof.
  intros Hv Hs H1 H2 L1 L2 Hd.
  assert (L : Posix98.tv_le (Posix98.m_startTime t) stop2)
    by (unfold Posix98.tv_le in *; lia).
  assert (Hd1 : Posix98.tv_sec stop1 - Posix98.tv_sec (Posix98.m_startTime t) < 2 ^ 43)
    by (unfold Posix98.tv_le in *; lia).
  destruct (Posix98_elapsed_accurate _ stop1 (Posix98.m_interval t) Hs H1 L1 Hd1)
    as [F1 _].
  destruct (Posix98_elapsed_accurate _ stop2 (Posix98.m_interval t) Hs H2 L Hd)
    as [F2 _].
  destruct (Posix98_elapsed_mono _ stop1 stop2 (Posix98.m_interval t)
              Hs H1 H2 L1 L2 Hd) as [M _].
  unfold Posix98.GetRemaining.
  change (Posix98.Stop stop1 t)
    with (Posix98.mkTimer (Posix98.m_startTime t) stop1 (Posix98.m_interval t)).
  change (Posix98.Stop stop2 t)
    with (Posix98.mkTimer (Posix98.m_startTime t) stop2 (Posix98.m_interval t)).
  cbn [Posix98.m_interval].
  assert (Vc : valid (mul (Posix98.m_interval t) (of_Z 1000)) = true)
    by (apply mul_valid; [assumption | apply of_Z_valid]).
  assert (VE : forall stop,
             valid (Posix98.GetElapsed
                      (Posix98.mkTimer (Posix98.m_startTime t) stop
                         (Posix98.m_interval t))) = true).
  { intros stop. apply add_valid;
      [apply mul_valid; apply of_Z_valid | apply div_valid]. }
  apply not_greater_spec; try (apply sub_valid; [exact Vc | apply VE]).
  apply sub_antitone; try assumption; apply VE.
Qed.

Lemma Timer11_remaining_antitone t stop1 stop2 :
  valid (Timer11.m_interval t) = true ->
  0 <= stop1 - Timer11.m_startTime t <= stop2 - Timer11.m_startTime t ->
  stop2 - Timer11.m_startTime t <= Int64.max_signed ->
  ltb (Timer11.GetRemaining (Timer11.Stop stop1 t))
      (Timer11.GetRemaining (Timer11.Stop stop2 t)) = false /\
  forall y, valid y = true ->
    ltb y (Timer11.GetRemaining (Timer11.Stop stop1 t)) = false ->
    ltb y (Timer11.GetRemaining (Timer11.Stop stop2 t)) = false.
Proof.
  intros Hv Hd Hmax. rewrite !Timer11_GetRemaining_eq.
  cbn [Timer11.Stop Timer11.m_stopTime Timer11.m_startTime Timer11.m_interval].
  rewrite !Int64_sub_small by lia.
  destruct (Timer11_elapsed_accurate (stop1 - Timer11.m_startTime t) ltac:(lia))
    as [F1 _].
  destruct (Timer11_elapsed_accurate (stop2 - Timer11.m_startTime t) ltac:(lia))
    as [F2 _].
  assert (Vc : valid (mul (Timer11.m_interval t) (of_Z 1000)) = true)
    by (apply mul_valid; [assumption | apply of_Z_valid]).
  apply not_greater_spec; try (apply sub_valid; [exact Vc | apply div_valid]).
  apply sub_antitone; try assumption; try apply div_valid.
  apply Timer11_elapsed_rank_mono; assumption.
Qed.

(** X11.  [GetRemaining()] never increases when [Stop()] is called again
    with a later clock reading and no [Start()] in between: the
    remaining time of the later stop is not greater than the one of the
    earlier stop, whatever interval [SetInterval] or the constructor
    stored, and a test [y < GetRemaining()] that is false after the
    earlier stop is false after the later one.  In the game loop of the
    README the test [GetRemaining() > 1] is therefore false for good
    once it is false.  (Windows: on a supported platform, for counter
    values that are not negative; POSIX: for instants written by
    [gettimeofday], less than 2^43 seconds apart.) *)
Theorem GetRemaining_never_increases :
  (forall t stop1 stop2,
      Win98.calibrated t -> valid (Win98.m_interval t) = true ->
      0 <= stop1 <= stop2 -> stop2 <= Int64.max_signed ->
      ltb (Win98.GetRemaining (Win98.set_stop t stop1))
          (Win98.GetRemaining (Win98.set_stop t stop2)) = false /\
      forall y, valid y = true ->
        ltb y (Win98.GetRemaining (Win98.set_stop t stop1)) = false ->
        ltb y (Win98.GetRemaining (Win98.set_stop t stop2)) = false) /\
  (forall t stop1 stop2,
      valid (Posix98.m_interval t) = true ->
      Posix98.well_formed (Posix98.m_startTime t) ->
      Posix98.well_formed stop1 -> Posix98.well_formed stop2 ->
      Posix98.tv_le (Posix98.m_startTime t) stop1 -> Posix98.tv_le stop1 stop2 ->
      Posix98.tv_sec stop2 - Posix98.tv_sec (Posix98.m_startTime t) < 2 ^ 43 ->
      ltb (Posix98.GetRemaining (Posix98.Stop stop1 t))
          (Posix98.GetRemaining (Posix98.Stop stop2 t)) = false /\
      forall y, valid y = true ->
        ltb y (Posix98.GetRemaining (Posix98.Stop stop1 t)) = false ->
        ltb y (Posix98.GetRemaining (Posix98.Stop stop2 t)) = false) /\
  (forall t stop1 stop2,
      valid (Timer11.m_interval t) = true ->
      0 <= stop1 - Timer11.m_startTime t <= stop2 - Timer11.m_startTime t ->
      stop2 - Timer11.m_startTime t <= Int64.max_signed ->
      ltb (Timer11.GetRemaining (Timer11.Stop stop1 t))
          (Timer11.GetRemaining (Timer11.Stop stop2 t)) = false /\
      forall y, valid y = true ->
        ltb y (Timer11.GetRemaining (Timer11.Stop stop1 t)) = false ->
        ltb y (Timer11.GetRemaining (Timer11.Stop stop2 t)) = false).
Proof.
  split; [exact Win98_remaining_antitone|].
  split; [exact Posix98_remaining_antitone | exact Timer11_remaining_antitone].
Qed.

Lemma GetRemaining_never_increases_witness :
  let w := Win98.set_start (Win98.PerformanceTimer98 (Win98.mkQuery true 10000000)) 7 in
  let p := Posix98.Start (Posix98.mkTimeval 10 999999) Posix98.PerformanceTimer98 in
  let c := Timer11.Start 7 Timer11.PerformanceTimer11 in
  ltb (Win98.GetRemaining (Win98.set_stop w 1000))
      (Win98.GetRemaining (Win98.set_stop w 1001)) = false /\
  ltb (Posix98.GetRemaining (Posix98.Stop (Posix98.mkTimeval 11 5) p))
      (Posix98.GetRemaining (Posix98.Stop (Posix98.mkTimeval 12 3) p)) = false /\
  ltb (Timer11.GetRemaining (Timer11.Stop 1000 c))
      (Timer11.GetRemaining (Timer11.Stop 1001 c)) = false.
Proof.
  cbv zeta. destruct GetRemaining_never_increases as (W & P & C).
  split; [|split].
  - apply W.
    + exact calibrated_10MHz.
    + apply div_valid.
    + lia.
    + unfold Int64.max_signed. lia.
  - apply P; try apply div_valid;
      unfold Posix98.well_formed, Posix98.tv_le, Int64.max_signed; simpl; lia.
  - apply C.
    + apply div_valid.
    + simpl. lia.
    + unfold Int64.max_signed. simpl. lia.
Defined.

(** ** The game loop *)

Section WaitLoop.

Context {T I : Type} {TI : Timer T I}.
Variables (b : build) (stop : I -> T -> T) (Inv : T -> Prop).
Hypothesis Hstop : forall now t,
  Inv t -> timer_Stop b now t = Done (stop now t) /\ Inv (stop now t).
Hypothesis Hover : forall r1 r2 t, stop r2 (stop r1 t) = stop r2 t.

Lemma wait_leaves clock : forall y t, Inv t ->
  match wait b clock y t with
  | AssertionFailed => False
  | Done None =>
      Forall (fun now => timer_IntervalHasElapsed (stop now t) = false) clock
  | Done (Some (t1, rest, y1)) =>
      exists pre now,
        clock = pre ++ now :: rest /\
        Forall (fun r => timer_IntervalHasElapsed (stop r t) = false) pre /\
        timer_IntervalHasElapsed (stop now t) = true /\
        t1 = stop now t /\
        (y1 <= y + length pre)%nat
  end.
Proof.
  induction clock as [|now clock IH]; intros y t Ht; cbn [wait].
  - constructor.
  - destruct (Hstop now t Ht) as [E Ht1]. rewrite E. cbn [bind].
    destruct (timer_IntervalHasElapsed (stop now t)) eqn:El.
    + exists [], now. repeat split; try constructor; try assumption.
      simpl. lia.
    + specialize (IH (if ltb (of_Z 1) (timer_GetRemaining (stop now t))
                      then S y else y) (stop now t) Ht1).
      destruct (wait b clock _ (stop now t)) as [[[[t1 rest] y1]|]|].
      * destruct IH as (pre & r & Ec & Fp & Er & Et & Hy).
        exists (now :: pre), r. rewrite Hover in Er, Et.
        split; [rewrite Ec; reflexivity|].
        split.
        { constructor; [assumption|].
          revert Fp. apply Forall_impl. intros a Ha. rewrite Hover in Ha. exact Ha. }
        split; [assumption|]. split; [assumption|].
        simpl. destruct (ltb (of_Z 1) (timer_GetRemaining (stop now t))); lia.
      * constructor; [assumption|].
        revert IH. apply Forall_impl. intros a Ha. rewrite Hover in Ha. exact Ha.
      * exact IH.
Qed.

End WaitLoop.

Lemma Win98_wait_leaves b clock t :
  assert b (Win98.IsSupportedPlatform t) = Done tt ->
  leaves_at_first_elapsed
    (fun now => Win98.IntervalHasElapsed (Win98.set_stop t now))
    (Win98.set_stop t) clock (wait b clock 0 t).
Proof.
  intros Ht.
  pose proof (wait_leaves b (fun now u => Win98.set_stop u now)
                (fun u => assert b (Win98.IsSupportedPlatform u) = Done tt)) as H.
  specialize (H ltac:(intros now u Hu; split;
                       [apply Win98_Stop_done; exact Hu | exact Hu])
                ltac:(reflexivity) clock 0%nat t Ht).
  unfold leaves_at_first_elapsed.
  destruct (wait b clock 0 t) as [[[[t1 rest] y1]|]|]; exact H.
Qed.

Lemma Posix98_wait_leaves b clock t :
  leaves_at_first_elapsed
    (fun now => Posix98.IntervalHasElapsed (Posix98.Stop now t))
    (fun now => Posix98.Stop now t) clock (wait b clock 0 t).
Proof.
  pose proof (wait_leaves b Posix98.Stop (fun _ => True)) as H.
  specialize (H ltac:(intros now u _; split; [reflexivity | exact I])
                ltac:(reflexivity) clock 0%nat t I).
  unfold leaves_at_first_elapsed.
  destruct (wait b clock 0 t) as [[[[t1 rest] y1]|]|]; exact H.
Qed.

Lemma Timer11_wait_leaves b clock t :
  leaves_at_first_elapsed
    (fun now => Timer11.IntervalHasElapsed (Timer11.Stop now t))
    (fun now => Timer11.Stop now t) clock (wait b clock 0 t).
Proof.
  pose proof (wait_leaves b Timer11.Stop (fun _ => True)) as H.
  specialize (H ltac:(intros now u _; split; [reflexivity | exact I])
                ltac:(reflexivity) clock 0%nat t I).
  unfold leaves_at_first_elapsed.
  destruct (wait b clock 0 t) as [[[[t1 rest] y1]|]|]; exact H.
Qed.

(** X12.  The wait of the README's game loop leaves at the first
    reading of the clock at which [IntervalHasElapsed()] is true.  It
    has called [Stop()] once for each reading up to that one, so that
    the stop instant is that reading while the start instant and the
    interval are those before the loop; it has yielded at most once for
    each earlier reading.  While no reading has the interval elapsed the
    loop goes on.  It does not abort (on Windows: when the assertion of
    [Stop()] holds). *)
Theorem wait_leaves_at_first_elapsed :
  (forall b clock t,
      assert b (Win98.IsSupportedPlatform t) = Done tt ->
      leaves_at_first_elapsed
        (fun now => Win98.IntervalHasElapsed (Win98.set_stop t now))
        (Win98.set_stop t) clock (wait b clock 0 t)) /\
  (forall b clock t,
      leaves_at_first_elapsed
        (fun now => Posix98.IntervalHasElapsed (Posix98.Stop now t))
        (fun now => Posix98.Stop now t) clock (wait b clock 0 t)) /\
  (forall b clock t,
      leaves_at_first_elapsed
        (fun now => Timer11.IntervalHasElapsed (Timer11.Stop now t))
        (fun now => Timer11.Stop now t) clock (wait b clock 0 t)).
Proof.
  split; [exact Win98_wait_leaves|].
  split; [exact Posix98_wait_leaves | exact Timer11_wait_leaves].
Qed.

Lemma wait_leaves_at_first_elapsed_witness :
  let t := Timer11.Start 0 Timer11.PerformanceTimer11 in
  let w := Win98.set_start (Win98.PerformanceTimer98 (Win98.mkQuery true 10000000)) 0 in
  wait Release [5000000; 16000000; 17000000; 18000000] 0 t
  = Done (Some (Timer11.Stop 17000000 t, [18000000], 1%nat)) /\
  assert Debug (Win98.IsSupportedPlatform w) = Done tt /\
  leaves_at_first_elapsed
    (fun now => Win98.IntervalHasElapsed (Win98.set_stop w now))
    (Win98.set_stop w) [50000; 160000; 170000; 180000]
    (wait Debug [50000; 160000; 170000; 180000] 0 w).
Proof.
  cbv zeta. split; [vm_compute; reflexivity|]. split; [reflexivity|].
  apply (proj1 wait_leaves_at_first_elapsed). reflexivity.
Defined.

Lemma ascending_split {I : Type} (le : I -> I -> Prop)
  (Htrans : forall a b c, le a b -> le b c -> le a c) pre :
  forall lo x y rest,
    ascending le lo (pre ++ x :: y :: rest) -> le lo x /\ le x y.
Proof.
  induction pre as [|p pre IH]; intros lo x y rest H.
  - destruct H as (H1 & H2 & _). split; assumption.
  - destruct H as (H1 & H2). destruct (IH p x y rest H2) as [H3 H4].
    split; [eapply Htrans; eassumption | assumption].
Qed.

Lemma Forall_middle {I : Type} (P : I -> Prop) pre x y rest :
  Forall P (pre ++ x :: y :: rest) -> P x /\ P y.
Proof.
  intros H. rewrite Forall_forall in H.
  split; apply H; apply in_or_app; right; simpl; auto.
Qed.

Lemma tv_le_trans a b c :
  Posix98.tv_le a b -> Posix98.tv_le b c -> Posix98.tv_le a c.
Proof. unfold Posix98.tv_le. lia. Qed.

Lemma Win98_frame_paced b clock t t2 rest y :
  assert b (Win98.IsSupportedPlatform t) = Done tt ->
  valid (Win98.m_interval t) = true ->
  ascending Z.le (Win98.m_startTime t) clock ->
  Forall (fun now => now - Win98.m_startTime t <= Int64.max_signed) clock ->
  frame b clock t = Done (Some (t2, rest, y)) ->
  Win98.IntervalHasElapsed (Win98.set_stop t (Win98.m_startTime t2)) = true /\
  Win98.m_interval t2 = Win98.m_interval t.
Proof.
  intros Hs Hv Ha Hr Hf. unfold frame in Hf.
  pose proof (Win98_wait_leaves b clock t Hs) as W.
  destruct (wait b clock 0 t) as [[[[t1 rest1] y1]|]|]; cbn in Hf;
    try discriminate.
  destruct rest1 as [|now' rest']; try discriminate.
  destruct W as (pre & now & Ec & _ & El & Et & _). subst t1 clock.
  unfold Win98.Start in Hf.
  change (Win98.IsSupportedPlatform (Win98.set_stop t now))
    with (Win98.IsSupportedPlatform t) in Hf.
  rewrite Hs in Hf. cbn in Hf.
  injection Hf as <- <- <-.
  cbn [Win98.set_stop Win98.set_start Win98.m_startTime Win98.m_interval].
  split; [|reflexivity].
  destruct (ascending_split Z.le Z.le_trans _ _ _ _ _ Ha) as [L1 L2].
  destruct (Forall_middle _ _ _ _ _ Hr) as [_ R2].
  revert El. apply Win98_elapsed_stays; try assumption. lia.
Qed.

Lemma Posix98_frame_paced b clock t t2 rest y :
  valid (Posix98.m_interval t) = true ->
  Posix98.well_formed (Posix98.m_startTime t) ->
  ascending Posix98.tv_le (Posix98.m_startTime t) clock ->
  Forall (fun now => Posix98.well_formed now /\
                     Posix98.tv_sec now - Posix98.tv_sec (Posix98.m_startTime t)
                     < 2 ^ 43) clock ->
  frame b clock t = Done (Some (t2, rest, y)) ->
  Posix98.IntervalHasElapsed (Posix98.Stop (Posix98.m_startTime t2) t) = true /\
  Posix98.m_interval t2 = Posix98.m_interval t.
Proof.
  intros Hv Hw Ha Hr Hf. unfold frame in Hf.
  pose proof (Posix98_wait_leaves b clock t) as W.
  destruct (wait b clock 0 t) as [[[[t1 rest1] y1]|]|]; cbn in Hf;
    try discriminate.
  destruct rest1 as [|now' rest']; try discriminate.
  destruct W as (pre & now & Ec & _ & El & Et & _). subst t1 clock.
  injection Hf as <- <- <-.
  cbn [Posix98.Stop Posix98.Start Posix98.m_startTime Posix98.m_interval].
  split; [|reflexivity].
  destruct (ascending_split Posix98.tv_le tv_le_trans _ _ _ _ _ Ha) as [L1 L2].
  destruct (Forall_middle _ _ _ _ _ Hr) as [[W1 _] [W2 R2]].
  revert El. apply Posix98_elapsed_stays; assumption.
Qed.

Lemma Timer11_frame_paced b clock t t2 rest y :
  valid (Timer11.m_interval t) = true ->
  ascending Z.le (Timer11.m_startTime t) clock ->
  Forall (fun now => now - Timer11.m_startTime t <= Int64.max_signed) clock ->
  frame b clock t = Done (Some (t2, rest, y)) ->
  Timer11.IntervalHasElapsed (Timer11.Stop (Timer11.m_startTime t2) t) = true /\
  Timer11.m_interval t2 = Timer11.m_interval t.
Proof.
  intros Hv Ha Hr Hf. unfold frame in Hf.
  pose proof (Timer11_wait_leaves b clock t) as W.
  destruct (wait b clock 0 t) as [[[[t1 rest1] y1]|]|]; cbn in Hf;
    try discriminate.
  destruct rest1 as [|now' rest']; try discriminate.
  destruct W as (pre & now & Ec & _ & El & Et & _). subst t1 clock.
  injection Hf as <- <- <-.
  cbn [Timer11.Stop Timer11.Start Timer11.m_startTime Timer11.m_interval].
  split; [|reflexivity].
  destruct (ascending_split Z.le Z.le_trans _ _ _ _ _ Ha) as [L1 L2].
  destruct (Forall_middle _ _ _ _ _ Hr) as [_ R2].
  revert El. apply Timer11_elapsed_stays; try assumption. lia.
Qed.

(** X13.  A turn of the README's game loop is not shorter than the
    interval: when the clock does not run backwards, the [Start()] that
    ends the turn reads the clock at an instant at which, measured from
    the start of the turn, [IntervalHasElapsed()] is true; the interval
    itself is carried over to the next turn.  (The interval is one that
    [SetInterval] or the constructor stored; Windows: the assertion of
    [Start()] and [Stop()] holds; POSIX: the readings come from
    [gettimeofday], less than 2^43 seconds after the start.) *)
Theorem frame_is_paced :
  (forall b clock t t2 rest y,
      assert b (Win98.IsSupportedPlatform t) = Done tt ->
      valid (Win98.m_interval t) = true ->
      ascending Z.le (Win98.m_startTime t) clock ->
      Forall (fun now => now - Win98.m_startTime t <= Int64.max_signed) clock ->
      frame b clock t = Done (Some (t2, rest, y)) ->
      Win98.IntervalHasElapsed (Win98.set_stop t (Win98.m_startTime t2)) = true /\
      Win98.m_interval t2 = Win98.m_interval t) /\
  (forall b clock t t2 rest y,
      valid (Posix98.m_interval t) = true ->
      Posix98.well_formed (Posix98.m_startTime t) ->
      ascending Posix98.tv_le (Posix98.m_startTime t) clock ->
      Forall (fun now => Posix98.well_formed now /\
                         Posix98.tv_sec now - Posix98.tv_sec (Posix98.m_startTime t)
                         < 2 ^ 43) clock ->
      frame b clock t = Done (Some (t2, rest, y)) ->
      Posix98.IntervalHasElapsed (Posix98.Stop (Posix98.m_startTime t2) t) = true /\
      Posix98.m_interval t2 = Posix98.m_interval t) /\
  (forall b clock t t2 rest y,
      valid (Timer11.m_interval t) = true ->
      ascending Z.le (Timer11.m_startTime t) clock ->
      Forall (fun now => now - Timer11.m_startTime t <= Int64.max_signed) clock ->
      frame b clock t = Done (Some (t2, rest, y)) ->
      Timer11.IntervalHasElapsed (Timer11.Stop (Timer11.m_startTime t2) t) = true /\
      Timer11.m_interval t2 = Timer11.m_interval t).
Proof.
  split; [exact Win98_frame_paced|].
  split; [exact Posix98_frame_paced | exact Timer11_frame_paced].
Qed.

Lemma frame_is_paced_witness :
  let t := Timer11.Start 0 Timer11.PerformanceTimer11 in
  let clock := [5000000; 16000000; 17000000; 18000000; 19000000] in
  frame Release clock t = Done (Some (Timer11.Start 18000000 t, [19000000], 1%nat)) /\
  Timer11.IntervalHasElapsed (Timer11.Stop 18000000 t) = true /\
  Timer11.m_interval (Timer11.Start 18000000 t) = Timer11.m_interval t.
Proof.
  cbv zeta.
  assert (E : frame Release [5000000; 16000000; 17000000; 18000000; 19000000]
                (Timer11.Start 0 Timer11.PerformanceTimer11)
              = Done (Some (Timer11.Start 18000000
                              (Timer11.Start 0 Timer11.PerformanceTimer11),
                            [19000000], 1%nat)))
    by (vm_compute; reflexivity).
  split; [exact E|].
  apply (proj2 (proj2 frame_is_paced) Release
           [5000000; 16000000; 17000000; 18000000; 19000000]
           (Timer11.Start 0 Timer11.PerformanceTimer11)
           (Timer11.Start 18000000 (Timer11.Start 0 Timer11.PerformanceTimer11))
           [19000000] 1%nat).
  - apply div_valid.
  - simpl. lia.
  - unfold Int64.max_signed. repeat constructor; simpl; lia.
  - exact E.
Defined.

(** * The claims that compare with exact values *)

(** ** The error of a product, of a sum and of a difference *)

Lemma rank_ge_mag m e :
  -1074 <= e -> 2 ^ (mag m e - 1 + 1074) <= Zpos m * 2 ^ (e + 1074).
Proof.
  intros He. unfold mag.
  pose proof (digits2_pos_bounds m) as [B _].
  assert (0 < Zpos (digits2_pos m)) by lia.
  replace (Zpos (digits2_pos m) + e - 1 + 1074)
    with ((Zpos (digits2_pos m) - 1) + (e + 1074)) by lia.
  rewrite Z.pow_add_r by lia.
  apply Z.mul_le_mono_nonneg_r; [apply Z.pow_nonneg; lia | exact B].
Qed.

Lemma mul_opp_l x y : mul (SFopp x) y = SFopp (mul x y).
Proof.
  destruct x as [sx|sx| |sx mx ex]; destruct y as [sy|sy| |sy my ey];
    try reflexivity; try (destruct sx, sy; reflexivity).
  unfold mul, SFmul. cbn [SFopp].
  replace (xorb (negb sx) sy) with (negb (xorb sx sy)) by (destruct sx, sy; reflexivity).
  apply binary_round_aux_opp.
Qed.

(** A product in the normal range. *)
Lemma mul_near mx ex my ey :
  valid (S754_finite false mx ex) = true ->
  valid (S754_finite false my ey) = true ->
  -1020 <= mag mx ex + mag my ey <= 970 ->
  is_finite (mul (S754_finite false mx ex) (S754_finite false my ey)) = true /\
  nonneg (mul (S754_finite false mx ex) (S754_finite false my ey)) = true /\
  2 ^ 52 <= rank (mul (S754_finite false mx ex) (S754_finite false my ey)) /\
  near (2 ^ 53) (2 ^ 53 - 1)
       (rank (mul (S754_finite false mx ex) (S754_finite false my ey)) * 2 ^ 1074)
       (rank (S754_finite false mx ex) * rank (S754_finite false my ey)).
Proof.
  intros Vx Vy HM.
  pose proof (mul_rounded mx ex my ey Vx Vy) as Hr.
  pose proof (mul_valid _ _ Vx Vy) as Vq.
  destruct (SFmul_finite_pos false mx ex false my ey) as [[_ Hb]|(m & e & E & _ & He & Hm)];
    [lia | lia |].
  rewrite E in *. cbn [xorb] in *.
  pose proof (finite_units_bound false m e Vq) as [_ Hlt].
  pose proof (rank_ge_mag m e ltac:(lia)) as Hge.
  assert (H52 : 2 ^ 52 <= Zpos m * 2 ^ (e + 1074)).
  { apply Z.le_trans with (2 ^ (mag m e - 1 + 1074)); [|exact Hge].
    apply Z.pow_le_mono_r; lia. }
  split; [reflexivity|]. split; [reflexivity|].
  cbn [rank cond_Zopp]. split; [exact H52|].
  pose proof (valid_finite_bounds false mx ex Vx) as [_ Bx].
  pose proof (valid_finite_bounds false my ey Vy) as [_ By].
  pose proof (rounded_error (S754_finite false m e) (Zpos mx * Zpos my) 1 (ex + ey)
                ((ex + 1074) + (ey + 1074)) 1074 ltac:(lia) ltac:(lia) Hr) as H.
  cbn [rank cond_Zopp] in H.
  specialize (H ltac:(lia) ltac:(lia) ltac:(lia) ltac:(lia)).
  rewrite (Z.pow_add_r 2 (ex + 1074) (ey + 1074)) in H by lia.
  rewrite Z.mul_1_r in H.
  replace (Zpos mx * 2 ^ (ex + 1074) * (Zpos my * 2 ^ (ey + 1074)))
    with (Zpos mx * Zpos my * (2 ^ (ex + 1074) * 2 ^ (ey + 1074))) by ring.
  exact H.
Qed.

(** The rounding of a number of units: exact below the normal range,
    of relative error at most [2^-53] in it. *)
Lemma rounds_near x R :
  rounds x R -> R < 2 ^ 2097 ->
  is_finite x = true /\ 0 <= rank x /\
  near (2 ^ 53) (2 ^ 53 - 1) (rank x) R.
Proof.
  intros (P & g & HP & Hg & (s & k & E & Hs & Hk & HE & G & U1 & L1 & R1) & ER) HR.
  assert (Ps : 0 < 2 ^ s) by (apply Z.pow_pos_nonneg; lia).
  assert (Pk : 0 < 2 ^ k) by (apply Z.pow_pos_nonneg; lia).
  assert (PE : 0 < 2 ^ (E + 1074)) by (apply Z.pow_pos_nonneg; lia).
  rewrite Z.mul_1_l in *.
  remember (P * 2 ^ s) as n eqn:En.
  assert (Hn : 0 <= n) by (subst n; apply Z.mul_nonneg_nonneg; lia).
  remember (nearest (position n (2 ^ k))) as M eqn:EM.
  pose proof (nearest_error n (2 ^ k) Hn Pk) as Herr. rewrite <- EM in Herr.
  pose proof (nearest_position_bounds n (2 ^ k) Hn Pk) as Hb. rewrite <- EM in Hb.
  assert (HM0 : 0 <= M).
  { pose proof (Z.div_pos n (2 ^ k) Hn Pk). lia. }
  (* the value of the rounded mantissa against the exact number of units *)
  assert (HN : near (2 ^ 53) (2 ^ 53 - 1) (M * 2 ^ (E + 1074)) R).
  { destruct (Z.eq_dec E (-1074)) as [E0|E1].
    - (* below the normal range the rounding is exact *)
      assert (Hsk : k <= s) by lia.
      assert (En' : n = P * 2 ^ (s - k) * 2 ^ k).
      { rewrite En, <- Z.mul_assoc, <- Z.pow_add_r by lia. f_equal. f_equal. lia. }
      assert (EM' : M = P * 2 ^ (s - k)).
      { rewrite EM, En'.
        replace (2 ^ k) with (1 * 2 ^ k) at 2 by lia.
        rewrite position_scale by lia.
        rewrite position_exact, nearest_exact. reflexivity. }
      subst E. change (2 ^ (-1074 + 1074)) with 1. rewrite Z.mul_1_r.
      replace (g + 1074) with (s - k) in ER by lia.
      rewrite EM', ER. apply near_refl; [lia|].
      subst R. apply Z.mul_nonneg_nonneg; [lia | apply Z.pow_nonneg; lia].
    - assert (HM : 2 ^ 52 <= M) by lia.
      assert (HX : 2 ^ 52 * 2 ^ k <= M * 2 ^ k)
        by (apply Z.mul_le_mono_nonneg_r; lia).
      remember (M * 2 ^ k) as X eqn:EX.
      assert (N1 : (2 ^ 53 - 1) * X <= 2 ^ 53 * n) by lia.
      assert (N2 : (2 ^ 53 - 1) * n <= 2 ^ 53 * X) by lia.
      assert (EXs : 0 <= s + E + 1074) by lia.
      assert (Epow : 2 ^ s * 2 ^ (E + 1074) = 2 ^ (s + E + 1074))
        by (rewrite <- Z.pow_add_r by lia; f_equal; lia).
      assert (ERk : R * 2 ^ k = n * 2 ^ (E + 1074)).
      { rewrite <- ER, En, <- !Z.mul_assoc, <- !Z.pow_add_r by lia.
        f_equal. f_equal. lia. }
      apply (near_cancel _ _ _ _ (2 ^ k) Pk).
      rewrite ERk.
      replace (M * 2 ^ (E + 1074) * 2 ^ k) with (X * 2 ^ (E + 1074))
        by (rewrite EX; ring).
      apply near_scale; [lia|]. split; assumption. }
  assert (HV : M * 2 ^ (E + 1074) < 2 ^ 2098).
  { destruct HN as [A _].
    assert (2 ^ 2098 = 2 * 2 ^ 2097) by (change 2098 with (1 + 2097);
      rewrite Z.pow_add_r by lia; reflexivity).
    assert (0 <= M * 2 ^ (E + 1074)) by (apply Z.mul_nonneg_nonneg; lia).
    lia. }
  assert (Hrank : rank x = M * 2 ^ (E + 1074)).
  { destruct x as [sx|[]| |[] m e]; cbn [rounds_to] in R1; try contradiction;
      cbn [rank cond_Zopp]; lia. }
  rewrite Hrank.
  split.
  - destruct x as [sx|[]| |[] m e]; cbn [rounds_to] in R1; try contradiction;
      try reflexivity. lia.
  - split; [apply Z.mul_nonneg_nonneg; lia | exact HN].
Qed.

Lemma rounds_signed_near x R :
  rounds_signed x R -> Z.abs R < 2 ^ 2097 ->
  is_finite x = true /\ (2 ^ 53 - 1) * Z.abs (rank x - R) <= Z.abs R.
Proof.
  unfold rounds_signed. intros H HR.
  destruct (Z.leb_spec 0 R) as [P|N].
  - destruct (rounds_near x R H ltac:(lia)) as (F & P0 & [A B]).
    split; [exact F|]. lia.
  - destruct (rounds_near (SFopp x) (- R) H ltac:(lia)) as (F & P0 & [A B]).
    rewrite rank_opp in *.
    split; [destruct x; try discriminate; reflexivity|]. lia.
Qed.

(** ** The test of the interval against the exact values *)

(** A rounded value [R] of [X] and [X] itself lie on the same side of
    every [c] that is not within the error of [X]. *)
Lemma same_side R X c :
  (2 ^ 53 - 1) * Z.abs (R - X) <= Z.abs X ->
  Z.abs X < 2 ^ 52 * Z.abs (X - c) ->
  (R <= c <-> X <= c).
Proof.
  change (2 ^ 53) with 9007199254740992. change (2 ^ 52) with 4503599627370496.
  lia.
Qed.

Lemma same_side_two R X c :
  near (2 ^ 53 * 2 ^ 53) ((2 ^ 53 - 1) * (2 ^ 53 - 1)) R X -> 0 <= X ->
  X < 2 ^ 51 * Z.abs (X - c) ->
  (c <= R <-> c <= X).
Proof.
  unfold near.
  change (2 ^ 53) with 9007199254740992. change (2 ^ 51) with 2251799813685248.
  lia.
Qed.

Lemma near_error A B :
  0 <= A -> 0 <= B -> near (2 ^ 53) (2 ^ 53 - 1) A B ->
  (2 ^ 53 - 1) * Z.abs (A - B) <= Z.abs B /\
  (2 ^ 53 - 1) * Z.abs (- A - - B) <= Z.abs (- B).
Proof.
  unfold near. change (2 ^ 53) with 9007199254740992. lia.
Qed.

Lemma rank_1000000000 :
  rank (S754_finite false 8388608000000000 (-23)) = 1000000000 * 2 ^ 1074.
Proof. rewrite <- of_Z_1000000000. apply rank_of_Z. lia. Qed.

Lemma rank_1000000 :
  rank (S754_finite false 8589934592000000 (-33)) = 1000000 * 2 ^ 1074.
Proof. rewrite <- of_Z_1000000. apply rank_of_Z. lia. Qed.

(** The interval in nanoseconds of PerformanceTimer11, against the
    interval in seconds. *)
Lemma Timer11_nanoseconds_error s m e :
  valid (S754_finite s m e) = true -> -1000 <= mag m e <= 940 ->
  valid (mul (S754_finite s m e) (of_Z 1000000000)) = true /\
  is_nan (mul (S754_finite s m e) (of_Z 1000000000)) = false /\
  (2 ^ 53 - 1)
  * Z.abs (rank (mul (S754_finite s m e) (of_Z 1000000000))
           - rank (S754_finite s m e) * 1000000000)
  <= Z.abs (rank (S754_finite s m e) * 1000000000).
Proof.
  intros V M.
  split; [apply mul_valid; [exact V | apply of_Z_valid]|].
  rewrite of_Z_1000000000.
  split; [apply mul_not_nan; reflexivity|].
  assert (Vp : valid (S754_finite false m e) = true) by exact V.
  destruct (mul_near m e 8388608000000000 (-23) Vp eq_refl) as (_ & N & _ & Hn).
  { change (mag 8388608000000000 (-23)) with 30. lia. }
  rewrite rank_1000000000 in Hn.
  assert (PU : 0 < 2 ^ 1074) by (apply Z.pow_pos_nonneg; lia).
  rewrite Z.mul_assoc in Hn. apply near_cancel in Hn; [|exact PU].
  pose proof (rank_nonneg _ N) as P1.
  pose proof (finite_units_bound false m e Vp) as [P2 _].
  assert (P3 : 0 <= rank (S754_finite false m e) * 1000000000)
    by (cbn [rank cond_Zopp]; lia).
  destruct (near_error _ _ P1 P3 Hn) as [E1 E2].
  destruct s.
  - change (S754_finite true m e) with (SFopp (S754_finite false m e)).
    rewrite mul_opp_l, !rank_opp.
    rewrite Z.mul_opp_l. exact E2.
  - exact E1.
Qed.

Lemma Timer11_interval_test t s m e :
  Timer11.m_interval t = S754_finite s m e ->
  valid (Timer11.m_interval t) = true -> -1000 <= mag m e <= 940 ->
  - 2 ^ 53 < Timer11.m_stopTime t - Timer11.m_startTime t < 2 ^ 53 ->
  Z.abs (rank (Timer11.m_interval t) * 1000000000)
  < 2 ^ 52 * Z.abs (rank (Timer11.m_interval t) * 1000000000
                    - (Timer11.m_stopTime t - Timer11.m_startTime t) * 2 ^ 1074) ->
  (Timer11.IntervalHasElapsed t = true <->
   rank (Timer11.m_interval t) * 1000000000
   <= (Timer11.m_stopTime t - Timer11.m_startTime t) * 2 ^ 1074).
Proof.
  intros EI V M Hd Hm. rewrite Timer11_IntervalHasElapsed_eq.
  rewrite EI in *.
  destruct (Timer11_nanoseconds_error s m e V M) as (Vm & Nm & Herr).
  assert (Hw : Int64.sub (Timer11.m_stopTime t) (Timer11.m_startTime t)
               = Timer11.m_stopTime t - Timer11.m_startTime t).
  { unfold Int64.sub. apply Int64_wrap_small.
    unfold Int64.in_range, Int64.min_signed, Int64.max_signed.
    assert (2 ^ 53 < 2 ^ 63) by (apply Z.pow_lt_mono_r; lia). lia. }
  rewrite Hw.
  rewrite negb_true_iff, <- not_true_iff_false.
  rewrite ltb_rank by (try apply of_Z_valid; try apply of_Z_not_nan; assumption).
  rewrite rank_of_Z by assumption.
  rewrite <- (same_side _ _ _ Herr Hm). lia.
Qed.

(** The elapsed seconds of the POSIX branch, against the microseconds
    between the two instants. *)
Lemma Posix98_usec_seconds usec :
  0 <= usec < 1000000 ->
  valid (div (of_Z usec) (of_Z 1000000)) = true /\
  is_finite (div (of_Z usec) (of_Z 1000000)) = true /\
  nonneg (div (of_Z usec) (of_Z 1000000)) = true /\
  near (2 ^ 53) (2 ^ 53 - 1)
       (rank (div (of_Z usec) (of_Z 1000000)) * 1000000) (usec * 2 ^ 1074).
Proof.
  intros Hu. split; [apply div_valid|].
  destruct (Z.eq_dec usec 0) as [->|Hnz].
  - change (div (of_Z 0) (of_Z 1000000)) with (S754_zero false).
    split; [reflexivity|]. split; [reflexivity|].
    cbn [rank]. rewrite !Z.mul_0_l. split; reflexivity.
  - destruct (of_Z_pos usec) as (mu & eu & Eu & _ & _ & Bu); [lia|].
    pose proof (Zdigits2_range usec ltac:(lia)) as Ru.
    pose proof (of_Z_valid usec) as Vu.
    pose proof (rank_of_Z usec ltac:(lia)) as Rk.
    rewrite Eu in Vu, Rk. rewrite Eu, of_Z_1000000.
    destruct (div_near mu eu 8589934592000000 (-33) Vu eq_refl) as (F & N & _ & Nb).
    { change (mag 8589934592000000 (-33)) with 20. lia. }
    split; [exact F|]. split; [exact N|].
    rewrite Rk, rank_1000000 in Nb.
    assert (PU : 0 < 2 ^ 1074) by (apply Z.pow_pos_nonneg; lia).
    apply (near_cancel _ _ _ _ (2 ^ 1074) PU).
    rewrite <- Z.mul_assoc. exact Nb.
Qed.

Lemma Posix98_seconds_near sec usec :
  0 <= sec < 2 ^ 43 -> 0 <= usec < 1000000 ->
  valid (add (of_Z sec) (div (of_Z usec) (of_Z 1000000))) = true /\
  is_finite (add (of_Z sec) (div (of_Z usec) (of_Z 1000000))) = true /\
  0 <= rank (add (of_Z sec) (div (of_Z usec) (of_Z 1000000))) /\
  near (2 ^ 53 * 2 ^ 53) ((2 ^ 53 - 1) * (2 ^ 53 - 1))
       (rank (add (of_Z sec) (div (of_Z usec) (of_Z 1000000))) * 1000000)
       ((sec * 1000000 + usec) * 2 ^ 1074).
Proof.
  intros Hs Hu.
  destruct (Posix98_seconds_terms sec Hs) as (VA & NA & RA).
  destruct (Posix98_usec_seconds usec Hu) as (VB & FB & NB & NearB).
  assert (PU : 0 < 2 ^ 1074) by (apply Z.pow_pos_nonneg; lia).
  assert (HT : 2 ^ 53 * 2 ^ 1074 < 2 ^ 2100) by exact pow2_1074_lt.
  assert (HT' : 2 ^ 54 * 2 ^ 1074 < 2 ^ 2097).
  { rewrite <- Z.pow_add_r by lia. apply Z.pow_lt_mono_r; lia. }
  assert (HsU : 0 <= sec * 2 ^ 1074) by (apply Z.mul_nonneg_nonneg; lia).
  assert (HsU' : sec * 2 ^ 1074 <= (2 ^ 43 - 1) * 2 ^ 1074)
    by (apply Z.mul_le_mono_nonneg_r; lia).
  assert (HuU : 0 <= usec * 2 ^ 1074) by (apply Z.mul_nonneg_nonneg; lia).
  assert (HuU' : usec * 2 ^ 1074 <= 999999 * 2 ^ 1074)
    by (apply Z.mul_le_mono_nonneg_r; lia).
  rewrite Z.mul_1_r in RA.
  assert (FA : is_finite (of_Z sec) = true).
  { apply nonneg_rank_finite; [exact NA|]. rewrite RA. lia. }
  pose proof (add_rounds _ _ VA VB FA FB NA NB) as RS.
  pose proof (rank_nonneg _ NB) as PB.
  remember (of_Z sec) as A eqn:EA.
  remember (div (of_Z usec) (of_Z 1000000)) as B eqn:EB.
  assert (Hup : rank A + rank B < 2 ^ 2097).
  { destruct NearB as [NB1 _]. rewrite RA.
    change (2 ^ 54) with 18014398509481984 in HT'.
    change (2 ^ 53) with 9007199254740992 in *.
    change (2 ^ 43) with 8796093022208 in *. lia. }
  destruct (rounds_near _ _ RS Hup) as (FS & PS & NearS).
  split; [apply add_valid; assumption|]. split; [exact FS|]. split; [exact PS|].
  remember (rank (add A B)) as Rs eqn:ERs.
  remember (rank B) as Rb eqn:ERb.
  remember (2 ^ 1074) as U eqn:EU.
  apply (near_trans _ _ _ _ _ ((rank A + Rb) * 1000000)); try lia.
  - apply near_scale; [lia | exact NearS].
  - rewrite RA.
    replace ((sec * U + Rb) * 1000000)
      with (1000000 * (sec * U) + Rb * 1000000) by ring.
    replace ((sec * 1000000 + usec) * U)
      with (1000000 * (sec * U) + usec * U) by ring.
    apply near_add; [|exact NearB].
    apply near_refl; lia.
Qed.

Lemma Posix98_interval_test t :
  valid (Posix98.m_interval t) = true -> is_nan (Posix98.m_interval t) = false ->
  Posix98.well_formed (Posix98.m_startTime t) ->
  Posix98.well_formed (Posix98.m_stopTime t) ->
  Posix98.tv_le (Posix98.m_startTime t) (Posix98.m_stopTime t) ->
  Posix98.tv_sec (Posix98.m_stopTime t) - Posix98.tv_sec (Posix98.m_startTime t)
  < 2 ^ 43 ->
  (microseconds (Posix98.m_stopTime t) - microseconds (Posix98.m_startTime t))
  * 2 ^ 1074
  < 2 ^ 51 * Z.abs ((microseconds (Posix98.m_stopTime t)
                     - microseconds (Posix98.m_startTime t)) * 2 ^ 1074
                    - rank (Posix98.m_interval t) * 1000000) ->
  (Posix98.IntervalHasElapsed t = true <->
   rank (Posix98.m_interval t) * 1000000
   <= (microseconds (Posix98.m_stopTime t) - microseconds (Posix98.m_startTime t))
      * 2 ^ 1074).
Proof.
  intros V N Hs He Hle Hd.
  destruct (timersub_ordered _ _ Hs He Hle) as (S1 & U1 & M1).
  unfold Posix98.IntervalHasElapsed.
  remember (Posix98.timersub (Posix98.m_stopTime t) (Posix98.m_startTime t))
    as d eqn:Ed. cbv zeta.
  rewrite <- M1. unfold microseconds in *.
  assert (Hsec : Posix98.tv_sec d < 2 ^ 43).
  { destruct Hs as [_ Hsu]. destruct He as [_ Heu]. lia. }
  destruct (Posix98_seconds_near (Posix98.tv_sec d) (Posix98.tv_usec d)
              ltac:(lia) U1) as (VS & FS & PS & NearS).
  intros Hm.
  rewrite geb_rank; try assumption;
    [|destruct (add (of_Z (Posix98.tv_sec d))
                    (div (of_Z (Posix98.tv_usec d)) (of_Z 1000000)));
      try discriminate; reflexivity].
  assert (PU : 0 < 2 ^ 1074) by (apply Z.pow_pos_nonneg; lia).
  assert (PX : 0 <= (Posix98.tv_sec d * 1000000 + Posix98.tv_usec d) * 2 ^ 1074)
    by (apply Z.mul_nonneg_nonneg; lia).
  rewrite <- (same_side_two _ _ _ NearS PX Hm). lia.
Qed.

(** ** C2: the test of the interval *)

(** C2, counterexample.  With a rate of 10^6/13 and a stop 13000 ns
    after the start, PerformanceTimer11 reports the interval as elapsed
    although the time between the instants, 13000 ns, is less than the
    stored interval: the interval in seconds times 10^9 lies above
    13000 and rounds to 13000.  Likewise the POSIX branch, with a rate
    of 10^6/9 and a stop 9 microseconds after the start: the sum of the
    seconds and of the microseconds over 10^6 rounds up to the stored
    interval.  [rank] is the exact value of a [double] in units of
    2^-1074. *)
Lemma C2_counterexample_rounded_operand :
  (exists t,
      run (timer11_step Release)
          [CallSetInterval rate_13us; CallStart 0; CallStop 13000]
          Timer11.PerformanceTimer11 = Done t /\
      is_finite (Timer11.m_interval t) = true /\
      (Timer11.m_stopTime t - Timer11.m_startTime t) * 2 ^ 1074
      < rank (Timer11.m_interval t) * 1000000000 /\
      Timer11.IntervalHasElapsed t = true) /\
  (exists t,
      run (posix98_step Release)
          [CallSetInterval rate_9us; CallStart (Posix98.mkTimeval 0 0);
           CallStop (Posix98.mkTimeval 0 9)]
          Posix98.PerformanceTimer98 = Done t /\
      is_finite (Posix98.m_interval t) = true /\
      (microseconds (Posix98.m_stopTime t) - microseconds (Posix98.m_startTime t))
      * 2 ^ 1074
      < rank (Posix98.m_interval t) * 1000000 /\
      Posix98.IntervalHasElapsed t = true).
Proof.
  split.
  - eexists. split; [reflexivity|]. repeat split; vm_compute; reflexivity.
  - eexists. split; [reflexivity|]. repeat split; vm_compute; reflexivity.
Qed.

(** C2, amended.  [IntervalHasElapsed()] compares the difference of the
    two instants with the interval at the resolution of the clock, not
    the millisecond values; with [rank] the exact value of a [double]
    in units of 2^-1074:
    - on Windows the interval is stored in ticks, and the result is true
      iff the stored interval is at most the difference of the tick
      counts, exactly (an interval that is not NaN, a tick difference
      below 2^53 in absolute value);
    - in PerformanceTimer11 the result is true iff the stored interval
      in seconds, times 10^9, is at most the difference of the
      nanosecond counts, provided the two are not within a relative
      2^-52 of each other (a finite interval [I] with
      2^-1001 <= |I| < 2^940, of either sign, a difference of the
      counts below 2^53 in absolute value);
    - in the POSIX branch the result is true iff the stored interval in
      seconds, times 10^6, is at most the microseconds between the two
      instants, provided the two are not within a relative 2^-51 of
      each other (an interval that is not NaN, instants written by
      [gettimeofday], the stop not before the start and less than 2^43
      seconds after it).
    Within these margins the roundings of the conversions decide.  That
    the millisecond values are not what is compared shows in each
    variant 9 microseconds after [Start()] at a rate of 10^6/9, where
    [IntervalHasElapsed()] is true although [GetElapsed()] is below
    [GetInterval()*1000]. *)
Theorem C2_interval_elapsed_at_native_resolution :
  (forall t : Win98.timer,
      valid (Win98.m_interval t) = true ->
      is_nan (Win98.m_interval t) = false ->
      - 2 ^ 53 < Win98.m_stopTime t - Win98.m_startTime t < 2 ^ 53 ->
      (Win98.IntervalHasElapsed t = true <->
       rank (Win98.m_interval t)
       <= (Win98.m_stopTime t - Win98.m_startTime t) * 2 ^ 1074)) /\
  (forall (t : Timer11.timer) s m e,
      Timer11.m_interval t = S754_finite s m e ->
      valid (Timer11.m_interval t) = true -> -1000 <= mag m e <= 940 ->
      - 2 ^ 53 < Timer11.m_stopTime t - Timer11.m_startTime t < 2 ^ 53 ->
      Z.abs (rank (Timer11.m_interval t) * 1000000000)
      < 2 ^ 52 * Z.abs (rank (Timer11.m_interval t) * 1000000000
                        - (Timer11.m_stopTime t - Timer11.m_startTime t) * 2 ^ 1074) ->
      (Timer11.IntervalHasElapsed t = true <->
       rank (Timer11.m_interval t) * 1000000000
       <= (Timer11.m_stopTime t - Timer11.m_startTime t) * 2 ^ 1074)) /\
  (forall t : Posix98.timer,
      valid (Posix98.m_interval t) = true ->
      is_nan (Posix98.m_interval t) = false ->
      Posix98.well_formed (Posix98.m_startTime t) ->
      Posix98.well_formed (Posix98.m_stopTime t) ->
      Posix98.tv_le (Posix98.m_startTime t) (Posix98.m_stopTime t) ->
      Posix98.tv_sec (Posix98.m_stopTime t) - Posix98.tv_sec (Posix98.m_startTime t)
      < 2 ^ 43 ->
      (microseconds (Posix98.m_stopTime t) - microseconds (Posix98.m_startTime t))
      * 2 ^ 1074
      < 2 ^ 51 * Z.abs ((microseconds (Posix98.m_stopTime t)
                         - microseconds (Posix98.m_startTime t)) * 2 ^ 1074
                        - rank (Posix98.m_interval t) * 1000000) ->
      (Posix98.IntervalHasElapsed t = true <->
       rank (Posix98.m_interval t) * 1000000
       <= (microseconds (Posix98.m_stopTime t)
           - microseconds (Posix98.m_startTime t)) * 2 ^ 1074)) /\
  (exists t,
      run (win98_step Release)
          [CallSetInterval rate_9us; CallStart 0; CallStop 90]
          (Win98.PerformanceTimer98 (Win98.mkQuery true 10000000)) = Done t /\
      Win98.IntervalHasElapsed t = true /\
      geb (Win98.GetElapsed t) (mul (Win98.GetInterval t) (of_Z 1000)) = false) /\
  (exists t,
      run (timer11_step Release)
          [CallSetInterval rate_9us; CallStart 0; CallStop 9000]
          Timer11.PerformanceTimer11 = Done t /\
      Timer11.IntervalHasElapsed t = true /\
      geb (Timer11.GetElapsed t) (mul (Timer11.GetInterval t) (of_Z 1000)) = false /\
      leb (Timer11.GetRemaining t) zero = false) /\
  (exists t,
      run (posix98_step Release)
          [CallSetInterval rate_9us; CallStart (Posix98.mkTimeval 0 0);
           CallStop (Posix98.mkTimeval 0 9)]
          Posix98.PerformanceTimer98 = Done t /\
      Posix98.IntervalHasElapsed t = true /\
      geb (Posix98.GetElapsed t) (mul (Posix98.GetInterval t) (of_Z 1000)) = false /\
      leb (Posix98.GetRemaining t) zero = false).
Proof.
  assert (Hsmall : forall d, - 2 ^ 53 < d < 2 ^ 53 -> Int64.wrap d = d).
  { intros d Hd. apply Int64_wrap_small.
    unfold Int64.in_range, Int64.min_signed, Int64.max_signed.
    assert (2 ^ 53 < 2 ^ 63) by (apply Z.pow_lt_mono_r; lia). lia. }
  split; [|split; [|split; [|split; [|split]]]].
  - intros t Hv Hn Hd. unfold Win98.IntervalHasElapsed, Int64.sub.
    rewrite (Hsmall _ Hd).
    rewrite geb_rank by (try apply of_Z_valid; try apply of_Z_not_nan; assumption).
    rewrite rank_of_Z by assumption. reflexivity.
  - exact Timer11_interval_test.
  - exact Posix98_interval_test.
  - eexists. split; [reflexivity|]. split; vm_compute; reflexivity.
  - eexists. split; [reflexivity|]. repeat split; vm_compute; reflexivity.
  - eexists. split; [reflexivity|]. repeat split; vm_compute; reflexivity.
Qed.

Lemma C2_interval_elapsed_at_native_resolution_witness :
  let t := Timer11.Stop 16666667 (Timer11.Start 0 Timer11.PerformanceTimer11) in
  Timer11.m_interval t = S754_finite false 4803839602528529 (-58) /\
  Z.abs (rank (Timer11.m_interval t) * 1000000000)
  < 2 ^ 52 * Z.abs (rank (Timer11.m_interval t) * 1000000000
                    - (Timer11.m_stopTime t - Timer11.m_startTime t) * 2 ^ 1074) /\
  (Timer11.IntervalHasElapsed t = true <->
   rank (Timer11.m_interval t) * 1000000000
   <= (Timer11.m_stopTime t - Timer11.m_startTime t) * 2 ^ 1074).
Proof.
  cbv zeta.
  assert (Hm : Z.abs (rank (Timer11.m_interval
                              (Timer11.Stop 16666667
                                 (Timer11.Start 0 Timer11.PerformanceTimer11)))
                      * 1000000000)
               < 2 ^ 52 * Z.abs (rank (Timer11.m_interval
                                         (Timer11.Stop 16666667
                                            (Timer11.Start 0 Timer11.PerformanceTimer11)))
                                 * 1000000000
                                 - (16666667 - 0) * 2 ^ 1074))
    by (vm_compute; reflexivity).
  split; [reflexivity|]. split; [exact Hm|].
  apply (proj1 (proj2 C2_interval_elapsed_at_native_resolution)
           (Timer11.Stop 16666667 (Timer11.Start 0 Timer11.PerformanceTimer11))
           false 4803839602528529%positive (-58) eq_refl eq_refl).
  - unfold mag. simpl. lia.
  - simpl. lia.
  - exact Hm.
Defined.

(** ** The variants against each other *)

Lemma near_weaken A B :
  0 <= B -> near (2 ^ 53) (2 ^ 53 - 1) A B ->
  near (2 ^ 53 * 2 ^ 53) ((2 ^ 53 - 1) * (2 ^ 53 - 1)) A B.
Proof.
  intros HB H. apply (near_trans _ _ _ _ _ B); try lia; [exact H|].
  apply near_refl; lia.
Qed.

(** Two quantities known up to two roundings each compare as their
    exact values do, when these are a relative 2^-50 apart. *)
Lemma decide_le a b x y :
  near (2 ^ 53 * 2 ^ 53) ((2 ^ 53 - 1) * (2 ^ 53 - 1)) a x ->
  near (2 ^ 53 * 2 ^ 53) ((2 ^ 53 - 1) * (2 ^ 53 - 1)) b y ->
  0 <= x ->
  (2 ^ 50 + 1) * x <= 2 ^ 50 * y -> a <= b.
Proof.
  unfold near.
  change (2 ^ 53) with 9007199254740992. change (2 ^ 50) with 1125899906842624.
  lia.
Qed.

Lemma decide_gt a b x y :
  near (2 ^ 53 * 2 ^ 53) ((2 ^ 53 - 1) * (2 ^ 53 - 1)) a x ->
  near (2 ^ 53 * 2 ^ 53) ((2 ^ 53 - 1) * (2 ^ 53 - 1)) b y ->
  0 < x -> 0 <= y ->
  2 ^ 50 * y <= (2 ^ 50 - 1) * x -> b < a.
Proof.
  unfold near.
  change (2 ^ 53) with 9007199254740992. change (2 ^ 50) with 1125899906842624.
  lia.
Qed.

Lemma rank_lt_mag m e :
  -1074 <= e -> Zpos m * 2 ^ (e + 1074) < 2 ^ (mag m e + 1074).
Proof.
  intros He. unfold mag.
  pose proof (digits2_pos_bounds m) as [_ B].
  assert (0 < Zpos (digits2_pos m)) by lia.
  replace (Zpos (digits2_pos m) + e + 1074)
    with (Zpos (digits2_pos m) + (e + 1074)) by lia.
  rewrite (Z.pow_add_r 2 (Zpos (digits2_pos m)) (e + 1074)) by lia.
  apply Z.mul_lt_mono_pos_r; [apply Z.pow_pos_nonneg; lia | exact B].
Qed.

(** The interval [1 / r] of a positive rate [r] in the range of C3. *)
Lemma interval_of_rate m e :
  valid (S754_finite false m e) = true -> -900 <= mag m e <= 900 ->
  exists mi ei,
    div (of_Z 1) (S754_finite false m e) = S754_finite false mi ei /\
    valid (S754_finite false mi ei) = true /\
    -899 <= mag mi ei <= 903 /\
    near (2 ^ 53) (2 ^ 53 - 1)
         (rank (S754_finite false mi ei) * rank (S754_finite false m e))
         (2 ^ 1074 * 2 ^ 1074).
Proof.
  intros V M.
  change (of_Z 1) with (S754_finite false 4503599627370496 (-52)).
  destruct (div_normal false 4503599627370496 (-52) false m e eq_refl V)
    as (mi & ei & Ei & _ & Mi & _).
  { change (mag 4503599627370496 (-52)) with 1. lia. }
  change (mag 4503599627370496 (-52)) with 1 in Mi.
  destruct (div_near 4503599627370496 (-52) m e eq_refl V) as (_ & _ & _ & Hn).
  { change (mag 4503599627370496 (-52)) with 1. lia. }
  cbn [xorb] in Ei. rewrite Ei in Hn.
  exists mi, ei. split; [exact Ei|].
  split; [rewrite <- Ei; apply div_valid|]. split; [lia|].
  change (rank (S754_finite false 4503599627370496 (-52)))
    with (Z.pos 4503599627370496 * 2 ^ (-52 + 1074)) in Hn.
  rewrite of_Z_1_units in Hn. exact Hn.
Qed.

Lemma of_Z_near0 z :
  0 <= z <= Int64.max_signed ->
  valid (of_Z z) = true /\ is_nan (of_Z z) = false /\ 0 <= rank (of_Z z) /\
  near (2 ^ 53) (2 ^ 53 - 1) (rank (of_Z z)) (z * 2 ^ 1074).
Proof.
  intros Hz. split; [apply of_Z_valid|]. split; [apply of_Z_not_nan|].
  split; [apply rank_nonneg; apply of_Z_nonneg; lia|].
  destruct (Z.eq_dec z 0) as [->|Hnz].
  - change (rank (of_Z 0)) with 0. rewrite Z.mul_0_l. split; reflexivity.
  - apply of_Z_near. lia.
Qed.

(** The POSIX test against the rate. *)
Lemma Posix98_test_against_rate m e start stop :
  valid (S754_finite false m e) = true -> -900 <= mag m e <= 900 ->
  Posix98.well_formed start -> Posix98.well_formed stop ->
  Posix98.tv_le start stop ->
  Posix98.tv_sec stop - Posix98.tv_sec start < 2 ^ 43 ->
  let us := microseconds stop - microseconds start in
  let t := Posix98.mkTimer start stop (div (of_Z 1) (S754_finite false m e)) in
  ((2 ^ 50 + 1) * (1000000 * 2 ^ 1074) <= 2 ^ 50 * (us * rank (S754_finite false m e)) ->
   Posix98.IntervalHasElapsed t = true) /\
  (2 ^ 50 * (us * rank (S754_finite false m e)) <= (2 ^ 50 - 1) * (1000000 * 2 ^ 1074) ->
   Posix98.IntervalHasElapsed t = false).
Proof.
  intros V M Hs He Hle Hd us t.
  destruct (interval_of_rate m e V M) as (mi & ei & Ei & Vi & Mi & Ni).
  destruct (timersub_ordered _ _ Hs He Hle) as (S1 & U1 & M1).
  subst t. unfold Posix98.IntervalHasElapsed.
  cbn [Posix98.m_startTime Posix98.m_stopTime Posix98.m_interval].
  remember (Posix98.timersub stop start) as d eqn:Ed. cbv zeta.
  assert (Eus : us = Posix98.tv_sec d * 1000000 + Posix98.tv_usec d)
    by (subst us; rewrite <- M1; reflexivity).
  assert (Hsec : Posix98.tv_sec d < 2 ^ 43).
  { unfold microseconds in M1. destruct Hs as [_ Hsu]. destruct He as [_ Heu]. lia. }
  destruct (Posix98_seconds_near (Posix98.tv_sec d) (Posix98.tv_usec d)
              ltac:(lia) U1) as (VS & FS & PS & NearS).
  rewrite <- Eus in NearS. rewrite Ei.
  remember (add (of_Z (Posix98.tv_sec d))
                (div (of_Z (Posix98.tv_usec d)) (of_Z 1000000))) as S eqn:ES.
  assert (NS : is_nan S = false) by (destruct S; try discriminate; reflexivity).
  pose proof (finite_units_bound false m e V) as [Pr _].
  pose proof (finite_units_bound false mi ei Vi) as [Pi _].
  assert (PU : 0 < 2 ^ 1074) by (apply Z.pow_pos_nonneg; lia).
  assert (Hus : 0 <= us) by lia.
  cbn [rank cond_Zopp] in *.
  remember (Zpos m * 2 ^ (e + 1074)) as rho eqn:Erho.
  remember (Zpos mi * 2 ^ (ei + 1074)) as Ri eqn:ERi.
  remember (2 ^ 1074) as U eqn:EU.
  (* a = Ri rho 10^6 against x = U U 10^6; b = rank S 10^6 rho against y = us U rho *)
  assert (Na : near (2 ^ 53 * 2 ^ 53) ((2 ^ 53 - 1) * (2 ^ 53 - 1))
                    (Ri * rho * 1000000) (U * U * 1000000)).
  { apply near_weaken; [apply Z.mul_nonneg_nonneg; [apply Z.mul_nonneg_nonneg|]; lia|].
    apply near_scale; [lia | exact Ni]. }
  assert (Nb : near (2 ^ 53 * 2 ^ 53) ((2 ^ 53 - 1) * (2 ^ 53 - 1))
                    (rank S * 1000000 * rho) (us * U * rho)).
  { apply near_scale; [lia | exact NearS]. }
  assert (Px : 0 < U * U * 1000000)
    by (apply Z.mul_pos_pos; [apply Z.mul_pos_pos|]; lia).
  assert (Py : 0 <= us * U * rho)
    by (apply Z.mul_nonneg_nonneg; [apply Z.mul_nonneg_nonneg|]; lia).
  split; intros Hm.
  - rewrite geb_rank by (try assumption; reflexivity). cbn [rank cond_Zopp]. rewrite <- ERi.
    assert (H : Ri * rho * 1000000 <= rank S * 1000000 * rho).
    { apply (decide_le _ _ _ _ Na Nb); [lia|].
      replace (U * U * 1000000) with (1000000 * U * U) by ring.
      replace (us * U * rho) with (us * rho * U) by ring.
      rewrite !Z.mul_assoc. apply Z.mul_le_mono_nonneg_r; [lia|].
      rewrite <- !Z.mul_assoc. exact Hm. }
    replace (Ri * rho * 1000000) with (Ri * (rho * 1000000)) in H by ring.
    replace (rank S * 1000000 * rho) with (rank S * (rho * 1000000)) in H by ring.
    apply Z.mul_le_mono_pos_r in H; [exact H | lia].
  - apply not_true_iff_false. rewrite geb_rank by (try assumption; reflexivity).
    cbn [rank cond_Zopp]. rewrite <- ERi.
    assert (H : rank S * 1000000 * rho < Ri * rho * 1000000).
    { apply (decide_gt _ _ _ _ Na Nb); [lia | lia |].
      replace (U * U * 1000000) with (1000000 * U * U) by ring.
      replace (us * U * rho) with (us * rho * U) by ring.
      rewrite !Z.mul_assoc. apply Z.mul_le_mono_nonneg_r; [lia|].
      rewrite <- !Z.mul_assoc. exact Hm. }
    replace (Ri * rho * 1000000) with (Ri * (rho * 1000000)) in H by ring.
    replace (rank S * 1000000 * rho) with (rank S * (rho * 1000000)) in H by ring.
    apply Z.mul_lt_mono_pos_r in H; lia.
Qed.

(** The test of PerformanceTimer11 against the rate. *)
Lemma Timer11_test_against_rate m e t us :
  valid (S754_finite false m e) = true -> -900 <= mag m e <= 900 ->
  Timer11.m_interval t = div (of_Z 1) (S754_finite false m e) ->
  Timer11.m_stopTime t - Timer11.m_startTime t = 1000 * us ->
  0 <= us -> 1000 * us <= Int64.max_signed ->
  ((2 ^ 50 + 1) * (1000000 * 2 ^ 1074) <= 2 ^ 50 * (us * rank (S754_finite false m e)) ->
   Timer11.IntervalHasElapsed t = true) /\
  (2 ^ 50 * (us * rank (S754_finite false m e)) <= (2 ^ 50 - 1) * (1000000 * 2 ^ 1074) ->
   Timer11.IntervalHasElapsed t = false).
Proof.
  intros V M EI Ed Hus Hmax.
  destruct (interval_of_rate m e V M) as (mi & ei & Ei & Vi & Mi & Ni).
  rewrite Timer11_IntervalHasElapsed_eq, EI, Ei.
  rewrite Int64_sub_small by lia. rewrite Ed.
  destruct (of_Z_near0 (1000 * us) ltac:(lia)) as (Vd & Nd & Pd & NearD).
  rewrite of_Z_1000000000.
  destruct (mul_near mi ei 8388608000000000 (-23) Vi eq_refl) as (FY & NY & _ & NearY).
  { change (mag 8388608000000000 (-23)) with 30. lia. }
  rewrite rank_1000000000 in NearY.
  pose proof (mul_valid _ _ Vi (eq_refl : valid (S754_finite false 8388608000000000 (-23)) = true))
    as VY.
  remember (mul (S754_finite false mi ei) (S754_finite false 8388608000000000 (-23)))
    as Y eqn:EY.
  assert (NaY : is_nan Y = false) by (destruct Y; try discriminate; reflexivity).
  pose proof (rank_nonneg _ NY) as PY.
  pose proof (finite_units_bound false m e V) as [Pr _].
  pose proof (finite_units_bound false mi ei Vi) as [Pi _].
  assert (PU : 0 < 2 ^ 1074) by (apply Z.pow_pos_nonneg; lia).
  cbn [rank cond_Zopp] in *.
  remember (Zpos m * 2 ^ (e + 1074)) as rho eqn:Erho.
  remember (Zpos mi * 2 ^ (ei + 1074)) as Ri eqn:ERi.
  remember (2 ^ 1074) as U eqn:EU.
  remember (rank (of_Z (1000 * us))) as Rd eqn:ERd.
  assert (Na : near (2 ^ 53 * 2 ^ 53) ((2 ^ 53 - 1) * (2 ^ 53 - 1))
                    (rank Y * rho) (U * U * 1000000000)).
  { apply (near_trans _ _ _ _ _ (Ri * rho * 1000000000)); try lia.
    - replace (Ri * rho * 1000000000) with (Ri * 1000000000 * rho) by ring.
      apply near_scale; [lia|].
      apply (near_cancel _ _ _ _ U PU).
      replace (Ri * 1000000000 * U) with (Ri * (1000000000 * U)) by ring.
      exact NearY.
    - apply near_scale; [lia | exact Ni]. }
  assert (Nb : near (2 ^ 53 * 2 ^ 53) ((2 ^ 53 - 1) * (2 ^ 53 - 1))
                    (Rd * rho) (1000 * us * U * rho)).
  { apply near_scale; [lia|]. apply near_weaken; [|exact NearD].
    apply Z.mul_nonneg_nonneg; lia. }
  assert (Px : 0 < U * U * 1000000000)
    by (apply Z.mul_pos_pos; [apply Z.mul_pos_pos|]; lia).
  assert (Py : 0 <= 1000 * us * U * rho)
    by (apply Z.mul_nonneg_nonneg; [apply Z.mul_nonneg_nonneg|]; lia).
  assert (Ex : U * U * 1000000000 = 1000000 * U * (1000 * U)) by ring.
  assert (Ey : 1000 * us * U * rho = us * rho * (1000 * U)) by ring.
  split; intros Hm.
  - rewrite negb_true_iff. apply not_true_iff_false.
    rewrite ltb_rank by assumption. rewrite <- ERd.
    assert (H : rank Y * rho <= Rd * rho).
    { apply (decide_le _ _ _ _ Na Nb); [lia|].
      rewrite Ex, Ey, !Z.mul_assoc.
      apply Z.mul_le_mono_nonneg_r; [lia|].
      apply Z.mul_le_mono_nonneg_r; [lia|].
      rewrite <- !Z.mul_assoc. exact Hm. }
    apply Z.mul_le_mono_pos_r in H; lia.
  - rewrite negb_false_iff.
    rewrite ltb_rank by assumption. rewrite <- ERd.
    assert (H : Rd * rho < rank Y * rho).
    { apply (decide_gt _ _ _ _ Na Nb); [lia | lia |].
      rewrite Ex, Ey, !Z.mul_assoc.
      apply Z.mul_le_mono_nonneg_r; [lia|].
      apply Z.mul_le_mono_nonneg_r; [lia|].
      rewrite <- !Z.mul_assoc. exact Hm. }
    apply Z.mul_lt_mono_pos_r in H; lia.
Qed.

(** The Windows test against the rate. *)
Lemma Win98_test_against_rate m e t us :
  valid (S754_finite false m e) = true -> -900 <= mag m e <= 900 ->
  0 < Win98.m_perSecond t <= Int64.max_signed ->
  Win98.m_interval t = div (of_Z (Win98.m_perSecond t)) (S754_finite false m e) ->
  (Win98.m_stopTime t - Win98.m_startTime t) * 1000000 = Win98.m_perSecond t * us ->
  0 <= us -> Win98.m_stopTime t - Win98.m_startTime t <= Int64.max_signed ->
  ((2 ^ 50 + 1) * (1000000 * 2 ^ 1074) <= 2 ^ 50 * (us * rank (S754_finite false m e)) ->
   Win98.IntervalHasElapsed t = true) /\
  (2 ^ 50 * (us * rank (S754_finite false m e)) <= (2 ^ 50 - 1) * (1000000 * 2 ^ 1074) ->
   Win98.IntervalHasElapsed t = false).
Proof.
  intros V M Hf EI Ed Hus Hmax.
  remember (Win98.m_perSecond t) as f eqn:Ef.
  remember (Win98.m_stopTime t - Win98.m_startTime t) as ticks eqn:Et.
  assert (Hticks : 0 <= ticks) by nia.
  unfold Win98.IntervalHasElapsed. rewrite EI.
  rewrite Int64_sub_small by lia. rewrite <- Et.
  destruct (of_Z_near0 ticks ltac:(lia)) as (Vd & Nd & Pd & NearD).
  destruct (of_Z_near f Hf) as [_ NearF].
  destruct (of_Z_int64_pos f Hf) as (mf & ef & Eof & Vf & Mf).
  rewrite Eof in *.
  destruct (div_near mf ef m e Vf V) as (FI & NI & _ & NearI); [lia|].
  pose proof (div_valid (S754_finite false mf ef) (S754_finite false m e)) as VI.
  remember (div (S754_finite false mf ef) (S754_finite false m e)) as Iw eqn:EIw.
  assert (NaI : is_nan Iw = false) by (destruct Iw; try discriminate; reflexivity).
  pose proof (rank_nonneg _ NI) as PI.
  pose proof (finite_units_bound false m e V) as [Pr _].
  pose proof (finite_units_bound false mf ef Vf) as [Pf _].
  assert (PU : 0 < 2 ^ 1074) by (apply Z.pow_pos_nonneg; lia).
  cbn [rank cond_Zopp] in *.
  remember (Zpos m * 2 ^ (e + 1074)) as rho eqn:Erho.
  remember (Zpos mf * 2 ^ (ef + 1074)) as Rf eqn:ERf.
  remember (2 ^ 1074) as U eqn:EU.
  remember (rank (of_Z ticks)) as Rd eqn:ERd.
  assert (PfU : 0 <= f * U) by (apply Z.mul_nonneg_nonneg; lia).
  assert (Na : near (2 ^ 53 * 2 ^ 53) ((2 ^ 53 - 1) * (2 ^ 53 - 1))
                    (rank Iw * rho * 1000000) (f * U * U * 1000000)).
  { apply near_scale; [lia|].
    apply (near_trans _ _ _ _ _ (Rf * U)); try lia; [exact NearI|].
    apply near_scale; [lia | exact NearF]. }
  assert (Nb : near (2 ^ 53 * 2 ^ 53) ((2 ^ 53 - 1) * (2 ^ 53 - 1))
                    (Rd * (rho * 1000000)) (ticks * U * (rho * 1000000))).
  { apply near_scale; [lia|]. apply near_weaken; [|exact NearD].
    apply Z.mul_nonneg_nonneg; lia. }
  assert (Px : 0 < f * U * U * 1000000)
    by (repeat apply Z.mul_pos_pos; lia).
  assert (Py : 0 <= ticks * U * (rho * 1000000))
    by (repeat apply Z.mul_nonneg_nonneg; lia).
  assert (Ex : f * U * U * 1000000 = 1000000 * U * (f * U)) by ring.
  assert (Ey : ticks * U * (rho * 1000000) = us * rho * (f * U)).
  { replace (ticks * U * (rho * 1000000)) with (ticks * 1000000 * (U * rho)) by ring.
    rewrite Ed. ring. }
  split; intros Hm.
  - rewrite geb_rank by assumption. rewrite <- ERd.
    assert (H : rank Iw * rho * 1000000 <= Rd * (rho * 1000000)).
    { apply (decide_le _ _ _ _ Na Nb); [lia|].
      rewrite Ex, Ey.
      rewrite (Z.mul_assoc (2 ^ 50 + 1)), (Z.mul_assoc (2 ^ 50)).
      apply Z.mul_le_mono_nonneg_r; [lia|]. exact Hm. }
    replace (rank Iw * rho * 1000000) with (rank Iw * (rho * 1000000)) in H by ring.
    apply Z.mul_le_mono_pos_r in H; lia.
  - apply not_true_iff_false. rewrite geb_rank by assumption. rewrite <- ERd.
    assert (H : Rd * (rho * 1000000) < rank Iw * rho * 1000000).
    { apply (decide_gt _ _ _ _ Na Nb); [lia | lia |].
      rewrite Ex, Ey.
      rewrite (Z.mul_assoc (2 ^ 50)), (Z.mul_assoc (2 ^ 50 - 1)).
      apply Z.mul_le_mono_nonneg_r; [lia|]. exact Hm. }
    replace (rank Iw * rho * 1000000) with (rank Iw * (rho * 1000000)) in H by ring.
    apply Z.mul_lt_mono_pos_r in H; lia.
Qed.

(** With a negative rate the interval has elapsed at every stop that is
    not before the start. *)
Lemma Posix98_test_negative_rate m e start stop :
  Posix98.well_formed start -> Posix98.well_formed stop ->
  Posix98.tv_le start stop ->
  Posix98.IntervalHasElapsed
    (Posix98.mkTimer start stop (div (of_Z 1) (S754_finite true m e))) = true.
Proof.
  intros Hs He Hle.
  destruct (Posix98_elapsed_nonneg start stop zero Hs He Hle) as [_ N].
  unfold Posix98.IntervalHasElapsed.
  cbn [Posix98.m_startTime Posix98.m_stopTime Posix98.m_interval]. cbv zeta.
  apply geb_nonneg_nonpos; [exact N|].
  change (of_Z 1) with (S754_finite false 4503599627370496 (-52)).
  apply div_pos_neg_nonpos. reflexivity.
Qed.

Lemma Timer11_test_negative_rate m e t :
  Timer11.m_interval t = div (of_Z 1) (S754_finite true m e) ->
  0 <= Timer11.m_stopTime t - Timer11.m_startTime t <= Int64.max_signed ->
  Timer11.IntervalHasElapsed t = true.
Proof.
  intros EI Hd. rewrite Timer11_IntervalHasElapsed_eq, EI.
  rewrite Int64_sub_small by lia. rewrite negb_true_iff.
  apply ltb_nonneg_nonpos; [apply of_Z_nonneg; lia|].
  rewrite of_Z_1000000000. apply mul_nonpos_pos.
  change (of_Z 1) with (S754_finite false 4503599627370496 (-52)).
  apply div_pos_neg_nonpos. reflexivity.
Qed.

Lemma Win98_test_negative_rate m e t :
  0 < Win98.m_perSecond t <= Int64.max_signed ->
  Win98.m_interval t = div (of_Z (Win98.m_perSecond t)) (S754_finite true m e) ->
  0 <= Win98.m_stopTime t - Win98.m_startTime t <= Int64.max_signed ->
  Win98.IntervalHasElapsed t = true.
Proof.
  intros Hf EI Hd. unfold Win98.IntervalHasElapsed. rewrite EI.
  rewrite Int64_sub_small by lia.
  destruct (of_Z_int64_pos _ Hf) as (mf & ef & Eof & _ & _). rewrite Eof.
  apply geb_nonneg_nonpos; [apply of_Z_nonneg; lia|].
  apply div_pos_neg_nonpos. reflexivity.
Qed.

(** The elapsed times in one unit. *)
Lemma approximates_ticks x f ticks us :
  0 < f -> ticks * 1000000 = f * us ->
  approximates x (1000 * ticks) f -> approximates x us 1000.
Proof.
  intros Hf E [F H]. split; [exact F|].
  assert (PU : 0 < 2 ^ 1074) by (apply Z.pow_pos_nonneg; lia).
  remember (2 ^ 1074) as U eqn:EU. remember (rank x) as R eqn:ER.
  assert (E1 : 1000 * (f * R - 1000 * ticks * U) = f * (1000 * R - us * U)).
  { replace (1000 * (f * R - 1000 * ticks * U))
      with (f * (1000 * R) - ticks * 1000000 * U) by ring.
    rewrite E. ring. }
  assert (E2 : 1000 * (1000 * ticks * U) = f * (us * U)).
  { replace (1000 * (1000 * ticks * U)) with (ticks * 1000000 * U) by ring.
    rewrite E. ring. }
  apply Z.mul_le_mono_pos_l with f; [exact Hf|].
  rewrite <- E2.
  replace (f * (2 ^ 50 * Z.abs (1000 * R - us * U)))
    with (2 ^ 50 * (f * Z.abs (1000 * R - us * U))) by ring.
  rewrite <- (Z.abs_eq f) at 1 by lia.
  rewrite <- Z.abs_mul, <- E1, Z.abs_mul. rewrite (Z.abs_eq 1000) by lia.
  lia.
Qed.

Lemma approximates_nanoseconds x us :
  approximates x (1000 * us) 1000000 -> approximates x us 1000.
Proof.
  intros [F H]. split; [exact F|].
  remember (2 ^ 1074) as U eqn:EU. remember (us * U) as n eqn:En.
  replace (1000 * us * U) with (1000 * n) in H by (rewrite En; ring).
  change (2 ^ 50) with 1125899906842624 in *. lia.
Qed.

Lemma approximates_pair x y N :
  approximates x N 1000 -> approximates y N 1000 ->
  2 ^ 48 * Z.abs (rank x - rank y) <= rank y.
Proof.
  intros [_ Hx] [_ Hy].
  remember (N * 2 ^ 1074) as n eqn:En.
  change (2 ^ 50) with 1125899906842624 in *.
  change (2 ^ 48) with 281474976710656. lia.
Qed.

(** The interval in milliseconds, the minuend of [GetRemaining()]. *)
Lemma interval_milliseconds s m e :
  valid (S754_finite s m e) = true -> -900 <= mag m e <= 900 ->
  valid (mul (div (of_Z 1) (S754_finite s m e)) (of_Z 1000)) = true /\
  is_finite (mul (div (of_Z 1) (S754_finite s m e)) (of_Z 1000)) = true /\
  Z.abs (rank (mul (div (of_Z 1) (S754_finite s m e)) (of_Z 1000))) < 2 ^ 2000.
Proof.
  intros V M.
  split; [apply mul_valid; [apply div_valid | apply of_Z_valid]|].
  change (of_Z 1) with (S754_finite false 4503599627370496 (-52)).
  destruct (div_normal false 4503599627370496 (-52) s m e eq_refl V)
    as (mi & ei & Ei & _ & Mi & _).
  { change (mag 4503599627370496 (-52)) with 1. lia. }
  change (mag 4503599627370496 (-52)) with 1 in Mi.
  rewrite Ei.
  change (of_Z 1000) with (S754_finite false 8796093022208000 (-43)).
  pose proof (mul_valid (S754_finite (xorb false s) mi ei)
                (S754_finite false 8796093022208000 (-43))
                ltac:(rewrite <- Ei; apply div_valid) eq_refl) as Vc.
  destruct (SFmul_finite_pos (xorb false s) mi ei false 8796093022208000 (-43))
    as [[_ Hb]|(mc & ec & Ec & _ & He & Mc)].
  { change (mag 8796093022208000 (-43)) with 10. lia. }
  { change (mag 8796093022208000 (-43)) with 10 in Hb. lia. }
  change (mag 8796093022208000 (-43)) with 10 in Mc.
  rewrite Ec in *. split; [reflexivity|].
  pose proof (rank_lt_mag mc ec ltac:(lia)) as Hlt.
  pose proof (finite_units_bound _ mc ec Vc) as [Hp _].
  assert (Hpow : 2 ^ (mag mc ec + 1074) <= 2 ^ 2000)
    by (apply Z.pow_le_mono_r; lia).
  cbn [rank]. destruct (xorb (xorb false s) false); cbn [cond_Zopp]; lia.
Qed.

Lemma remaining_close c E1 E2 N :
  valid c = true -> (is_finite c = true -> Z.abs (rank c) < 2 ^ 2000) ->
  valid E1 = true -> valid E2 = true ->
  0 <= N -> N * 2 ^ 1074 < 2 ^ 2000 ->
  approximates E1 N 1000 -> approximates E2 N 1000 ->
  2 ^ 48 * Z.abs (rank (sub c E1) - rank (sub c E2))
  <= rank E2 + Z.abs (rank (sub c E2)).
Proof.
  intros Vc Hc V1 V2 HN HNU [F1 A1] [F2 A2].
  assert (P2000 : 2 * 2 ^ 2000 < 2 ^ 2097).
  { change (2 * 2 ^ 2000) with (2 ^ 1 * 2 ^ 2000).
    rewrite <- Z.pow_add_r by lia. apply Z.pow_lt_mono_r; lia. }
  remember (N * 2 ^ 1074) as n eqn:En.
  assert (Hn : 0 <= n) by (subst n; apply Z.mul_nonneg_nonneg;
                           [lia | apply Z.pow_nonneg; lia]).
  assert (B1 : 0 <= rank E1 <= n)
    by (change (2 ^ 50) with 1125899906842624 in *; lia).
  assert (B2 : 0 <= rank E2 <= n)
    by (change (2 ^ 50) with 1125899906842624 in *; lia).
  destruct (is_finite c) eqn:Fc.
  - specialize (Hc eq_refl).
    pose proof (sub_rounds_signed c E1 Vc V1 Fc F1) as R1.
    pose proof (sub_rounds_signed c E2 Vc V2 Fc F2) as R2.
    destruct (rounds_signed_near _ _ R1 ltac:(lia)) as [_ K1].
    destruct (rounds_signed_near _ _ R2 ltac:(lia)) as [_ K2].
    remember (rank (sub c E1)) as r1. remember (rank (sub c E2)) as r2.
    remember (rank c) as rc. remember (rank E1) as e1. remember (rank E2) as e2.
    change (2 ^ 50) with 1125899906842624 in *.
    change (2 ^ 53) with 9007199254740992 in *.
    change (2 ^ 48) with 281474976710656.
    clear - A1 A2 K1 K2 Hn. lia.
  - assert (E : sub c E1 = sub c E2).
    { destruct c as [sc|sc| |sc mc ec]; try discriminate;
        destruct E1 as [s1|s1| |s1 m1 e1]; try discriminate;
        destruct E2 as [s2|s2| |s2 m2 e2]; try discriminate; reflexivity. }
    rewrite E, Z.sub_diag. cbn [Z.abs]. rewrite Z.mul_0_r.
    pose proof (Z.abs_nonneg (rank (sub c E2))). lia.
Qed.

Lemma repr_win98_calibrated {A : Type} (q : Win98.frequency_query)
  (readW : A -> Z) (s : IntervalTimer.timer A) :
  Win98.qpf_ok q = true -> 0 < Win98.qpf_value q <= Int64.max_signed ->
  Win98.calibrated (repr_win98 q readW s).
Proof. intros Hq Hf. repeat split; try assumption; apply Hf. Qed.

(** ** The remaining time against its exact value *)

(** The remaining time of the POSIX branch and of PerformanceTimer11,
    [interval * 1000 - elapsed], for an elapsed time known up to
    2^-50. *)
Lemma remaining_accurate m e E us :
  valid (S754_finite false m e) = true -> -900 <= mag m e <= 900 ->
  valid E = true -> 0 <= us <= Int64.max_signed ->
  approximates E us 1000 ->
  approximates_within
    (sub (mul (div (of_Z 1) (S754_finite false m e)) (of_Z 1000)) E)
    (1000000 * 2 ^ 1074 - us * rank (S754_finite false m e))
    (1000 * rank (S754_finite false m e))
    (1000000 * 2 ^ 1074 + us * rank (S754_finite false m e)).
Proof.
  intros V M VE Hus [FE AE].
  destruct (interval_of_rate m e V M) as (mi & ei & EI & VI & MI & NI).
  rewrite EI.
  change (of_Z 1000) with (S754_finite false 8796093022208000 (-43)).
  destruct (mul_near mi ei 8796093022208000 (-43) VI eq_refl) as (Fc & Nc & _ & NearC).
  { change (mag 8796093022208000 (-43)) with 10. lia. }
  pose proof (mul_valid (S754_finite false mi ei)
                (S754_finite false 8796093022208000 (-43)) VI eq_refl) as Vc.
  destruct (interval_milliseconds false m e V M) as (_ & _ & Bc2).
  rewrite EI in Bc2.
  change (of_Z 1000) with (S754_finite false 8796093022208000 (-43)) in Bc2.
  remember (mul (S754_finite false mi ei) (S754_finite false 8796093022208000 (-43)))
    as c eqn:Ec.
  pose proof (rank_nonneg _ Nc) as Pc.
  pose proof (rank_finite_lt c Vc Fc) as Bc.
  pose proof (rank_finite_lt E VE FE) as BE.
  assert (LE : - 2 ^ 2100 <= rank E) by (apply rank_le_top; exact VE).
  pose proof (sub_rounds_signed c E Vc VE Fc FE) as Rs.
  destruct (rounds_signed_near _ _ Rs) as [Fs Ns].
  {
    assert (HE : Z.abs (rank E) < 2 ^ 2000).
    { assert (1000 * Z.abs (rank E) <= 2 * (us * 2 ^ 1074)).
      { change (2 ^ 50) with 1125899906842624 in AE. lia. }
      assert (us * 2 ^ 1074 <= 2 ^ 63 * 2 ^ 1074).
      { apply Z.mul_le_mono_nonneg_r; [apply Z.pow_nonneg; lia|].
        unfold Int64.max_signed in Hus.
        change (2 ^ 63) with 9223372036854775808 in *. lia. }
      assert (2 ^ 63 * 2 ^ 1074 < 2 ^ 1999).
      { rewrite <- Z.pow_add_r by lia. apply Z.pow_lt_mono_r; lia. }
      assert (2 ^ 2000 = 2 * 2 ^ 1999)
        by (rewrite <- (Z.pow_succ_r 2 1999) by lia; reflexivity).
      lia. }
    assert (2 ^ 2097 = 2 ^ 97 * 2 ^ 2000)
      by (rewrite <- Z.pow_add_r by lia; reflexivity).
    assert (0 < 2 ^ 2000) by (apply Z.pow_pos_nonneg; lia).
    change (2 ^ 97) with 158456325028528675187087900672 in *. lia. }
  split; [exact Fs|].
  pose proof (finite_units_bound false m e V) as [Pr _].
  pose proof (finite_units_bound false mi ei VI) as [Pi _].
  change (rank (S754_finite false 8796093022208000 (-43)))
    with (1000 * 2 ^ 1074) in NearC.
  cbn [rank cond_Zopp] in *.
  assert (PU : 0 < 2 ^ 1074) by (apply Z.pow_pos_nonneg; lia).
  remember (Zpos m * 2 ^ (e + 1074)) as rho eqn:Erho.
  remember (Zpos mi * 2 ^ (ei + 1074)) as RI eqn:ERI.
  remember (2 ^ 1074) as U eqn:EU.
  remember (rank c) as C eqn:EC.
  remember (rank E) as RE eqn:ERE.
  remember (rank (sub c E)) as Rc eqn:ERc.
  clear - Pr Pi PU Pc NI NearC AE Ns Hus.
  assert (N1 : near (2 ^ 53) (2 ^ 53 - 1) (C * rho) (1000 * (RI * rho))).
  { replace (1000 * (RI * rho)) with (RI * 1000 * rho) by ring.
    apply near_scale; [lia|]. apply (near_cancel _ _ _ _ U PU).
    replace (RI * 1000 * U) with (RI * (1000 * U)) by ring. exact NearC. }
  assert (A1 : 2 ^ 50 * Z.abs (1000 * (RE * rho) - us * rho * U) <= us * rho * U).
  { replace (1000 * (RE * rho) - us * rho * U) with ((1000 * RE - us * U) * rho) by ring.
    rewrite Z.abs_mul, (Z.abs_eq rho) by lia.
    replace (us * rho * U) with (us * U * rho) by ring.
    rewrite Z.mul_assoc. apply Z.mul_le_mono_nonneg_r; [lia | exact AE]. }
  assert (S1 : (2 ^ 53 - 1) * Z.abs (Rc * rho - (C * rho - RE * rho))
               <= Z.abs (C * rho - RE * rho)).
  { replace (Rc * rho - (C * rho - RE * rho)) with ((Rc - (C - RE)) * rho) by ring.
    replace (C * rho - RE * rho) with ((C - RE) * rho) by ring.
    rewrite !Z.abs_mul, (Z.abs_eq rho) by lia.
    rewrite Z.mul_assoc. apply Z.mul_le_mono_nonneg_r; [lia | exact Ns]. }
  replace (1000 * rho * Rc - (1000000 * U - us * rho) * U)
    with (1000 * (Rc * rho) - (1000000 * (U * U) - us * rho * U)) by ring.
  replace ((1000000 * U + us * rho) * U)
    with (1000000 * (U * U) + us * rho * U) by ring.
  assert (Pa : 0 <= us * rho * U) by (repeat apply Z.mul_nonneg_nonneg; lia).
  assert (Pb : 0 < U * U) by (apply Z.mul_pos_pos; lia).
  unfold near in *.
  remember (Rc * rho) as x1. remember (C * rho) as x2. remember (RE * rho) as x3.
  remember (RI * rho) as x4. remember (U * U) as x5. remember (us * rho * U) as x6.
  clear - NI N1 A1 S1 Pa Pb.
  change (2 ^ 53) with 9007199254740992 in *.
  change (2 ^ 50) with 1125899906842624 in *.
  change (2 ^ 48) with 281474976710656.
  lia.
Qed.

(** The magnitudes of two numbers from their ratio. *)
Lemma mag_diff_le mx ex my ey k :
  -1074 <= ex -> -1074 <= ey -> 0 <= k ->
  Zpos mx * 2 ^ (ex + 1074) <= 2 ^ k * (Zpos my * 2 ^ (ey + 1074)) ->
  mag mx ex - mag my ey <= k.
Proof.
  intros Hx Hy Hk H.
  pose proof (rank_ge_mag mx ex Hx) as A.
  pose proof (rank_lt_mag my ey Hy) as B.
  assert (My : 1 <= mag my ey + 1074) by (unfold mag; lia).
  assert (Pk : 0 < 2 ^ k) by (apply Z.pow_pos_nonneg; lia).
  assert (C : 2 ^ (mag mx ex - 1 + 1074) < 2 ^ (k + (mag my ey + 1074))).
  { rewrite (Z.pow_add_r 2 k (mag my ey + 1074)) by lia.
    apply Z.le_lt_trans with (2 ^ k * (Zpos my * 2 ^ (ey + 1074))); [lia|].
    apply Z.mul_lt_mono_pos_l; assumption. }
  apply Z.pow_lt_mono_r_iff in C; lia.
Qed.

(** Division by a positive number of a numerator of either sign. *)
Lemma div_signed_near d mp ep :
  valid d = true -> is_finite d = true ->
  valid (S754_finite false mp ep) = true ->
  (forall s md ed, d = S754_finite s md ed ->
                   -1020 <= mag md ed - mag mp ep <= 969) ->
  is_finite (div d (S754_finite false mp ep)) = true /\
  (2 ^ 53 - 1)
  * Z.abs (rank (div d (S754_finite false mp ep)) * rank (S754_finite false mp ep)
           - rank d * 2 ^ 1074)
  <= Z.abs (rank d * 2 ^ 1074).
Proof.
  intros Vd Fd Vp Hm.
  pose proof (finite_units_bound false mp ep Vp) as [Pp _].
  assert (PU : 0 < 2 ^ 1074) by (apply Z.pow_pos_nonneg; lia).
  destruct d as [s| | |s md ed]; try discriminate.
  - assert (E : div (S754_zero s) (S754_finite false mp ep) = S754_zero s)
      by (destruct s; reflexivity).
    rewrite E. split; [reflexivity|]. cbn [rank]. rewrite !Z.mul_0_l.
    change (Z.abs (0 - 0)) with 0. change (Z.abs 0) with 0.
    rewrite Z.mul_0_r. apply Z.le_refl.
  - specialize (Hm s md ed eq_refl).
    pose proof (finite_units_bound s md ed Vd) as [Pd _].
    assert (Vd' : valid (S754_finite false md ed) = true) by exact Vd.
    destruct (div_near md ed mp ep Vd' Vp Hm) as (Fq & Nq & _ & Near).
    pose proof (rank_nonneg _ Nq) as Pq.
    cbn [rank cond_Zopp] in Near, Pp.
    assert (PA : 0 <= rank (div (S754_finite false md ed) (S754_finite false mp ep))
                      * (Zpos mp * 2 ^ (ep + 1074)))
      by (apply Z.mul_nonneg_nonneg; [exact Pq | lia]).
    assert (PB : 0 <= Zpos md * 2 ^ (ed + 1074) * 2 ^ 1074)
      by (apply Z.mul_nonneg_nonneg; lia).
    destruct (near_error _ _ PA PB Near) as [E1 E2].
    destruct s.
    + change (S754_finite true md ed) with (SFopp (S754_finite false md ed)).
      rewrite div_opp, !rank_opp. cbn [rank cond_Zopp].
      split; [destruct (div (S754_finite false md ed) (S754_finite false mp ep));
              try discriminate; reflexivity|].
      rewrite !Z.mul_opp_l. exact E2.
    + split; [exact Fq|]. cbn [rank cond_Zopp]. exact E1.
Qed.

(** Two multiples of [2^g] that differ are at least [2^g] apart. *)
Lemma multiples_apart a ga b gb g :
  0 <= g -> g <= ga -> g <= gb ->
  a * 2 ^ ga - b * 2 ^ gb <> 0 -> 2 ^ g <= Z.abs (a * 2 ^ ga - b * 2 ^ gb).
Proof.
  intros Hg Ha Hb H.
  assert (Ea : 2 ^ ga = 2 ^ (ga - g) * 2 ^ g)
    by (rewrite <- Z.pow_add_r by lia; f_equal; lia).
  assert (Eb : 2 ^ gb = 2 ^ (gb - g) * 2 ^ g)
    by (rewrite <- Z.pow_add_r by lia; f_equal; lia).
  assert (Pg : 0 < 2 ^ g) by (apply Z.pow_pos_nonneg; lia).
  rewrite Ea, Eb in *.
  remember (2 ^ (ga - g)) as ka. remember (2 ^ (gb - g)) as kb.
  remember (2 ^ g) as G.
  replace (a * (ka * G) - b * (kb * G)) with ((a * ka - b * kb) * G) in * by ring.
  rewrite Z.abs_mul, (Z.abs_eq G) by lia.
  assert (a * ka - b * kb <> 0) by (intros E0; apply H; rewrite E0; reflexivity).
  assert (1 <= Z.abs (a * ka - b * kb)) by lia.
  replace G with (1 * G) at 1 by ring.
  apply Z.mul_le_mono_nonneg_r; lia.
Qed.

Lemma scale_error A B c :
  (2 ^ 53 - 1) * Z.abs (A - B) <= Z.abs B ->
  (2 ^ 53 - 1) * Z.abs (A * c - B * c) <= Z.abs (B * c).
Proof.
  intros H. replace (A * c - B * c) with ((A - B) * c) by ring.
  rewrite !Z.abs_mul, Z.mul_assoc.
  apply Z.mul_le_mono_nonneg_r; [apply Z.abs_nonneg | exact H].
Qed.

Lemma near_error_pos A B :
  0 <= A -> 0 <= B -> near (2 ^ 53) (2 ^ 53 - 1) A B ->
  (2 ^ 53 - 1) * Z.abs (A - B) <= Z.abs B.
Proof. intros HA HB H. apply (near_error A B HA HB H). Qed.

(** The errors of the Windows expression, step by step: the
    difference [z] of the sum and the stop counter, the quotient [y3],
    and the two together. *)
Lemma remaining_error_difference z za zp zi zs zf tf ts tp :
  (2 ^ 53 - 1) * Z.abs (z - (za - zp)) <= Z.abs (za - zp) ->
  near (2 ^ 53) (2 ^ 53 - 1) za (zi + zs) ->
  near (2 ^ 53) (2 ^ 53 - 1) zi zf ->
  near (2 ^ 53) (2 ^ 53 - 1) zf tf ->
  near (2 ^ 53) (2 ^ 53 - 1) zs ts ->
  near (2 ^ 53) (2 ^ 53 - 1) zp tp ->
  0 <= tf -> 0 <= ts -> ts <= tp ->
  2 ^ 50 * Z.abs (z - (tf + ts - tp)) <= tf + ts + tp.
Proof.
  unfold near. change (2 ^ 53) with 9007199254740992.
  change (2 ^ 50) with 1125899906842624. intros. lia.
Qed.

Lemma remaining_error_quotient y3 y2 y1 z :
  (2 ^ 53 - 1) * Z.abs (y2 - y3) <= Z.abs y3 ->
  (2 ^ 53 - 1) * Z.abs (y1 - y2) <= Z.abs y2 ->
  (2 ^ 53 - 1) * Z.abs (y1 - 1000 * z) <= Z.abs (1000 * z) ->
  2 ^ 50 * Z.abs (y3 - 1000 * z) <= Z.abs (1000 * z).
Proof.
  change (2 ^ 53) with 9007199254740992.
  change (2 ^ 50) with 1125899906842624. intros. lia.
Qed.

Lemma remaining_error_total y3 z tf ts tp :
  2 ^ 50 * Z.abs (y3 - 1000 * z) <= Z.abs (1000 * z) ->
  2 ^ 50 * Z.abs (z - (tf + ts - tp)) <= tf + ts + tp ->
  0 <= tf -> 0 <= ts -> ts <= tp ->
  2 ^ 48 * Z.abs (1000 * y3 - (1000000 * tf - 1000000 * (tp - ts)))
  <= 1000000 * tf + 1000000 * (tp - ts) + 2000000 * ts.
Proof.
  change (2 ^ 50) with 1125899906842624.
  change (2 ^ 48) with 281474976710656. intros. lia.
Qed.

(** The remaining time of the Windows branch,
    [((interval + start) - stop) / perMillisecond], each operation
    rounding once. *)
Lemma Win98_remaining_accurate m e t us :
  valid (S754_finite false m e) = true -> -900 <= mag m e <= 900 ->
  Win98.calibrated t ->
  Win98.m_interval t = div (of_Z (Win98.m_perSecond t)) (S754_finite false m e) ->
  0 <= Win98.m_startTime t <= Win98.m_stopTime t ->
  Win98.m_stopTime t <= Int64.max_signed ->
  (Win98.m_stopTime t - Win98.m_startTime t) * 1000000 = Win98.m_perSecond t * us ->
  approximates_within (Win98.GetRemaining t)
    (Win98.m_perSecond t * (1000000 * 2 ^ 1074 - us * rank (S754_finite false m e)))
    (Win98.m_perSecond t * (1000 * rank (S754_finite false m e)))
    (Win98.m_perSecond t * (1000000 * 2 ^ 1074 + us * rank (S754_finite false m e))
     + 2000000 * Win98.m_startTime t * rank (S754_finite false m e)).
Proof.
  intros V M (Hv & Hf & Ep) EI Hs Hmax Ed.
  unfold Win98.GetRemaining. rewrite EI, Ep.
  remember (Win98.m_perSecond t) as f eqn:Ef.
  remember (Win98.m_startTime t) as start eqn:Est.
  remember (Win98.m_stopTime t) as stop eqn:Esp.
  clear EI Ep Ef Est Esp Hv t.
  unfold Int64.max_signed in *.
  assert (H63 : 2 ^ 63 = 9223372036854775808) by reflexivity.
  assert (PU : 0 < 2 ^ 1074) by (apply Z.pow_pos_nonneg; lia).
  destruct (of_Z_int64_pos f ltac:(unfold Int64.max_signed; lia))
    as (mf & ef & Eof & Vf & Mf).
  destruct (of_Z_near f ltac:(unfold Int64.max_signed; lia)) as [_ NearF].
  pose proof (of_Z_mono 1 f ltac:(lia)) as GeF.
  change (rank (of_Z 1)) with (Z.pos 4503599627370496 * 2 ^ (-52 + 1074)) in GeF.
  rewrite of_Z_1_units in GeF.
  rewrite Eof in *.
  (* the interval in ticks *)
  destruct (div_normal false mf ef false m e Vf V) as (mi & ei & EIw & Hei & MI & _);
    [lia|].
  cbn [xorb] in EIw.
  destruct (div_near mf ef m e Vf V) as (_ & _ & _ & NearI); [lia|].
  rewrite EIw in NearI.
  assert (VI : valid (S754_finite false mi ei) = true)
    by (rewrite <- EIw; apply div_valid).
  rewrite EIw. clear EIw.
  (* the ticks of a millisecond *)
  change (of_Z 1000) with (S754_finite false 8796093022208000 (-43)).
  destruct (div_normal false mf ef false 8796093022208000 (-43) Vf eq_refl)
    as (mp & ep & EM & Hep & MM & _).
  { change (mag 8796093022208000 (-43)) with 10. lia. }
  cbn [xorb] in EM.
  destruct (div_near mf ef 8796093022208000 (-43) Vf eq_refl) as (_ & _ & _ & NearM).
  { change (mag 8796093022208000 (-43)) with 10. lia. }
  rewrite EM in NearM.
  assert (VM : valid (S754_finite false mp ep) = true)
    by (rewrite <- EM; apply div_valid).
  rewrite EM. clear EM.
  change (rank (S754_finite false 8796093022208000 (-43)))
    with (1000 * 2 ^ 1074) in NearM.
  (* the counters *)
  destruct (of_Z_near0 start ltac:(unfold Int64.max_signed; lia))
    as (VS & _ & PS & NearS).
  destruct (of_Z_nonneg_finite start ltac:(unfold Int64.max_signed; lia))
    as (_ & FS & NnS).
  destruct (of_Z_near0 stop ltac:(unfold Int64.max_signed; lia))
    as (VP & _ & PP & NearP).
  destruct (of_Z_nonneg_finite stop ltac:(unfold Int64.max_signed; lia))
    as (_ & FP & NnP).
  assert (GP : exists kP gP, rank (of_Z stop) = kP * 2 ^ gP /\ 120 <= gP).
  { destruct (Z.eq_dec stop 0) as [->|Hnz].
    - exists 0, 120. split; [reflexivity | lia].
    - assert (H900 : 2 ^ 63 < 2 ^ 900) by (apply Z.pow_lt_mono_r; lia).
      assert (H64 : 2 ^ 63 < 2 ^ 64) by (apply Z.pow_lt_mono_r; lia).
      destruct (of_Z_pos stop ltac:(lia)) as (mP & eP & EP & DP & HeP & MagP).
      pose proof (Zdigits2_range stop ltac:(lia)) as Rg.
      exists (Zpos mP), (eP + 1074). rewrite EP. split; [reflexivity|].
      unfold mag in MagP. lia. }
  destruct GP as (kP & gP & EkP & HgP).
  remember (of_Z start) as oS eqn:EoS. remember (of_Z stop) as oP eqn:EoP.
  clear EoS EoP.
  (* sizes *)
  pose proof (valid_finite_bounds false m e V) as [_ [Her _]].
  pose proof (valid_finite_bounds false mi ei VI) as [_ [Hei' _]].
  pose proof (valid_finite_bounds false mp ep VM) as [_ [Hep' _]].
  pose proof (rank_ge_mag m e Her) as Lr.
  pose proof (rank_lt_mag mi ei Hei') as UI.
  pose proof (rank_ge_mag mi ei Hei') as LI.
  pose proof (finite_units_bound false m e V) as [Pr _].
  pose proof (finite_units_bound false mi ei VI) as [Pi _].
  pose proof (finite_units_bound false mp ep VM) as [Pm _].
  pose proof (finite_units_bound false mf ef Vf) as [Pf _].
  cbn [rank cond_Zopp] in *.
  remember (Zpos m * 2 ^ (e + 1074)) as rho eqn:Erho.
  remember (Zpos mi * 2 ^ (ei + 1074)) as RI eqn:ERI.
  remember (Zpos mp * 2 ^ (ep + 1074)) as RM eqn:ERM.
  remember (Zpos mf * 2 ^ (ef + 1074)) as RF eqn:ERF.
  remember (rank oS) as RS eqn:ERS. remember (rank oP) as RP eqn:ERP.
  assert (Lrho : 2 ^ 173 <= rho).
  { apply Z.le_trans with (2 ^ (mag m e - 1 + 1074)); [|exact Lr].
    apply Z.pow_le_mono_r; lia. }
  assert (UI' : RI < 2 ^ 2041).
  { apply Z.lt_le_trans with (2 ^ (mag mi ei + 1074)); [exact UI|].
    apply Z.pow_le_mono_r; lia. }
  assert (LI' : 2 ^ 174 <= RI).
  { apply Z.le_trans with (2 ^ (mag mi ei - 1 + 1074)); [|exact LI].
    apply Z.pow_le_mono_r; lia. }
  assert (BsU : start * 2 ^ 1074 <= 2 ^ 63 * 2 ^ 1074)
    by (apply Z.mul_le_mono_nonneg_r; lia).
  assert (BpU : stop * 2 ^ 1074 <= 2 ^ 63 * 2 ^ 1074)
    by (apply Z.mul_le_mono_nonneg_r; lia).
  assert (BfU : f * 2 ^ 1074 <= 2 ^ 63 * 2 ^ 1074)
    by (apply Z.mul_le_mono_nonneg_r; lia).
  assert (PsU : 0 <= start * 2 ^ 1074) by (apply Z.mul_nonneg_nonneg; lia).
  assert (PpU : 0 <= stop * 2 ^ 1074) by (apply Z.mul_nonneg_nonneg; lia).
  assert (E1137 : 2 ^ 63 * 2 ^ 1074 = 2 ^ 1137)
    by (rewrite <- Z.pow_add_r by lia; reflexivity).
  assert (L1137 : 8 * 2 ^ 1137 <= 2 ^ 2041).
  { change 8 with (2 ^ 3). rewrite <- Z.pow_add_r by lia.
    apply Z.pow_le_mono_r; lia. }
  assert (E2097 : 2 ^ 2097 = 2 ^ 56 * 2 ^ 2041)
    by (rewrite <- Z.pow_add_r by lia; reflexivity).
  assert (P2041 : 0 < 2 ^ 2041) by (apply Z.pow_pos_nonneg; lia).
  assert (BS : RS <= 2 * 2 ^ 1137).
  { rewrite <- E1137. destruct NearS as [N1 _].
    change (2 ^ 53) with 9007199254740992 in N1. lia. }
  assert (BP : RP <= 2 * 2 ^ 1137).
  { rewrite <- E1137. destruct NearP as [N1 _].
    change (2 ^ 53) with 9007199254740992 in N1. lia. }
  (* the sum *)
  pose proof (add_rounds (S754_finite false mi ei) oS VI VS eq_refl FS eq_refl NnS)
    as Ra.
  cbn [rank cond_Zopp] in Ra. rewrite <- ERI, <- ERS in Ra.
  destruct (rounds_near _ _ Ra) as (Fa & Pa & NearA).
  { change (2 ^ 56) with 72057594037927936 in E2097. lia. }
  pose proof (add_valid (S754_finite false mi ei) oS VI VS) as Va.
  remember (add (S754_finite false mi ei) oS) as a eqn:Ea. clear Ea Ra.
  assert (LA : 2 ^ 173 <= rank a).
  { destruct NearA as [_ N2].
    assert (2 ^ 174 = 2 * 2 ^ 173)
      by (rewrite <- (Z.pow_succ_r 2 173) by lia; reflexivity).
    assert (0 < 2 ^ 173) by (apply Z.pow_pos_nonneg; lia).
    change (2 ^ 53) with 9007199254740992 in N2. lia. }
  assert (BA : rank a <= 4 * 2 ^ 2041).
  { destruct NearA as [N1 _].
    change (2 ^ 53) with 9007199254740992 in N1. lia. }
  assert (GA : exists ka ga, rank a = ka * 2 ^ ga /\ 120 <= ga).
  { assert (P173 : 0 < 2 ^ 173) by (apply Z.pow_pos_nonneg; lia).
    destruct a as [sa|sa| |sa ma ea]; try discriminate; cbn [rank] in LA; try lia.
    pose proof (valid_finite_bounds sa ma ea Va) as [Da [Hea _]].
    pose proof (digits2_pos_bounds ma) as [_ Dm].
    destruct sa; cbn [cond_Zopp] in LA.
    - pose proof (finite_units_bound true ma ea Va). lia.
    - exists (Zpos ma), (ea + 1074). cbn [rank cond_Zopp]. split; [reflexivity|].
      assert (D53 : Zpos ma < 2 ^ 53).
      { apply Z.lt_le_trans with (2 ^ Zpos (digits2_pos ma)); [exact Dm|].
        apply Z.pow_le_mono_r; lia. }
      assert (Pe : 0 < 2 ^ (ea + 1074)) by (apply Z.pow_pos_nonneg; lia).
      assert (C : 2 ^ 173 < 2 ^ (53 + (ea + 1074))).
      { rewrite (Z.pow_add_r 2 53 (ea + 1074)) by lia.
        apply Z.le_lt_trans with (Zpos ma * 2 ^ (ea + 1074)); [exact LA|].
        apply Z.mul_lt_mono_pos_r; assumption. }
      apply Z.pow_lt_mono_r_iff in C; lia. }
  destruct GA as (ka & ga & Eka & Hga).
  (* the difference *)
  pose proof (sub_rounds_signed a oP Va VP Fa FP) as Rd.
  rewrite <- ERP in Rd.
  destruct (rounds_signed_near _ _ Rd) as [Fd Nd].
  { change (2 ^ 56) with 72057594037927936 in E2097. lia. }
  pose proof (sub_valid a oP Va VP) as Vd.
  assert (Hmag : forall s md ed, sub a oP = S754_finite s md ed ->
                                 -1020 <= mag md ed - mag mp ep <= 969).
  { intros s md ed Ed'. rewrite Ed' in Nd, Vd.
    pose proof (valid_finite_bounds s md ed Vd) as [_ [Hed _]].
    pose proof (finite_units_bound s md ed Vd) as [Pd _].
    remember (Zpos md * 2 ^ (ed + 1074)) as X eqn:EX.
    assert (EX' : Z.abs (rank (S754_finite s md ed)) = X)
      by (cbn [rank]; destruct s; cbn [cond_Zopp]; rewrite <- EX; lia).
    assert (NX : (2 ^ 53 - 1) * Z.abs (Z.abs (rank (S754_finite s md ed))
                                       - Z.abs (rank a - RP))
                 <= Z.abs (rank a - RP)).
    { change (2 ^ 53) with 9007199254740992 in *. lia. }
    rewrite EX' in NX.
    assert (Rnz : rank a - RP <> 0).
    { intros E0. rewrite E0 in NX. change (2 ^ 53) with 9007199254740992 in NX.
      lia. }
    assert (G120 : 2 ^ 120 <= Z.abs (rank a - RP)).
    { rewrite Eka, EkP in *. apply multiples_apart; [lia | lia | lia | exact Rnz]. }
    assert (LX : 2 ^ 119 <= X).
    { assert (2 ^ 120 = 2 * 2 ^ 119)
        by (rewrite <- (Z.pow_succ_r 2 119) by lia; reflexivity).
      assert (0 < 2 ^ 119) by (apply Z.pow_pos_nonneg; lia).
      change (2 ^ 53) with 9007199254740992 in NX. lia. }
    split.
    - (* the quotient is not too small *)
      assert (BM : RM <= 2 ^ 54 * 2 ^ 1074).
      { destruct NearM as [N1 _]. destruct NearF as [N2 _].
        replace (RM * (1000 * 2 ^ 1074)) with (RM * 1000 * 2 ^ 1074) in N1 by ring.
        rewrite !Z.mul_assoc in N1.
        apply Z.mul_le_mono_pos_r in N1; [|exact PU].
        remember (2 ^ 1074) as U.
        change (2 ^ 53) with 9007199254740992 in *.
        change (2 ^ 54) with 18014398509481984.
        rewrite H63 in BfU. lia. }
      assert (E1128 : 2 ^ 54 * 2 ^ 1074 = 2 ^ 1009 * 2 ^ 119)
        by (rewrite <- !Z.pow_add_r by lia; reflexivity).
      assert (C : RM <= 2 ^ 1009 * X).
      { apply Z.le_trans with (2 ^ 1009 * 2 ^ 119); [lia|].
        apply Z.mul_le_mono_nonneg_l; [apply Z.pow_nonneg; lia | exact LX]. }
      rewrite ERM, EX in C.
      pose proof (mag_diff_le mp ep md ed 1009 Hep' Hed ltac:(lia) C). lia.
    - (* nor too large *)
      assert (Q1 : RF <= 1001 * RM).
      { destruct NearM as [_ N1].
        replace (RM * (1000 * 2 ^ 1074)) with (RM * 1000 * 2 ^ 1074) in N1 by ring.
        rewrite !Z.mul_assoc in N1.
        apply Z.mul_le_mono_pos_r in N1; [|exact PU].
        change (2 ^ 53) with 9007199254740992 in *. lia. }
      assert (E1074 : 2 ^ 1074 = 2 ^ 901 * 2 ^ 173)
        by (rewrite <- Z.pow_add_r by lia; reflexivity).
      assert (P901 : 0 < 2 ^ 901) by (apply Z.pow_pos_nonneg; lia).
      assert (L77 : 2 ^ 77 <= 2 ^ 901) by (apply Z.pow_le_mono_r; lia).
      assert (E914 : 2 ^ 914 = 8192 * 2 ^ 901)
        by (change 8192 with (2 ^ 13); rewrite <- Z.pow_add_r by lia; reflexivity).
      assert (Q3 : RI <= 1002 * (2 ^ 901 * RM)).
      { apply Z.mul_le_mono_pos_r with rho; [lia|].
        destruct NearI as [N1 _].
        assert (N2 : RF * 2 ^ 1074 <= 1001 * RM * 2 ^ 1074)
          by (apply Z.mul_le_mono_nonneg_r; lia).
        assert (N3 : RM * 2 ^ 1074 <= RM * (2 ^ 901 * rho)).
        { apply Z.mul_le_mono_nonneg_l; [lia|]. rewrite E1074.
          apply Z.mul_le_mono_nonneg_l; lia. }
        assert (N4 : 0 <= RM * (2 ^ 901 * rho)).
        { apply Z.mul_nonneg_nonneg; [apply Z.lt_le_incl; exact Pm|].
          apply Z.mul_nonneg_nonneg; apply Z.lt_le_incl; assumption. }
        replace (1002 * (2 ^ 901 * RM) * rho) with (1002 * (RM * (2 ^ 901 * rho)))
          by ring.
        replace (1001 * RM * 2 ^ 1074) with (1001 * (RM * 2 ^ 1074)) in N2 by ring.
        remember (RI * rho) as p1. remember (RF * 2 ^ 1074) as p2.
        remember (RM * 2 ^ 1074) as p3. remember (RM * (2 ^ 901 * rho)) as p4.
        change (2 ^ 53) with 9007199254740992 in N1. lia. }
      assert (Q4 : 12 * 2 ^ 1137 <= 2 ^ 901 * RM).
      { rewrite <- E1137.
        apply Z.le_trans with (2 ^ 77 * RM);
          [|apply Z.mul_le_mono_nonneg_r; lia].
        remember (2 ^ 1074) as U.
        change (2 ^ 77) with 151115727451828646838272. rewrite H63. lia. }
      assert (Q5 : X <= 4 * RI + 12 * 2 ^ 1137).
      { destruct NearA as [N1 _].
        remember (2 ^ 1137) as W.
        change (2 ^ 53) with 9007199254740992 in *. lia. }
      assert (C : X <= 2 ^ 914 * RM).
      { rewrite E914. replace (8192 * 2 ^ 901 * RM) with (8192 * (2 ^ 901 * RM)) by ring.
        assert (0 <= 2 ^ 901 * RM) by (apply Z.mul_nonneg_nonneg; lia).
        remember (2 ^ 901 * RM) as WM. remember (2 ^ 1137) as W. lia. }
      rewrite ERM, EX in C.
      pose proof (mag_diff_le md ed mp ep 914 Hed Hep' ltac:(lia) C). lia. }
  destruct (div_signed_near (sub a oP) mp ep Vd Fd VM Hmag) as [Fw Nw].
  split; [exact Fw|].
  clear Hmag GeF Lr UI LI Lrho UI' LI' BsU BpU BfU E1137 L1137 E2097 P2041 BS BP
        LA BA Eka Hga EkP HgP Rd Fd Vd Fw Fa Va Mf MI MM Hei Hep Her Hei' Hep'.
  remember (rank (div (sub a oP) (S754_finite false mp ep))) as Rw eqn:ERw.
  remember (rank (sub a oP)) as RD eqn:ERD. remember (rank a) as RA eqn:ERA.
  cbn [rank cond_Zopp] in Nw. rewrite <- ERM in Nw.
  remember (2 ^ 1074) as U eqn:EU.
  clear ERw ERD ERA ERS ERP ERM ERF ERI Erho EU.
  assert (NearM' : near (2 ^ 53) (2 ^ 53 - 1) (RM * 1000) RF).
  { apply (near_cancel _ _ _ _ U PU).
    replace (RM * 1000 * U) with (RM * (1000 * U)) by ring. exact NearM. }
  assert (PfU : 0 <= f * U) by (apply Z.mul_nonneg_nonneg; lia).
  assert (PRF : 0 <= RF) by lia.
  assert (PRM : 0 <= RM * 1000) by lia.
  assert (PUr : 0 <= U * rho) by (apply Z.mul_nonneg_nonneg; lia).
  assert (PUU : 0 <= U * U) by (apply Z.mul_nonneg_nonneg; lia).
  assert (PU0 : 0 <= U) by lia.
  pose proof (near_error_pos _ _ PRF PfU NearF) as ErrF.
  pose proof (near_error_pos _ _ PRM PRF NearM') as ErrM.
  (* everything in units of [U * rho] *)
  pose proof (scale_error _ _ (Rw * rho) ErrF) as E32.
  pose proof (scale_error _ _ (Rw * rho) ErrM) as E12.
  pose proof (scale_error _ _ (1000 * rho) Nw) as E1z.
  pose proof (scale_error _ _ (U * rho) Nd) as Ez.
  pose proof (near_scale _ _ _ _ (U * rho) PUr NearA)
    as Eza.
  pose proof (near_scale _ _ _ _ U PU0 NearI) as Ezi.
  pose proof (near_scale _ _ _ _ (U * U) PUU NearF)
    as Ezf.
  pose proof (near_scale _ _ _ _ (U * rho) PUr NearS)
    as Ezs.
  pose proof (near_scale _ _ _ _ (U * rho) PUr NearP)
    as Ezp.
  apply Z.mul_le_mono_pos_r with U; [exact PU|].
  match goal with
  | |- ?k * Z.abs ?X * U <= _ =>
      replace (k * Z.abs X * U) with (k * Z.abs (X * U))
        by (rewrite Z.abs_mul, (Z.abs_eq U) by lia; ring)
  end.
  assert (Ptf : 0 <= f * U * U * U) by (repeat apply Z.mul_nonneg_nonneg; lia).
  assert (Pts : 0 <= start * U * U * rho) by (repeat apply Z.mul_nonneg_nonneg; lia).
  assert (Ptp : start * U * U * rho <= stop * U * U * rho).
  { repeat apply Z.mul_le_mono_nonneg_r; lia. }
  assert (Eus : f * us * rho * U * U
                = 1000000 * (stop * U * U * rho - start * U * U * rho)).
  { rewrite <- Ed. ring. }
  replace ((f * (1000 * rho) * Rw - f * (1000000 * U - us * rho) * U) * U)
    with (1000 * (Rw * rho * (f * U))
          - (1000000 * (f * U * U * U) - f * us * rho * U * U)) by ring.
  replace ((f * (1000000 * U + us * rho) + 2000000 * start * rho) * U * U)
    with (1000000 * (f * U * U * U) + f * us * rho * U * U
          + 2000000 * (start * U * U * rho)) by ring.
  rewrite Eus.
  replace (RF * (Rw * rho)) with (Rw * rho * RF) in * by ring.
  replace (f * U * (Rw * rho)) with (Rw * rho * (f * U)) in * by ring.
  replace (RM * 1000 * (Rw * rho)) with (Rw * RM * (1000 * rho)) in * by ring.
  replace (RD * U * (1000 * rho)) with (1000 * (RD * (U * rho))) in * by ring.
  replace ((RA - RP) * (U * rho)) with (RA * (U * rho) - RP * (U * rho)) in * by ring.
  replace ((RI + RS) * (U * rho)) with (RI * rho * U + RS * (U * rho)) in * by ring.
  replace (f * U * (U * U)) with (f * U * U * U) in * by ring.
  replace (start * U * (U * rho)) with (start * U * U * rho) in * by ring.
  replace (stop * U * (U * rho)) with (stop * U * U * rho) in * by ring.
  replace (RF * (U * U)) with (RF * U * U) in * by ring.
  apply (remaining_error_total _ (RD * (U * rho))); try assumption.
  - apply (remaining_error_quotient _ (Rw * rho * RF) (Rw * RM * (1000 * rho)));
      assumption.
  - apply (remaining_error_difference _ (RA * (U * rho)) (RP * (U * rho))
             (RI * rho * U) (RS * (U * rho)) (RF * U * U)); assumption.
Qed.

(** ** C7: the variants against each other *)

(** C7, counterexample.  The same calls with the same clock reads, a
    rate of 10^6/13 and a stop 13 microseconds after the start:
    [IntervalHasElapsed()] is false in the POSIX branch and true in
    PerformanceTimer11.  The stored interval [1/r] lies just above
    13 microseconds; the POSIX branch compares it with 13/10^6 s, while
    PerformanceTimer11 compares 13000 ns with the interval times 10^9,
    which rounds to 13000. *)
Lemma C7_counterexample_interval_test_differs :
  let calls := [CallSetInterval rate_13us; CallStart 0; CallStop 13] in
  valid rate_13us = true /\
  exists p c,
    run (posix98_step Release) (map (map_call posix98_clock) calls)
        Posix98.PerformanceTimer98 = Done p /\
    run (timer11_step Release) (map (map_call timer11_clock) calls)
        Timer11.PerformanceTimer11 = Done c /\
    Posix98.GetInterval p = Timer11.GetInterval c /\
    Posix98.IntervalHasElapsed p = false /\
    Timer11.IntervalHasElapsed c = true.
Proof.
  cbv zeta. split; [reflexivity|].
  eexists. eexists. split; [reflexivity|]. split; [reflexivity|].
  repeat split; vm_compute; reflexivity.
Qed.

(** What differs besides the test of the interval.  With the clocks of
    a time given in microseconds and the default rate, 16348951
    microseconds after the start, [GetElapsed()] and [GetRemaining()]
    of the POSIX branch and of PerformanceTimer11 are one unit in the
    last place apart.  At a rate of 7 and 10 MHz [GetInterval()] on
    Windows is not the [double] of the two other variants.  And with a
    counter that has reached 2^52 ticks, [GetRemaining()] right after
    [Start()] is 16.6667 ms on Windows, where the interval in ticks is
    added to the counter and rounded, against 16.666666666666668 ms in
    the two other variants: a relative difference above 2^-20, small
    only against the counter reading. *)
Lemma C7_other_results_differ :
  (let calls := [CallStart 0; CallStop 16348951] in
   exists p c,
     run (posix98_step Release) (map (map_call posix98_clock) calls)
         Posix98.PerformanceTimer98 = Done p /\
     run (timer11_step Release) (map (map_call timer11_clock) calls)
         Timer11.PerformanceTimer11 = Done c /\
     Posix98.GetElapsed p = S754_finite false 8987930863220032 (-39) /\
     Timer11.GetElapsed c = S754_finite false 8987930863220031 (-39) /\
     Posix98.GetRemaining p = S754_finite true 8978768266321899 (-39) /\
     Timer11.GetRemaining c = S754_finite true 8978768266321898 (-39)) /\
  (let calls := [CallSetInterval (of_Z 7)] in
   exists w p,
     run (win98_step Release) (map (map_call (win98_clock 10000000)) calls)
         (Win98.PerformanceTimer98 (Win98.mkQuery true 10000000)) = Done w /\
     run (posix98_step Release) (map (map_call posix98_clock) calls)
         Posix98.PerformanceTimer98 = Done p /\
     eqb (Win98.GetInterval w) (Posix98.GetInterval p) = false) /\
  (let calls := [CallStart 450359962737050] in
   exists w p,
     run (win98_step Release) (map (map_call (win98_clock 10000000)) calls)
         (Win98.PerformanceTimer98 (Win98.mkQuery true 10000000)) = Done w /\
     run (posix98_step Release) (map (map_call posix98_clock) calls)
         Posix98.PerformanceTimer98 = Done p /\
     Win98.GetRemaining w = S754_finite false 4691258994343490 (-48) /\
     Posix98.GetRemaining p = S754_finite false 4691249611844267 (-48) /\
     rank (Posix98.GetRemaining p)
     < 2 ^ 20 * Z.abs (rank (Win98.GetRemaining w) - rank (Posix98.GetRemaining p))).
Proof.
  cbv zeta. split; [|split].
  - eexists. eexists. split; [reflexivity|]. split; [reflexivity|].
    repeat split; vm_compute; reflexivity.
  - eexists. eexists. split; [reflexivity|]. split; [reflexivity|].
    vm_compute. reflexivity.
  - eexists. eexists. split; [reflexivity|]. split; [reflexivity|].
    repeat split; vm_compute; reflexivity.
Qed.

(** C7, amended.  Under a common abstraction of the clock reads the
    three variants run in lock step with the timer of the
    specification: after any sequence of calls, either all of them have
    failed the same assertion, or each holds the representation of the
    same specified state: the same rate and the same two instants, each
    in the unit of its clock (on Windows after a successful frequency
    query; for the results below, of a positive frequency).  In these
    states [IsSupportedPlatform()] is true everywhere
    and [GetInterval()] is the same [double] in the POSIX branch and in
    PerformanceTimer11.

    The other results agree up to the roundings of the different
    expressions.  When the three clocks have measured the same time
    [us] (in microseconds):
    - each [GetElapsed()] is [us / 1000] up to a relative error of
      2^-50, and those of Windows and of the POSIX branch are within
      2^-48 of the one of PerformanceTimer11;
    and for a rate [r] with 2^-901 <= |r| < 2^900:
    - [GetInterval()] on Windows is within 2^-50 of the [double] of the
      two other variants;
    - [GetRemaining()] of the POSIX branch and of PerformanceTimer11
      differ by at most 2^-48 of the elapsed time plus the remaining
      time;
    - for a positive rate [GetRemaining()] is the exact remaining time,
      [1000 / rate - us / 1000] ms, up to 2^-48 of the interval plus
      the elapsed time in the POSIX branch and in PerformanceTimer11;
      on Windows, which adds the interval to the counter reading and
      rounds the sum, up to 2^-48 of the interval plus the elapsed time
      plus twice the counter reading of [Start()] in milliseconds
      (counter readings not negative);
    - [IntervalHasElapsed()] is true in all three when the measured
      time is at least the exact [1 / rate] seconds plus a relative
      2^-50, false in all three when it is at most [1 / rate] minus a
      relative 2^-50, and true in all three for a negative rate.
    [rank] is the exact value of a [double] in units of 2^-1074. *)
Theorem C7_variants_agree_up_to_rounding
  (A : Type) (readW : A -> Z) (readP : A -> Posix98.timeval) (read11 : A -> Z)
  (q : Win98.frequency_query) (Hq : Win98.qpf_ok q = true) :
  (forall b cs,
      run (win98_step b) (map (map_call readW) cs) (Win98.PerformanceTimer98 q)
      = outcome_map (repr_win98 q readW)
          (run (IntervalTimer.step b) cs IntervalTimer.init) /\
      run (posix98_step b) (map (map_call readP) cs) Posix98.PerformanceTimer98
      = outcome_map (repr_posix98 readP)
          (run (IntervalTimer.step b) cs IntervalTimer.init) /\
      run (timer11_step b) (map (map_call read11) cs) Timer11.PerformanceTimer11
      = outcome_map (repr_timer11 read11)
          (run (IntervalTimer.step b) cs IntervalTimer.init)) /\
  (forall s : IntervalTimer.timer A,
      Win98.IsSupportedPlatform (repr_win98 q readW s) = true /\
      Posix98.IsSupportedPlatform (repr_posix98 readP s) = true /\
      Timer11.IsSupportedPlatform (repr_timer11 read11 s) = true /\
      Posix98.GetInterval (repr_posix98 readP s) = IntervalTimer.interval s /\
      Timer11.GetInterval (repr_timer11 read11 s) = IntervalTimer.interval s) /\
  (forall (s : IntervalTimer.timer A) (us : Z),
      0 < Win98.qpf_value q <= Int64.max_signed ->
      same_elapsed (Win98.qpf_value q) (repr_win98 q readW s)
                   (repr_posix98 readP s) (repr_timer11 read11 s) us ->
      (approximates (Win98.GetElapsed (repr_win98 q readW s)) us 1000 /\
       approximates (Posix98.GetElapsed (repr_posix98 readP s)) us 1000 /\
       approximates (Timer11.GetElapsed (repr_timer11 read11 s)) us 1000 /\
       2 ^ 48 * Z.abs (rank (Win98.GetElapsed (repr_win98 q readW s))
                       - rank (Timer11.GetElapsed (repr_timer11 read11 s)))
       <= rank (Timer11.GetElapsed (repr_timer11 read11 s)) /\
       2 ^ 48 * Z.abs (rank (Posix98.GetElapsed (repr_posix98 readP s))
                       - rank (Timer11.GetElapsed (repr_timer11 read11 s)))
       <= rank (Timer11.GetElapsed (repr_timer11 read11 s))) /\
      (forall sr m e,
          IntervalTimer.rate s = S754_finite sr m e ->
          valid (IntervalTimer.rate s) = true -> -900 <= mag m e <= 900 ->
          close (Win98.GetInterval (repr_win98 q readW s))
                (Posix98.GetInterval (repr_posix98 readP s)) /\
          2 ^ 48 * Z.abs (rank (Posix98.GetRemaining (repr_posix98 readP s))
                          - rank (Timer11.GetRemaining (repr_timer11 read11 s)))
          <= rank (Timer11.GetElapsed (repr_timer11 read11 s))
             + Z.abs (rank (Timer11.GetRemaining (repr_timer11 read11 s))) /\
          (sr = false ->
           (2 ^ 50 + 1) * (1000000 * 2 ^ 1074)
           <= 2 ^ 50 * (us * rank (IntervalTimer.rate s)) ->
           Win98.IntervalHasElapsed (repr_win98 q readW s) = true /\
           Posix98.IntervalHasElapsed (repr_posix98 readP s) = true /\
           Timer11.IntervalHasElapsed (repr_timer11 read11 s) = true) /\
          (sr = false ->
           2 ^ 50 * (us * rank (IntervalTimer.rate s))
           <= (2 ^ 50 - 1) * (1000000 * 2 ^ 1074) ->
           Win98.IntervalHasElapsed (repr_win98 q readW s) = false /\
           Posix98.IntervalHasElapsed (repr_posix98 readP s) = false /\
           Timer11.IntervalHasElapsed (repr_timer11 read11 s) = false) /\
          (sr = true ->
           Win98.IntervalHasElapsed (repr_win98 q readW s) = true /\
           Posix98.IntervalHasElapsed (repr_posix98 readP s) = true /\
           Timer11.IntervalHasElapsed (repr_timer11 read11 s) = true) /\
          (sr = false ->
           approximates_within (Posix98.GetRemaining (repr_posix98 readP s))
             (1000000 * 2 ^ 1074 - us * rank (IntervalTimer.rate s))
             (1000 * rank (IntervalTimer.rate s))
             (1000000 * 2 ^ 1074 + us * rank (IntervalTimer.rate s)) /\
           approximates_within (Timer11.GetRemaining (repr_timer11 read11 s))
             (1000000 * 2 ^ 1074 - us * rank (IntervalTimer.rate s))
             (1000 * rank (IntervalTimer.rate s))
             (1000000 * 2 ^ 1074 + us * rank (IntervalTimer.rate s)) /\
           (0 <= Win98.m_startTime (repr_win98 q readW s) ->
            Win98.m_stopTime (repr_win98 q readW s) <= Int64.max_signed ->
            approximates_within (Win98.GetRemaining (repr_win98 q readW s))
              (Win98.qpf_value q
               * (1000000 * 2 ^ 1074 - us * rank (IntervalTimer.rate s)))
              (Win98.qpf_value q * (1000 * rank (IntervalTimer.rate s)))
              (Win98.qpf_value q
               * (1000000 * 2 ^ 1074 + us * rank (IntervalTimer.rate s))
               + 2000000 * Win98.m_startTime (repr_win98 q readW s)
                 * rank (IntervalTimer.rate s)))))).
Proof.
  split; [|split].
  - intros b cs. rewrite !run_map_call. split; [|split].
    + change (Win98.PerformanceTimer98 q)
        with (repr_win98 q readW (@IntervalTimer.init A)).
      apply run_outcome_map. intros c t. apply win98_step_repr. exact Hq.
    + change Posix98.PerformanceTimer98
        with (repr_posix98 readP (@IntervalTimer.init A)).
      apply run_outcome_map. intros c t. apply posix98_step_repr.
    + change Timer11.PerformanceTimer11
        with (repr_timer11 read11 (@IntervalTimer.init A)).
      apply run_outcome_map. intros c t. apply timer11_step_repr.
  - intros s. repeat split. exact Hq.
  - intros s us Hf (Hs & He & Hle & Eus & Ec & Hc & Ew & Hw).
    pose proof (repr_win98_calibrated q readW s Hq Hf) as Hcal.
    remember (repr_win98 q readW s) as w eqn:Ew0.
    remember (repr_timer11 read11 s) as c eqn:Ec0.
    assert (Ep0 : repr_posix98 readP s
                  = Posix98.mkTimer (Posix98.m_startTime (repr_posix98 readP s))
                      (Posix98.m_stopTime (repr_posix98 readP s))
                      (IntervalTimer.interval s)) by reflexivity.
    remember (Posix98.m_startTime (repr_posix98 readP s)) as start eqn:Estart.
    remember (Posix98.m_stopTime (repr_posix98 readP s)) as stop eqn:Estop.
    rewrite Ep0. clear Ep0.
    assert (Hus : 0 <= us)
      by (pose proof (tv_le_microseconds start stop Hs He Hle); lia).
    assert (Hsec : Posix98.tv_sec stop - Posix98.tv_sec start < 2 ^ 43).
    { unfold microseconds, Int64.max_signed in *.
      destruct Hs as [_ Hsu]. destruct He as [_ Heu].
      change (2 ^ 63) with 9223372036854775808 in *.
      change (2 ^ 43) with 8796093022208. lia. }
    assert (Hfw : Win98.m_perSecond w = Win98.qpf_value q) by (subst w; reflexivity).
    assert (Hticks : 0 <= Win98.m_stopTime w - Win98.m_startTime w) by nia.
    assert (Aw : approximates (Win98.GetElapsed w) us 1000).
    { apply (approximates_ticks _ (Win98.qpf_value q)
               (Win98.m_stopTime w - Win98.m_startTime w)); [lia | exact Ew|].
      unfold Win98.GetElapsed. rewrite Int64_sub_small by lia.
      rewrite <- Hfw. apply Win98_elapsed_accurate; [exact Hcal | lia]. }
    assert (Ap : approximates
                   (Posix98.GetElapsed
                      (Posix98.mkTimer start stop (IntervalTimer.interval s)))
                   us 1000).
    { rewrite <- Eus. apply Posix98_elapsed_accurate; assumption. }
    assert (EGc : Timer11.GetElapsed c = div (of_Z (1000 * us)) (of_Z 1000000)).
    { rewrite Timer11_GetElapsed_eq, Int64_sub_small by lia. rewrite Ec.
      reflexivity. }
    assert (Ac : approximates (Timer11.GetElapsed c) us 1000).
    { apply approximates_nanoseconds. rewrite EGc.
      apply Timer11_elapsed_accurate. lia. }
    split.
    { split; [exact Aw|]. split; [exact Ap|]. split; [exact Ac|].
      split; eapply approximates_pair; eassumption. }
    intros sr m e Er Vr Mr.
    assert (EIw : Win98.m_interval w
                  = div (of_Z (Win98.m_perSecond w)) (S754_finite sr m e))
      by (subst w; cbn [repr_win98 Win98.m_interval Win98.m_perSecond];
          rewrite Er; reflexivity).
    assert (EIc : Timer11.m_interval c = div (of_Z 1) (S754_finite sr m e))
      by (subst c; cbn [repr_timer11 Timer11.m_interval];
          unfold IntervalTimer.interval; rewrite Er; reflexivity).
    assert (EIs : IntervalTimer.interval s = div (of_Z 1) (S754_finite sr m e))
      by (unfold IntervalTimer.interval; rewrite Er; reflexivity).
    rewrite Er in Vr. rewrite Er.
    split; [|split; [|split; [|split; [|split]]]].
    + unfold Win98.GetInterval, Posix98.GetInterval.
      cbn [Posix98.m_interval]. rewrite EIw, EIs.
      apply Win98_set_get_close; assumption.
    + unfold Posix98.GetRemaining at 1. cbn [Posix98.m_interval].
      rewrite Timer11_GetRemaining_eq, <- Timer11_GetElapsed_eq, EIc, EIs.
      destruct (interval_milliseconds sr m e Vr Mr) as (Vc & Fc & Bc).
      apply (remaining_close _ _ _ us); try assumption.
      * intros _. exact Bc.
      * apply add_valid; [apply mul_valid; apply of_Z_valid | apply div_valid].
      * rewrite EGc. apply div_valid.
      * unfold Int64.max_signed in Hc.
        apply Z.le_lt_trans with (2 ^ 63 * 2 ^ 1074).
        -- apply Z.mul_le_mono_nonneg_r; [apply Z.pow_nonneg; lia|].
           change (2 ^ 63) with 9223372036854775808 in *. lia.
        -- rewrite <- Z.pow_add_r by lia. apply Z.pow_lt_mono_r; lia.
    + intros -> Hm. rewrite EIs. split; [|split].
      * apply (proj1 (Win98_test_against_rate m e w us Vr Mr
                        ltac:(rewrite Hfw; exact Hf) EIw
                        ltac:(rewrite Hfw; exact Ew) Hus Hw)). exact Hm.
      * apply (proj1 (Posix98_test_against_rate m e start stop Vr Mr Hs He Hle Hsec)).
        rewrite Eus. exact Hm.
      * apply (proj1 (Timer11_test_against_rate m e c us Vr Mr EIc Ec Hus Hc)).
        exact Hm.
    + intros -> Hm. rewrite EIs. split; [|split].
      * apply (proj2 (Win98_test_against_rate m e w us Vr Mr
                        ltac:(rewrite Hfw; exact Hf) EIw
                        ltac:(rewrite Hfw; exact Ew) Hus Hw)). exact Hm.
      * apply (proj2 (Posix98_test_against_rate m e start stop Vr Mr Hs He Hle Hsec)).
        rewrite Eus. exact Hm.
      * apply (proj2 (Timer11_test_against_rate m e c us Vr Mr EIc Ec Hus Hc)).
        exact Hm.
    + intros ->. rewrite EIs. split; [|split].
      * apply (Win98_test_negative_rate m e w); [rewrite Hfw; exact Hf | exact EIw | lia].
      * apply Posix98_test_negative_rate; assumption.
      * apply (Timer11_test_negative_rate m e c); [exact EIc | lia].
    + intros ->. split; [|split].
      * unfold Posix98.GetRemaining. cbn [Posix98.m_interval]. rewrite EIs.
        apply remaining_accurate; try assumption.
        -- apply add_valid; [apply mul_valid; apply of_Z_valid | apply div_valid].
        -- unfold Int64.max_signed in *. lia.
      * rewrite Timer11_GetRemaining_eq, <- Timer11_GetElapsed_eq, EIc.
        apply remaining_accurate; try assumption.
        -- rewrite EGc. apply div_valid.
        -- unfold Int64.max_signed in *. lia.
      * intros Hs0 Hs1. rewrite <- Hfw.
        apply Win98_remaining_accurate; try assumption; lia.
Qed.

Lemma C7_variants_agree_up_to_rounding_witness :
  let q := Win98.mkQuery true 10000000 in
  let cs := [CallSetInterval (of_Z 30); CallStart 5; CallStop 9] in
  let s := {| IntervalTimer.rate := of_Z 30;
              IntervalTimer.startInstant := Some 5;
              IntervalTimer.stopInstant := Some 9 |} in
  let w := repr_win98 q (win98_clock 10000000) s in
  let p := repr_posix98 posix98_clock s in
  let c := repr_timer11 timer11_clock s in
  Win98.qpf_ok q = true /\
  run (win98_step Debug) (map (map_call (win98_clock 10000000)) cs)
      (Win98.PerformanceTimer98 q) = Done w /\
  same_elapsed 10000000 w p c 4 /\
  approximates (Win98.GetElapsed w) 4 1000 /\
  approximates (Posix98.GetElapsed p) 4 1000 /\
  approximates (Timer11.GetElapsed c) 4 1000 /\
  close (Win98.GetInterval w) (Posix98.GetInterval p) /\
  Win98.IntervalHasElapsed w = false /\
  Posix98.IntervalHasElapsed p = false /\
  Timer11.IntervalHasElapsed c = false.
Proof.
  cbv zeta.
  pose proof (C7_variants_agree_up_to_rounding Z (win98_clock 10000000)
                posix98_clock timer11_clock (Win98.mkQuery true 10000000) eq_refl)
    as (L & _ & Q).
  assert (Hf : 0 < Win98.qpf_value (Win98.mkQuery true 10000000) <= Int64.max_signed)
    by (unfold Int64.max_signed; simpl; lia).
  assert (Hs : same_elapsed 10000000
                 (repr_win98 (Win98.mkQuery true 10000000) (win98_clock 10000000)
                    {| IntervalTimer.rate := of_Z 30;
                       IntervalTimer.startInstant := Some 5;
                       IntervalTimer.stopInstant := Some 9 |})
                 (repr_posix98 posix98_clock
                    {| IntervalTimer.rate := of_Z 30;
                       IntervalTimer.startInstant := Some 5;
                       IntervalTimer.stopInstant := Some 9 |})
                 (repr_timer11 timer11_clock
                    {| IntervalTimer.rate := of_Z 30;
                       IntervalTimer.startInstant := Some 5;
                       IntervalTimer.stopInstant := Some 9 |}) 4).
  { unfold same_elapsed, Posix98.well_formed, Posix98.tv_le.
    split; [repeat split; vm_compute; try reflexivity; discriminate|].
    split; [repeat split; vm_compute; try reflexivity; discriminate|].
    split; [right; split; [reflexivity | vm_compute; discriminate]|].
    split; [reflexivity|]. split; [reflexivity|].
    split; [vm_compute; discriminate|].
    split; [reflexivity | vm_compute; discriminate]. }
  destruct (Q _ 4 Hf Hs) as ((Aw & Ap & Ac & _) & R).
  destruct (R false 8444249301319680%positive (-48) eq_refl eq_refl
              ltac:(unfold mag; simpl; lia)) as (Cl & _ & _ & Lo & _).
  destruct (Lo eq_refl) as (Iw & Ip & Ic).
  { vm_compute. discriminate. }
  split; [reflexivity|].
  split; [rewrite (proj1 (L Debug [CallSetInterval (of_Z 30); CallStart 5; CallStop 9]));
          reflexivity|].
  split; [exact Hs|]. split; [exact Aw|]. split; [exact Ap|]. split; [exact Ac|].
  split; [exact Cl|]. split; [exact Iw|]. split; [exact Ip | exact Ic].
Defined.
